(* ===== verification/_CoqProject ===== *)
-Q . S2P
Prelude.v
CInt.v
CString.v
Region.v
S2dsm.v
S2dsmSteps.v
S2dsmCoherence.v
S2dsmTheorems.v
Syscalls.v
Sockets.v
Uffd.v
UffdProofs.v
Pairing.v
S2dsmPart12.v
Kernel.v
KernelModel.v
Encrypt.v
Runner.v
KdsList.v
Hashtable.v
KdsHash.v
Rbtree.v
KdsRb.v
KdsMaps.v
Kds.v
Perftop2.v
Perftop2Proofs.v
Perftop2Theorems.v
Perftop1.v
S2fs.v
