(* ===== verification/Prelude.v ===== *)
(** * The operating-systems course programs, verified

    Five assignments, each a C program or kernel module of its own under
    [src/]: (1) a system call [s2_encrypt] with its user program [runner.c],
    and a socket client and server; (2) the module [kds.c], which exercises six
    kernel data structures on the integers of a parameter; (3) user-space page
    faults: the demo [uffd.c], the pairing and paging of two processes
    ([Part 1-2/s2dsm.c]) and distributed shared memory under the MSI protocol
    ([Part 3/s2dsm.c]); (4) the profiler [perftop.c] in two parts, probes on the
    scheduler's choice of the next task with a [/proc] file; (5) the file system
    [s2fs.c].

    ** Files

    - [Prelude], [CInt], [CString]: outcomes and the state monad, machine
      integers, C strings with the [printf], [scanf], [strtok] and [strto*]
      conversions the programs use.
    - [Region]: a mapping registered with userfaultfd: pages, faults, the turn
      of [fault_handler_thread] the three programs of assignment 3 share
      ([serve_fault]), [madvise]; [PagerOk] is what a program's handler
      promises to the accesses.
    - [S2dsm] (model), [S2dsmSteps] (the responder's answers), [S2dsmCoherence]
      (the simulation), [S2dsmTheorems]: Part 3 of [s2dsm.c]; [proc] is its
      statics, [run_command] its command loop, [responder] its thread,
      [exec] a command at one of two processes.
    - [Syscalls]: programs as sequences of system calls against an unknown
      environment, with the trace of calls and output; [handler_start], how
      the three [fault_handler_thread] start, before their loop.
    - [Sockets]: [server.c] and [client.c]. [Uffd], [UffdProofs]: [uffd.c].
    - [Pairing]: [main] of [s2dsm.c] before its command loop, for Part 3 and,
      without the prefix of three messages, Parts 1 and 2; [S2dsmPart12]: the
      rest of Parts 1 and 2.
    - [Kernel]: the heap with [kmalloc] and [kfree], [printk], and a type class
      per container of the kernel; [KernelModel]: an allocator and an instance
      of each class, for the concrete runs; [Hashtable], [Rbtree]: the loops
      over buckets and trees and what they do to the nodes, shared by [kds.c]
      and [perftop.c].
    - [Encrypt]: [s2_encrypt] of [syscall.patch]; [Runner]: [runner.c], and
      [runner.c] with that system call behind it.
    - [KdsList], [KdsHash], [KdsRb], [KdsMaps] (radix tree and xarray), [Kds]
      (bitmap, conversion, [lkp_init]): [kds.c].
    - [Perftop2] (model), [Perftop2Proofs], [Perftop2Theorems]: Part 2 of
      [perftop.c]; [Perftop1]: Part 1.
    - [S2fs]: [s2fs.c], with the kernel's VFS as the class [VfsApi].

    Function names are those of the source; a definition for a part of a
    function (the body of a loop, one phase of [main]) says so above it.

    ** How the code is modelled

    A function is an action of the monad [M]: it passes its state (statics,
    memory, heap, output) and returns a value or stops with a [fault].
    Undefined behaviour is a stop: null and dangling pointers, accesses out of
    an array, overflow of [int] in user programs ([int_arith]; the kernel is
    built with wrapping arithmetic, [s32]), a division by zero, an array of no
    or a negative length, reads of uninitialised variables.  A conversion to
    [int] wraps ([s32]), as that of the page size from [sysconf].
    [Exit] is the program's own exit, [Blocked] a call that does not return.
    Loops without a structural bound have fuel, computed from the data (the
    pages of the mapping, the nodes of the chain, the bits of a number); no
    theorem has fuel in its hypotheses, and [OutOfFuel] occurs in no result,
    so each says the code ends.

    What is not in [src/] is a parameter: the environment's answers to system
    calls, the kernel's containers and VFS (classes with the documented effect
    of each operation on an observation of the contents), [kmalloc] (an address
    not in use, or 0), [copy_to_user], [copy_from_user], [getopt], the dead
    storage behind the pointer [communicateWithPeer] returns, and what a read
    of a link of a freed node gives ([freed]).  The last has two regimes, which
    the theorems name: the error it is, and memory that keeps its contents
    until it is given out again, under which the rest of the code can be
    judged.

    ** What the theorems show

    - Shared memory (Part 3), for commands on existing pages with messages the
      protocol can carry ([command_ok]) in an environment that serves faults
      and leaves the dead frame of an answer readable ([DsmEnv]): a command at
      either process does what the specification [Spec], one memory of pages,
      says, and prints the pages it says ([exec_refines_spec],
      [session_refines_spec]); at most one process
      has a page modified, and then the other has it invalid ([single_writer]);
      a read at either process after a write prints it ([read_after_write]);
      messages parse to the request printed ([request_roundtrip]), the handler
      serves page-aligned zeros ([fault_handler_spec]), and the set-up of two
      processes gives a state from which all this holds ([pairing_agrees]).
      Where it goes wrong: [null_message_lost], [peer_eof_shared],
      [fillWithInvalid_bounds], [negative_request_aliases].
    - Parts 1 and 2: set-up and session of one process against the same
      specification ([part12_session]). [uffd.c]: its whole output
      ([uffd_main_ok]), and the overflow of its offset on a region of 2^31
      bytes ([uffd_offset_overflow]).
    - Sockets: the exchange, and that a run makes all its calls, or ends at the
      first one that is checked and fails ([hello_exchange],
      [server_fails_fast], [client_fails_fast]); a failing [send] is not
      noticed.
    - [kds.c]: what each exercise logs, its effect on the heap and that
      everything is freed or what is not ([run_*_ok]); the module as a whole,
      from the string to the last exercise, under both regimes of freed memory
      ([lkp_init_ok], with the overflow of the gang lookup as its other branch,
      and [lkp_init_strict], [run_redblack_trees_use_after_free] for the use
      after free); and the conversion ([convert_roundtrip],
      [convert_bounds]).
    - [perftop.c]: Part 2 implements the maps of starts and totals
      ([profiler_refines]) and shows the ten greatest totals
      ([perftop_show_top10]); [equal_totals_lost], [switch_use_after_free] and
      [perftop_exit_leaks] are what is wrong with it; Part 1 counts as Part 2
      does ([parts_count_alike]).
    - [s2fs.c]: a mount under every failure ([fill_super_outcomes]), the shape
      of the tree ([vfs_well_formed]), reads ([read_file_spec]) and a reader's
      loop ([cat_hello]).
    - Assignment 1: the system call on every path ([s2_encrypt_spec]), and the
      user program with it ([runner_encrypts]).

    ** Bounds

    Part 3: page sizes from 2^6 to 2^24 and 1 to 99 pages, as [msi_array] has
    100 entries and one is written past the last page; Parts 1 and 2 and
    [uffd.c]: regions of up to 2^31 bytes, since offsets are [int].  The fuel of
    a loop over pages is two more than their number, of [uffd.c]'s loops one
    more than the blocks of 1024 bytes, of a walk one more than the chain.

    ** Not modelled

    Concurrency inside of a program: a thread starts where it is created; a
    command runs with its peer's responder answering and no other command, as
    the assignment allows; a fault is served at once; the probe's handlers run one at a time, so [my_lock] has no
    effect and is left out.  The texts [perror] writes, the log levels and the
    newlines of [printk] formats (a string argument of [printk], such as
    [int_str], is left out of a logged line unless the model says otherwise),
    [kfree (int_array)], module macros and tables of operations
    ([proc_ops], [file_system_type]), [single_open], registration of the file
    system and reference counts of the VFS.  [syscall/kds.c] (two [printk]) and
    [printk.patch], build files, reports and screenshots have nothing to
    verify. *)
From stdpp Require Export prelude gmap strings list sorting.

#[global] Set Default Goal Selector "!".

Declare Scope csys_scope.
Delimit Scope csys_scope with csys.

(** * Outcomes

    A run of a piece of C code either returns a value or stops.  The ways to
    stop are the undefined behaviours the code can reach ([NullDeref],
    [UseAfterFree], [OutOfBounds], [SignedOverflow], [DivByZero], [Uninit], and
    [BadArraySize] for an array of no or a negative length), the deliberate [exit (code)] of a user program, a call that never returns
    ([Blocked]) and the exhaustion of the fuel of a loop ([OutOfFuel]), which
    the termination theorems exclude. *)
Inductive fault : Type :=
  | NullDeref
  | UseAfterFree
  | OutOfBounds
  | SignedOverflow
  | DivByZero
  | BadArraySize
  | Uninit
  | Exit (code : Z)
  | Blocked
  | OutOfFuel.

Inductive outcome (A : Type) : Type :=
  | Ret (a : A)
  | Stop (f : fault).
Arguments Ret {A} a.
Arguments Stop {A} f.

#[export] Instance fault_eq_dec : EqDecision fault.
Proof. solve_decision. Defined.

#[export] Instance outcome_eq_dec {A} `{EqDecision A} : EqDecision (outcome A).
Proof. solve_decision. Defined.

(** * The state and outcome monad

    The state survives a stop, so that what the code had done (printed, sent,
    written) before an error is still visible. *)
Definition M (S A : Type) : Type := S → outcome A * S.

#[export] Instance m_ret {S} : MRet (M S) := λ A a s, (Ret a, s).

#[export] Instance m_bind {S} : MBind (M S) := λ A B f m s,
  match m s with
  | (Ret a, s') => f a s'
  | (Stop e, s') => (Stop e, s')
  end.

Definition stop {S A} (e : fault) : M S A := λ s, (Stop e, s).
Definition get {S} : M S S := λ s, (Ret s, s).
Definition put {S} (s : S) : M S unit := λ _, (Ret tt, s).
Definition modify {S} (f : S → S) : M S unit := λ s, (Ret tt, f s).
Definition gets {S A} (f : S → A) : M S A := λ s, (Ret (f s), s).

(** [check b e] stops with [e] unless [b] holds. *)
Definition check {S} (b : bool) (e : fault) : M S unit :=
  if b then mret tt else stop e.

(** An action on the first (second) component of a pair of states. *)
Definition on_fst {S T A} (m : M S A) : M (S * T) A := λ st,
  match m (fst st) with (o, s') => (o, (s', snd st)) end.
Definition on_snd {S T A} (m : M T A) : M (S * T) A := λ st,
  match m (snd st) with (o, t') => (o, (fst st, t')) end.

(** [for_each l f] runs [f] on the elements of [l] in order: the C loop
    [while (i < count) { x = a[i++]; ... }]. *)
Fixpoint for_each {S A} (l : list A) (f : A → M S unit) : M S unit :=
  match l with
  | [] => mret tt
  | x :: l' => f x;; for_each l' f
  end.

Section monad_lemmas.
Context {S A B : Type}.
Implicit Types (s : S) (m : M S A) (f : A → M S B).

Lemma bind_Ret m f a s s' : m s = (Ret a, s') → (m ≫= f) s = f a s'.
Proof. intros E. unfold mbind, m_bind. by rewrite E. Qed.

(** The same, read backwards: to run a sequence, run its first action and
    then the rest from where it ends. *)
Lemma bind_run m f a s s' r : m s = (Ret a, s') → f a s' = r → (m ≫= f) s = r.
Proof. intros E <-. by apply bind_Ret. Qed.

Lemma bind_Stop m f e s s' : m s = (Stop e, s') → (m ≫= f) s = (Stop e, s').
Proof. intros E. unfold mbind, m_bind. by rewrite E. Qed.

Lemma bind_assoc {C} m f (g : B → M S C) s :
  ((m ≫= f) ≫= g) s = (m ≫= λ a, f a ≫= g) s.
Proof. unfold mbind, m_bind. by destruct (m s) as [[a|e] s']. Qed.

Lemma check_true e s : check true e s = (Ret tt, s).
Proof. reflexivity. Qed.

Lemma check_false e s : check false e s = (Stop e, s).
Proof. reflexivity. Qed.
End monad_lemmas.

Lemma on_fst_Ret {S T A} (m : M S A) a s s' (t : T) :
  m s = (Ret a, s') → on_fst m (s, t) = (Ret a, (s', t)).
Proof. intros E. unfold on_fst. simpl. by rewrite E. Qed.

Lemma on_snd_Ret {S T A} (m : M T A) a t t' (s : S) :
  m t = (Ret a, t') → on_snd m (s, t) = (Ret a, (s, t')).
Proof. intros E. unfold on_snd. simpl. by rewrite E. Qed.

Lemma on_fst_Stop {S T A} (m : M S A) e s s' (t : T) :
  m s = (Stop e, s') → on_fst m (s, t) = (Stop e, (s', t)).
Proof. intros E. unfold on_fst. simpl. by rewrite E. Qed.

Lemma on_snd_Stop {S T A} (m : M T A) e t t' (s : S) :
  m t = (Stop e, t') → on_snd m (s, t) = (Stop e, (s, t')).
Proof. intros E. unfold on_snd. simpl. by rewrite E. Qed.

Lemma for_each_run {S A} x (l : list A) (f : A → M S unit) s s' r :
  f x s = (Ret tt, s') → for_each l f s' = r → for_each (x :: l) f s = r.
Proof. intros E <-. exact (bind_Ret _ _ _ _ _ E). Qed.

Lemma for_each_app {S A} (l1 l2 : list A) (f : A → M S unit) s :
  for_each (l1 ++ l2) f s = (for_each l1 f;; for_each l2 f) s.
Proof.
  revert s. induction l1 as [|x l1 IH]; intros s; simpl; [done|].
  unfold mbind, m_bind. destruct (f x s) as [[[]|e] s']; [|done].
  apply IH.
Qed.

(** A loop whose body maps a state reached after the prefix [l1] to the one
    reached after [l1 ++ [x]] ends in the state reached after the list. *)
Lemma for_each_inv {S A} (f : A → M S unit) (P : list A → S → Prop) (l : list A) s :
  P [] s →
  (∀ l1 x l2 s0, l = l1 ++ x :: l2 → P l1 s0 →
     ∃ s1, f x s0 = (Ret tt, s1) ∧ P (l1 ++ [x]) s1) →
  ∃ s', for_each l f s = (Ret tt, s') ∧ P l s'.
Proof.
  intros HP Hstep.
  cut (∀ l2 l1 s0, l = l1 ++ l2 → P l1 s0 →
         ∃ s', for_each l2 f s0 = (Ret tt, s') ∧ P (l1 ++ l2) s').
  { intros H. destruct (H l [] s) as (s' & ? & ?); eauto. }
  induction l2 as [|x l2 IH]; intros l1 s0 -> HP0; simpl.
  { exists s0. by rewrite app_nil_r. }
  destruct (Hstep l1 x l2 s0) as (s1 & Hf & HP1); [done..|].
  destruct (IH (l1 ++ [x]) s1) as (s' & Hl & HP').
  { by rewrite <- app_assoc. }
  { done. }
  exists s'. rewrite <- app_assoc in HP'.
  split; [|done]. by rewrite (bind_Ret _ _ _ _ _ Hf).
Qed.

(** * Automation

    [mrun H] advances the first action of the program in the goal by its
    equation [H], [mby tac] one whose equation [tac] proves, [mstep] one whose
    result is known by computation; [minto] leaves the equation of the first
    action as a goal; [mstop H] is for an action that stops. *)
Ltac munfold := unfold mbind, m_bind, mret, m_ret, gets, get, put, modify, stop.
Ltac mrun H := rewrite (bind_Ret _ _ _ _ _ H); cbv beta.
Tactic Notation "mby" tactic3(tac) := eapply bind_run; [solve [tac]|]; cbv beta; cbn [fst snd].
Ltac mstep := mby reflexivity.
Ltac minto := eapply bind_run.
Ltac mstop H := rewrite (bind_Stop _ _ _ _ _ H).
Ltac app_eq := repeat first [rewrite <- app_assoc | progress simpl]; done.
Ltac case_bool :=
  match goal with
  | |- context [if ?b then _ else _] => let E := fresh "Hb" in destruct b eqn:E
  | |- context [check ?b _] => let E := fresh "Hb" in destruct b eqn:E
  end.

Create HintDb csys discriminated.
Create Rewrite HintDb csys.

(** * Generic lemmas on lists *)
Section list_lemmas.
Context {A : Type}.
Implicit Types (l k : list A) (x : A).

Lemma take_insert_app l k i x :
  i < length l → <[i := x]> l = take i l ++ x :: drop (S i) l.
Proof. intros. by apply insert_take_drop. Qed.

Lemma filter_ne_notin `{EqDecision A} l x : x ∉ l → filter (λ y, y ≠ x) l = l.
Proof.
  induction l as [|y l IH]; intros Hx; [done|]. apply not_elem_of_cons in Hx as [Hy Hx].
  rewrite filter_cons_True by done. by rewrite IH.
Qed.

Lemma filter_ne_mid `{EqDecision A} l k x :
  NoDup (l ++ x :: k) → filter (λ y, y ≠ x) (l ++ x :: k) = l ++ k.
Proof.
  intros (_ & Hx & Hk%NoDup_cons)%NoDup_app. destruct Hk as [Hk _].
  rewrite filter_app, filter_cons_False by auto. rewrite !filter_ne_notin; [done|done|].
  intros Hl. apply (Hx x Hl). by left.
Qed.

Lemma list_filter_true (P : A → Prop) `{∀ x, Decision (P x)} l :
  (∀ x, x ∈ l → P x) → filter P l = l.
Proof.
  induction l as [|x l IH]; intros Hall; [done|]. rewrite filter_cons_True by (apply Hall; left).
  f_equal. apply IH. intros y Hy. apply Hall. by right.
Qed.

Lemma list_filter_false (P : A → Prop) `{∀ x, Decision (P x)} l :
  (∀ x, x ∈ l → ¬ P x) → filter P l = [].
Proof.
  induction l as [|x l IH]; intros Hall; [done|]. rewrite filter_cons_False by (apply Hall; left).
  apply IH. intros y Hy. apply Hall. by right.
Qed.

Lemma filter_ext_in (P Q : A → Prop) `{∀ x, Decision (P x)} `{∀ x, Decision (Q x)} l :
  (∀ x, x ∈ l → P x ↔ Q x) → filter P l = filter Q l.
Proof.
  induction l as [|x l IH]; intros Hall; [done|]. rewrite !filter_cons.
  rewrite IH by (intros y Hy; apply Hall; by right).
  specialize (Hall x ltac:(left)). destruct (decide (P x)), (decide (Q x)); tauto.
Qed.

Lemma head_rev l : head (rev l) = last l.
Proof. induction l as [|x l IH] using rev_ind; [done|]. by rewrite rev_app_distr, last_snoc. Qed.

Lemma lookup_total_default (d : A) l i : default d (l !! i) = nth i l d.
Proof. revert i. induction l; intros [|i]; simpl; auto. Qed.
End list_lemmas.

(** Existence of the two components of a pair. *)
Lemma ex_ex_pair {A B} (P : A → B → Prop) : (∃ ab : A * B, P ab.1 ab.2) → ∃ a b, P a b.
Proof. intros [[a b] H]. eauto. Qed.

Lemma elem_of_mid {A} (l1 l2 : list A) x : x ∈ l1 ++ x :: l2.
Proof. apply elem_of_app. right. by left. Qed.

(** Membership in the integers [n, n+1, ..., n+k-1]. *)
Lemma elem_of_seqZ' (n k x : Z) : x ∈ seqZ n k ↔ (n ≤ x < n + k)%Z.
Proof. apply elem_of_seqZ. Qed.

Local Open Scope Z_scope.

(** * Sorted lists of distinct integers *)
Fixpoint ins (i : Z) (l : list Z) : list Z :=
  match l with
  | [] => [i]
  | j :: l' => if i <? j then i :: l else if i =? j then l else j :: ins i l'
  end.
Definition sorted (l : list Z) : list Z := foldr ins [] l.

Lemma elem_of_ins i l j : j ∈ ins i l ↔ j ∈ l ∨ j = i.
Proof.
  induction l as [|x l IH]; simpl; [rewrite elem_of_cons; tauto|].
  destruct (Z.ltb_spec i x); [rewrite !elem_of_cons; tauto|].
  destruct (Z.eqb_spec i x) as [->|]; rewrite !elem_of_cons, ?IH; tauto.
Qed.

Lemma ins_sorted i l : StronglySorted Z.lt l → StronglySorted Z.lt (ins i l).
Proof.
  induction 1 as [|x l Hl IH Hx]; simpl; [by repeat constructor|].
  destruct (Z.ltb_spec i x).
  - constructor; [by constructor|]. constructor; [done|].
    eapply Forall_impl; [exact Hx|]. simpl. lia.
  - destruct (Z.eqb_spec i x); [by constructor|]. constructor; [done|].
    apply Forall_forall. intros y [Hy| ->]%elem_of_ins; [|lia].
    rewrite Forall_forall in Hx. by apply Hx.
Qed.

Lemma sorted_sorted l : StronglySorted Z.lt (sorted l).
Proof. induction l; simpl; [constructor|by apply ins_sorted]. Qed.

(** Where an integer goes: its place splits the list. *)
Lemma ins_split i n1 n2 :
  Forall (λ j, j < i) n1 → Forall (λ j, i < j) n2 → ins i (n1 ++ n2) = n1 ++ i :: n2.
Proof.
  intros H1 H2. induction H1 as [|j n1 Hj H1 IH]; simpl.
  - destruct H2 as [|j n2 Hj _]; [done|]. simpl. by destruct (Z.ltb_spec i j); [|lia].
  - destruct (Z.ltb_spec i j); [lia|]. destruct (Z.eqb_spec i j); [lia|]. by rewrite IH.
Qed.

Lemma ins_in i l : StronglySorted Z.lt l → i ∈ l → ins i l = l.
Proof.
  induction 1 as [|j l Hl IH Hj]; intros Hi; [by apply elem_of_nil in Hi|]. simpl.
  apply elem_of_cons in Hi as [->|Hi].
  - rewrite Z.ltb_irrefl, Z.eqb_refl. done.
  - rewrite Forall_forall in Hj. specialize (Hj i Hi).
    destruct (Z.ltb_spec i j); [lia|]. destruct (Z.eqb_spec i j); [lia|]. by rewrite IH.
Qed.

(** The two halves of a sorted list. *)
Lemma sorted_mid l1 x l2 :
  StronglySorted Z.lt (l1 ++ x :: l2) →
  StronglySorted Z.lt l1 ∧ StronglySorted Z.lt l2 ∧
  Forall (λ y, y < x) l1 ∧ Forall (λ y, x < y) l2.
Proof.
  induction l1 as [|y l1 IH]; simpl; intros H; inversion H as [|? ? Hs Hf]; subst.
  - split_and!; [constructor|done|constructor|done].
  - destruct (IH Hs) as (H1 & H2 & H3 & H4). apply Forall_app in Hf as [Hf1 Hf2].
    inversion Hf2; subst. split_and!; [by constructor|done|by constructor|done].
Qed.

Lemma sorted_app l1 l2 :
  StronglySorted Z.lt (l1 ++ l2) → StronglySorted Z.lt l1 ∧ StronglySorted Z.lt l2.
Proof.
  induction l1 as [|y l1 IH]; simpl; intros H; [split; [constructor|done]|].
  inversion H as [|? ? Hs Hf]; subst. destruct (IH Hs). apply Forall_app in Hf as [Hf1 _].
  split; [by constructor|done].
Qed.

Lemma sorted_del l1 x l2 :
  StronglySorted Z.lt (l1 ++ x :: l2) → StronglySorted Z.lt (l1 ++ l2).
Proof.
  induction l1 as [|y l1 IH]; simpl; intros H; inversion H as [|? ? Hs Hf]; subst; [done|].
  constructor; [by apply IH|]. apply Forall_app in Hf as [Hf1 Hf2]. apply Forall_app.
  split; [done|]. by inversion Hf2.
Qed.

(** A sorted list is known by its elements. *)
Lemma sorted_ext l1 l2 :
  StronglySorted Z.lt l1 → StronglySorted Z.lt l2 → (∀ x, x ∈ l1 ↔ x ∈ l2) → l1 = l2.
Proof.
  intros H1. revert l2. induction H1 as [|x l1 H1 IH Hx]; intros l2 H2 Heq.
  - destruct l2 as [|y l2]; [done|].
    assert (y ∈ []) as H by (apply Heq; left). by apply elem_of_nil in H.
  - destruct H2 as [|y l2 H2 Hy].
    { assert (x ∈ []) as H by (apply Heq; left). by apply elem_of_nil in H. }
    rewrite Forall_forall in Hx, Hy.
    assert (x = y) as ->.
    { assert (x ∈ y :: l2) as [->|Hxy]%elem_of_cons by (apply Heq; left); [done|].
      assert (y ∈ x :: l1) as [->|Hyx]%elem_of_cons by (apply Heq; left); [done|].
      specialize (Hx _ Hyx). specialize (Hy _ Hxy). lia. }
    f_equal. apply IH; [done|]. intros z. split; intros Hz.
    + assert (z ∈ y :: l2) as [->|]%elem_of_cons by (apply Heq; by right); [|done].
      specialize (Hx _ Hz). lia.
    + assert (z ∈ y :: l1) as [->|]%elem_of_cons by (apply Heq; by right); [|done].
      specialize (Hy _ Hz). lia.
Qed.

(** The integers of a list, in order and once each. *)
Definition insert_ints (l xs : list Z) : list Z := foldl (λ l x, ins x l) l xs.

Lemma insert_ints_sorted l xs :
  StronglySorted Z.lt l → StronglySorted Z.lt (insert_ints l xs).
Proof. revert l. induction xs; intros l Hl; [done|]. by apply IHxs, ins_sorted. Qed.

Lemma elem_of_insert_ints l xs n : n ∈ insert_ints l xs ↔ n ∈ l ∨ n ∈ xs.
Proof.
  revert l. induction xs as [|x xs IH]; intros l; simpl.
  - split; [by left|]. intros [|H]; [done|by apply elem_of_nil in H].
  - unfold insert_ints in *. simpl. rewrite IH, elem_of_ins, elem_of_cons. tauto.
Qed.
