(* ===== verification/CInt.v ===== *)
(** Machine integers of the C code: the representation is [Z] and the
    wrap-around of each width is written out.  [u64] is [unsigned long],
    [size_t] and [unsigned long long]; [s32] is [int] under two's complement
    (the conversion to [int], and [int] arithmetic where the code is built
    with wrapping arithmetic, as the kernel is); [s64] is [long] and
    [loff_t]; [u8] is a byte, [s8] its value as a [char].  [int_ok] is the range outside of which [int]
    arithmetic of a user program is undefined. *)
From S2P Require Import Prelude.
Local Open Scope Z_scope.

Definition u64 (z : Z) : Z := z mod 2 ^ 64.
Definition u32 (z : Z) : Z := z mod 2 ^ 32.
Definition u8 (z : Z) : Z := z mod 2 ^ 8.
Definition s32 (z : Z) : Z := (z + 2 ^ 31) mod 2 ^ 32 - 2 ^ 31.
Definition s8 (z : Z) : Z := (z + 2 ^ 7) mod 2 ^ 8 - 2 ^ 7.
Definition s64 (z : Z) : Z := (z + 2 ^ 63) mod 2 ^ 64 - 2 ^ 63.
Definition INT_MAX : Z := 2 ^ 31 - 1.
Definition INT_MIN : Z := - 2 ^ 31.
Definition int_ok (z : Z) : bool := (INT_MIN <=? z) && (z <=? INT_MAX).

(** The result of an [int] operation of a user program. *)
Definition int_arith {S} (z : Z) : M S Z :=
  if int_ok z then mret z else stop SignedOverflow.

Lemma u64_small z : 0 ≤ z < 2 ^ 64 → u64 z = z.
Proof. apply Z.mod_small. Qed.

Lemma u64_range z : 0 ≤ u64 z < 2 ^ 64.
Proof. by apply Z.mod_pos_bound. Qed.

Lemma u64_u64 z : u64 (u64 z) = u64 z.
Proof. apply u64_small, u64_range. Qed.

Lemma u64_neg z : - 2 ^ 64 ≤ z < 0 → u64 z = z + 2 ^ 64.
Proof.
  intros. unfold u64. symmetry. apply (Z.mod_unique_pos _ _ (-1)); lia.
Qed.

Lemma s32_small z : - 2 ^ 31 ≤ z < 2 ^ 31 → s32 z = z.
Proof. intros. unfold s32. rewrite Z.mod_small; lia. Qed.

Lemma s32_range z : - 2 ^ 31 ≤ s32 z < 2 ^ 31.
Proof.
  unfold s32. pose proof (Z.mod_pos_bound (z + 2 ^ 31) (2 ^ 32)). lia.
Qed.

Lemma s8_small z : - 2 ^ 7 ≤ z < 2 ^ 7 → s8 z = z.
Proof. intros. unfold s8. rewrite Z.mod_small; lia. Qed.

Lemma s64_small z : - 2 ^ 63 ≤ z < 2 ^ 63 → s64 z = z.
Proof. intros. unfold s64. rewrite Z.mod_small; lia. Qed.

Lemma u8_range z : 0 ≤ u8 z < 256.
Proof. by apply Z.mod_pos_bound. Qed.

Lemma u8_small z : 0 ≤ z < 256 → u8 z = z.
Proof. apply Z.mod_small. Qed.

Lemma int_ok_spec z : int_ok z = true ↔ INT_MIN ≤ z ≤ INT_MAX.
Proof. unfold int_ok. rewrite andb_true_iff, !Z.leb_le. lia. Qed.

Lemma int_arith_ok {S} z (s : S) :
  INT_MIN ≤ z ≤ INT_MAX → int_arith z s = (Ret z, s).
Proof. intros H. unfold int_arith. apply int_ok_spec in H. by rewrite H. Qed.

(** Rounding an address down to a page boundary: [a & ~(2^k - 1)]. *)
Lemma land_lnot_pow2 a k :
  0 ≤ k → Z.land a (Z.lnot (2 ^ k - 1)) = a - a mod 2 ^ k.
Proof.
  intros Hk.
  rewrite <- Z.ldiff_land.
  replace (2 ^ k - 1) with (Z.ones k) by (rewrite Z.ones_equiv; lia).
  rewrite Z.ldiff_ones_r, Z.shiftr_div_pow2, Z.shiftl_mul_pow2 by lia.
  pose proof (Z.div_mod a (2 ^ k)). lia.
Qed.

(** [address & ~(page_size - 1)] with the mask converted to 64 bits. *)
Lemma land_u64_lnot_pow2 a k :
  0 ≤ a < 2 ^ 64 → 0 ≤ k → Z.land a (u64 (Z.lnot (2 ^ k - 1))) = a - a mod 2 ^ k.
Proof.
  intros Ha Hk. unfold u64. rewrite <- Z.land_ones by lia.
  rewrite (Z.land_comm (Z.lnot _)), Z.land_assoc.
  rewrite Z.land_ones, Z.mod_small by lia. by apply land_lnot_pow2.
Qed.

#[export] Hint Rewrite u64_u64 : csys.
#[export] Hint Resolve u64_range s32_range u8_range : csys.
