(* ===== verification/CString.v ===== *)
(** C strings and the string functions of the C library the programs use.
    A string is the list of its characters ([Z], 0 to 255) without the
    terminating NUL; [cstr] cuts a buffer at its first NUL.  Numbers are
    printed and scanned in a base from 2 to 36. *)
From S2P Require Import Prelude CInt.
Local Open Scope Z_scope.

Abbreviation bytes := (list Z).

(** The characters of a literal. *)
Definition str (s : string) : bytes :=
  map (λ c, Z.of_nat (Ascii.nat_of_ascii c)) (String.list_ascii_of_string s).

Fixpoint cstr (l : bytes) : bytes :=
  match l with
  | [] => []
  | c :: l' => if c =? 0 then [] else c :: cstr l'
  end.

(** A string proper: no NUL inside, every character a byte. *)
Definition cstr_ok (l : bytes) : Prop := Forall (λ c, 0 < c < 256) l.

Definition strlen (l : bytes) : Z := Z.of_nat (length (cstr l)).

#[export] Instance cstr_ok_dec l : Decision (cstr_ok l).
Proof. apply Forall_dec. intros c. apply and_dec; apply _. Defined.

Lemma cstr_app l k : cstr_ok l → cstr (l ++ 0 :: k) = l.
Proof.
  induction 1 as [|c l Hc _ IH]; simpl; [done|].
  destruct (Z.eqb_spec c 0); [lia|]. by rewrite IH.
Qed.

Lemma cstr_id l : cstr_ok l → cstr l = l.
Proof.
  induction 1 as [|c l Hc _ IH]; simpl; [done|].
  destruct (Z.eqb_spec c 0); [lia|]. by rewrite IH.
Qed.

Lemma length_cstr l : (length (cstr l) ≤ length l)%nat.
Proof. induction l; simpl; [lia|]. case_match; simpl; lia. Qed.

Lemma cstr_replicate n : cstr (replicate n 0) = [].
Proof. by destruct n. Qed.

(** ** Digits *)

Definition digit_char (d : Z) : Z := if d <? 10 then 48 + d else 87 + d.

Definition digit_val (c : Z) : option Z :=
  if (48 <=? c) && (c <=? 57) then Some (c - 48)
  else if (97 <=? c) && (c <=? 122) then Some (c - 87)
  else if (65 <=? c) && (c <=? 90) then Some (c - 55)
  else None.

Fixpoint digits_rev (fuel : nat) (b n : Z) : bytes :=
  match fuel with
  | O => []
  | S f => digit_char (n mod b) :: (if n <? b then [] else digits_rev f b (n / b))
  end.

(** The digits of [n >= 0] in base [b]; the number of bits is fuel enough. *)
Definition print_base (b n : Z) : bytes :=
  rev (digits_rev (S (Z.to_nat (Z.log2 n))) b n).

(** Scans digits of base [b], returns the value and the rest of the text. *)
Fixpoint scan_digits (b acc : Z) (s : bytes) : Z * bytes :=
  match s with
  | [] => (acc, [])
  | c :: s' =>
      match digit_val c with
      | Some d => if d <? b then scan_digits b (acc * b + d) s' else (acc, s)
      | None => (acc, s)
      end
  end.

(** [printf] conversions: [%d], [%lu] and [%p] (of the GNU C library). *)
Definition fmt_d (z : Z) : bytes :=
  if z <? 0 then 45 :: print_base 10 (- z) else print_base 10 z.
Definition fmt_lu (z : Z) : bytes := print_base 10 z.
Definition fmt_p (z : Z) : bytes :=
  if z =? 0 then str "(nil)" else str "0x" ++ print_base 16 z.

Definition isspace (c : Z) : bool := (c =? 32) || ((9 <=? c) && (c <=? 13)).

Fixpoint skip_space (s : bytes) : bytes :=
  match s with
  | c :: s' => if isspace c then skip_space s' else s
  | [] => []
  end.

Definition scan_sign (s : bytes) : Z * bytes :=
  match s with
  | c :: s' => if c =? 45 then (-1, s') else if c =? 43 then (1, s') else (1, s)
  | [] => (1, [])
  end.

(** [strtol] of a decimal, saturated, and [atoi], its conversion to [int]. *)
Definition strtol10 (s : bytes) : Z :=
  let '(sg, r) := scan_sign (skip_space s) in
  Z.max (- 2 ^ 63) (Z.min (2 ^ 63 - 1) (sg * fst (scan_digits 10 0 r))).
Definition atoi (s : bytes) : Z := s32 (strtol10 s).

(** [strtoul (s, NULL, 0)]: prefix [0x] for base 16, [0] for base 8. *)
Definition scan_prefix (s : bytes) : Z * bytes :=
  match s with
  | 48 :: c :: r =>
      if (c =? 120) || (c =? 88) then
        match r with
        | d :: _ =>
            match digit_val d with
            | Some v => if v <? 16 then (16, r) else (8, s)
            | None => (8, s)
            end
        | [] => (8, s)
        end
      else (8, s)
  | 48 :: _ => (8, s)
  | _ => (10, s)
  end.
Definition strtoul0 (s : bytes) : Z :=
  let '(sg, r) := scan_sign (skip_space s) in
  let '(b, r') := scan_prefix r in
  let v := fst (scan_digits b 0 r') in
  if 2 ^ 64 <=? v then 2 ^ 64 - 1 else u64 (sg * v).

(** [sscanf (s, "%p", &a)]: a hexadecimal number with an optional [0x];
    [None] when no conversion is made. *)
Definition sscanf_p (s : bytes) : option Z :=
  let '(sg, r) := scan_sign (skip_space s) in
  let r' := match r with
            | 48 :: c :: r'' => if (c =? 120) || (c =? 88) then r'' else r
            | _ => r
            end in
  match r' with
  | c :: _ =>
      match digit_val c with
      | Some d => if d <? 16 then Some (u64 (sg * fst (scan_digits 16 0 r'))) else None
      | None => None
      end
  | [] => None
  end.

(** ** [strtok] with the single delimiter [d]

    The first call on a buffer and the calls on [NULL] are the same function
    of the text that is left; [None] is a [NULL] token. *)
Fixpoint skip_delim (d : Z) (s : bytes) : bytes :=
  match s with
  | c :: s' => if c =? d then skip_delim d s' else s
  | [] => []
  end.

Fixpoint take_token (d : Z) (s : bytes) : bytes * bytes :=
  match s with
  | [] => ([], [])
  | c :: s' =>
      if c =? d then ([], s')
      else let '(t, r) := take_token d s' in (c :: t, r)
  end.

Definition strtok (d : Z) (s : bytes) : option bytes * bytes :=
  match skip_delim d s with
  | [] => (None, [])
  | s' => let '(t, r) := take_token d s' in (Some t, r)
  end.

Definition is_digit (c : Z) : bool := (48 <=? c) && (c <=? 57).

(** * Lemmas *)

Lemma digit_val_char d : 0 ≤ d < 36 → digit_val (digit_char d) = Some d.
Proof.
  intros. unfold digit_val, digit_char.
  destruct (Z.ltb_spec d 10);
    repeat match goal with |- context [?a <=? ?b] => destruct (Z.leb_spec a b) end;
    simpl; try lia; f_equal; lia.
Qed.

Lemma digit_char_range d : 0 ≤ d < 36 → 48 ≤ digit_char d < 123.
Proof. intros. unfold digit_char. destruct (Z.ltb_spec d 10); lia. Qed.

Lemma digits_rev_range f b n :
  2 ≤ b ≤ 36 → 0 ≤ n → Forall (λ c, 48 ≤ c < 123) (digits_rev f b n).
Proof.
  intros Hb. revert n. induction f as [|f IH]; intros n Hn; simpl; constructor.
  - apply digit_char_range. pose proof (Z.mod_pos_bound n b). lia.
  - destruct (n <? b); [constructor|]. apply IH, Z.div_pos; lia.
Qed.

Lemma digits_rev_decimal f n :
  0 ≤ n → Forall (λ c, 48 ≤ c ≤ 57) (digits_rev f 10 n).
Proof.
  revert n. induction f as [|f IH]; intros n Hn; simpl; constructor.
  - unfold digit_char. pose proof (Z.mod_pos_bound n 10).
    destruct (Z.ltb_spec (n mod 10) 10); lia.
  - destruct (n <? 10); [constructor|]. apply IH, Z.div_pos; lia.
Qed.

Lemma scan_digits_rev f b n acc rest :
  2 ≤ b ≤ 36 → 0 ≤ n < b ^ Z.of_nat f →
  scan_digits b acc (rev (digits_rev f b n) ++ rest) =
  scan_digits b (acc * b ^ Z.of_nat (length (digits_rev f b n)) + n) rest.
Proof.
  intros Hb. revert n acc rest.
  induction f as [|f IH]; intros n acc rest Hn.
  { simpl in *. f_equal. lia. }
  pose proof (Z.mod_pos_bound n b ltac:(lia)) as Hm.
  simpl digits_rev. simpl rev. rewrite <- app_assoc. simpl app.
  destruct (Z.ltb_spec n b) as [Hlt|Hge].
  - simpl. rewrite digit_val_char by lia.
    destruct (Z.ltb_spec (n mod b) b); [|lia].
    rewrite Z.mod_small by lia. f_equal. lia.
  - rewrite IH.
    + simpl length. simpl scan_digits. rewrite digit_val_char by lia.
      destruct (Z.ltb_spec (n mod b) b); [|lia].
      f_equal. rewrite Nat2Z.inj_succ, Z.pow_succ_r by lia.
      pose proof (Z.div_mod n b). nia.
    + rewrite Nat2Z.inj_succ, Z.pow_succ_r in Hn by lia.
      split; [apply Z.div_pos; lia|]. apply Z.div_lt_upper_bound; lia.
Qed.

Lemma print_base_fuel b n :
  2 ≤ b → 0 ≤ n → 0 ≤ n < b ^ Z.of_nat (S (Z.to_nat (Z.log2 n))).
Proof.
  intros Hb Hn. split; [done|].
  rewrite Nat2Z.inj_succ, Z2Nat.id by apply Z.log2_nonneg.
  destruct (decide (n = 0)) as [->|].
  { apply Z.pow_pos_nonneg; [lia|]. pose proof (Z.log2_nonneg 0). lia. }
  apply Z.lt_le_trans with (2 ^ Z.succ (Z.log2 n)).
  - apply Z.log2_spec. lia.
  - apply Z.pow_le_mono_l. lia.
Qed.

(** Scanning what was printed gives the number back and stops at the text
    that follows it. *)
Lemma scan_print b n acc rest :
  2 ≤ b ≤ 36 → 0 ≤ n →
  scan_digits b acc (print_base b n ++ rest) =
  scan_digits b (acc * b ^ Z.of_nat (length (print_base b n)) + n) rest.
Proof.
  intros Hb Hn. unfold print_base.
  rewrite scan_digits_rev by (auto using print_base_fuel with lia).
  by rewrite length_rev.
Qed.

Lemma length_digits_rev f b n m :
  2 ≤ b → 0 ≤ n < b ^ Z.of_nat (S m) → (length (digits_rev f b n) ≤ S m)%nat.
Proof.
  intros Hb. revert n m. induction f as [|f IH]; intros n m Hn; simpl; [lia|].
  destruct (Z.ltb_spec n b) as [|Hge]; simpl; [lia|].
  destruct m as [|m]; [simpl in Hn; lia|].
  cut (length (digits_rev f b (n / b)) ≤ S m)%nat; [lia|]. apply IH.
  rewrite (Nat2Z.inj_succ (S m)), Z.pow_succ_r in Hn by lia.
  split; [apply Z.div_pos; lia|]. apply Z.div_lt_upper_bound; lia.
Qed.

Lemma length_print_base b n m :
  2 ≤ b → 0 ≤ n < b ^ Z.of_nat (S m) → (length (print_base b n) ≤ S m)%nat.
Proof. intros. unfold print_base. rewrite length_rev. by apply length_digits_rev. Qed.

Lemma print_base_not_nil b n : print_base b n ≠ [].
Proof. unfold print_base. simpl. intros [_ ?]%app_eq_nil. done. Qed.

Lemma print_base_range b n :
  2 ≤ b ≤ 36 → 0 ≤ n → Forall (λ c, 48 ≤ c < 123) (print_base b n).
Proof. intros. apply Forall_rev. by apply digits_rev_range. Qed.

Lemma print_decimal_range n :
  0 ≤ n → Forall (λ c, 48 ≤ c ≤ 57) (print_base 10 n).
Proof. intros. apply Forall_rev. by apply digits_rev_decimal. Qed.

Lemma take_token_app d s rest :
  Forall (λ c, c ≠ d) s → take_token d (s ++ d :: rest) = (s, rest).
Proof.
  induction 1 as [|c s Hc _ IH]; simpl.
  - by rewrite Z.eqb_refl.
  - destruct (Z.eqb_spec c d); [done|]. by rewrite IH.
Qed.

Lemma take_token_end d s :
  Forall (λ c, c ≠ d) s → take_token d s = (s, []).
Proof.
  induction 1 as [|c s Hc _ IH]; simpl; [done|].
  destruct (Z.eqb_spec c d); [done|]. by rewrite IH.
Qed.

Lemma strtok_app d s rest :
  s ≠ [] → Forall (λ c, c ≠ d) s →
  strtok d (s ++ d :: rest) = (Some s, rest).
Proof.
  intros Hne Hs. unfold strtok. destruct s as [|c s]; [done|].
  simpl skip_delim. inversion Hs; subst.
  destruct (Z.eqb_spec c d); [done|].
  pose proof (take_token_app d (c :: s) rest Hs) as E. simpl app in E. by rewrite E.
Qed.

Lemma strtok_end d s :
  s ≠ [] → Forall (λ c, c ≠ d) s → strtok d s = (Some s, []).
Proof.
  intros Hne Hs. unfold strtok. destruct s as [|c s]; [done|].
  simpl skip_delim. inversion Hs; subst.
  destruct (Z.eqb_spec c d); [done|].
  by rewrite (take_token_end d (c :: s) Hs).
Qed.

Lemma scan_sign_digit s :
  s ≠ [] → Forall (λ c, 48 ≤ c) s → scan_sign s = (1, s).
Proof.
  intros Hne Hs. destruct s as [|c s]; [done|]. inversion Hs; subst. simpl.
  destruct (Z.eqb_spec c 45); [lia|]. destruct (Z.eqb_spec c 43); [lia|done].
Qed.

Lemma skip_space_digit s : Forall (λ c, 48 ≤ c) s → skip_space s = s.
Proof.
  destruct 1 as [|c s Hc _]; [done|]. simpl. unfold isspace.
  repeat match goal with
  | |- context [?a =? ?b] => destruct (Z.eqb_spec a b); [lia|]
  | |- context [?a <=? ?b] => destruct (Z.leb_spec a b); simpl; try lia
  end; done.
Qed.

Lemma atoi_print n : 0 ≤ n < 2 ^ 31 → atoi (print_base 10 n) = n.
Proof.
  intros Hn. unfold atoi, strtol10.
  pose proof (print_decimal_range n ltac:(lia)) as Hr.
  assert (Forall (λ c, 48 ≤ c) (print_base 10 n)) as Hge.
  { eapply Forall_impl; [exact Hr|]. simpl. lia. }
  rewrite skip_space_digit, scan_sign_digit by auto using print_base_not_nil.
  rewrite <- (app_nil_r (print_base 10 n)), scan_print by lia.
  simpl. rewrite Z.max_r, Z.min_r by lia. rewrite s32_small; lia.
Qed.
