(* ===== verification/Region.v ===== *)
(** The anonymous private mapping the user-fault programs register with
    userfaultfd, shared by [uffd.c] and the two [s2dsm.c].

    A region is the mapping's start, its length, the pages that are present
    (by page number) and the number of faults served.  An access to a page
    that is missing suspends the thread, the fault handler of the program is
    run on the faulting address, and the page it copies is installed: what
    the handler does is the argument [handler], which each program defines
    from its own [fault_handler_thread].  [madvise (MADV_DONTNEED)] discards
    pages, whose next access faults again.  Offsets are relative to the start
    of the mapping; an access outside of the mapping stops the run. *)
From S2P Require Import Prelude CInt CString.
Local Open Scope Z_scope.

Record region := Region {
  r_base : Z;
  r_len : Z;
  r_pages : gmap Z bytes;
  r_faults : Z;
}.

Definition set_pages (f : gmap Z bytes → gmap Z bytes) (r : region) : region :=
  Region (r_base r) (r_len r) (f (r_pages r)) (r_faults r).

(** What [fault_handler_thread] does with a fault: given the number of faults
    served before and the faulting address, the address it copies to and the
    bytes it copies, or the way it ends the process. *)
Definition fault_handler : Type := Z → Z → outcome (Z * bytes).

(** What the kernel tells the handler: the results of its [poll], [read] and
    [ioctl], and the event read. *)
Record uffd_events := UffdEvents {
  poll_ret : Z;
  read_ret : Z;
  msg_event : Z;
  copy_ret : Z;
}.

Definition UFFD_EVENT_PAGEFAULT : Z := 18.

(** One turn of the loop of [fault_handler_thread], which is the same in the
    three programs but for the contents of [page]. *)
Definition serve_fault (page_size : Z) (page : bytes) (e : uffd_events) (address : Z)
    : outcome (Z * bytes) :=
  if poll_ret e =? -1 then Stop (Exit 1)
  else if read_ret e =? 0 then Stop (Exit 1)
  else if read_ret e =? -1 then Stop (Exit 1)
  else if negb (msg_event e =? UFFD_EVENT_PAGEFAULT) then Stop (Exit 1)
  else
    let dst := Z.land address (u64 (Z.lnot (page_size - 1))) in
    if copy_ret e =? -1 then Stop (Exit 1) else Ret (dst, page).

Section operations.
Context (page_size : Z) (handler : fault_handler).

Definition page_in (off : Z) : M region unit := λ r,
  match r_pages r !! (off / page_size) with
  | Some _ => (Ret tt, r)
  | None =>
      match handler (r_faults r) (r_base r + off) with
      | Ret (dst, pg) =>
          (Ret tt, Region (r_base r) (r_len r)
                     (<[(dst - r_base r) / page_size := pg]> (r_pages r))
                     (r_faults r + 1))
      | Stop e => (Stop e, r)
      end
  end.

(** The bytes of the page at [off] once the fault is served; a page that is
    still missing faults for ever. *)
Definition access (off : Z) : M region bytes :=
  r ← get;
  check ((0 <=? off) && (off <? r_len r)) OutOfBounds;;
  page_in off;;
  r' ← get;
  match r_pages r' !! (off / page_size) with
  | Some pg => mret pg
  | None => stop Blocked
  end.

Definition load (off : Z) : M region Z :=
  pg ← access off;
  mret (nth (Z.to_nat (off mod page_size)) pg 0).

Definition store (off c : Z) : M region unit :=
  pg ← access off;
  modify (set_pages <[off / page_size := <[Z.to_nat (off mod page_size) := c]> pg]>).

(** [for (...) a[l++] = s[j]] *)
Fixpoint store_list (off : Z) (s : bytes) : M region unit :=
  match s with
  | [] => mret tt
  | c :: s' => store off c;; store_list (off + 1) s'
  end.

(** [memset (a, c, n)] *)
Definition memset (off c n : Z) : M region unit :=
  store_list off (replicate (Z.to_nat n) c).

(** The string at [off]: reads up to the first NUL, past the end of the page
    when there is none in it. *)
Fixpoint load_cstr_aux (fuel : nat) (off : Z) : M region bytes :=
  match fuel with
  | O => stop OutOfFuel
  | S f =>
      c ← load off;
      if c =? 0 then mret []
      else s ← load_cstr_aux f (off + 1); mret (c :: s)
  end.

(** The mapping ends before the fuel does. *)
Definition load_cstr (off : Z) : M region bytes :=
  r ← get; load_cstr_aux (S (Z.to_nat (r_len r - off))) off.

(** [madvise (addr + off, n, MADV_DONTNEED)], when it succeeds. *)
Definition dontneed (off n : Z) : M region unit :=
  modify (set_pages (filter (λ kv, ¬ (off ≤ kv.1 * page_size < off + n)))).
End operations.

(** What the lemmas below need of a program's handler: on an address of a
    page-aligned mapping it copies to the start of the page a page of bytes
    that depends on the number of earlier faults only. *)
Class PagerOk (page_size : Z) (handler : fault_handler) (fill : Z → bytes) : Prop := {
  page_size_pos : 0 < page_size;
  handler_page : ∀ n base off,
    0 ≤ base → base mod page_size = 0 → 0 ≤ off → base + off < 2 ^ 64 →
    handler n (base + off) = Ret (base + off / page_size * page_size, fill n);
  length_fill : ∀ n, length (fill n) = Z.to_nat page_size;
}.

(** A fault delivered and served. *)
Definition served_event (e : uffd_events) : Prop :=
  poll_ret e ≠ -1 ∧ read_ret e ≠ 0 ∧ read_ret e ≠ -1 ∧ msg_event e = UFFD_EVENT_PAGEFAULT ∧
  copy_ret e ≠ -1.

Lemma serve_fault_ok k page e address :
  0 ≤ k → 0 ≤ address < 2 ^ 64 → served_event e →
  serve_fault (2 ^ k) page e address = Ret (address - address mod 2 ^ k, page).
Proof.
  intros Hk Ha (H1 & H2 & H3 & H4 & H5). unfold serve_fault. rewrite H4. simpl.
  repeat match goal with |- context [?a =? ?b] => destruct (Z.eqb_spec a b); [done|] end.
  by rewrite land_u64_lnot_pow2 by lia.
Qed.

(** A handler that serves every fault, the page depending on their number. *)
Lemma serve_fault_pager k events (fill : Z → bytes) :
  0 ≤ k → (∀ n, served_event (events n)) → (∀ n, length (fill n) = Z.to_nat (2 ^ k)) →
  PagerOk (2 ^ k) (λ n address, serve_fault (2 ^ k) (fill n) (events n) address) fill.
Proof.
  intros Hk He Hf. assert (0 < 2 ^ k) by (apply Z.pow_pos_nonneg; lia). split; [done| |done].
  intros n base off Hb Ha Ho Ht. rewrite serve_fault_ok by auto with lia.
  do 2 f_equal. rewrite <- Z.add_mod_idemp_l, Ha, Z.add_0_l by lia.
  pose proof (Z.div_mod off (2 ^ k) ltac:(lia)). lia.
Qed.

(** A region of [np] pages. *)
Record region_wf (page_size np : Z) (r : region) : Prop := {
  wf_base : 0 ≤ r_base r;
  wf_align : r_base r mod page_size = 0;
  wf_len : r_len r = np * page_size;
  wf_top : r_base r + r_len r ≤ 2 ^ 64;
  wf_pages : map_Forall (λ _ pg, length pg = Z.to_nat page_size) (r_pages r);
}.

Definition set_page (p : Z) (pg : bytes) : region → region := set_pages <[p := pg]>.

Section lemmas.
Context (page_size : Z) (handler : fault_handler) (fill : Z → bytes).
Context {HP : PagerOk page_size handler fill}.

#[local] Abbreviation page_in := (page_in page_size handler).
#[local] Abbreviation access := (access page_size handler).
#[local] Abbreviation load := (load page_size handler).
#[local] Abbreviation store := (store page_size handler).
#[local] Abbreviation store_list := (store_list page_size handler).
#[local] Abbreviation load_cstr_aux := (load_cstr_aux page_size handler).
#[local] Abbreviation load_cstr := (load_cstr page_size handler).
#[local] Abbreviation dontneed := (dontneed page_size).
#[local] Abbreviation region_wf := (region_wf page_size).

(** The contents page [p] has for the next access to it, and the region
    after that access has made it present. *)
Definition content (r : region) (p : Z) : bytes :=
  default (fill (r_faults r)) (r_pages r !! p).

Definition paged (r : region) (p : Z) : region :=
  match r_pages r !! p with
  | Some _ => r
  | None => Region (r_base r) (r_len r) (<[p := fill (r_faults r)]> (r_pages r))
              (r_faults r + 1)
  end.

Lemma length_content np r p :
  region_wf np r → length (content r p) = Z.to_nat page_size.
Proof.
  intros Hwf. unfold content. destruct (r_pages r !! p) as [pg|] eqn:E; simpl.
  - exact (wf_pages _ _ _ Hwf p pg E).
  - apply length_fill.
Qed.

Lemma paged_wf np r p : region_wf np r → region_wf np (paged r p).
Proof.
  intros [? ? ? ? Hpg]. unfold paged. case_match; [done|].
  split; simpl; try done. apply map_Forall_insert_2; [apply length_fill|done].
Qed.

Lemma set_page_wf np r p pg :
  region_wf np r → length pg = Z.to_nat page_size → region_wf np (set_page p pg r).
Proof.
  intros [? ? ? ? Hpg] Hlen. split; simpl; try done.
  by apply map_Forall_insert_2.
Qed.

Lemma paged_lookup r p : r_pages (paged r p) !! p = Some (content r p).
Proof.
  unfold paged, content. destruct (r_pages r !! p) eqn:E; simpl; [done|].
  apply lookup_insert_eq.
Qed.

Lemma paged_lookup_ne r p q : p ≠ q → r_pages (paged r p) !! q = r_pages r !! q.
Proof.
  intros. unfold paged. case_match; simpl; [done|]. by apply lookup_insert_ne.
Qed.

Lemma content_present r p pg : r_pages r !! p = Some pg → content r p = pg.
Proof. intros E. unfold content. by rewrite E. Qed.

Lemma paged_present r p pg : r_pages r !! p = Some pg → paged r p = r.
Proof. intros E. unfold paged. by rewrite E. Qed.

Lemma content_paged r p : content (paged r p) p = content r p.
Proof. apply content_present, paged_lookup. Qed.

Lemma paged_paged r p : paged (paged r p) p = paged r p.
Proof. eapply paged_present, paged_lookup. Qed.

Lemma set_page_lookup r p pg : r_pages (set_page p pg r) !! p = Some pg.
Proof. apply lookup_insert_eq. Qed.

Lemma set_page_lookup_ne r p q pg :
  p ≠ q → r_pages (set_page p pg r) !! q = r_pages r !! q.
Proof. intros. by apply lookup_insert_ne. Qed.

Lemma set_page_set_page r p pg pg' :
  set_page p pg' (set_page p pg r) = set_page p pg' r.
Proof. unfold set_page, set_pages. simpl. by rewrite insert_insert_eq. Qed.

Lemma set_page_id r p pg : r_pages r !! p = Some pg → set_page p pg r = r.
Proof.
  intros E. unfold set_page, set_pages. rewrite insert_id by done. by destruct r.
Qed.

(** An access inside of the mapping succeeds, and pages the page in. *)
Lemma access_ok np r p i :
  region_wf np r → 0 ≤ p < np → 0 ≤ i < page_size →
  access (p * page_size + i) r = (Ret (content r p), paged r p).
Proof.
  intros Hwf Hp Hi. pose proof page_size_pos as Hps.
  assert ((p * page_size + i) / page_size = p) as Hdiv.
  { rewrite Z.add_comm, Z.div_add, Z.div_small by lia. lia. }
  assert (page_in (p * page_size + i) r = (Ret tt, paged r p)) as Hin.
  { unfold Region.page_in, paged. rewrite Hdiv. case_match; [done|].
    rewrite handler_page by (destruct Hwf as [? ? Hl ? ?]; rewrite ?Hl in *; first [done | nia]).
    rewrite Hdiv. repeat f_equal.
    replace (r_base r + p * page_size - r_base r) with (p * page_size) by lia.
    apply Z.div_mul. lia. }
  unfold Region.access, check. munfold.
  rewrite (wf_len _ _ _ Hwf).
  destruct (Z.leb_spec 0 (p * page_size + i)); [|nia].
  destruct (Z.ltb_spec (p * page_size + i) (np * page_size)); [|nia].
  simpl. rewrite Hin. by rewrite Hdiv, paged_lookup.
Qed.

Lemma offset_mod p i : 0 ≤ i < page_size → (p * page_size + i) mod page_size = i.
Proof. intros. rewrite Z.add_comm, Z.mod_add, Z.mod_small; lia. Qed.

Lemma offset_div p i : 0 ≤ i < page_size → (p * page_size + i) / page_size = p.
Proof. intros. rewrite Z.add_comm, Z.div_add, Z.div_small; lia. Qed.

Lemma load_ok np r p i :
  region_wf np r → 0 ≤ p < np → 0 ≤ i < page_size →
  load (p * page_size + i) r = (Ret (nth (Z.to_nat i) (content r p) 0), paged r p).
Proof.
  intros. unfold Region.load.
  mrun (access_ok np r p i ltac:(done) ltac:(done) ltac:(done)).
  by rewrite offset_mod.
Qed.

Lemma store_ok np r p i c :
  region_wf np r → 0 ≤ p < np → 0 ≤ i < page_size →
  store (p * page_size + i) c r =
    (Ret tt, set_page p (<[Z.to_nat i := c]> (content r p)) (paged r p)).
Proof.
  intros. unfold Region.store.
  mrun (access_ok np r p i ltac:(done) ltac:(done) ltac:(done)).
  by rewrite offset_mod, offset_div.
Qed.

(** Consecutive stores inside of a page splice the bytes into it. *)
Lemma store_list_ok np r p i s :
  region_wf np r → 0 ≤ p < np → 0 ≤ i → i + Z.of_nat (length s) ≤ page_size →
  s ≠ [] →
  store_list (p * page_size + i) s r =
    (Ret tt, set_page p (take (Z.to_nat i) (content r p) ++ s ++
                         drop (Z.to_nat i + length s) (content r p)) (paged r p)).
Proof.
  intros Hwf Hp. revert r i Hwf. induction s as [|c s IH]; [done|].
  intros r i Hwf Hi Hlen _. simpl in *.
  pose proof (length_content np r p Hwf) as Hc.
  mrun (store_ok np r p i c Hwf Hp ltac:(lia)).
  set (pg1 := <[Z.to_nat i := c]> (content r p)).
  assert (pg1 = take (Z.to_nat i) (content r p) ++ c :: drop (S (Z.to_nat i)) (content r p))
    as Hpg1 by (apply insert_take_drop; lia).
  destruct s as [|c' s].
  { simpl. munfold. rewrite Nat.add_1_r. by rewrite Hpg1. }
  replace (p * page_size + i + 1) with (p * page_size + (i + 1)) by lia.
  rewrite IH; [| |lia|simpl in *; lia|done].
  2: { apply set_page_wf; [by apply paged_wf|]. unfold pg1. by rewrite length_insert. }
  rewrite (content_present _ p pg1) by apply set_page_lookup.
  rewrite (paged_present _ p pg1) by apply set_page_lookup.
  rewrite set_page_set_page. do 2 f_equal. rewrite Hpg1.
  assert (length (take (Z.to_nat i) (content r p)) = Z.to_nat i) as Ht
    by (rewrite length_take; lia).
  replace (Z.to_nat (i + 1)) with (Z.to_nat i + 1)%nat by lia.
  rewrite take_app_add' by done.
  rewrite <- app_assoc. f_equal. simpl. f_equal. simpl.
  rewrite <- Nat.add_assoc, drop_app_add' by done.
  simpl. rewrite drop_drop. do 3 f_equal. lia.
Qed.

Lemma load_cstr_aux_ok np r p i s k f :
  region_wf np r → 0 ≤ p < np → 0 ≤ i →
  drop (Z.to_nat i) (content r p) = s ++ 0 :: k → cstr_ok s → (length s < f)%nat →
  load_cstr_aux f (p * page_size + i) r = (Ret s, paged r p).
Proof.
  intros Hwf Hp. revert r i f Hwf. induction s as [|c s IH]; intros r i f Hwf Hi Hd Hs Hf.
  all: pose proof (length_content np r p Hwf) as Hlen.
  all: assert (i < page_size) by
         (apply (f_equal length) in Hd; rewrite length_drop, ?length_app in Hd;
          simpl in Hd; lia).
  all: assert (nth (Z.to_nat i) (content r p) 0 =
               nth 0 (drop (Z.to_nat i) (content r p)) 0) as Hnth
         by (rewrite <- !lookup_total_default, lookup_drop; do 2 f_equal; lia).
  all: destruct f as [|f]; [simpl in *; lia|]; simpl.
  all: mrun (load_ok np r p i Hwf Hp ltac:(lia)).
  all: rewrite Hnth, Hd; simpl.
  { done. }
  inversion Hs; subst. destruct (Z.eqb_spec c 0); [lia|].
  replace (p * page_size + i + 1) with (p * page_size + (i + 1)) by lia.
  assert (load_cstr_aux f (p * page_size + (i + 1)) (paged r p) = (Ret s, paged r p)) as E.
  { rewrite <- (paged_paged r p) at 2. apply IH; [by apply paged_wf|lia| |done|simpl in *; lia].
    rewrite content_paged. replace (Z.to_nat (i + 1)) with (Z.to_nat i + 1)%nat by lia.
    by rewrite <- drop_drop, Hd. }
  by mrun E.
Qed.

(** Reading a string that ends inside of the page. *)
Lemma load_cstr_ok np r p s k :
  region_wf np r → 0 ≤ p < np → content r p = s ++ 0 :: k → cstr_ok s →
  load_cstr (p * page_size) r = (Ret s, paged r p).
Proof.
  intros Hwf Hp Hc Hs. unfold Region.load_cstr. munfold.
  rewrite (wf_len _ _ _ Hwf).
  replace (p * page_size) with (p * page_size + 0) at 2 by lia.
  eapply load_cstr_aux_ok; [done..|by rewrite drop_0|done|].
  pose proof (length_content np r p Hwf) as Hlen.
  rewrite Hc, length_app in Hlen. simpl in Hlen.
  pose proof page_size_pos. nia.
Qed.

Lemma dontneed_page r p :
  dontneed (p * page_size) page_size r = (Ret tt, set_pages (delete p) r).
Proof.
  unfold Region.dontneed, modify, set_pages. repeat f_equal.
  pose proof page_size_pos.
  apply map_eq. intros q. destruct (decide (p = q)) as [->|Hne].
  - rewrite lookup_delete_eq. apply map_lookup_filter_None_2. right.
    intros ? _ Hn. apply Hn. simpl. lia.
  - rewrite lookup_delete_ne by done.
    destruct (r_pages r !! q) as [pg|] eqn:E.
    + apply map_lookup_filter_Some_2; [done|]. simpl. nia.
    + apply map_lookup_filter_None_2. by left.
Qed.

Lemma dontneed_all np r :
  region_wf np r → (∀ p, is_Some (r_pages r !! p) → 0 ≤ p < np) →
  dontneed 0 (r_len r) r = (Ret tt, set_pages (λ _, ∅) r).
Proof.
  intros Hwf Hdom. unfold Region.dontneed, modify, set_pages. repeat f_equal.
  pose proof page_size_pos. rewrite (wf_len _ _ _ Hwf).
  apply map_eq. intros q. rewrite lookup_empty. apply map_lookup_filter_None_2.
  destruct (r_pages r !! q) as [pg|] eqn:E; [|by left]. right.
  intros pg' _ Hn. apply Hn. simpl.
  pose proof (Hdom q ltac:(by eexists)). nia.
Qed.

Lemma delete_page_wf np r p : region_wf np r → region_wf np (set_pages (delete p) r).
Proof.
  intros [? ? ? ? Hpg]. split; simpl; try done. by apply map_Forall_delete.
Qed.
End lemmas.
