(* ===== verification/S2dsm.v ===== *)
(** The distributed shared memory program, Part 3 ([s2dsm.c]): the pages and
    their MSI states in one process, the requests a process sends to its peer
    and the answers the peer's responder thread gives.

    The statics of the program are the record [proc].  Functions that talk to
    the peer run on a pair of states, the process and what is behind the
    socket; what a request comes back with is the argument [xchg].  The
    environment's other answers are arguments too: [events], what [poll],
    [read] and [ioctl] return to the fault handler for the n-th fault;
    [madvise_ret], what [madvise] returns for an address; and [dead], what a
    read through the pointer that [communicateWithPeer] returns gives: it
    points to a variable-length array of a frame that is gone. *)
From S2P Require Import Prelude CInt CString Region.
Local Open Scope Z_scope.

(** [enum state {m, s, i}] *)
Inductive state : Type := st_m | st_s | st_i.

#[export] Instance state_eq_dec : EqDecision state.
Proof. solve_decision. Defined.

Definition readOp : Z := 1.
Definition invalidateOp : Z := 2.

(** What the process prints, apart from the handler's [ [x] PAGEFAULT] lines,
    which the fault counter of the region counts. *)
Inductive line : Type :=
  | PageLine (j : Z) (page_output : bytes)
  | FetchInfo
  | WriteInfo (request_page : Z)
  | MsiLine (j : Z) (c : Z)
  | RequestInfo (request_page operation : Z)
  | ResponseInfo (c : Z) (message : bytes)
  | ZeroBytes
  | TooLong
  | InvalidOption.

(** The static variables: the mapping ([baseAddr] and its memory),
    [num_pages], [msi_array], and the standard output. *)
Record proc := Proc {
  p_region : region;
  p_num_pages : Z;
  p_msi : list state;
  p_out : list line;
}.

Definition set_region (r : region) (p : proc) : proc :=
  Proc r (p_num_pages p) (p_msi p) (p_out p).
Definition set_msi_array (a : list state) (p : proc) : proc :=
  Proc (p_region p) (p_num_pages p) a (p_out p).

Definition on_region {A} (m : M region A) : M proc A := λ p,
  match m (p_region p) with (o, r) => (o, set_region r p) end.

Definition emit (l : line) : M proc unit :=
  modify (λ p, Proc (p_region p) (p_num_pages p) (p_msi p) (p_out p ++ [l])).

(** [msi_array[j]], an array of 100 entries. *)
Definition get_msi (j : Z) : M proc state :=
  p ← get;
  check (0 <=? j) OutOfBounds;;
  match p_msi p !! Z.to_nat j with
  | Some v => mret v
  | None => stop OutOfBounds
  end.

Definition set_msi (j : Z) (v : state) : M proc unit :=
  p ← get;
  check ((0 <=? j) && (j <? Z.of_nat (length (p_msi p)))) OutOfBounds;;
  put (set_msi_array (<[Z.to_nat j := v]> (p_msi p)) p).

(** The characters of a buffer as a string: reading on past a buffer without
    a NUL is out of its bounds. *)
Definition as_string {T} (buf : bytes) : M T bytes :=
  check (strlen buf <? Z.of_nat (length buf)) OutOfBounds;; mret (cstr buf).

Definition getMSItype (value : state) : Z :=
  match value with
  | st_m => 77
  | st_s => 83
  | st_i => 73
  end.

(** ** [fault_handler_thread]: one turn of its loop, which copies a page of zeros *)
Definition fault_handler_thread (page_size : Z) (e : uffd_events) (address : Z)
    : outcome (Z * bytes) :=
  serve_fault page_size (replicate (Z.to_nat page_size) 0) e address.

(** ** The loop over the requested page, or over all pages for [-1]

    The bound of the [for] loops is [unsigned long], so the page counter is
    converted to it in the comparison.  The fuel is two more than the number
    of pages. *)
Definition first_page (request_page : Z) : Z :=
  if request_page =? -1 then 0 else request_page.
Definition last_page (num_pages request_page : Z) : Z :=
  if request_page =? -1 then u64 (num_pages - 1) else u64 request_page.

Fixpoint page_loop {T} (fuel : nat) (bound i : Z) (body : Z → M T unit) : M T unit :=
  match fuel with
  | O => stop OutOfFuel
  | S f =>
      if u64 i <=? bound then
        body i;;
        i' ← int_arith (i + 1);
        page_loop f bound i' body
      else mret tt
  end.

Definition for_pages {T} (num_pages request_page : Z) (body : Z → M T unit) : M T unit :=
  page_loop (S (S (Z.to_nat num_pages))) (last_page num_pages request_page)
    (first_page request_page) body.

(** Which read through the dangling pointer of [communicateWithPeer]. *)
Inductive dead_read : Type := InStrcmp | InUpdate | InSprintf.

Section process.
Context (page_size : Z).
Context (events : Z → uffd_events).
Context (madvise_ret : Z → Z).
Context (dead : dead_read → bytes → bytes).
Context {X : Type} (xchg : bytes → M X (Z * bytes)).

Definition dsm_handler : fault_handler :=
  λ n address, fault_handler_thread page_size (events n) address.

Definition mem_store_list (off : Z) (s : bytes) : M proc unit :=
  on_region (store_list page_size dsm_handler off s).
Definition mem_load_cstr (off : Z) : M proc bytes :=
  on_region (load_cstr page_size dsm_handler off).

(** [if (madvise (page_addr, page_size, MADV_DONTNEED)) errExit (...)] *)
Definition drop_page (off : Z) : M proc unit :=
  p ← get;
  if madvise_ret (r_base (p_region p) + off) =? 0 then
    on_region (dontneed page_size off page_size)
  else stop (Exit 1).

(** The bytes of the request, and the buffer the answer is read into. *)
Definition request_message (request_page operation : Z) : bytes :=
  fmt_d request_page ++ 45 :: fmt_d operation.

Definition read_buffer (data : bytes) : bytes :=
  data ++ replicate (Z.to_nat page_size - length data) 0.

Definition communicateWithPeer (request_page operation : Z) : M (proc * X) bytes :=
  let message := request_message request_page operation in
  check (Z.of_nat (length message) + 1 <=? page_size) OutOfBounds;;
  '(bytesRead, data) ← on_snd (xchg message);
  if bytesRead <? 0 then stop (Exit 1)
  else if bytesRead =? 0 then on_fst (emit ZeroBytes);; mret (read_buffer [])
  else mret (read_buffer data).

Definition transitionStateOnWrite (request_page : Z) : M (proc * X) unit :=
  page_status ← on_fst (get_msi request_page);
  match page_status with
  | st_m | st_s | st_i =>
      on_fst (set_msi request_page st_m);;
      on_fst (emit (WriteInfo request_page));;
      communicateWithPeer request_page invalidateOp;;
      mret tt
  end.

(** One turn of the loop of [updatePageContents], and the function. *)
Definition update_page (message : bytes) (transition : bool) (i : Z) : M (proc * X) unit :=
  l ← int_arith (i * page_size);
  on_fst (mem_store_list l (cstr message ++ [0]));;
  if transition then transitionStateOnWrite i else mret tt.

Definition updatePageContents (request_page : Z) (message : bytes) (transition : bool)
    : M (proc * X) unit :=
  num_pages ← gets (λ st, p_num_pages (fst st));
  for_pages num_pages request_page (update_page message transition).

(** The case of an invalid page that is to be fetched: what is printed. *)
Definition fetch_page (j : Z) : M (proc * X) bytes :=
  buffer ← communicateWithPeer j readOp;
  message ← as_string (dead InStrcmp buffer);
  if bool_decide (message = str "NULL") then
    off ← int_arith (j * page_size);
    on_fst (drop_page off);;
    mret []
  else
    message ← as_string (dead InUpdate buffer);
    updatePageContents j message false;;
    on_fst (set_msi j st_s);;
    message ← as_string (dead InSprintf buffer);
    check (Z.of_nat (length message) <=? page_size) OutOfBounds;;
    mret message.

(** One turn of the loop of [printPageContents], and the function. *)
Definition print_page (fetch : bool) (j : Z) : M (proc * X) unit :=
  l ← int_arith (j * page_size);
  first_output ← on_fst (mem_load_cstr l);
  check (Z.of_nat (length first_output) <=? page_size) OutOfBounds;;
  page_state ← on_fst (get_msi j);
  page_output ←
    match page_state with
    | st_m | st_s => mret first_output
    | st_i =>
        on_fst (emit FetchInfo);;
        if fetch then fetch_page j else mret []
    end;
  on_fst (emit (PageLine j page_output)).

Definition printPageContents (request_page : Z) (fetch : bool) : M (proc * X) unit :=
  num_pages ← gets (λ st, p_num_pages (fst st));
  for_pages num_pages request_page (print_page fetch).

(** [j <= num_pages] compares as [unsigned long]; one more turn than pages. *)
Fixpoint fill_loop (fuel : nat) (num_pages j : Z) : M proc unit :=
  match fuel with
  | O => stop OutOfFuel
  | S f =>
      if u64 j <=? num_pages then
        set_msi j st_i;; fill_loop f num_pages (j + 1)
      else mret tt
  end.

Definition fillWithInvalid : M proc unit :=
  p ← get; fill_loop (S (S (Z.to_nat (p_num_pages p)))) (p_num_pages p) 0.

Fixpoint print_msi_loop (fuel : nat) (num_pages j : Z) : M proc unit :=
  match fuel with
  | O => stop OutOfFuel
  | S f =>
      if u64 j <? num_pages then
        v ← get_msi j;
        emit (MsiLine j (getMSItype v));;
        print_msi_loop f num_pages (j + 1)
      else mret tt
  end.

Definition printMsiArray : M proc unit :=
  p ← get; print_msi_loop (S (Z.to_nat (p_num_pages p))) (p_num_pages p) 0.

(** ** The responder thread *)

(** What [getResponse] points to: a page of the mapping or the literal. *)
Inductive response : Type := PagePtr (off : Z) | NullLiteral.

Definition transitionStateOnRead (request_page : Z) : M proc unit :=
  page_status ← get_msi request_page;
  match page_status with
  | st_m => set_msi request_page st_s
  | st_s | st_i => mret tt
  end.

Definition getResponse (page : Z) : M proc response :=
  page_status ← get_msi page;
  match page_status with
  | st_m =>
      set_msi page st_s;;
      off ← int_arith (page * page_size);
      mret (PagePtr off)
  | st_s =>
      off ← int_arith (page * page_size);
      mret (PagePtr off)
  | st_i => mret NullLiteral
  end.

Definition deref_response (m : response) : M proc bytes :=
  match m with
  | PagePtr off => mem_load_cstr off
  | NullLiteral => mret (str "NULL")
  end.

(** [atoi (token)] on a token that can be [NULL]. *)
Definition atoi_token (token : option bytes) : M proc Z :=
  match token with
  | Some t => mret (atoi t)
  | None => stop NullDeref
  end.

(** [strtok (buffer, "-")], [strtok (NULL, "-")] and the two [atoi]. *)
Definition parse_request (buffer : bytes) : M proc (Z * Z) :=
  let '(token, rest) := strtok 45 buffer in
  request_page ← atoi_token token;
  let '(token, _) := strtok 45 rest in
  operation ← atoi_token token;
  mret (request_page, operation).

(** [snprintf (message, page_size, "%s", s)] *)
Definition snprintf_s (s : bytes) : bytes := take (Z.to_nat (page_size - 1)) s.

(** What a request does, and the message it is answered with. *)
Definition handle_request (request_page operation : Z) : M proc bytes :=
  emit (RequestInfo request_page operation);;
  initialState ← get_msi request_page;
  message ←
    (if operation =? invalidateOp then
       set_msi request_page st_i;;
       off ← int_arith (request_page * page_size);
       drop_page off;;
       mret (snprintf_s (str "Success"))
     else if operation =? readOp then
       m ← getResponse request_page;
       transitionStateOnRead request_page;;
       s ← deref_response m;
       mret (snprintf_s s)
     else stop Uninit);
  emit (ResponseInfo (getMSItype initialState) message);;
  mret message.

(** One turn of the loop of [responder]: [data] is what [read] has put in the
    buffer; the result is what is sent back, [None] when the turn ends without
    a [send]. *)
Definition responder (bytesRead : Z) (data : bytes) : M proc (option bytes) :=
  if bytesRead <? 0 then stop (Exit 1)
  else if 0 <? bytesRead then
    buffer ← as_string (read_buffer data);
    '(request_page, operation) ← parse_request buffer;
    message ← handle_request request_page operation;
    mret (Some message)
  else mret None.

(** ** The command loop of [main] *)

Inductive command : Type :=
  | CmdRead (request_page : Z)
  | CmdWrite (request_page : Z) (message : bytes)
  | CmdView
  | CmdOther (request_page : Z).

(** [message] is an array of [page_size] characters that [scanf] fills. *)
Definition run_command (c : command) : M (proc * X) unit :=
  match c with
  | CmdRead request_page => printPageContents request_page true
  | CmdWrite request_page message =>
      check (Z.of_nat (length message) + 1 <=? page_size) OutOfBounds;;
      (if page_size <? strlen message then on_fst (emit TooLong) else mret tt);;
      updatePageContents request_page message true;;
      printPageContents request_page false
  | CmdView => on_fst printMsiArray
  | CmdOther _ => on_fst (emit InvalidOption)
  end.
End process.

(** ** Two processes

    While one process runs a command, what is behind its socket is the
    responder of the other one.  A request is one message; [read] returns it
    as it was sent, and an answer of no bytes leaves the reader blocked. *)
Section pair.
Context (page_size : Z).
Context (events : Z → uffd_events).
Context (madvise_ret : Z → Z).
Context (dead : dead_read → bytes → bytes).

Definition peer_xchg (message : bytes) : M proc (Z * bytes) :=
  reply ← responder page_size events madvise_ret (Z.of_nat (length message)) message;
  match reply with
  | Some ((_ :: _) as r) => mret (Z.of_nat (length r), r)
  | _ => stop Blocked
  end.

Inductive who : Type := ProcA | ProcB.

Definition swap_pair (st : proc * proc) : proc * proc := (snd st, fst st).

(** The user types command [c] at process [w]. *)
Definition exec (w : who) (c : command) (st : proc * proc) : outcome unit * (proc * proc) :=
  match w with
  | ProcA => run_command page_size events madvise_ret dead peer_xchg c st
  | ProcB =>
      match run_command page_size events madvise_ret dead peer_xchg c (swap_pair st) with
      | (o, st') => (o, swap_pair st')
      end
  end.

(** Commands typed one after the other, each after the one before is done. *)
Fixpoint exec_all (cs : list (who * command)) (st : proc * proc)
    : outcome unit * (proc * proc) :=
  match cs with
  | [] => (Ret tt, st)
  | (w, c) :: cs' =>
      match exec w c st with
      | (Ret _, st') => exec_all cs' st'
      | (Stop e, st') => (Stop e, st')
      end
  end.
End pair.
