(* ===== verification/S2dsmSteps.v ===== *)
(** Part 3 of [s2dsm.c]: what each operation of a process does to a
    well-formed state.  The environment behaves as the interface [DsmEnv]
    says; the equations below are what the coherence proof is built from. *)
From S2P Require Import Prelude CInt CString Region S2dsm.
Local Open Scope Z_scope.

(** The environment of a run without errors: a page size the machine can have,
    faults delivered and served, [madvise] succeeding, and the storage that
    the dangling pointer names not yet reused. *)
Class DsmEnv (page_size : Z) (events : Z → uffd_events)
    (madvise_ret : Z → Z) (dead : dead_read → bytes → bytes) : Prop := {
  env_page_size : ∃ k, page_size = 2 ^ k ∧ 6 ≤ k ≤ 24;
  env_events : ∀ n, served_event (events n);
  env_madvise : ∀ a, madvise_ret a = 0;
  env_dead : ∀ u b, dead u b = b;
}.

Definition msg_ok (page_size : Z) (w : bytes) : Prop :=
  cstr_ok w ∧ w ≠ [] ∧ w ≠ str "NULL" ∧ Z.of_nat (length w) < page_size.

(** Page [p] is present and holds the string [w]. *)
Definition holds (r : region) (p : Z) (w : bytes) : Prop :=
  ∃ k, r_pages r !! p = Some (w ++ 0 :: k).

Record proc_wf (page_size np : Z) (P : proc) : Prop := {
  pw_region : region_wf page_size np (p_region P);
  pw_num_pages : p_num_pages P = np;
  pw_msi : length (p_msi P) = 100%nat;
}.

Section steps.
Context (page_size : Z) (events : Z → uffd_events).
Context (madvise_ret : Z → Z) (dead : dead_read → bytes → bytes).
Context {HE : DsmEnv page_size events madvise_ret dead}.
Context (np : Z) (Hnp : 1 ≤ np ≤ 99).

#[local] Abbreviation handler := (dsm_handler page_size events).
#[local] Abbreviation responder := (responder page_size events madvise_ret).
#[local] Abbreviation peer_xchg := (peer_xchg page_size events madvise_ret).
#[local] Abbreviation proc_wf := (proc_wf page_size np).
#[local] Abbreviation msg_ok := (msg_ok page_size).

Lemma page_size_bounds : 64 ≤ page_size ≤ 2 ^ 24.
Proof.
  destruct env_page_size as (k & -> & Hk). split.
  - change 64 with (2 ^ 6). apply Z.pow_le_mono_r; lia.
  - apply Z.pow_le_mono_r; lia.
Qed.

#[local] Instance dsm_pager : PagerOk page_size handler (λ _, replicate (Z.to_nat page_size) 0).
Proof.
  destruct env_page_size as (k & Hk & ?). subst page_size.
  apply (serve_fault_pager k events); [lia|apply env_events|intros; apply length_replicate].
Qed.

(** ** States of one process *)

Lemma get_msi_ok P p v :
  0 ≤ p → p_msi P !! Z.to_nat p = Some v → get_msi p P = (Ret v, P).
Proof.
  intros Hp E. unfold get_msi, check. munfold.
  destruct (Z.leb_spec 0 p); [|lia]. by rewrite E.
Qed.

Lemma set_msi_ok P p v :
  0 ≤ p < Z.of_nat (length (p_msi P)) →
  set_msi p v P = (Ret tt, set_msi_array (<[Z.to_nat p := v]> (p_msi P)) P).
Proof.
  intros Hp. unfold set_msi, check. munfold.
  destruct (Z.leb_spec 0 p); [|lia]. by destruct (Z.ltb_spec p (Z.of_nat (length (p_msi P)))); [|lia].
Qed.

Lemma offset_arith {T} p (s : T) :
  0 ≤ p < np → int_arith (p * page_size) s = (Ret (p * page_size), s).
Proof.
  intros. pose proof page_size_bounds. apply int_arith_ok.
  unfold INT_MIN, INT_MAX. nia.
Qed.

Lemma on_region_Ret {A} (m : M region A) P a r :
  m (p_region P) = (Ret a, r) → on_region m P = (Ret a, set_region r P).
Proof. intros E. unfold on_region. by rewrite E. Qed.

Lemma set_region_id P : set_region (p_region P) P = P.
Proof. by destruct P. Qed.

Lemma set_region_wf P r :
  proc_wf P → region_wf page_size np r → proc_wf (set_region r P).
Proof. intros [? ? ?] ?. by split. Qed.

Lemma drop_page_ok P p :
  drop_page page_size madvise_ret (p * page_size) P =
    (Ret tt, set_region (set_pages (delete p) (p_region P)) P).
Proof.
  unfold drop_page. munfold. rewrite env_madvise. simpl.
  by rewrite (on_region_Ret _ _ _ _ (dontneed_page page_size handler _ _ _)).
Qed.

(** ** Requests on the wire *)

Lemma fmt_d_nonneg n : 0 ≤ n → fmt_d n = print_base 10 n.
Proof. intros. unfold fmt_d. by destruct (Z.ltb_spec n 0); [lia|]. Qed.

Lemma fmt_d_digits n : 0 ≤ n → Forall (λ c, 48 ≤ c ≤ 57) (fmt_d n).
Proof. intros. rewrite fmt_d_nonneg by done. by apply print_decimal_range. Qed.

Lemma fmt_d_not_nil n : 0 ≤ n → fmt_d n ≠ [].
Proof. intros. rewrite fmt_d_nonneg by done. apply print_base_not_nil. Qed.

Lemma as_string_buffer {T} w (s : T) :
  cstr_ok w → Z.of_nat (length w) < page_size →
  as_string (read_buffer page_size w) s = (Ret w, s).
Proof.
  intros Hw Hlen. unfold as_string, read_buffer, strlen, check.
  destruct (Z.to_nat page_size - length w)%nat as [|n] eqn:E; [lia|].
  simpl. rewrite cstr_app, length_app by done. simpl.
  by destruct (Z.ltb_spec (Z.of_nat (length w)) (Z.of_nat (length w + S (length (replicate n 0))))); [|lia].
Qed.

Lemma request_ok page op :
  0 ≤ page → 0 ≤ op → cstr_ok (request_message page op).
Proof.
  intros Hp Ho. unfold request_message. apply Forall_app. split; [|constructor; [lia|]].
  all: eapply Forall_impl; [by apply fmt_d_digits|simpl; lia].
Qed.

Lemma length_request page op :
  0 ≤ page < 2 ^ 31 → 0 ≤ op < 2 ^ 31 →
  (length (request_message page op) ≤ 21)%nat.
Proof.
  intros Hp Ho. unfold request_message. rewrite !fmt_d_nonneg by lia.
  pose proof (length_print_base 10 page 9 ltac:(lia) ltac:(lia)).
  pose proof (length_print_base 10 op 9 ltac:(lia) ltac:(lia)).
  rewrite length_app. simpl. lia.
Qed.

Lemma parse_request_ok page op P :
  0 ≤ page < 2 ^ 31 → 0 ≤ op < 2 ^ 31 →
  parse_request (request_message page op) P = (Ret (page, op), P).
Proof.
  intros Hp Ho. unfold parse_request, request_message.
  assert (∀ n, 0 ≤ n → Forall (λ c, c ≠ 45) (fmt_d n)) as Hne.
  { intros n Hn. eapply Forall_impl; [by apply fmt_d_digits|]. simpl. lia. }
  rewrite strtok_app by (try apply Hne; try apply fmt_d_not_nil; lia).
  rewrite strtok_end by (try apply Hne; try apply fmt_d_not_nil; lia).
  munfold. simpl. rewrite !fmt_d_nonneg, !atoi_print by lia. done.
Qed.

(** ** The responder *)

Definition invalidated (p : Z) (st : state) (P : proc) : proc :=
  Proc (set_pages (delete p) (p_region P)) (p_num_pages P)
    (<[Z.to_nat p := st_i]> (p_msi P))
    ((p_out P ++ [RequestInfo p invalidateOp]) ++ [ResponseInfo (getMSItype st) (str "Success")]).

Definition served (p : Z) (st st' : state) (w : bytes) (P : proc) : proc :=
  Proc (p_region P) (p_num_pages P) (<[Z.to_nat p := st']> (p_msi P))
    ((p_out P ++ [RequestInfo p readOp]) ++ [ResponseInfo (getMSItype st) w]).

Lemma peer_xchg_request page op P :
  0 ≤ page < np → 0 ≤ op < 10 →
  peer_xchg (request_message page op) P =
  (message ← handle_request page_size events madvise_ret page op;
   match message with
   | _ :: _ => mret (Z.of_nat (length message), message)
   | [] => stop Blocked
   end) P.
Proof.
  intros Hp Ho. pose proof page_size_bounds.
  pose proof (length_request page op ltac:(lia) ltac:(lia)).
  unfold S2dsm.peer_xchg, S2dsm.responder.
  destruct (Z.ltb_spec (Z.of_nat (length (request_message page op))) 0); [lia|].
  destruct (Z.ltb_spec 0 (Z.of_nat (length (request_message page op)))) as [_|Hl].
  2: { unfold request_message in Hl. rewrite length_app in Hl. simpl in Hl. lia. }
  munfold. rewrite as_string_buffer by (try apply request_ok; lia).
  rewrite parse_request_ok by lia.
  destruct (handle_request _ _ _ _ _ _) as [[[|c m]|e] P']; done.
Qed.

Lemma peer_invalidate P p st :
  proc_wf P → 0 ≤ p < np → p_msi P !! Z.to_nat p = Some st →
  peer_xchg (request_message p invalidateOp) P =
    (Ret (7, str "Success"), invalidated p st P).
Proof.
  intros [Hr Hn Hm] Hp E. pose proof page_size_bounds.
  rewrite peer_xchg_request by (unfold invalidateOp; lia).
  assert (snprintf_s page_size (str "Success") = str "Success") as Hs.
  { unfold snprintf_s. apply take_ge. simpl. lia. }
  assert (handle_request page_size events madvise_ret p invalidateOp P =
          (Ret (str "Success"), invalidated p st P)) as Hq; [|by mrun Hq].
  unfold handle_request. mstep.
  mby (apply get_msi_ok; [lia|exact E]).
  minto.
  { change (invalidateOp =? invalidateOp) with true. cbv iota.
    mby (apply set_msi_ok; simpl; lia).
    mby (by apply offset_arith).
    mby (apply drop_page_ok). by rewrite Hs. }
  reflexivity.
Qed.

Lemma region_content r p pg : r_pages r !! p = Some pg →
  content (λ _, replicate (Z.to_nat page_size) 0) r p = pg.
Proof. apply content_present. Qed.

Lemma region_paged r p pg : r_pages r !! p = Some pg →
  paged (λ _, replicate (Z.to_nat page_size) 0) r p = r.
Proof. apply paged_present. Qed.

(** The string a page holds is read back, and the page stays as it is. *)
Lemma load_held P p w :
  proc_wf P → 0 ≤ p < np → holds (p_region P) p w → cstr_ok w →
  mem_load_cstr page_size events (p * page_size) P = (Ret w, P).
Proof.
  intros [Hr _ _] Hp [k Hk] Hw. unfold mem_load_cstr.
  erewrite on_region_Ret.
  2: { apply (load_cstr_ok page_size handler _ np _ p w k); try done.
       by apply region_content. }
  erewrite region_paged by done. by rewrite set_region_id.
Qed.

Lemma snprintf_msg w : Z.of_nat (length w) < page_size → snprintf_s page_size w = w.
Proof. intros. unfold snprintf_s. apply take_ge. lia. Qed.

(** A process in which page [p] is invalid answers [NULL]. *)
Lemma peer_read_invalid P p :
  proc_wf P → 0 ≤ p < np → p_msi P !! Z.to_nat p = Some st_i →
  peer_xchg (request_message p readOp) P =
    (Ret (4, str "NULL"), served p st_i st_i (str "NULL") P).
Proof.
  intros [Hr Hn Hm] Hp E. pose proof page_size_bounds.
  rewrite peer_xchg_request by (unfold readOp; lia).
  assert (snprintf_s page_size (str "NULL") = str "NULL") as Hs.
  { unfold snprintf_s. apply take_ge. simpl. lia. }
  assert (handle_request page_size events madvise_ret p readOp P =
          (Ret (str "NULL"), served p st_i st_i (str "NULL") P)) as Hq; [|by mrun Hq].
  unfold handle_request. mstep.
  mby (apply get_msi_ok; [lia|exact E]).
  minto.
  { change (readOp =? invalidateOp) with false. change (readOp =? readOp) with true.
    cbv iota. minto.
    { unfold getResponse. mby (apply get_msi_ok; [lia|exact E]). reflexivity. }
    minto.
    { unfold transitionStateOnRead. mby (apply get_msi_ok; [lia|exact E]). reflexivity. }
    mstep. by rewrite Hs. }
  unfold served. rewrite list_insert_id by done. reflexivity.
Qed.

(** One that holds it, modified or shared, answers its contents and shares. *)
Lemma peer_read_held P p st w :
  proc_wf P → 0 ≤ p < np → p_msi P !! Z.to_nat p = Some st → st ≠ st_i →
  holds (p_region P) p w → cstr_ok w → w ≠ [] → Z.of_nat (length w) < page_size →
  peer_xchg (request_message p readOp) P =
    (Ret (Z.of_nat (length w), w), served p st st_s w P).
Proof.
  intros HP Hp E Hst Hh Hw Hnil Hlen. pose proof page_size_bounds. pose proof HP as [Hr Hn Hm].
  rewrite peer_xchg_request by (unfold readOp; lia).
  set (out1 := p_out P ++ [RequestInfo p readOp]).
  set (P1 := Proc (p_region P) (p_num_pages P) (<[Z.to_nat p := st_s]> (p_msi P)) out1).
  assert (p_msi P1 !! Z.to_nat p = Some st_s) as E1.
  { simpl. apply list_lookup_insert_eq. lia. }
  assert (getResponse page_size p (Proc (p_region P) (p_num_pages P) (p_msi P) out1) =
          (Ret (PagePtr (p * page_size)), P1)) as Hget.
  { unfold getResponse. mby (apply get_msi_ok; [lia|exact E]).
    destruct st; [|idtac|done].
    - mby (apply set_msi_ok; simpl; lia). mby (by apply offset_arith). done.
    - mby (by apply offset_arith). unfold P1. by rewrite list_insert_id. }
  assert (handle_request page_size events madvise_ret p readOp P =
          (Ret w, served p st st_s w P)) as Hq.
  2: { mrun Hq. by destruct w. }
  unfold handle_request. mstep.
  mby (apply get_msi_ok; [lia|exact E]).
  minto.
  { change (readOp =? invalidateOp) with false. change (readOp =? readOp) with true.
    cbv iota. mby (apply Hget).
    minto. { unfold transitionStateOnRead. mby (apply get_msi_ok; [lia|exact E1]). reflexivity. }
    mby (apply load_held; [by split; simpl; rewrite ?length_insert|done|done|done]).
    by rewrite snprintf_msg. }
  reflexivity.
Qed.
End steps.
