(* ===== verification/S2dsmCoherence.v ===== *)
(** Part 3 of [s2dsm.c]: the two processes implement one shared memory.

    [Spec] is what the program promises: a memory of pages, the last message
    written to each, where a read prints the message of the page, whichever
    process it is typed at.  [coherent] relates it to a pair of processes: a
    page is invalid in both, modified in one and invalid in the other, or
    shared by both with the same contents.  Every command keeps the relation
    and prints what [Spec] prints. *)
From S2P Require Import Prelude CInt CString Region S2dsm S2dsmSteps.
Local Open Scope Z_scope.

(** The pages a command is about: page [-1] stands for all of them. *)
Definition pages_of (np request_page : Z) : list Z :=
  if request_page =? -1 then seqZ 0 np else [request_page].

Definition page_ok (np request_page : Z) : Prop :=
  request_page = -1 ∨ 0 ≤ request_page < np.

(** The pages printed, as (page, contents). *)
Fixpoint page_lines (out : list line) : list (Z * bytes) :=
  match out with
  | [] => []
  | PageLine j s :: out' => (j, s) :: page_lines out'
  | _ :: out' => page_lines out'
  end.

Lemma page_lines_app o1 o2 : page_lines (o1 ++ o2) = page_lines o1 ++ page_lines o2.
Proof. induction o1 as [|[] o1 IH]; simpl; rewrite ?IH; done. Qed.

Module Spec.
Abbreviation memory := (gmap Z bytes).

Definition read (σ : memory) (p : Z) : Z * bytes := (p, default [] (σ !! p)).

Definition write_all (w : bytes) (pages : list Z) (σ : memory) : memory :=
  foldl (λ σ p, <[p := w]> σ) σ pages.

(** The memory after a command, and the pages it prints. *)
Definition step (np : Z) (c : command) (σ : memory) : memory * list (Z * bytes) :=
  match c with
  | CmdRead rp => (σ, map (read σ) (pages_of np rp))
  | CmdWrite rp w =>
      let σ' := write_all w (pages_of np rp) σ in (σ', map (read σ') (pages_of np rp))
  | CmdView | CmdOther _ => (σ, [])
  end.

Fixpoint steps (np : Z) (cs : list (who * command)) (σ : memory) : memory :=
  match cs with
  | [] => σ
  | (_, c) :: cs' => steps np cs' (fst (step np c σ))
  end.
End Spec.

(** What the user may type: pages that exist, messages that are strings of
    less than a page other than [NULL]. *)
Definition command_ok (page_size np : Z) (c : command) : Prop :=
  match c with
  | CmdRead rp => page_ok np rp
  | CmdWrite rp w => page_ok np rp ∧ msg_ok page_size w
  | CmdView | CmdOther _ => True
  end.

(** ** The loop over pages *)

Lemma page_loop_range {T} (body : Z → M T unit) k i fuel bound s :
  0 ≤ i → (k < fuel)%nat → i + Z.of_nat k ≤ INT_MAX → bound = i + Z.of_nat k - 1 →
  page_loop fuel bound i body s = for_each (seqZ i (Z.of_nat k)) body s.
Proof.
  unfold INT_MAX. revert i fuel s. induction k as [|k IH]; intros i fuel s Hi Hf Hm ->.
  all: destruct fuel as [|fuel]; [lia|]; simpl page_loop; rewrite u64_small by lia.
  { by destruct (Z.leb_spec i (i + Z.of_nat 0 - 1)); [lia|]. }
  destruct (Z.leb_spec i (i + Z.of_nat (S k) - 1)); [|lia].
  rewrite seqZ_cons by lia. simpl for_each.
  replace (Z.pred (Z.of_nat (S k))) with (Z.of_nat k) by lia.
  unfold mbind at 1 3, m_bind. destruct (body i s) as [[[]|e] s']; [|done].
  mby (apply int_arith_ok; unfold INT_MIN, INT_MAX; lia).
  apply IH; lia.
Qed.

(** It runs its body on the requested pages in order and ends. *)
Lemma for_pages_int {T} np rp (body : Z → M T unit) s :
  1 ≤ np ≤ INT_MAX → page_ok np rp →
  for_pages np rp body s = for_each (pages_of np rp) body s.
Proof.
  unfold INT_MAX. intros Hnp Hrp. unfold for_pages, last_page, first_page, pages_of.
  destruct (Z.eqb_spec rp (-1)) as [->|Hne].
  - rewrite u64_small by lia.
    rewrite (page_loop_range body (Z.to_nat np)) by (unfold INT_MAX; lia).
    by rewrite Z2Nat.id by lia.
  - destruct Hrp as [|Hrp]; [lia|]. rewrite u64_small by lia.
    rewrite (page_loop_range body 1) by (unfold INT_MAX; lia). done.
Qed.

Lemma for_pages_range {T} np rp (body : Z → M T unit) s :
  1 ≤ np ≤ 99 → page_ok np rp →
  for_pages np rp body s = for_each (pages_of np rp) body s.
Proof. intros. apply for_pages_int; [unfold INT_MAX; lia|done]. Qed.

Lemma elem_of_pages_of np rp p :
  page_ok np rp → p ∈ pages_of np rp → 0 ≤ p < np.
Proof.
  unfold pages_of. intros Hrp. destruct (Z.eqb_spec rp (-1)).
  - intros ?%elem_of_seqZ. lia.
  - intros ->%list_elem_of_singleton. destruct Hrp; lia.
Qed.

(** ** The relation *)

Definition absent (r : region) (p : Z) : Prop := r_pages r !! p = None.

Definition msi (P : proc) (p : Z) : option state := p_msi P !! Z.to_nat p.

Inductive page_coherent (page_size : Z) (σ : Spec.memory) (A B : proc) (p : Z) : Prop :=
  | coh_invalid :
      msi A p = Some st_i → msi B p = Some st_i → σ !! p = None →
      absent (p_region A) p → absent (p_region B) p → page_coherent page_size σ A B p
  | coh_modified_l w :
      msi A p = Some st_m → msi B p = Some st_i → σ !! p = Some w → msg_ok page_size w →
      holds (p_region A) p w → absent (p_region B) p → page_coherent page_size σ A B p
  | coh_modified_r w :
      msi A p = Some st_i → msi B p = Some st_m → σ !! p = Some w → msg_ok page_size w →
      absent (p_region A) p → holds (p_region B) p w → page_coherent page_size σ A B p
  | coh_shared w :
      msi A p = Some st_s → msi B p = Some st_s → σ !! p = Some w → msg_ok page_size w →
      holds (p_region A) p w → holds (p_region B) p w → page_coherent page_size σ A B p.

Record coherent (page_size np : Z) (σ : Spec.memory) (st : proc * proc) : Prop := {
  coh_wf_l : proc_wf page_size np (fst st);
  coh_wf_r : proc_wf page_size np (snd st);
  coh_pages : ∀ p, 0 ≤ p < np → page_coherent page_size σ (fst st) (snd st) p;
}.

Lemma page_coherent_sym page_size σ A B p :
  page_coherent page_size σ A B p → page_coherent page_size σ B A p.
Proof.
  destruct 1; [eapply coh_invalid|eapply coh_modified_r|eapply coh_modified_l|eapply coh_shared];
    eauto.
Qed.

Lemma coherent_swap page_size np σ st :
  coherent page_size np σ st → coherent page_size np σ (swap_pair st).
Proof.
  intros [? ? Hp]. split; [done..|]. intros p ?. by apply page_coherent_sym, Hp.
Qed.

(** Page [q] is the same in the two states of a process. *)
Definition same_page (q : Z) (P P' : proc) : Prop :=
  r_pages (p_region P') !! q = r_pages (p_region P) !! q ∧ msi P' q = msi P q.

Lemma page_coherent_frame page_size σ σ' A A' B B' q :
  same_page q A A' → same_page q B B' → σ' !! q = σ !! q →
  page_coherent page_size σ A B q → page_coherent page_size σ' A' B' q.
Proof.
  intros [HA HmA] [HB HmB] Hσ. unfold absent, holds in *.
  destruct 1; [eapply coh_invalid|eapply coh_modified_l|eapply coh_modified_r|eapply coh_shared];
    unfold absent, holds; rewrite ?HmA, ?HmB, ?HA, ?HB, ?Hσ; eauto.
Qed.

Section coherence.
Context (page_size : Z) (events : Z → uffd_events).
Context (madvise_ret : Z → Z) (dead : dead_read → bytes → bytes).
Context {HE : DsmEnv page_size events madvise_ret dead}.
Context (np : Z) (Hnp : 1 ≤ np ≤ 99).

#[local] Abbreviation xchg := (peer_xchg page_size events madvise_ret).
#[local] Abbreviation zero_page := (λ _ : Z, replicate (Z.to_nat page_size) 0).
#[local] Abbreviation proc_wf := (proc_wf page_size np).
#[local] Abbreviation msg_ok := (msg_ok page_size).
#[local] Abbreviation page_coherent := (page_coherent page_size).
#[local] Abbreviation coherent := (coherent page_size np).
#[local] Existing Instance dsm_pager.

Lemma dead_id u b : dead u b = b.
Proof. eapply env_dead; eauto. Qed.

Lemma msi_Some_lt P p v : msi P p = Some v → (Z.to_nat p < length (p_msi P))%nat.
Proof. apply lookup_lt_Some. Qed.

Lemma page_coherent_msi σ A B p :
  page_coherent σ A B p → ∃ a b, msi A p = Some a ∧ msi B p = Some b.
Proof. destruct 1; eauto. Qed.

(** ** The client's side of a request *)

Lemma communicate_ok p op A B B' data :
  0 ≤ p < np → 0 ≤ op < 10 → data ≠ [] →
  xchg (request_message p op) B = (Ret (Z.of_nat (length data), data), B') →
  communicateWithPeer page_size xchg p op (A, B) = (Ret (read_buffer page_size data), (A, B')).
Proof.
  intros Hp Ho Hd Hx. pose proof (page_size_bounds page_size events madvise_ret dead).
  pose proof (length_request p op ltac:(lia) ltac:(lia)).
  unfold communicateWithPeer.
  destruct (Z.leb_spec (Z.of_nat (length (request_message p op)) + 1) page_size); [|lia].
  mstep. mby (by apply on_snd_Ret).
  destruct data as [|c data]; [done|].
  destruct (Z.ltb_spec (Z.of_nat (length (c :: data))) 0); [lia|].
  by destruct (Z.eqb_spec (Z.of_nat (length (c :: data))) 0); [simpl in *; lia|].
Qed.

(** ** Storing a message *)

Definition stored (p : Z) (w : bytes) (P : proc) : proc :=
  set_region (set_page p (w ++ 0 :: drop (S (length w)) (content zero_page (p_region P) p))
                (paged zero_page (p_region P) p)) P.

Lemma store_message P p w :
  proc_wf P → 0 ≤ p < np → cstr_ok w → Z.of_nat (length w) < page_size →
  mem_store_list page_size events (p * page_size) (cstr w ++ [0]) P = (Ret tt, stored p w P).
Proof.
  intros [Hr _ _] Hp Hw Hlen. unfold mem_store_list. apply on_region_Ret.
  replace (p * page_size) with (p * page_size + 0) by lia.
  rewrite cstr_id by done.
  rewrite (store_list_ok page_size _ zero_page np); try done.
  - do 2 f_equal. simpl. rewrite <- app_assoc. simpl. do 3 f_equal.
    rewrite length_app. simpl. lia.
  - rewrite length_app. simpl. lia.
  - by destruct w.
Qed.

Lemma stored_wf P p w :
  proc_wf P → 0 ≤ p < np → Z.of_nat (length w) < page_size → proc_wf (stored p w P).
Proof.
  intros HP Hp Hlen. pose proof HP as [Hr ? ?]. apply set_region_wf; [done|].
  apply set_page_wf; [by apply (paged_wf page_size (dsm_handler page_size events) zero_page)|].
  pose proof (length_content page_size (dsm_handler page_size events) zero_page np _ p Hr).
  rewrite length_app. simpl. rewrite length_drop. lia.
Qed.

Lemma stored_holds P p w : holds (p_region (stored p w P)) p w.
Proof. eexists. apply set_page_lookup. Qed.

Lemma stored_same P p q w : p ≠ q → same_page q P (stored p w P).
Proof.
  intros. split; [|done]. simpl. rewrite lookup_insert_ne by done.
  by apply paged_lookup_ne.
Qed.

(** ** A write to one page *)

Definition written (p : Z) (w : bytes) (P : proc) : proc :=
  Proc (p_region (stored p w P)) (p_num_pages P) (<[Z.to_nat p := st_m]> (p_msi P))
    (p_out P ++ [WriteInfo p]).

Lemma msi_insert P p q v r n o :
  0 ≤ p → 0 ≤ q → (Z.to_nat p < length (p_msi P))%nat →
  msi (Proc r n (<[Z.to_nat p := v]> (p_msi P)) o) q = if decide (p = q) then Some v else msi P q.
Proof.
  intros. unfold msi. simpl. case_decide; subst.
  - by apply list_lookup_insert_eq.
  - apply list_lookup_insert_ne. lia.
Qed.

Lemma update_page_ok A B p w b :
  proc_wf A → proc_wf B → 0 ≤ p < np → cstr_ok w → Z.of_nat (length w) < page_size →
  is_Some (msi A p) → msi B p = Some b →
  update_page page_size events xchg w true p (A, B)
  = (Ret tt, (written p w A, invalidated p b B)).
Proof.
  intros HA HB Hp Hw Hlen [a Ha] Hb. unfold update_page.
  mby (by eapply offset_arith; eauto).
  mby (by apply on_fst_Ret, store_message).
  unfold transitionStateOnWrite.
  mby (by apply on_fst_Ret, get_msi_ok; [lia|exact Ha]).
  assert ((on_fst (set_msi p st_m);; on_fst (emit (WriteInfo p));;
           communicateWithPeer page_size xchg p invalidateOp;; mret tt) (stored p w A, B) =
          (Ret tt, (written p w A, invalidated p b B))) as E; [|by destruct a].
  mby (apply on_fst_Ret, set_msi_ok; simpl; apply msi_Some_lt in Ha; lia).
  mstep.
  assert (xchg (request_message p invalidateOp) B =
    (Ret (Z.of_nat (length (str "Success")), str "Success"), invalidated p b B)) as Hx.
  { by eapply peer_invalidate; eauto. }
  mby (by eapply communicate_ok; [..|exact Hx]).
  done.
Qed.

Lemma written_wf P p w :
  proc_wf P → 0 ≤ p < np → Z.of_nat (length w) < page_size → proc_wf (written p w P).
Proof.
  intros HP Hp Hlen. destruct (stored_wf P p w HP Hp Hlen) as [? ? ?].
  split; simpl; [done|done|]. by rewrite length_insert.
Qed.

Lemma invalidated_wf P p b : proc_wf P → proc_wf (invalidated p b P).
Proof.
  intros [? ? ?]. split; simpl; [by apply delete_page_wf|done|]. by rewrite length_insert.
Qed.

Lemma served_wf P p b b' w : proc_wf P → proc_wf (served p b b' w P).
Proof. intros [? ? ?]. split; simpl; [done|done|]. by rewrite length_insert. Qed.

Lemma written_same P p q w :
  0 ≤ p → 0 ≤ q → p ≠ q → same_page q P (written p w P).
Proof.
  intros. split; [by apply (stored_same P p q w)|].
  unfold written, msi. simpl. apply list_lookup_insert_ne. lia.
Qed.

Lemma invalidated_same P p q b :
  0 ≤ p → 0 ≤ q → p ≠ q → same_page q P (invalidated p b P).
Proof.
  intros. split; simpl; [by apply lookup_delete_ne|].
  unfold msi. simpl. apply list_lookup_insert_ne. lia.
Qed.

Lemma served_same P p q b b' w :
  0 ≤ p → 0 ≤ q → p ≠ q → same_page q P (served p b b' w P).
Proof.
  intros. split; simpl; [done|]. unfold msi. simpl. apply list_lookup_insert_ne. lia.
Qed.

(** A write to a page makes it modified here, invalid there, and the rest of
    the memory is as before. *)
Lemma write_page_step σ A B p w :
  coherent σ (A, B) → 0 ≤ p < np → msg_ok w →
  ∃ A' B', update_page page_size events xchg w true p (A, B) = (Ret tt, (A', B')) ∧
    coherent (<[p := w]> σ) (A', B') ∧
    (∀ q, 0 ≤ q → msi A' q = if decide (p = q) then Some st_m else msi A q) ∧
    page_lines (p_out A') = page_lines (p_out A) ∧
    page_lines (p_out B') = page_lines (p_out B).
Proof.
  intros [HA HB Hpg] Hp Hw. simpl in *. pose proof Hw as (Hok & _ & _ & Hlen).
  destruct (page_coherent_msi _ _ _ _ (Hpg p Hp)) as (a & b & Ha & Hb).
  exists (written p w A), (invalidated p b B).
  split; [by apply update_page_ok; eauto|].
  pose proof (msi_Some_lt _ _ _ Ha) as Hla. pose proof (msi_Some_lt _ _ _ Hb) as Hlb.
  split_and!.
  - split; simpl; [by apply written_wf|by apply invalidated_wf|].
    intros q Hq. destruct (decide (p = q)) as [<-|Hne].
    + eapply coh_modified_l; [| |by apply lookup_insert_eq|done|by eexists; apply set_page_lookup|].
      * unfold written. rewrite msi_insert by (done || lia). by rewrite decide_True.
      * unfold invalidated. rewrite msi_insert by (done || lia). by rewrite decide_True.
      * apply lookup_delete_eq.
    + eapply page_coherent_frame; [by apply written_same; lia|by apply invalidated_same; lia| |by apply Hpg].
      by apply lookup_insert_ne.
  - intros q Hq. unfold written. by rewrite msi_insert by lia.
  - simpl. by rewrite page_lines_app, app_nil_r.
  - simpl. rewrite !page_lines_app. by rewrite !app_nil_r.
Qed.

(** ** A read of one page *)

Definition printed (p : Z) (w : bytes) (P : proc) : proc :=
  Proc (p_region P) (p_num_pages P) (p_msi P) (p_out P ++ [PageLine p w]).

(** A page that is present and not invalid is printed, and nothing else
    happens. *)
Lemma print_page_present fetch A B p w st :
  proc_wf A → 0 ≤ p < np → msi A p = Some st → st ≠ st_i →
  holds (p_region A) p w → cstr_ok w → Z.of_nat (length w) < page_size →
  print_page page_size events madvise_ret dead xchg fetch p (A, B) =
    (Ret tt, (printed p w A, B)).
Proof.
  intros HA Hp Hst Hne Hh Hw Hlen. unfold print_page.
  mby (by eapply offset_arith; eauto).
  mby (by apply on_fst_Ret; eapply load_held; eauto).
  destruct (Z.leb_spec (Z.of_nat (length w)) page_size); [|lia]. mstep.
  mby (by apply on_fst_Ret, get_msi_ok; [lia|exact Hst]).
  by destruct st; [mstep|mstep|].
Qed.

(** The first look at a page that is missing: it is paged in as zeros. *)
Definition touched (p : Z) (P : proc) : proc :=
  set_region (paged zero_page (p_region P) p) P.

Lemma load_missing P p :
  proc_wf P → 0 ≤ p < np → absent (p_region P) p →
  mem_load_cstr page_size events (p * page_size) P = (Ret [], touched p P).
Proof.
  intros [Hr _ _] Hp Ha. pose proof (page_size_bounds page_size events madvise_ret dead).
  unfold mem_load_cstr. apply on_region_Ret.
  assert (∃ n, Z.to_nat page_size = S n) as [n E] by (exists (pred (Z.to_nat page_size)); lia).
  eapply (load_cstr_ok page_size _ zero_page np _ p [] (replicate n 0));
    [done|done| |by constructor].
  unfold content. rewrite Ha. simpl. by rewrite E.
Qed.

Lemma touched_wf P p : proc_wf P → proc_wf (touched p P).
Proof.
  intros HP. pose proof HP as [? ? ?]. apply set_region_wf; [done|].
  by apply (paged_wf page_size (dsm_handler page_size events) zero_page).
Qed.

Lemma touched_same P p q : p ≠ q → same_page q P (touched p P).
Proof. intros. split; [|done]. by apply paged_lookup_ne. Qed.

(** An answer [NULL]: the page is dropped again and prints empty. *)
Lemma fetch_null A B B' p :
  0 ≤ p < np → xchg (request_message p readOp) B = (Ret (4, str "NULL"), B') →
  fetch_page page_size events madvise_ret dead xchg p (A, B) =
    (Ret [], (set_region (set_pages (delete p) (p_region A)) A, B')).
Proof.
  intros Hp Hx. pose proof (page_size_bounds page_size events madvise_ret dead).
  unfold fetch_page.
  mby (by eapply (communicate_ok p readOp _ _ _ (str "NULL"))).
  rewrite !dead_id.
  mby (apply as_string_buffer; [by apply (bool_decide_unpack _)|simpl; lia]).
  rewrite bool_decide_true by done.
  mby (by eapply offset_arith; eauto).
  mby (eapply on_fst_Ret, drop_page_ok; eauto).
  done.
Qed.

(** The peer has no copy. *)
Lemma fetch_invalid A B p :
  proc_wf B → 0 ≤ p < np → msi B p = Some st_i →
  fetch_page page_size events madvise_ret dead xchg p (A, B) =
    (Ret [], (set_region (set_pages (delete p) (p_region A)) A,
              served p st_i st_i (str "NULL") B)).
Proof. intros. apply fetch_null; [done|]. by eapply peer_read_invalid; eauto. Qed.

Definition fetched (p : Z) (w : bytes) (P : proc) : proc :=
  Proc (p_region (stored p w P)) (p_num_pages P) (<[Z.to_nat p := st_s]> (p_msi P)) (p_out P).

(** An answer other than [NULL] is stored and the page is shared. *)
Lemma fetch_data {X} (ask : bytes → M X (Z * bytes)) A A1 x x' p w :
  communicateWithPeer page_size ask p readOp (A, x) = (Ret (read_buffer page_size w), (A1, x')) →
  proc_wf A1 → 0 ≤ p < np → is_Some (msi A1 p) →
  cstr_ok w → w ≠ str "NULL" → Z.of_nat (length w) < page_size →
  fetch_page page_size events madvise_ret dead ask p (A, x) = (Ret w, (fetched p w A1, x')).
Proof.
  intros Hcomm HA Hp [a Ha] Hok Hnull Hlen. unfold fetch_page. mrun Hcomm.
  rewrite !dead_id.
  mby (by apply as_string_buffer).
  rewrite bool_decide_false by done.
  mby (by apply as_string_buffer).
  minto.
  { unfold updatePageContents. mstep. rewrite (pw_num_pages _ _ _ HA).
    rewrite for_pages_range by (done || by right). unfold pages_of.
    destruct (Z.eqb_spec p (-1)); [lia|]. simpl for_each.
    minto; [|done]. unfold update_page.
    mby (by eapply offset_arith; eauto).
    mby (by apply on_fst_Ret, store_message). done. }
  mby (apply on_fst_Ret, set_msi_ok; simpl; apply msi_Some_lt in Ha; lia).
  mby (by apply as_string_buffer).
  destruct (Z.leb_spec (Z.of_nat (length w)) page_size); [|lia]. done.
Qed.

(** The peer has a copy: it is stored here and both share it. *)
Lemma fetch_held A B p b w :
  proc_wf A → proc_wf B → 0 ≤ p < np → is_Some (msi A p) → msi B p = Some b → b ≠ st_i →
  holds (p_region B) p w → msg_ok w →
  fetch_page page_size events madvise_ret dead xchg p (A, B) =
    (Ret w, (fetched p w A, served p b st_s w B)).
Proof.
  intros HA HB Hp Ha Hb Hne Hh (Hok & Hnil & Hnull & Hlen).
  apply fetch_data; try done.
  eapply communicate_ok; [done|done|done|]. by eapply peer_read_held; eauto.
Qed.

(** The state in which an invalid page is fetched. *)
Definition fetching (p : Z) (P : proc) : proc :=
  Proc (p_region (touched p P)) (p_num_pages P) (p_msi P) (p_out P ++ [FetchInfo]).

Lemma print_page_missing {X} (ask : bytes → M X (Z * bytes)) A A2 B B2 p w :
  proc_wf A → 0 ≤ p < np → msi A p = Some st_i → absent (p_region A) p →
  fetch_page page_size events madvise_ret dead ask p (fetching p A, B) = (Ret w, (A2, B2)) →
  print_page page_size events madvise_ret dead ask true p (A, B) =
    (Ret tt, (printed p w A2, B2)).
Proof.
  intros HA Hp Ha Habs Hf. pose proof (page_size_bounds page_size events madvise_ret dead).
  unfold print_page.
  mby (by eapply offset_arith; eauto).
  mby (by apply on_fst_Ret, load_missing).
  simpl length. destruct (Z.leb_spec (Z.of_nat 0) page_size); [|lia]. mstep.
  mby (by apply on_fst_Ret, get_msi_ok; [lia|exact Ha]).
  minto. { mstep. exact Hf. }
  done.
Qed.

Lemma fetching_wf P p : proc_wf P → proc_wf (fetching p P).
Proof. intros HP. destruct (touched_wf P p HP) as [? ? ?]. by split. Qed.

Lemma printed_wf P p w : proc_wf P → proc_wf (printed p w P).
Proof. intros [? ? ?]. by split. Qed.

Lemma dropped_wf P p : proc_wf P → proc_wf (set_region (set_pages (delete p) (p_region P)) P).
Proof. intros [? ? ?]. split; simpl; [by apply delete_page_wf|done|done]. Qed.

Lemma fetched_wf P p w :
  proc_wf P → 0 ≤ p < np → Z.of_nat (length w) < page_size → proc_wf (fetched p w P).
Proof.
  intros HP Hp Hlen. destruct (stored_wf P p w HP Hp Hlen) as [? ? ?].
  split; simpl; [done|done|]. by rewrite length_insert.
Qed.

Lemma dropped_same P p q :
  p ≠ q → same_page q P (printed p [] (set_region (set_pages (delete p)
                           (p_region (fetching p P))) (fetching p P))).
Proof.
  intros. split; simpl; [|done]. rewrite lookup_delete_ne by done. by apply paged_lookup_ne.
Qed.

Lemma fetched_same P p q w :
  0 ≤ p → 0 ≤ q → p ≠ q → same_page q P (printed p w (fetched p w (fetching p P))).
Proof.
  intros. split; simpl.
  - rewrite lookup_insert_ne by done. rewrite !paged_lookup_ne by done. done.
  - unfold msi. simpl. apply list_lookup_insert_ne. lia.
Qed.

Lemma served_lines P p b b' w : page_lines (p_out (served p b b' w P)) = page_lines (p_out P).
Proof. simpl. rewrite !page_lines_app. by rewrite !app_nil_r. Qed.

(** The three ways a read of a page goes. *)
Lemma read_present σ A B p w st :
  coherent σ (A, B) → 0 ≤ p < np → σ !! p = Some w → msg_ok w →
  msi A p = Some st → st ≠ st_i → holds (p_region A) p w →
  ∃ A' B', print_page page_size events madvise_ret dead xchg true p (A, B)
      = (Ret tt, (A', B')) ∧
    coherent σ (A', B') ∧
    page_lines (p_out A') = page_lines (p_out A) ++ [Spec.read σ p] ∧
    page_lines (p_out B') = page_lines (p_out B).
Proof.
  intros [HA HB Hpg] Hp Hσ Hw Hst Hne Hh. exists (printed p w A), B.
  pose proof Hw as (? & _ & _ & ?).
  split; [by eapply print_page_present; eauto|]. split_and!; [|simpl|done].
  - split; [by apply printed_wf|done|]. intros q Hq.
    by apply (page_coherent_frame _ σ σ A (printed p w A) B B q); [split|split| |apply Hpg].
  - unfold Spec.read. by rewrite page_lines_app, Hσ.
Qed.

Lemma read_invalid σ A B p :
  coherent σ (A, B) → 0 ≤ p < np → σ !! p = None →
  msi A p = Some st_i → msi B p = Some st_i →
  absent (p_region A) p → absent (p_region B) p →
  ∃ A' B', print_page page_size events madvise_ret dead xchg true p (A, B)
      = (Ret tt, (A', B')) ∧
    coherent σ (A', B') ∧
    page_lines (p_out A') = page_lines (p_out A) ++ [Spec.read σ p] ∧
    page_lines (p_out B') = page_lines (p_out B).
Proof.
  intros [HA HB Hpg] Hp Hσ Ha Hb HaA HaB. do 2 eexists.
  split; [eapply print_page_missing; try done; by apply fetch_invalid|].
  split_and!; [|simpl|apply served_lines].
  - split; [by apply printed_wf, dropped_wf, fetching_wf|by apply served_wf|].
    intros q Hq. destruct (decide (p = q)) as [<-|Hne]; simpl.
    + apply coh_invalid; [done| |done|by apply lookup_delete_eq|done].
      unfold served. rewrite msi_insert by (apply msi_Some_lt in Hb; lia). by rewrite decide_True.
    + eapply page_coherent_frame; [by apply dropped_same|by apply served_same; lia|done|by apply Hpg].
  - rewrite !page_lines_app. simpl. unfold Spec.read. by rewrite app_nil_r, Hσ.
Qed.

Lemma read_shared σ A B p b w :
  coherent σ (A, B) → 0 ≤ p < np → σ !! p = Some w → msg_ok w →
  msi A p = Some st_i → msi B p = Some b → b ≠ st_i →
  absent (p_region A) p → holds (p_region B) p w →
  ∃ A' B', print_page page_size events madvise_ret dead xchg true p (A, B)
      = (Ret tt, (A', B')) ∧
    coherent σ (A', B') ∧
    page_lines (p_out A') = page_lines (p_out A) ++ [Spec.read σ p] ∧
    page_lines (p_out B') = page_lines (p_out B).
Proof.
  intros [HA HB Hpg] Hp Hσ Hw Ha Hb Hne Habs Hh. pose proof Hw as (_ & _ & _ & Hlen).
  do 2 eexists.
  split; [eapply print_page_missing; try done;
          eapply (fetch_held _ _ p b w);
          first [done | by apply fetching_wf | by eexists]|].
  split_and!; [|simpl|apply served_lines].
  - split; [by apply printed_wf, fetched_wf; [apply fetching_wf| |]|by apply served_wf|].
    intros q Hq. destruct (decide (p = q)) as [<-|Hpq]; simpl.
    + eapply coh_shared; [| |done|done|by eexists; apply set_page_lookup|done].
      * change (msi (fetched p w (fetching p A)) p = Some st_s). unfold fetched.
        rewrite msi_insert by (apply msi_Some_lt in Ha; simpl; lia). by rewrite decide_True.
      * unfold served. rewrite msi_insert by (apply msi_Some_lt in Hb; lia). by rewrite decide_True.
    + eapply page_coherent_frame; [by apply fetched_same; lia|by apply served_same; lia|done|by apply Hpg].
  - rewrite !page_lines_app. simpl. unfold Spec.read. by rewrite app_nil_r, Hσ.
Qed.

(** A read of a page prints the last message written to it. *)
Lemma read_page_step σ A B p :
  coherent σ (A, B) → 0 ≤ p < np →
  ∃ A' B', print_page page_size events madvise_ret dead xchg true p (A, B)
      = (Ret tt, (A', B')) ∧
    coherent σ (A', B') ∧
    page_lines (p_out A') = page_lines (p_out A) ++ [Spec.read σ p] ∧
    page_lines (p_out B') = page_lines (p_out B).
Proof.
  intros Hc Hp. destruct (coh_pages _ _ _ _ Hc p Hp).
  - by eapply read_invalid.
  - by eapply (read_present σ A B p w st_m).
  - by eapply (read_shared σ A B p st_m w).
  - by eapply (read_present σ A B p w st_s).
Qed.

(** ** Commands *)

Lemma pages_of_one p : 0 ≤ p → pages_of np p = [p].
Proof. intros. unfold pages_of. by destruct (Z.eqb_spec p (-1)); [lia|]. Qed.

Lemma coherent_num_pages σ A B : coherent σ (A, B) → p_num_pages A = np.
Proof. intros [[] _ _]. done. Qed.

(** The loops of one page. *)
Lemma print_one {X} (ask : bytes → M X (Z * bytes)) fetch A A' B B' p :
  p_num_pages A = np → 0 ≤ p < np →
  print_page page_size events madvise_ret dead ask fetch p (A, B) = (Ret tt, (A', B')) →
  printPageContents page_size events madvise_ret dead ask p fetch (A, B) = (Ret tt, (A', B')).
Proof.
  intros Hn Hp Hrun. unfold printPageContents. mstep. rewrite Hn, for_pages_range by (done || by right).
  rewrite pages_of_one by lia. simpl. by mrun Hrun.
Qed.

Lemma update_one {X} (ask : bytes → M X (Z * bytes)) transition w A A' B B' p :
  p_num_pages A = np → 0 ≤ p < np →
  update_page page_size events ask w transition p (A, B) = (Ret tt, (A', B')) →
  updatePageContents page_size events ask p w transition (A, B) = (Ret tt, (A', B')).
Proof.
  intros Hn Hp Hrun. unfold updatePageContents. mstep. rewrite Hn, for_pages_range by (done || by right).
  rewrite pages_of_one by lia. simpl. by mrun Hrun.
Qed.

(** A write to one page, whatever the message says. *)
Lemma run_write_one A B p w b :
  proc_wf A → proc_wf B → 0 ≤ p < np → is_Some (msi A p) → msi B p = Some b →
  cstr_ok w → Z.of_nat (length w) < page_size →
  run_command page_size events madvise_ret dead xchg (CmdWrite p w) (A, B) =
    (Ret tt, (printed p w (written p w A), invalidated p b B)).
Proof.
  intros HA HB Hp Ha Hb Hw Hlen. simpl.
  destruct (Z.leb_spec (Z.of_nat (length w) + 1) page_size); [|lia]. mstep.
  unfold strlen. rewrite cstr_id by done.
  destruct (Z.ltb_spec page_size (Z.of_nat (length w))); [lia|]. mstep.
  mby (apply update_one; [apply HA|done|by apply update_page_ok]).
  pose proof (written_wf A p w HA Hp Hlen) as HW.
  apply print_one; [apply HW|done|]. destruct Ha as [a Ha].
  eapply (print_page_present _ _ _ _ _ st_m); try done; [|by eexists; apply set_page_lookup].
  unfold written. rewrite msi_insert by (apply msi_Some_lt in Ha; (done || lia)).
  by rewrite decide_True.
Qed.

Lemma read_pages σ A B rp :
  coherent σ (A, B) → page_ok np rp →
  ∃ A' B', printPageContents page_size events madvise_ret dead xchg rp true (A, B)
      = (Ret tt, (A', B')) ∧
    coherent σ (A', B') ∧
    page_lines (p_out A') = page_lines (p_out A) ++ map (Spec.read σ) (pages_of np rp) ∧
    page_lines (p_out B') = page_lines (p_out B).
Proof.
  intros Hc Hrp. unfold printPageContents. eapply ex_ex_pair.
  destruct (for_each_inv (print_page page_size events madvise_ret dead xchg true)
    (λ l st, coherent σ st ∧
       page_lines (p_out st.1) = page_lines (p_out A) ++ map (Spec.read σ) l ∧
       page_lines (p_out st.2) = page_lines (p_out B)) (pages_of np rp) (A, B))
    as ([A' B'] & Hrun & HP).
  - split_and!; [done|by rewrite app_nil_r|done].
  - intros l1 p l2 [A0 B0] Hl (Hc0 & HA0 & HB0).
    destruct (read_page_step σ A0 B0 p) as (A1 & B1 & Hr & Hc1 & HA1 & HB1); [done| |].
    { apply (elem_of_pages_of np rp); [done|]. rewrite Hl. apply elem_of_mid. }
    exists (A1, B1). split_and!; simpl in *; [done..| |by rewrite HB1].
    by rewrite HA1, HA0, map_app, app_assoc.
  - exists (A', B'). split; [|exact HP]. mstep.
    rewrite (coherent_num_pages _ _ _ Hc). by rewrite for_pages_range.
Qed.

Lemma write_pages σ A B rp w :
  coherent σ (A, B) → page_ok np rp → msg_ok w →
  ∃ A' B', updatePageContents page_size events xchg rp w true (A, B) = (Ret tt, (A', B')) ∧
    coherent (Spec.write_all w (pages_of np rp) σ) (A', B') ∧
    (∀ q, q ∈ pages_of np rp → msi A' q = Some st_m) ∧
    page_lines (p_out A') = page_lines (p_out A) ∧
    page_lines (p_out B') = page_lines (p_out B).
Proof.
  intros Hc Hrp Hw. unfold updatePageContents. eapply ex_ex_pair.
  destruct (for_each_inv (update_page page_size events xchg w true)
    (λ l st, coherent (Spec.write_all w l σ) st ∧
       (∀ q, q ∈ l → 0 ≤ q → msi st.1 q = Some st_m) ∧
       page_lines (p_out st.1) = page_lines (p_out A) ∧
       page_lines (p_out st.2) = page_lines (p_out B)) (pages_of np rp) (A, B))
    as ([A' B'] & Hrun & Hc' & Hm & HP).
  - split_and!; [done| |done|done]. by intros q Hq; apply elem_of_nil in Hq.
  - intros l1 p l2 [A0 B0] Hl (Hc0 & Hm0 & HA0 & HB0).
    destruct (write_page_step (Spec.write_all w l1 σ) A0 B0 p w)
      as (A1 & B1 & Hr & Hc1 & Hm1 & HA1 & HB1); [done| |done|].
    { apply (elem_of_pages_of np rp); [done|]. rewrite Hl. apply elem_of_mid. }
    exists (A1, B1). split_and!; simpl in *; [done| | |by rewrite HA1|by rewrite HB1].
    + unfold Spec.write_all. by rewrite foldl_snoc.
    + intros q Hq Hq0. rewrite Hm1 by done. case_decide; [done|]. apply Hm0; [|done].
      apply elem_of_app in Hq as [?| ->%list_elem_of_singleton]; done.
  - exists (A', B'). split; [|split; [exact Hc'|split; [|exact HP]]].
    + mstep. rewrite (coherent_num_pages _ _ _ Hc). by rewrite for_pages_range.
    + intros q Hq. apply Hm; [done|]. apply elem_of_pages_of in Hq; [lia|done].
Qed.

(** Printing pages that are modified here. *)
Lemma print_written σ A B rp :
  coherent σ (A, B) → page_ok np rp →
  (∀ q, q ∈ pages_of np rp → msi A q = Some st_m) →
  ∃ A', printPageContents page_size events madvise_ret dead xchg rp false (A, B)
      = (Ret tt, (A', B)) ∧
    coherent σ (A', B) ∧
    page_lines (p_out A') = page_lines (p_out A) ++ map (Spec.read σ) (pages_of np rp).
Proof.
  intros Hc Hrp Hm. unfold printPageContents.
  destruct (for_each_inv (print_page page_size events madvise_ret dead xchg false)
    (λ l st, st.2 = B ∧ coherent σ st ∧ (∀ q, q ∈ pages_of np rp → msi st.1 q = Some st_m) ∧
       page_lines (p_out st.1) = page_lines (p_out A) ++ map (Spec.read σ) l)
    (pages_of np rp) (A, B)) as ([A' B'] & Hrun & HB & Hc' & _ & HP).
  - split_and!; [done|done|done|by rewrite app_nil_r].
  - intros l1 p l2 [A0 B0] Hl (HB0 & Hc0 & Hm0 & HA0). simpl in *. subst B0.
    assert (p ∈ pages_of np rp) as Hin by (rewrite Hl; apply elem_of_mid).
    pose proof (elem_of_pages_of _ _ _ Hrp Hin) as Hp. pose proof (Hm0 p Hin) as Hmp.
    destruct Hc0 as [HwA HwB Hpg].
    destruct (Hpg p Hp) as [| w ? ? Hσ Hw Hh ? | | w]; simpl in *; try congruence.
    exists (printed p w A0, B). pose proof Hw as (? & _ & _ & ?).
    split; [by eapply print_page_present|].
    split_and!; simpl; [done| |done|].
    + split; [by apply printed_wf|done|]. intros q Hq.
      by apply (page_coherent_frame _ σ σ A0 (printed p w A0) B B q); [split|split| |apply Hpg].
    + rewrite page_lines_app, HA0, map_app, <- app_assoc. simpl.
      assert (Spec.read σ p = (p, w)) as -> by (unfold Spec.read; by rewrite Hσ). done.
  - simpl in *. subst B'. exists A'. split; [|done]. mstep.
    rewrite (coherent_num_pages _ _ _ Hc). by rewrite for_pages_range.
Qed.

Lemma print_msi_ok P k j fuel :
  proc_wf P → 0 ≤ j → (k < fuel)%nat → j + Z.of_nat k = np →
  ∃ out, print_msi_loop fuel np j P =
      (Ret tt, Proc (p_region P) (p_num_pages P) (p_msi P) (p_out P ++ out)) ∧
    page_lines out = [].
Proof.
  revert P j fuel. induction k as [|k IH]; intros P j fuel HP Hj Hf Hk.
  all: destruct fuel as [|fuel]; [lia|]; simpl print_msi_loop; rewrite u64_small by lia.
  { exists []. destruct (Z.ltb_spec j np); [lia|]. rewrite app_nil_r. by destruct P. }
  destruct (Z.ltb_spec j np); [|lia].
  assert (is_Some (p_msi P !! Z.to_nat j)) as [v Hv].
  { apply lookup_lt_is_Some_2. rewrite (pw_msi _ _ _ HP). lia. }
  set (P1 := Proc (p_region P) (p_num_pages P) (p_msi P) (p_out P ++ [MsiLine j (getMSItype v)])).
  destruct (IH P1 (j + 1) fuel) as (out & Hrun & Hl); [by destruct HP|lia..|].
  exists (MsiLine j (getMSItype v) :: out). split; [|done].
  mby (by apply get_msi_ok). mstep. fold P1. rewrite Hrun. simpl. by rewrite <- app_assoc.
Qed.

(** A command at the first process follows [Spec]. *)
Lemma run_command_step σ A B c :
  coherent σ (A, B) → command_ok page_size np c →
  ∃ A' B', run_command page_size events madvise_ret dead xchg c (A, B) = (Ret tt, (A', B')) ∧
    coherent (fst (Spec.step np c σ)) (A', B') ∧
    page_lines (p_out A') = page_lines (p_out A) ++ snd (Spec.step np c σ) ∧
    page_lines (p_out B') = page_lines (p_out B).
Proof.
  intros Hc Hok. destruct c as [rp|rp w| |rp]; simpl in Hok |- *.
  - by apply read_pages.
  - destruct Hok as [Hrp Hw]. pose proof Hw as (Hcs & _ & _ & Hlen).
    destruct (write_pages σ A B rp w Hc Hrp Hw) as (A1 & B1 & Hr1 & Hc1 & Hm1 & HA1 & HB1).
    destruct (print_written _ A1 B1 rp Hc1 Hrp Hm1) as (A2 & Hr2 & Hc2 & HA2).
    exists A2, B1. split_and!; [|done|by rewrite HA2, HA1|done].
    destruct (Z.leb_spec (Z.of_nat (length w) + 1) page_size); [|lia]. mstep.
    unfold strlen. rewrite cstr_id by done.
    destruct (Z.ltb_spec page_size (Z.of_nat (length w))); [lia|]. mstep.
    by mrun Hr1.
  - pose proof (coh_wf_l _ _ _ _ Hc) as HA. simpl in HA.
    destruct (print_msi_ok A (Z.to_nat np) 0 (S (Z.to_nat np))) as (out & Hrun & Hl);
      [done|lia..|].
    do 2 eexists. split; [apply on_fst_Ret; unfold printMsiArray; mstep;
      rewrite (pw_num_pages _ _ _ HA); exact Hrun|].
    split_and!; simpl; [|by rewrite page_lines_app, Hl|done].
    destruct Hc as [? ? Hpg]. split; [by destruct HA|done|]. intros q Hq.
    by apply (page_coherent_frame _ σ σ A _ B B q); [split|split| |apply Hpg].
  - do 2 eexists. split; [reflexivity|]. split_and!; simpl; [|by rewrite page_lines_app|done].
    destruct Hc as [[] ? Hpg]. split; [done|done|]. intros q Hq.
    by apply (page_coherent_frame _ σ σ A _ B B q); [split|split| |apply Hpg].
Qed.

(** The process a command is typed at, and the other one. *)
Definition screen (w : who) (st : proc * proc) : list (Z * bytes) :=
  page_lines (p_out (match w with ProcA => fst st | ProcB => snd st end)).
Definition other (w : who) : who := match w with ProcA => ProcB | ProcB => ProcA end.

#[local] Abbreviation exec := (exec page_size events madvise_ret dead).
#[local] Abbreviation exec_all := (exec_all page_size events madvise_ret dead).

Lemma exec_step σ st w c :
  coherent σ st → command_ok page_size np c →
  ∃ st', exec w c st = (Ret tt, st') ∧
    coherent (fst (Spec.step np c σ)) st' ∧
    screen w st' = screen w st ++ snd (Spec.step np c σ) ∧
    screen (other w) st' = screen (other w) st.
Proof.
  intros Hc Hok. destruct st as [A B], w; simpl.
  - destruct (run_command_step σ A B c Hc Hok) as (A' & B' & ? & ? & ? & ?).
    by exists (A', B').
  - destruct (run_command_step σ B A c (coherent_swap _ _ _ _ Hc) Hok)
      as (B' & A' & Hrun & Hc' & ? & ?).
    exists (A', B'). unfold swap_pair. simpl. rewrite Hrun.
    split_and!; [done| |done|done]. by apply (coherent_swap _ _ _ (B', A')).
Qed.
End coherence.
