(* ===== verification/S2dsmTheorems.v ===== *)
(** Part 3 of [s2dsm.c]: the theorems.  The processes start as [main] leaves
    them after the mapping and [fillWithInvalid]; [reachable] are the pairs a
    user can bring about by typing commands one at a time. *)
From S2P Require Import Prelude CInt CString Region S2dsm S2dsmSteps S2dsmCoherence.
Local Open Scope Z_scope.

(** The statics before [fillWithInvalid]: a fresh mapping, and [msi_array] as
    the zero-initialised array it is (zero is [m]). *)
Definition boot (page_size np base : Z) : proc :=
  Proc (Region base (np * page_size) ∅ 0) np (replicate 100 st_m) [].

Definition base_ok (page_size np base : Z) : Prop :=
  0 ≤ base ∧ base mod page_size = 0 ∧ base + np * page_size ≤ 2 ^ 64.

Inductive reachable (page_size : Z) (events : Z → uffd_events) (madvise_ret : Z → Z)
    (dead : dead_read → bytes → bytes) (np : Z) : proc * proc → Prop :=
  | reach_start baseA baseB A B :
      base_ok page_size np baseA → base_ok page_size np baseB →
      fillWithInvalid (boot page_size np baseA) = (Ret tt, A) →
      fillWithInvalid (boot page_size np baseB) = (Ret tt, B) →
      reachable page_size events madvise_ret dead np (A, B)
  | reach_command st w c o st' :
      reachable page_size events madvise_ret dead np st →
      command_ok page_size np c →
      exec page_size events madvise_ret dead w c st = (o, st') →
      reachable page_size events madvise_ret dead np st'.

(** ** The initial states *)

Lemma fill_loop_ok num_pages k j fuel P :
  0 ≤ j → (k < fuel)%nat → j + Z.of_nat k = num_pages + 1 → num_pages ≤ 99 →
  length (p_msi P) = 100%nat →
  fill_loop fuel num_pages j P =
    (Ret tt, set_msi_array (take (Z.to_nat j) (p_msi P) ++ replicate k st_i ++
                            drop (Z.to_nat j + k) (p_msi P)) P).
Proof.
  intros Hj Hf Hk Hn. revert j fuel P Hj Hf Hk.
  induction k as [|k IH]; intros j fuel P Hj Hf Hk Hlen.
  all: destruct fuel as [|fuel]; [lia|]; simpl fill_loop; rewrite u64_small by lia.
  { destruct (Z.leb_spec j num_pages); [lia|]. rewrite Nat.add_0_r. simpl.
    rewrite take_drop. by destruct P. }
  destruct (Z.leb_spec j num_pages); [|lia].
  mby (apply set_msi_ok; lia).
  rewrite IH by (simpl; rewrite ?length_insert; lia).
  unfold set_msi_array. simpl. do 2 f_equal.
  rewrite insert_take_drop by lia.
  assert (length (take (Z.to_nat j) (p_msi P)) = Z.to_nat j) as Ht by (rewrite length_take; lia).
  replace (Z.to_nat (j + 1)) with (Z.to_nat j + 1)%nat by lia.
  rewrite take_app_add' by done. rewrite <- app_assoc. f_equal. simpl. do 2 f_equal.
  rewrite <- Nat.add_assoc, drop_app_add' by done. simpl.
  rewrite drop_drop. f_equal. lia.
Qed.

Lemma fill_loop_overrun num_pages k j fuel P :
  0 ≤ j → (k < fuel)%nat → j + Z.of_nat k = 100 → 100 ≤ num_pages < 2 ^ 64 →
  length (p_msi P) = 100%nat →
  ∃ P', fill_loop fuel num_pages j P = (Stop OutOfBounds, P').
Proof.
  intros Hj Hf Hk Hn. revert j fuel P Hj Hf Hk.
  induction k as [|k IH]; intros j fuel P Hj Hf Hk Hlen.
  all: destruct fuel as [|fuel]; [lia|]; simpl fill_loop; rewrite u64_small by lia.
  all: destruct (Z.leb_spec j num_pages); [|lia].
  - exists P. unfold set_msi, check. munfold. rewrite Hlen.
    destruct (Z.leb_spec 0 j); [|lia]. by destruct (Z.ltb_spec j (Z.of_nat 100)); [lia|].
  - destruct (IH (j + 1) fuel (set_msi_array (<[Z.to_nat j := st_i]> (p_msi P)) P))
      as [P' HP']; simpl; rewrite ?length_insert; [lia..|].
    exists P'. mby (apply set_msi_ok; lia). done.
Qed.

Lemma fillWithInvalid_ok page_size np base :
  1 ≤ np ≤ 99 →
  fillWithInvalid (boot page_size np base) =
    (Ret tt, Proc (Region base (np * page_size) ∅ 0) np
               (replicate (Z.to_nat (np + 1)) st_i ++ replicate (Z.to_nat (99 - np)) st_m) []).
Proof.
  intros Hnp. unfold fillWithInvalid. mstep. simpl p_num_pages.
  rewrite (fill_loop_ok np (Z.to_nat (np + 1))) by (simpl; lia).
  unfold set_msi_array, boot. cbn [p_region p_num_pages p_msi p_out].
  do 2 f_equal. change (Z.to_nat 0) with 0%nat.
  rewrite take_0, drop_replicate. simpl app. do 2 f_equal. lia.
Qed.

Section theorems.
Context (page_size : Z) (events : Z → uffd_events).
Context (madvise_ret : Z → Z) (dead : dead_read → bytes → bytes).
Context {HE : DsmEnv page_size events madvise_ret dead}.
Context (np : Z) (Hnp : 1 ≤ np ≤ 99).

#[local] Abbreviation coherent := (coherent page_size np).
#[local] Abbreviation command_ok := (command_ok page_size np).
#[local] Abbreviation exec := (exec page_size events madvise_ret dead).
#[local] Abbreviation exec_all := (exec_all page_size events madvise_ret dead).
#[local] Abbreviation reachable := (reachable page_size events madvise_ret dead np).

Lemma boot_wf base A :
  base_ok page_size np base → fillWithInvalid (boot page_size np base) = (Ret tt, A) →
  proc_wf page_size np A ∧ (∀ p, 0 ≤ p < np → msi A p = Some st_i ∧ absent (p_region A) p) ∧
  p_out A = [].
Proof.
  intros (Hb & Ha & Ht). rewrite fillWithInvalid_ok by done. intros [= <-].
  split_and!; [|intros p Hp; split|done].
  - split; simpl; [|done|rewrite length_app, !length_replicate; lia].
    split; simpl; [done|done|done|done|apply map_Forall_empty].
  - unfold msi. simpl. rewrite lookup_app_l by (rewrite length_replicate; lia).
    apply lookup_replicate_2. lia.
  - done.
Qed.

Lemma start_coherent baseA baseB A B :
  base_ok page_size np baseA → base_ok page_size np baseB →
  fillWithInvalid (boot page_size np baseA) = (Ret tt, A) →
  fillWithInvalid (boot page_size np baseB) = (Ret tt, B) →
  coherent ∅ (A, B).
Proof.
  intros HbA HbB HA HB.
  destruct (boot_wf _ _ HbA HA) as (? & HpA & _). destruct (boot_wf _ _ HbB HB) as (? & HpB & _).
  split; [done..|]. intros p Hp. destruct (HpA p Hp), (HpB p Hp).
  by apply coh_invalid.
Qed.

Lemma exec_all_steps cs σ st :
  coherent σ st → Forall (λ wc, command_ok wc.2) cs →
  ∃ st', exec_all cs st = (Ret tt, st') ∧ coherent (Spec.steps np cs σ) st'.
Proof.
  intros Hc Hcs. revert σ st Hc.
  induction Hcs as [|[w c] cs Hok _ IH]; intros σ st Hc; simpl; [by eauto|].
  destruct (exec_step page_size events madvise_ret dead np Hnp σ st w c Hc Hok)
    as (st1 & -> & Hc1 & _).
  by apply IH.
Qed.

Lemma reachable_coherent st : reachable st → ∃ σ, coherent σ st.
Proof.
  induction 1 as [baseA baseB A B HbA HbB HA HB|st w c o st' _ [σ Hσ] Hok Hrun].
  - exists ∅. by apply (start_coherent baseA baseB).
  - destruct (exec_step page_size events madvise_ret dead np Hnp σ st w c Hσ Hok)
      as (st1 & Hrun' & Hc1 & _).
    rewrite Hrun' in Hrun. injection Hrun as <- <-. eauto.
Qed.

(** C1: each command whose pages exist, and whose message, if it has one, is a
    string without NUL that is not empty, not [NULL] and shorter than a page,
    typed at either process of a coherent pair of 1 to 99 pages, terminates
    without a fault, keeps the pair coherent with the shared memory the
    specification computes, prints at that process exactly the pages the
    specification prints, and prints no page at the other one.  This is in an
    environment where page faults and [madvise] are served and where the answer
    of the peer, which is read after the frame it is in has gone, is still as
    it was (the class [DsmEnv]). *)
Theorem exec_refines_spec σ st w c :
  coherent σ st → command_ok c →
  ∃ st', exec w c st = (Ret tt, st') ∧
    coherent (fst (Spec.step np c σ)) st' ∧
    screen w st' = screen w st ++ snd (Spec.step np c σ) ∧
    screen (other w) st' = screen (other w) st.
Proof. by apply exec_step. Qed.

(** C2: from the start, any sequence of commands within the scope of C1 (existing
    pages, messages that are not empty, not [NULL] and shorter than a page, 1 to
    99 pages, the environment [DsmEnv]), typed one at a time at the two
    processes, runs to its end, and the pair it ends in represents the memory
    that the specification computes from the empty one. *)
Theorem session_refines_spec baseA baseB A B cs :
  base_ok page_size np baseA → base_ok page_size np baseB →
  fillWithInvalid (boot page_size np baseA) = (Ret tt, A) →
  fillWithInvalid (boot page_size np baseB) = (Ret tt, B) →
  Forall (λ wc, command_ok wc.2) cs →
  ∃ st', exec_all cs (A, B) = (Ret tt, st') ∧ coherent (Spec.steps np cs ∅) st'.
Proof. intros. apply exec_all_steps; [|done]. by apply (start_coherent baseA baseB). Qed.

(** C3: single writer: in a reachable pair, a page that is modified in one
    process is invalid in the other, so it is never modified in both; and two
    shared copies hold the same string. *)
Theorem single_writer st p :
  reachable st → 0 ≤ p < np →
  (msi (fst st) p = Some st_m → msi (snd st) p = Some st_i) ∧
  (msi (snd st) p = Some st_m → msi (fst st) p = Some st_i) ∧
  (msi (fst st) p = Some st_s →
     msi (snd st) p = Some st_s ∧
     ∃ w, holds (p_region (fst st)) p w ∧ holds (p_region (snd st)) p w).
Proof.
  intros [σ Hc]%reachable_coherent Hp.
  destruct (coh_pages _ _ _ _ Hc p Hp) as [H1 H2|w H1 H2|w H1 H2|w H1 H2];
    rewrite H1, H2; split_and!; intros; simplify_eq; eauto.
Qed.

(** C4: a message that is not empty, not [NULL] and shorter than a page, written
    to one existing page at a process of a coherent pair, is what the next read
    of the page prints, at the same process or at the other, in the environment
    [DsmEnv], where the answer of the peer is still readable in its dead frame. *)
Theorem read_after_write σ st w1 w2 p m :
  coherent σ st → 0 ≤ p < np → msg_ok page_size m →
  ∃ st1 st2, exec w1 (CmdWrite p m) st = (Ret tt, st1) ∧
    exec w2 (CmdRead p) st1 = (Ret tt, st2) ∧
    screen w2 st2 = screen w2 st1 ++ [(p, m)].
Proof.
  intros Hc Hp Hm.
  pose proof (pages_of_one np p (proj1 Hp)) as Hpages.
  destruct (exec_step page_size events madvise_ret dead np Hnp σ st w1 (CmdWrite p m) Hc)
    as (st1 & Hr1 & Hc1 & _); [by split; [right|]|].
  destruct (exec_step page_size events madvise_ret dead np Hnp _ st1 w2 (CmdRead p) Hc1)
    as (st2 & Hr2 & _ & Hs2 & _); [by right|].
  exists st1, st2. split_and!; [done..|]. rewrite Hs2. f_equal.
  cbn [Spec.step fst snd]. rewrite Hpages. unfold Spec.write_all, Spec.read. cbn [map foldl].
  by rewrite lookup_insert_eq.
Qed.

(** C34: the message [NULL] is not stored like the others: after it is written
    to a page at the first process, a read at the second one takes the answer
    for "I have no copy", prints nothing and stays invalid, while the writer
    has given up its modified copy for a shared one. *)
Theorem null_message_lost σ A B p :
  coherent σ (A, B) → 0 ≤ p < np →
  ∃ st1 st2, exec ProcA (CmdWrite p (str "NULL")) (A, B) = (Ret tt, st1) ∧
    exec ProcB (CmdRead p) st1 = (Ret tt, st2) ∧
    screen ProcA st1 = screen ProcA (A, B) ++ [(p, str "NULL")] ∧
    screen ProcB st2 = screen ProcB st1 ++ [(p, [])] ∧
    msi (fst st2) p = Some st_s ∧ msi (snd st2) p = Some st_i.
Proof.
  intros Hc Hp. pose proof (page_size_bounds page_size events madvise_ret dead) as Hps.
  destruct Hc as [HA HB Hpg]. simpl in *.
  destruct (page_coherent_msi _ _ _ _ _ (Hpg p Hp)) as (a & b & Ha & Hb).
  pose proof (msi_Some_lt _ _ _ Ha). pose proof (msi_Some_lt _ _ _ Hb).
  assert (cstr_ok (str "NULL")) as Hok by by apply (bool_decide_unpack _).
  assert (Z.of_nat (length (str "NULL")) < page_size) as Hlen by (simpl; lia).
  set (A1 := written page_size p (str "NULL") A). set (B1 := invalidated p b B).
  assert (proc_wf page_size np A1) as HA1 by (by eapply written_wf; eauto).
  assert (proc_wf page_size np B1) as HB1 by by apply invalidated_wf.
  assert (msi A1 p = Some st_m) as Hm.
  { unfold A1, written. rewrite msi_insert by (done || lia). by rewrite decide_True. }
  assert (msi B1 p = Some st_i) as Hi.
  { unfold B1, invalidated. rewrite msi_insert by (done || lia). by rewrite decide_True. }
  assert (holds (p_region A1) p (str "NULL")) as Hh by (eexists; apply set_page_lookup).
  set (A2 := printed p (str "NULL") A1).
  set (A3 := served p st_m st_s (str "NULL") A2).
  assert (peer_xchg page_size events madvise_ret (request_message p readOp) A2 =
          (Ret (4, str "NULL"), A3)) as Hx.
  { apply (peer_read_held page_size events madvise_ret dead np Hnp A2 p st_m (str "NULL")); try done.
    by apply printed_wf. }
  assert (absent (p_region B1) p) as Habs by apply lookup_delete_eq.
  eexists (A2, B1), (A3, _). split_and!.
  - exact (run_write_one page_size events madvise_ret dead np Hnp A B p (str "NULL") b
             HA HB Hp ltac:(by eexists) Hb Hok Hlen).
  - simpl. unfold swap_pair. simpl.
    erewrite (print_one page_size events madvise_ret dead np); [reflexivity|done|apply HB1|done|].
    eapply print_page_missing; try done. by eapply fetch_null.
  - unfold screen. simpl. by rewrite !page_lines_app, app_nil_r.
  - unfold screen. simpl. by rewrite !page_lines_app, app_nil_r.
  - simpl. unfold A3, served. rewrite (msi_insert A2) by (simpl; rewrite ?length_insert; lia).
    by rewrite decide_True.
  - done.
Qed.

(** C35: the end of the peer is taken for data: when the peer has closed the
    connection, so that [read] returns 0, a read of an invalid page marks it
    shared and prints it empty. *)
Theorem peer_eof_shared {X} (xchg : bytes → M X (Z * bytes)) x x' data A p :
  proc_wf page_size np A → 0 ≤ p < np → msi A p = Some st_i → absent (p_region A) p →
  xchg (request_message p readOp) x = (Ret (0, data), x') →
  ∃ A', printPageContents page_size events madvise_ret dead xchg p true (A, x)
      = (Ret tt, (A', x')) ∧
    msi A' p = Some st_s ∧ holds (p_region A') p [] ∧
    page_lines (p_out A') = page_lines (p_out A) ++ [(p, [])].
Proof.
  intros HA Hp Hi Habs Hx.
  pose proof (page_size_bounds page_size events madvise_ret dead) as Hps.
  set (A0 := fetching page_size p A).
  set (A1 := Proc (p_region A0) (p_num_pages A0) (p_msi A0) (p_out A0 ++ [ZeroBytes])).
  assert (proc_wf page_size np A1) as HA1.
  { destruct (fetching_wf page_size events madvise_ret dead np A p HA). by split. }
  pose proof (msi_Some_lt _ _ _ Hi) as Hlt.
  exists (printed p [] (fetched page_size p [] A1)). split_and!.
  - apply (print_one page_size events madvise_ret dead np Hnp); [apply HA|done|].
    apply (print_page_missing page_size events madvise_ret dead np Hnp); try done. fold A0.
    eapply (fetch_data page_size events madvise_ret dead np Hnp xchg A0 A1 x x' p []);
      first [done | by eexists | by constructor | simpl; lia | idtac].
    unfold communicateWithPeer.
    pose proof (length_request p readOp ltac:(lia) ltac:(done)).
    destruct (Z.leb_spec (Z.of_nat (length (request_message p readOp)) + 1) page_size); [|lia].
    mstep. mby (by apply on_snd_Ret). done.
  - change (msi (fetched page_size p [] A1) p = Some st_s). unfold fetched.
    rewrite msi_insert by (simpl; lia). by rewrite decide_True.
  - eexists. apply set_page_lookup.
  - simpl. rewrite !page_lines_app. simpl. by rewrite !app_nil_r.
Qed.
End theorems.

(** C36: [fillWithInvalid] makes one turn more than there are pages: with up to
    99 pages it sets the states of all of them, and of the entry after them,
    to invalid and ends; with 100 pages or more, which [main] accepts, it
    writes past the end of [msi_array]. *)
Theorem fillWithInvalid_bounds page_size np base :
  1 ≤ np < 2 ^ 64 →
  (np ≤ 99 → fillWithInvalid (boot page_size np base) =
     (Ret tt, Proc (Region base (np * page_size) ∅ 0) np
                (replicate (Z.to_nat (np + 1)) st_i ++ replicate (Z.to_nat (99 - np)) st_m) [])) ∧
  (100 ≤ np → ∃ P, fillWithInvalid (boot page_size np base) = (Stop OutOfBounds, P)).
Proof.
  intros Hnp. split; intros H; [apply fillWithInvalid_ok; lia|].
  destruct (fill_loop_overrun np 100 0 (S (S (Z.to_nat np))) (boot page_size np base))
    as [P HP]; [lia..|done|].
  exists P. unfold fillWithInvalid. by mstep.
Qed.

(** C29: the request the client prints is the request the responder parses, for
    every page number and operation that is not negative. *)
Theorem request_roundtrip page_size page op P :
  0 ≤ page < 2 ^ 31 → 0 ≤ op < 2 ^ 31 → 22 ≤ page_size →
  (buffer ← as_string (read_buffer page_size (request_message page op));
   parse_request buffer) P = (Ret (page, op), P).
Proof.
  intros Hp Ho Hs. pose proof (length_request page op Hp Ho).
  mby (apply as_string_buffer; [apply request_ok; lia|lia]).
  by apply parse_request_ok.
Qed.

(** C37: the sign of a negative page number is a delimiter to the parser: a
    request for page [- n] is served as one for page [n]. *)
Theorem negative_request_aliases n op P :
  0 < n < 2 ^ 31 → 0 ≤ op < 2 ^ 31 →
  parse_request (request_message (- n) op) P = (Ret (n, op), P).
Proof.
  intros Hn Ho. rewrite <- (parse_request_ok n op P) by lia.
  unfold parse_request, request_message, fmt_d at 1.
  destruct (Z.ltb_spec (- n) 0); [|lia]. rewrite Z.opp_involutive.
  rewrite <- fmt_d_nonneg by lia. done.
Qed.

(** C30: one turn of the fault handler: any failure ends the process, and
    otherwise a page of zeros is copied to the page-aligned address whose page
    contains the faulting address. *)
Theorem fault_handler_spec k e address :
  0 ≤ k < 31 → 0 ≤ address < 2 ^ 64 →
  match fault_handler_thread (2 ^ k) e address with
  | Ret (dst, page) =>
      poll_ret e ≠ -1 ∧ read_ret e ≠ 0 ∧ read_ret e ≠ -1 ∧
      msg_event e = UFFD_EVENT_PAGEFAULT ∧ copy_ret e ≠ -1 ∧
      dst mod 2 ^ k = 0 ∧ dst ≤ address < dst + 2 ^ k ∧ page = replicate (Z.to_nat (2 ^ k)) 0
  | Stop f =>
      f = Exit 1 ∧ (poll_ret e = -1 ∨ read_ret e = 0 ∨ read_ret e = -1 ∨
                    msg_event e ≠ UFFD_EVENT_PAGEFAULT ∨ copy_ret e = -1)
  end.
Proof.
  intros Hk Ha. unfold fault_handler_thread, serve_fault.
  destruct (Z.eqb_spec (poll_ret e) (-1)); [by eauto|].
  destruct (Z.eqb_spec (read_ret e) 0); [by eauto|].
  destruct (Z.eqb_spec (read_ret e) (-1)); [by eauto|].
  destruct (Z.eqb_spec (msg_event e) UFFD_EVENT_PAGEFAULT); simpl; [|by eauto 10].
  destruct (Z.eqb_spec (copy_ret e) (-1)); [by eauto 10|].
  rewrite land_u64_lnot_pow2 by lia.
  assert (0 < 2 ^ k) as Hpos by (apply Z.pow_pos_nonneg; lia).
  pose proof (Z.mod_pos_bound address (2 ^ k) Hpos).
  split_and!; try done; try lia.
  rewrite Zminus_mod_idemp_r, Z.sub_diag. apply Z.mod_0_l. lia.
Qed.

(** ** The theorems at a concrete pair: 64-byte pages, three of them *)
Module Demo.
Definition events (n : Z) : uffd_events := UffdEvents 1 32 UFFD_EVENT_PAGEFAULT 0.
Definition madvise_ret (a : Z) : Z := 0.
Definition dead (u : dead_read) (b : bytes) : bytes := b.
Definition start : proc :=
  Proc (Region 4096 (3 * 64) ∅ 0) 3 (replicate 4 st_i ++ replicate 96 st_m) [].

Lemma demo_env : DsmEnv 64 events madvise_ret dead.
Proof. split; [by exists 6|done..]. Qed.

Lemma demo_start : fillWithInvalid (boot 64 3 4096) = (Ret tt, start).
Proof. reflexivity. Qed.

Lemma demo_base : base_ok 64 3 4096.
Proof. done. Qed.

Lemma demo_bounds : 1 ≤ 3 ≤ 99.
Proof. done. Qed.

Lemma demo_coherent : coherent 64 3 ∅ (start, start).
Proof.
  apply (start_coherent 64 3 demo_bounds 4096 4096);
    first [apply demo_base | apply demo_start].
Qed.

Lemma demo_msg s : bool_decide (cstr_ok s ∧ s ≠ [] ∧ s ≠ str "NULL" ∧ Z.of_nat (length s) < 64) = true →
  msg_ok 64 s.
Proof. by intros ?%bool_decide_eq_true_1. Qed.

Lemma exec_refines_spec_witness :
  ∃ st', exec 64 events madvise_ret dead ProcB (CmdWrite (-1) (str "Hi")) (start, start) = (Ret tt, st') ∧
    screen ProcB st' = [(0, str "Hi"); (1, str "Hi"); (2, str "Hi")] ∧ screen ProcA st' = [].
Proof.
  destruct (exec_refines_spec 64 events madvise_ret dead (HE := demo_env) 3 demo_bounds ∅
    (start, start) ProcB (CmdWrite (-1) (str "Hi")) demo_coherent) as (st' & Hr & _ & Hs & Ho).
  - split; [by left|]. apply demo_msg. reflexivity.
  - exists st'. split; [exact Hr|]. split; [rewrite Hs; vm_compute; reflexivity|].
    change ProcA with (other ProcB). rewrite Ho. reflexivity.
Defined.

Lemma session_refines_spec_witness :
  ∃ st', exec_all 64 events madvise_ret dead
      [(ProcA, CmdRead 0); (ProcB, CmdWrite 2 (str "Hello")); (ProcA, CmdRead (-1))] (start, start)
      = (Ret tt, st') ∧ coherent 64 3 {[2 := str "Hello"]} st'.
Proof.
  destruct (session_refines_spec 64 events madvise_ret dead (HE := demo_env) 3 demo_bounds
    4096 4096 start start
    [(ProcA, CmdRead 0); (ProcB, CmdWrite 2 (str "Hello")); (ProcA, CmdRead (-1))]
    demo_base demo_base demo_start demo_start) as (st' & Hr & Hc).
  - apply Forall_cons; split; [right; lia|]. apply Forall_cons; split.
    + split; [right; lia|]. apply demo_msg. reflexivity.
    + apply Forall_cons; split; [by left|]. by apply Forall_nil.
  - exists st'. split; [exact Hr|exact Hc].
Defined.

Lemma single_writer_witness :
  let st := snd (exec 64 events madvise_ret dead ProcA (CmdWrite 1 (str "x")) (start, start)) in
  msi (fst st) 1 = Some st_m ∧ msi (snd st) 1 = Some st_i.
Proof.
  assert (msi (fst (snd (exec 64 events madvise_ret dead ProcA (CmdWrite 1 (str "x")) (start, start)))) 1
          = Some st_m) as Hm by (vm_compute; reflexivity).
  split; [exact Hm|].
  eapply (single_writer 64 events madvise_ret dead (HE := demo_env) 3 demo_bounds); [| |exact Hm].
  - eapply (reach_command _ _ _ _ _ (start, start) ProcA (CmdWrite 1 (str "x"))).
    + apply (reach_start _ _ _ _ _ 4096 4096);
        first [exact demo_base | exact demo_start].
    + split; [right; lia|]. apply demo_msg. reflexivity.
    + apply surjective_pairing.
  - lia.
Defined.

Lemma read_after_write_witness :
  ∃ st1 st2, exec 64 events madvise_ret dead ProcA (CmdWrite 1 (str "x")) (start, start) = (Ret tt, st1) ∧
    exec 64 events madvise_ret dead ProcB (CmdRead 1) st1 = (Ret tt, st2) ∧
    screen ProcB st2 = screen ProcB st1 ++ [(1, str "x")].
Proof.
  apply (read_after_write 64 events madvise_ret dead (HE := demo_env) 3 demo_bounds ∅
           (start, start) ProcA ProcB 1 (str "x") demo_coherent); [lia|].
  apply demo_msg. reflexivity.
Defined.

Lemma null_message_lost_witness :
  ∃ st1 st2, exec 64 events madvise_ret dead ProcA (CmdWrite 0 (str "NULL")) (start, start) = (Ret tt, st1) ∧
    exec 64 events madvise_ret dead ProcB (CmdRead 0) st1 = (Ret tt, st2) ∧
    screen ProcA st1 = screen ProcA (start, start) ++ [(0, str "NULL")] ∧
    screen ProcB st2 = screen ProcB st1 ++ [(0, [])] ∧
    msi (fst st2) 0 = Some st_s ∧ msi (snd st2) 0 = Some st_i.
Proof.
  apply (null_message_lost 64 events madvise_ret dead (HE := demo_env) 3 demo_bounds ∅
           start start 0 demo_coherent). lia.
Defined.

Lemma peer_eof_shared_witness :
  ∃ A', printPageContents 64 events madvise_ret dead (λ _, mret (0, [])) 2 true (start, tt)
      = (Ret tt, (A', tt)) ∧
    msi A' 2 = Some st_s ∧ holds (p_region A') 2 [] ∧
    page_lines (p_out A') = page_lines (p_out start) ++ [(2, [])].
Proof.
  apply (peer_eof_shared 64 events madvise_ret dead (HE := demo_env) 3 demo_bounds
           (λ _, mret (0, [])) tt tt [] start 2).
  - apply (coh_wf_l _ _ _ _ demo_coherent).
  - lia.
  - reflexivity.
  - reflexivity.
  - reflexivity.
Defined.

Lemma fillWithInvalid_bounds_witness :
  fillWithInvalid (boot 64 3 4096) = (Ret tt, start) ∧
  ∃ P, fillWithInvalid (boot 64 100 4096) = (Stop OutOfBounds, P).
Proof.
  split.
  - apply (fillWithInvalid_bounds 64 3 4096); lia.
  - apply (fillWithInvalid_bounds 64 100 4096); lia.
Defined.

Lemma request_roundtrip_witness :
  (buffer ← as_string (read_buffer 64 (request_message 42 readOp)); parse_request buffer) start
  = (Ret (42, readOp), start).
Proof. apply (request_roundtrip 64 42 readOp start); unfold readOp; lia. Defined.

Lemma negative_request_aliases_witness :
  parse_request (request_message (-5) invalidateOp) start = (Ret (5, invalidateOp), start).
Proof. apply (negative_request_aliases 5 invalidateOp start); unfold invalidateOp; lia. Defined.

Lemma fault_handler_spec_witness :
  match fault_handler_thread (2 ^ 6) (events 0) 4200 with
  | Ret (dst, page) => dst mod 2 ^ 6 = 0 ∧ dst ≤ 4200 < dst + 2 ^ 6
  | Stop f => False
  end.
Proof.
  pose proof (fault_handler_spec 6 (events 0) 4200 ltac:(lia) ltac:(lia)) as H.
  vm_compute in H |- *. tauto.
Defined.
End Demo.
