(* ===== verification/Syscalls.v ===== *)
(** System calls of the user programs: a program is run against an environment
    that answers each call from the whole history, so that nothing is assumed
    of the network, the other process or the kernel but what a theorem says.
    The trace records the calls with their answers and what was printed. *)
From S2P Require Import Prelude CInt CString.
Local Open Scope Z_scope.

(** [struct sockaddr_in] *)
Record sockaddr := Sockaddr {
  sin_family : Z;
  sin_port : Z;
  sin_addr : Z;
  sin_zero : bytes;
}.

Definition AF_INET : Z := 2.
Definition INADDR_ANY : Z := 0.
Definition LOOPBACK : Z := 16777343.  (* 127.0.0.1 in network order *)

(** [htons] on a little-endian machine, of an argument converted to 16 bits. *)
Definition htons (port : Z) : Z :=
  let p := port mod 65536 in (p mod 256) * 256 + p / 256.

Inductive call : Type :=
  | Socket
  | Setsockopt (fd : Z)
  | Bind (fd : Z) (a : sockaddr)
  | InetPton
  | Listen (fd backlog : Z)
  | Connect (fd : Z) (a : sockaddr)
  | Accept (fd : Z)
  | Getchar
  | Read (fd count : Z)
  | Send (fd : Z) (data : bytes)
  | Sysconf
  | Scanf_lu
  | Mmap (addr len : Z)
  | MmapPage (len : Z)  (* [mmap] of [fault_handler_thread], for its page *)
  | Userfaultfd
  | IoctlApi (uffd : Z)
  | IoctlRegister (uffd start len : Z)
  | Madvise (addr len : Z)
  | PthreadCreate (routine : string).

(** An answer: the returned value, and the bytes stored through a pointer. *)
Record reply := Reply { ret : Z; data : bytes }.

Inductive event : Type :=
  | Called (c : call) (r : reply)
  | Printed (s : bytes).

Abbreviation trace := (list event).

Definition environment : Type := trace → call → reply.

Section program.
Context (env : environment).

Definition sys (c : call) : M trace reply := λ t,
  let r := env t c in (Ret r, t ++ [Called c r]).

Definition print (s : bytes) : M trace unit := modify (λ t, t ++ [Printed s]).

Definition exit_ {A} (code : Z) : M trace A := stop (Exit code).

(** [errExit (msg)] and the like: a message to [stderr], then [exit (1)]. *)
Definition fail_if (b : bool) : M trace unit := if b then exit_ 1 else mret tt.

(** How [fault_handler_thread] starts, in the three programs alike: it maps the
    page it copies from.  It is run where the thread is created. *)
Definition handler_start (page_size : Z) : M trace unit :=
  page ← sys (MmapPage (u64 page_size));
  fail_if (ret page =? -1).
End program.

(** Reading a trace. *)
Definition is_call (f : call → bool) (e : event) : bool :=
  match e with Called c _ => f c | Printed _ => false end.

Definition calls (t : trace) : list call :=
  omap (λ e, match e with Called c _ => Some c | Printed _ => None end) t.

Definition outputs (t : trace) : list bytes :=
  omap (λ e, match e with Called _ _ => None | Printed s => Some s end) t.

Definition sent (t : trace) : bytes :=
  concat (omap (λ c, match c with Send _ d => Some d | _ => None end) (calls t)).

Lemma omap_snoc {A B} (f : A → option B) l x :
  omap f (l ++ [x]) = omap f l ++ match f x with Some y => [y] | None => [] end.
Proof. rewrite omap_app. simpl. by destruct (f x). Qed.

(** ** Running a program for a property of its outcome and trace

    The answer of a call is generalised as soon as it is made, so a run's
    trace stays a plain list of events. *)
Section runs.
Context {A : Type} (env : environment).
Implicit Types (P : outcome A * trace → Prop) (t : trace).

Lemma sys_bind (R : reply → Prop) c (f : reply → M trace A) t P :
  (∀ t, R (env t c)) → (∀ r, R r → P (f r (t ++ [Called c r]))) →
  P ((sys env c ≫= f) t).
Proof. intros HR HP. unfold mbind, m_bind, sys. apply HP, HR. Qed.

Lemma sys_bind_at (R : reply → Prop) c (f : reply → M trace A) t P :
  R (env t c) → (∀ r, R r → P (f r (t ++ [Called c r]))) → P ((sys env c ≫= f) t).
Proof. intros HR HP. unfold mbind, m_bind, sys. apply HP, HR. Qed.

Lemma sys_any c (f : reply → M trace A) t P :
  (∀ r, P (f r (t ++ [Called c r]))) → P ((sys env c ≫= f) t).
Proof. intros HP. apply (sys_bind (λ _, True)); auto. Qed.

Lemma fail_if_bind b (f : unit → M trace A) t P :
  (b = true → P (Stop (Exit 1), t)) → (b = false → P (f tt t)) →
  P ((fail_if b ≫= f) t).
Proof. destruct b; auto. Qed.

Lemma fail_if_false b (f : unit → M trace A) t P :
  b = false → P (f tt t) → P ((fail_if b ≫= f) t).
Proof. intros ->. auto. Qed.

Lemma check_bind b e (f : unit → M trace A) t P :
  b = true → P (f tt t) → P ((check b e ≫= f) t).
Proof. intros ->. auto. Qed.

Lemma skip_bind b (m : M trace unit) (f : unit → M trace A) t P :
  b = false → P (f tt t) → P (((if b then m else mret tt) ≫= f) t).
Proof. intros ->. auto. Qed.

Lemma print_bind s (f : unit → M trace A) t P :
  P (f tt (t ++ [Printed s])) → P ((print s ≫= f) t).
Proof. auto. Qed.

Lemma if_run (b : bool) (m1 m2 : M trace A) t P :
  (b = true → P (m1 t)) → (b = false → P (m2 t)) → P ((if b then m1 else m2) t).
Proof. destruct b; auto. Qed.
End runs.

(** One step of a run in an unknown environment; the failing branch of a test
    is the first goal. *)
Ltac any_step :=
  match goal with
  | |- context [(sys _ _ ≫= _) _] => apply sys_any; intros ?; cbv beta
  | |- context [(print _ ≫= _) _] => apply print_bind; cbv beta
  | |- context [(fail_if _ ≫= _) _] => apply fail_if_bind; intros ?; cbv beta
  | |- context [(if _ then _ else _) _] => apply if_run; intros ?
  end.
