(* ===== verification/Sockets.v ===== *)
(** The socket demo of assignment 1: [code-socket/server.c] and
    [code-socket/client.c], each the sequence of its system calls with the
    exit each failure takes, and the exchange of the two. *)
From S2P Require Import Prelude CInt CString Syscalls.
Local Open Scope Z_scope.

Definition PORT : Z := 5984.
Definition BUFF_SIZE : Z := 4096.

(** The buffer, zeroed, after a [read] of at most [count] bytes, as the string
    that [%s] prints. *)
Definition buffer_string (count : Z) (r : reply) : bytes :=
  cstr (take (Z.to_nat count) (data r) ++
        replicate (Z.to_nat BUFF_SIZE - length (take (Z.to_nat count) (data r))) 0).

Definition server_address : sockaddr :=
  Sockaddr AF_INET (htons PORT) INADDR_ANY [].

(** [memset (&serv_addr, '0', ...)] leaves the character 0x30 in the padding. *)
Definition client_address : sockaddr :=
  Sockaddr AF_INET (htons PORT) LOOPBACK (replicate 8 48).

Definition server_hello : bytes := str "Hello from server".
Definition client_hello : bytes := str "Hello from client".
Definition press_key : bytes := str "Press any key to continue..." ++ [10].
Definition hello_sent : bytes := str "Hello message sent" ++ [10].

Definition server_main (env : environment) : M trace Z :=
  server_fd ← sys env Socket;
  fail_if (ret server_fd <? 0);;
  opt ← sys env (Setsockopt (ret server_fd));
  fail_if (negb (ret opt =? 0));;
  b ← sys env (Bind (ret server_fd) server_address);
  fail_if (ret b <? 0);;
  l ← sys env (Listen (ret server_fd) 3);
  fail_if (ret l <? 0);;
  new_socket ← sys env (Accept (ret server_fd));
  fail_if (ret new_socket <? 0);;
  print press_key;;
  sys env Getchar;;
  r ← sys env (Read (ret new_socket) 1024);
  fail_if (ret r <? 0);;
  print (str "Message from a client: " ++ buffer_string 1024 r ++ [10]);;
  sys env (Send (ret new_socket) server_hello);;
  print hello_sent;;
  mret 0.

(** Its failures return -1 from [main] after a message on the output. *)
Definition client_main (env : environment) : M trace Z :=
  sock ← sys env Socket;
  if ret sock <? 0 then print ([10] ++ str " Socket creation error " ++ [10]);; mret (-1)
  else
  p ← sys env InetPton;
  if ret p <=? 0 then
    print ([10] ++ str "Invalid address/ Address not supported " ++ [10]);; mret (-1)
  else
  c ← sys env (Connect (ret sock) client_address);
  if ret c <? 0 then print ([10] ++ str "Connection Failed " ++ [10]);; mret (-1)
  else
  print press_key;;
  sys env Getchar;;
  sys env (Send (ret sock) client_hello);;
  print hello_sent;;
  r ← sys env (Read (ret sock) 1024);
  if ret r <? 0 then print ([10] ++ str "Read Failed " ++ [10]);; mret (-1)
  else
  print (str "Message from a server: " ++ buffer_string 1024 r ++ [10]);;
  mret 0.

(** ** Runs *)

(** An environment in which no call fails, and whose reads deliver [input]. *)
Record delivers (env : environment) (input : bytes) : Prop := {
  d_socket : ∀ t, 0 ≤ ret (env t Socket);
  d_setsockopt : ∀ t fd, ret (env t (Setsockopt fd)) = 0;
  d_bind : ∀ t fd a, 0 ≤ ret (env t (Bind fd a));
  d_listen : ∀ t fd n, 0 ≤ ret (env t (Listen fd n));
  d_accept : ∀ t fd, 0 ≤ ret (env t (Accept fd));
  d_pton : ∀ t, 0 < ret (env t InetPton);
  d_connect : ∀ t fd a, 0 ≤ ret (env t (Connect fd a));
  d_read : ∀ t fd n, env t (Read fd n) = Reply (Z.of_nat (length input)) input;
}.

Lemma buffer_string_ok n s :
  cstr_ok s → (length s ≤ 1024)%nat → buffer_string 1024 (Reply n s) = s.
Proof.
  intros Hs Hlen. unfold buffer_string. simpl data. change (Z.to_nat 1024) with 1024%nat.
  rewrite take_ge by lia. change (Z.to_nat BUFF_SIZE) with 4096%nat.
  replace (4096 - length s)%nat with (S (4095 - length s)) by lia.
  simpl. by apply cstr_app.
Qed.

(** A run without failures that sends [greeting] and prints [lines]. *)
Definition exchanged (greeting : bytes) (lines : list bytes) (r : outcome Z * trace) : Prop :=
  fst r = Ret 0 ∧ sent (snd r) = greeting ∧ outputs (snd r) = lines.

Lemma server_run env input :
  delivers env input → cstr_ok input → (length input ≤ 1024)%nat →
  exchanged server_hello
    [press_key; str "Message from a client: " ++ input ++ [10]; hello_sent]
    (server_main env []).
Proof.
  intros [Hs Ho Hb Hl Ha _ _ Hr] Hok Hlen. unfold server_main.
  apply (sys_bind _ (λ r, 0 ≤ ret r) _ _ _ _ Hs). intros fd Hfd. apply fail_if_false; [lia|].
  apply (sys_bind _ (λ r, ret r = 0) _ _ _ _ (λ t, Ho t _)). intros o Ho'.
  apply fail_if_false; [by rewrite Ho'|].
  apply (sys_bind _ (λ r, 0 ≤ ret r) _ _ _ _ (λ t, Hb t _ _)). intros b Hb'.
  apply fail_if_false; [lia|].
  apply (sys_bind _ (λ r, 0 ≤ ret r) _ _ _ _ (λ t, Hl t _ _)). intros l Hl'.
  apply fail_if_false; [lia|].
  apply (sys_bind _ (λ r, 0 ≤ ret r) _ _ _ _ (λ t, Ha t _)). intros n Hn.
  apply fail_if_false; [lia|].
  apply print_bind. apply sys_any. intros g.
  apply (sys_bind _ (λ r, r = Reply (Z.of_nat (length input)) input) _ _ _ _ (λ t, Hr t _ _)). intros r ->.
  apply fail_if_false; [simpl; lia|].
  rewrite buffer_string_ok by done. done.
Qed.

Lemma client_run env input :
  delivers env input → cstr_ok input → (length input ≤ 1024)%nat →
  exchanged client_hello
    [press_key; hello_sent; str "Message from a server: " ++ input ++ [10]]
    (client_main env []).
Proof.
  intros [Hs _ _ _ _ Hp Hc Hr] Hok Hlen. unfold client_main.
  apply (sys_bind _ (λ r, 0 ≤ ret r) _ _ _ _ Hs). intros fd Hfd. apply if_run; intros Ht; [lia|].
  apply (sys_bind _ (λ r, 0 < ret r) _ _ _ _ Hp). intros p Hp'. apply if_run; intros Ht'; [lia|].
  apply (sys_bind _ (λ r, 0 ≤ ret r) _ _ _ _ (λ t, Hc t _ _)). intros c Hc'.
  apply if_run; intros Ht''; [lia|].
  apply print_bind. apply sys_any. intros g. apply sys_any. intros s. apply print_bind.
  apply (sys_bind _ (λ r, r = Reply (Z.of_nat (length input)) input) _ _ _ _ (λ t, Hr t _ _)). intros r ->.
  apply if_run; intros H; [simpl in H; lia|].
  rewrite buffer_string_ok by done. done.
Qed.

Lemma hellos_ok :
  cstr_ok server_hello ∧ cstr_ok client_hello ∧
  (length server_hello ≤ 1024)%nat ∧ (length client_hello ≤ 1024)%nat.
Proof. by apply (bool_decide_unpack _). Qed.

(** C26: the exchange: when no call fails and each side reads what the other
    one has sent, both return 0, and each prints the greeting of the other. *)
Theorem hello_exchange env_s env_c :
  delivers env_s (sent (snd (client_main env_c []))) →
  delivers env_c server_hello →
  ∃ ts tc, server_main env_s [] = (Ret 0, ts) ∧ client_main env_c [] = (Ret 0, tc) ∧
    sent ts = server_hello ∧ sent tc = client_hello ∧
    str "Message from a client: " ++ client_hello ++ [10] ∈ outputs ts ∧
    str "Message from a server: " ++ server_hello ++ [10] ∈ outputs tc.
Proof.
  intros Hs Hc. destruct hellos_ok as (Hsh & Hch & Hsl & Hcl).
  destruct (client_run env_c server_hello Hc Hsh Hsl) as (Hrc & Hsent & Hout).
  rewrite Hsent in Hs.
  destruct (server_run env_s client_hello Hs Hch Hcl) as (Hrs & Hsent' & Hout').
  destruct (server_main env_s []) as [os ts], (client_main env_c []) as [oc tc].
  simpl in *. subst. exists ts, tc. split_and!; [done..| |].
  - rewrite Hout'. set_solver.
  - rewrite Hout. set_solver.
Qed.

Definition demo_env (input : bytes) : environment := λ _ c,
  match c with
  | Read _ _ => Reply (Z.of_nat (length input)) input
  | Setsockopt _ => Reply 0 []
  | _ => Reply 3 []
  end.

Lemma demo_delivers input : delivers (demo_env input) input.
Proof. by split. Qed.

Lemma hello_exchange_witness :
  ∃ ts tc, server_main (demo_env client_hello) [] = (Ret 0, ts) ∧
    client_main (demo_env server_hello) [] = (Ret 0, tc) ∧
    sent ts = server_hello ∧ sent tc = client_hello ∧
    str "Message from a client: " ++ client_hello ++ [10] ∈ outputs ts ∧
    str "Message from a server: " ++ server_hello ++ [10] ∈ outputs tc.
Proof.
  apply (hello_exchange (demo_env client_hello) (demo_env server_hello));
    [|apply demo_delivers].
  assert (sent (snd (client_main (demo_env server_hello) [])) = client_hello) as ->
    by (vm_compute; reflexivity).
  apply demo_delivers.
Defined.

(** ** Failures *)

(** What the programs take for the failure of a call.  What [getchar] and
    [send] return is not looked at. *)
Definition failed (e : event) : bool :=
  match e with
  | Called (Setsockopt _) r => negb (ret r =? 0)
  | Called InetPton r => ret r <=? 0
  | Called (Socket | Bind _ _ | Listen _ _ | Connect _ _ | Accept _ | Read _ _) r => ret r <? 0
  | _ => false
  end.

(** The answer to the first call that [f] selects. *)
Fixpoint answer (f : call → bool) (t : trace) : Z :=
  match t with
  | [] => 0
  | Called c r :: t' => if f c then ret r else answer f t'
  | Printed _ :: t' => answer f t'
  end.

Definition socket_of : trace → Z := answer (λ c, match c with Socket => true | _ => false end).
Definition accepted_of : trace → Z := answer (λ c, match c with Accept _ => true | _ => false end).

(** The calls of a whole run, on the descriptors it has been given. *)
Definition server_calls (t : trace) : list call :=
  let fd := socket_of t in
  let new_socket := accepted_of t in
  [Socket; Setsockopt fd; Bind fd server_address; Listen fd 3; Accept fd; Getchar;
   Read new_socket 1024; Send new_socket server_hello].

Definition client_calls (t : trace) : list call :=
  let sock := socket_of t in
  [Socket; InetPton; Connect sock client_address; Getchar; Send sock client_hello; Read sock 1024].

(** A run that made all the calls of [script] in their order, none of which
    failed, and returned 0; or that ended as [ended] at the first failure,
    with the calls of [script] up to it and no call after. *)
Definition fails_fast (script : trace → list call) (ended : outcome Z)
    (r : outcome Z * trace) : Prop :=
  (fst r = Ret 0 ∧ calls (snd r) = script (snd r) ∧ existsb failed (snd r) = false) ∨
  (fst r = ended ∧ calls (snd r) `prefix_of` script (snd r) ∧
   ∃ t0 e t1, snd r = t0 ++ e :: t1 ∧ failed e = true ∧
     existsb failed t0 = false ∧ calls t1 = []).

Lemma fails_fast_at script ended t e t1 :
  calls (t ++ e :: t1) `prefix_of` script (t ++ e :: t1) →
  failed e = true → existsb failed t = false → calls t1 = [] →
  fails_fast script ended (ended, t ++ e :: t1).
Proof. intros. right. split_and!; [done..|]. eauto 10. Qed.

(** No event of the trace is a failure, by the tests in the context. *)
Ltac no_failure :=
  repeat match goal with H : _ = false |- _ => revert H end; simpl; intros;
  repeat match goal with H : _ = false |- _ => rewrite H; clear H end; reflexivity.

(** A failure just made, with what is printed about it. *)
Ltac at_failure :=
  unfold mret, m_ret;
  match goal with
  | |- fails_fast _ _ (_, (?t ++ [Called ?c ?r]) ++ [Printed ?s]) =>
      rewrite <- app_assoc; apply (fails_fast_at _ _ t (Called c r) [Printed s])
  | |- fails_fast _ _ (_, ?t ++ [?e]) => apply (fails_fast_at _ _ t e [])
  end;
  [eexists; reflexivity | assumption | no_failure | reflexivity].

Ltac at_success := left; split; [reflexivity|]; split; [reflexivity|no_failure].

(** C27: in any environment the server either makes all its calls, socket,
    setsockopt, bind, listen, accept, getchar, read and send, in this order and
    each on the descriptor it belongs to, and returns 0; or it stops with exit
    code 1 at the first of them whose result it checks and that has failed, and
    makes no call after it.  The results of getchar and send are not checked. *)
Theorem server_fails_fast env :
  fails_fast server_calls (Stop (Exit 1)) (server_main env []).
Proof. unfold server_main. repeat any_step; [at_failure..|at_success]. Qed.

(** C28: in any environment the client either makes all its calls, socket,
    inet_pton, connect, getchar, send and read, in this order and on its one
    socket, and returns 0; or it returns -1 at the first of them whose result
    it checks and that has failed, and makes no call after it.  The results of
    getchar and send are not checked: a read follows a send that has failed. *)
Theorem client_fails_fast env :
  fails_fast client_calls (Ret (-1)) (client_main env []).
Proof. unfold client_main. repeat any_step; first [at_failure | at_success]. Qed.
