(* ===== verification/Uffd.v ===== *)
(** The user-fault demo of assignment 3 ([uffd.c]): a region registered with
    userfaultfd, read and written in steps of 1024 bytes in eight phases,
    twice after [madvise] has discarded its pages.

    The state of [main] is the trace of its system calls and output, and the
    region; the handler's own output goes to the same terminal from another
    thread and is not kept.  [events] is what the handler's calls return for
    the n-th fault. *)
From S2P Require Import Prelude CInt CString Region Syscalls.
Local Open Scope Z_scope.

(** [memset (page, 'A' + fault_cnt % 20, page_size)] *)
Definition fill_page (page_size fault_cnt : Z) : bytes :=
  replicate (Z.to_nat page_size) (u8 (65 + Z.rem fault_cnt 20)).

(** [fault_cnt] is the number of faults served, which is in the region. *)
Definition fault_handler_thread (page_size fault_cnt : Z) (e : uffd_events) (address : Z)
    : outcome (Z * bytes) :=
  serve_fault page_size (fill_page page_size fault_cnt) e address.

(** [l] is an [int], compared with [len] as [unsigned long].  The fuel is one
    more than the number of turns. *)
Fixpoint scan_loop {T} (fuel : nat) (len l : Z) (body : Z → M T unit) : M T unit :=
  match fuel with
  | O => stop OutOfFuel
  | S f =>
      if u64 l <? len then
        body l;;
        l' ← int_arith (l + 1024);
        scan_loop f len l' body
      else mret tt
  end.

Definition scan {T} (len : Z) (body : Z → M T unit) : M T unit :=
  scan_loop (S (Z.to_nat ((len + 1023) / 1024))) len 0 body.

Definition rule : bytes := str "-----------------------------------------------------" ++ [10].

(** The line a phase prints for an address. *)
Definition phase_line (k : Z) (verb : string) (address c : Z) : list bytes :=
  [35 :: fmt_d k ++ str ". " ++ str verb ++ str " address " ++ fmt_p address ++ str " in main(): ";
   [c; 10]].

Section phases.
Context (env : environment) (page_size : Z) (events : Z → uffd_events).

Definition handler : fault_handler := λ n address,
  fault_handler_thread page_size n (events n) address.

Abbreviation st := (trace * region)%type.

Definition print_all (ls : list bytes) : M st unit := for_each ls (λ s, on_fst (print s)).

(** [char c = addr[l]], then the line; [#k] is the phase. *)
Definition read_at (k l : Z) : M st unit :=
  r ← gets snd;
  c ← on_snd (load page_size handler l);
  print_all (phase_line k "Read" (r_base r + l) c).

Definition read_phase (k : Z) : M st unit :=
  on_fst (print rule);;
  r ← gets snd;
  scan (r_len r) (read_at k).

(** [memset (addr + l, c, 1024)], then the line with [addr[l]]. *)
Definition write_at (k c l : Z) : M st unit :=
  r ← gets snd;
  on_snd (memset page_size handler l c 1024);;
  c' ← on_snd (load page_size handler l);
  print_all (phase_line k "write" (r_base r + l) c').

Definition write_phase (k c : Z) : M st unit :=
  on_fst (print rule);;
  r ← gets snd;
  scan (r_len r) (write_at k c).

(** [if (madvise (addr, len, MADV_DONTNEED)) errExit (...)] *)
Definition discard : M st unit :=
  r ← gets snd;
  m ← on_fst (sys env (Madvise (r_base r) (r_len r)));
  on_fst (fail_if (negb (ret m =? 0)));;
  on_snd (dontneed page_size 0 (r_len r)).

(** The phase after the rule: the calls of [madvise] come after it. *)
Definition read_again (k : Z) : M st unit :=
  on_fst (print rule);; discard;; r ← gets snd; scan (r_len r) (read_at k).
Definition write_again (k c : Z) : M st unit :=
  on_fst (print rule);; discard;; r ← gets snd; scan (r_len r) (write_at k c).

(** U1 to U8. *)
Definition phases : M st unit :=
  read_phase 1;;
  read_phase 2;;
  read_again 3;;
  read_phase 4;;
  write_again 5 64;;
  read_phase 6;;
  write_phase 7 94;;
  read_phase 8.
End phases.

(** M1 to M7: the page size and the region. *)
Definition set_up (env : environment) (argv : list bytes) : M trace (Z * region) :=
  match argv with
  | [_; a1] =>
      ps ← sys env Sysconf;
      let page_size := s32 (ret ps) in
      let len := u64 (strtoul0 a1 * page_size) in
      uffd ← sys env Userfaultfd;
      fail_if (ret uffd =? -1);;
      api ← sys env (IoctlApi (ret uffd));
      fail_if (ret api =? -1);;
      a ← sys env (Mmap 0 len);
      fail_if (ret a =? -1);;
      print (str "Address returned by mmap() = " ++ fmt_p (ret a) ++ [10]);;
      reg ← sys env (IoctlRegister (ret uffd) (ret a) len);
      fail_if (ret reg =? -1);;
      th ← sys env (PthreadCreate "fault_handler_thread");
      fail_if (negb (ret th =? 0));;
      handler_start env page_size;;
      mret (page_size, Region (ret a) len ∅ 0)
  | _ => exit_ 1
  end.

(** [main]: the result with the region at the end, if it got so far. *)
Definition main (env : environment) (events : Z → uffd_events) (argv : list bytes)
    (t : trace) : outcome unit * (trace * option region) :=
  match set_up env argv t with
  | (Stop e, t') => (Stop e, (t', None))
  | (Ret (page_size, r), t') =>
      match (phases env page_size events;; on_fst (exit_ (A := unit) 0)) (t', r) with
      | (o, (t'', r')) => (o, (t'', Some r'))
      end
  end.
