(* ===== verification/UffdProofs.v ===== *)
(** The user-fault demo: what it prints and how many faults it takes.  The
    region is described by how many pages are present and by the character at
    each offset. *)
From S2P Require Import Prelude CInt CString Region Syscalls Uffd.
Local Open Scope Z_scope.

(** The character of the n-th fault: A to T, over and over. *)
Definition letter (n : Z) : Z := u8 (65 + Z.rem n 20).

(** ** The loop *)

Lemma scan_loop_inv {T} (P : Z → T → Prop) N fuel i body s :
  0 ≤ i ≤ N → N * 1024 < 2 ^ 31 → (Z.to_nat (N - i) < fuel)%nat → P i s →
  (∀ j s0, 0 ≤ j < N → P j s0 → ∃ s1, body (j * 1024) s0 = (Ret tt, s1) ∧ P (j + 1) s1) →
  ∃ s', scan_loop fuel (N * 1024) (i * 1024) body s = (Ret tt, s') ∧ P N s'.
Proof.
  intros Hi HN Hf HP Hbody. revert i s Hi Hf HP.
  induction fuel as [|fuel IH]; intros i s Hi Hf HP; [lia|]. cbn [scan_loop].
  rewrite u64_small by lia. destruct (Z.ltb_spec (i * 1024) (N * 1024)).
  - destruct (Hbody i s ltac:(lia) HP) as (s1 & Hb & HP1). mrun Hb.
    destruct (IH (i + 1) s1) as (s' & Hs & HP'); [lia|lia|done|].
    exists s'. split; [|done]. rewrite <- Hs. minto.
    { apply int_arith_ok. unfold INT_MIN, INT_MAX. lia. }
    do 2 f_equal. lia.
  - assert (i = N) as -> by lia. by exists s.
Qed.

Lemma scan_inv {T} (P : Z → T → Prop) N body s :
  0 ≤ N → N * 1024 < 2 ^ 31 → P 0 s →
  (∀ j s0, 0 ≤ j < N → P j s0 → ∃ s1, body (j * 1024) s0 = (Ret tt, s1) ∧ P (j + 1) s1) →
  ∃ s', scan (N * 1024) body s = (Ret tt, s') ∧ P N s'.
Proof.
  intros HN Hl HP Hb. apply (scan_loop_inv P N _ 0); [lia|lia| |done|done].
  replace (N * 1024 + 1023) with (1023 + N * 1024) by lia. rewrite Z.div_add by lia.
  change (1023 / 1024) with 0. lia.
Qed.

(** On a longer region the last step the [int] allows is followed by one more. *)
Lemma scan_loop_overflow {T} (P : Z → T → Prop) len fuel i body s :
  0 ≤ i < 2 ^ 21 → 2 ^ 31 ≤ len → (Z.to_nat (2 ^ 21 - i) < fuel)%nat → P i s →
  (∀ j s0, 0 ≤ j < 2 ^ 21 → P j s0 → ∃ s1, body (j * 1024) s0 = (Ret tt, s1) ∧ P (j + 1) s1) →
  ∃ s', scan_loop fuel len (i * 1024) body s = (Stop SignedOverflow, s') ∧ P (2 ^ 21) s'.
Proof.
  intros Hi Hlen Hf HP Hbody. revert i s Hi Hf HP.
  induction fuel as [|fuel IH]; intros i s Hi Hf HP; [lia|]. cbn [scan_loop].
  rewrite u64_small by lia. destruct (Z.ltb_spec (i * 1024) len); [|lia].
  destruct (Hbody i s Hi HP) as (s1 & Hb & HP1). mrun Hb.
  destruct (decide (i + 1 = 2 ^ 21)) as [E|Hne].
  - exists s1. split; [|by rewrite <- E]. apply bind_Stop. unfold int_arith.
    replace (i * 1024 + 1024) with (2 ^ 31) by lia. done.
  - destruct (IH (i + 1) s1) as (s' & Hs & HP'); [lia|lia|done|].
    exists s'. split; [|done]. rewrite <- Hs. minto.
    { apply int_arith_ok. unfold INT_MIN, INT_MAX. lia. }
    do 2 f_equal. lia.
Qed.

Lemma scan_overflow {T} (P : Z → T → Prop) len body s :
  2 ^ 31 ≤ len → P 0 s →
  (∀ j s0, 0 ≤ j < 2 ^ 21 → P j s0 → ∃ s1, body (j * 1024) s0 = (Ret tt, s1) ∧ P (j + 1) s1) →
  ∃ s', scan len body s = (Stop SignedOverflow, s') ∧ P (2 ^ 21) s'.
Proof.
  intros Hlen HP Hb. apply (scan_loop_overflow P len _ 0); [lia|done| |done|done].
  assert (2 ^ 21 ≤ (len + 1023) / 1024) by (apply Z.div_le_lower_bound; lia). lia.
Qed.

(** ** Output *)

(** What a phase prints, [f] being the character at each offset. *)
Definition phase_lines (base k : Z) (verb : string) (f : Z → Z) (blocks : list Z) : list bytes :=
  concat (map (λ i, phase_line k verb (base + i * 1024) (f (i * 1024))) blocks).

Lemma phase_lines_snoc base k verb f i :
  0 ≤ i →
  phase_lines base k verb f (seqZ 0 (i + 1)) =
    phase_lines base k verb f (seqZ 0 i) ++ phase_line k verb (base + i * 1024) (f (i * 1024)).
Proof.
  intros Hi. unfold phase_lines. rewrite seqZ_app by lia. rewrite map_app, concat_app.
  done.
Qed.

Lemma print_all_ok ls t (r : region) :
  ∃ t', print_all ls (t, r) = (Ret tt, (t', r)) ∧ outputs t' = outputs t ++ ls.
Proof.
  revert t. induction ls as [|l ls IH]; intros t.
  { exists t. by rewrite app_nil_r. }
  destruct (IH (t ++ [Printed l])) as (t' & Hp & Ho). exists t'. split.
  - unfold print_all. eapply for_each_run; [reflexivity|]. exact Hp.
  - rewrite Ho. unfold outputs. rewrite omap_snoc. by rewrite <- app_assoc.
Qed.

(** ** Regions *)
Section region.
Context (env : environment) (k : Z) (events : Z → uffd_events) (base n : Z).
Context (Hk : 10 ≤ k ≤ 24) (Hevents : ∀ i, served_event (events i)).
Context (Hbase : 0 ≤ base) (Halign : base mod 2 ^ k = 0) (Hn : 0 ≤ n).
Context (Htop : base + n * 2 ^ k ≤ 2 ^ 64).

Let page_size : Z := 2 ^ k.
#[local] Abbreviation hdl := (handler page_size events).

Lemma page_size_mult : ∃ q, page_size = 1024 * q ∧ 1 ≤ q.
Proof.
  clear - Hk. exists (2 ^ (k - 10)). split.
  - change 1024 with (2 ^ 10). unfold page_size. rewrite <- Z.pow_add_r by lia. f_equal. lia.
  - pose proof (Z.pow_pos_nonneg 2 (k - 10)). lia.
Qed.

#[local] Instance uffd_pager : PagerOk page_size hdl (λ c, replicate (Z.to_nat page_size) (letter c)).
Proof.
  clear - Hk Hevents.
  apply (serve_fault_pager k events (fill_page page_size)); [lia|done|].
  intros. apply length_replicate.
Qed.

Lemma page_div p i : 0 ≤ i < page_size → (p * page_size + i) / page_size = p.
Proof. intros. rewrite Z.add_comm, Z.div_add, Z.div_small by lia. lia. Qed.

(** The page [p] of a region whose character at offset [x] is [f x]. *)
Definition page_of (f : Z → Z) (p : Z) : bytes := map (λ j, f (p * page_size + j)) (seqZ 0 page_size).

Lemma length_page_of f p : length (page_of f p) = Z.to_nat page_size.
Proof. unfold page_of. by rewrite length_map, length_seqZ. Qed.

Lemma lookup_page_of f p i :
  0 ≤ i < page_size → page_of f p !! Z.to_nat i = Some (f (p * page_size + i)).
Proof.
  intros Hi. unfold page_of. rewrite list_lookup_fmap, lookup_seqZ_lt by lia. simpl.
  do 2 f_equal. lia.
Qed.

Lemma nth_page_of f p i :
  0 ≤ i < page_size → nth (Z.to_nat i) (page_of f p) 0 = f (p * page_size + i).
Proof. intros Hi. by apply nth_lookup_Some, lookup_page_of. Qed.

Lemma page_of_ext f g p :
  (∀ i, 0 ≤ i < page_size → f (p * page_size + i) = g (p * page_size + i)) → page_of f p = page_of g p.
Proof.
  intros H. apply list_eq. intros i. destruct (decide (Z.of_nat i < page_size)).
  - rewrite <- (Nat2Z.id i), !lookup_page_of by lia. by rewrite H by lia.
  - rewrite !lookup_ge_None_2; [done|rewrite length_page_of; lia..].
Qed.

Lemma page_of_const c p : page_of (λ _, c) p = replicate (Z.to_nat page_size) c.
Proof.
  apply list_eq. intros i. destruct (decide (Z.of_nat i < page_size)).
  - rewrite <- (Nat2Z.id i), lookup_page_of by lia.
    rewrite lookup_replicate_2; [done|lia].
  - rewrite !lookup_ge_None_2; [done|rewrite ?length_replicate, ?length_page_of; lia..].
Qed.

(** The first [m] pages are present, [f] is the character at each offset, and
    [c0] faults had been served before the first of these pages was filled:
    the pages to come have the letters of the faults to come. *)
Record filled (m : Z) (f : Z → Z) (c0 : Z) (r : region) : Prop := {
  fl_base : r_base r = base;
  fl_len : r_len r = n * page_size;
  fl_faults : r_faults r = c0 + m;
  fl_pages p : r_pages r !! p = if (0 <=? p) && (p <? m) then Some (page_of f p) else None;
  fl_rest x : m * page_size ≤ x → f x = letter (c0 + x / page_size);
}.

Lemma filled_ext m f g c0 r :
  (∀ x, 0 ≤ x → f x = g x) → 0 ≤ m → filled m f c0 r → filled m g c0 r.
Proof.
  intros Hfg Hm [? ? ? Hp Hr]. pose proof page_size_mult. split; [done..| |].
  - intros p. rewrite Hp. destruct (Z.leb_spec 0 p); [|done]. simpl.
    destruct (p <? m); [|done]. f_equal. apply page_of_ext. intros i Hi. apply Hfg. nia.
  - intros x Hx. rewrite <- Hfg by nia. by apply Hr.
Qed.

Lemma filled_wf m f c0 r : filled m f c0 r → region_wf page_size n r.
Proof.
  intros [Hb Hl _ Hp _]. rewrite <- Hb in Hbase, Halign. split; [done..| |].
  - by rewrite Hb, Hl.
  - intros p pg Hpg. rewrite Hp in Hpg. destruct ((0 <=? p) && (p <? m)); [|done].
    injection Hpg as <-. apply length_page_of.
Qed.

Lemma filled_start : filled 0 (λ x, letter (x / page_size)) 0 (Region base (n * page_size) ∅ 0).
Proof.
  split; simpl; try done. intros p. rewrite lookup_empty.
  by destruct (Z.leb_spec 0 p), (Z.ltb_spec p 0); try lia.
Qed.

(** The page that [x] is in, [p] pages being present or the next one. *)
Lemma content_filled m f c0 r p :
  filled m f c0 r → 0 ≤ p ≤ m →
  content (λ c, replicate (Z.to_nat page_size) (letter c)) r p = page_of f p.
Proof.
  intros [_ _ Hf Hp Hr] Hpm. pose proof page_size_mult as (q & Hq & Hq1).
  unfold content. rewrite Hp. destruct (Z.leb_spec 0 p); [|lia].
  destruct (Z.ltb_spec p m); [done|]. simpl. assert (p = m) as -> by lia.
  rewrite Hf, <- (page_of_const _ m). apply page_of_ext. intros i Hi.
  rewrite Hr, page_div by lia. done.
Qed.

Lemma paged_filled m f c0 r p :
  filled m f c0 r → 0 ≤ p ≤ m →
  filled (Z.max m (p + 1)) f c0
    (paged (λ c, replicate (Z.to_nat page_size) (letter c)) r p).
Proof.
  intros HF Hpm. pose proof (content_filled m f c0 r p HF Hpm) as Hc.
  pose proof page_size_mult as (q & Hq & Hq1).
  destruct (decide (p < m)) as [Hlt|Hge].
  - rewrite Z.max_l by lia. unfold paged. rewrite (fl_pages _ _ _ _ HF).
    destruct (Z.leb_spec 0 p); [|lia]. by destruct (Z.ltb_spec p m); [|lia].
  - assert (p = m) as -> by lia. rewrite Z.max_r by lia.
    destruct HF as [Hb Hl Hf Hp Hr].
    assert (r_pages r !! m = None) as Hnone.
    { rewrite Hp. rewrite (proj2 (Z.ltb_ge m m)) by lia. by rewrite andb_false_r. }
    unfold content in Hc. rewrite Hnone in Hc. simpl in Hc.
    unfold paged. rewrite Hnone, Hc. split; simpl; [done|done|lia| |].
    + intros p. destruct (decide (p = m)) as [->|Hne].
      * rewrite lookup_insert_eq. destruct (Z.leb_spec 0 m); [|lia].
        by destruct (Z.ltb_spec m (m + 1)); [|lia].
      * rewrite lookup_insert_ne, Hp by done.
        destruct (Z.ltb_spec p m), (Z.ltb_spec p (m + 1)); try done; lia.
    + intros x Hx. apply Hr. nia.
Qed.

Lemma set_page_filled m f g c0 r p :
  filled m f c0 r → 0 ≤ p < m → (∀ x, x / page_size ≠ p → g x = f x) →
  filled m g c0 (set_page p (page_of g p) r).
Proof.
  intros [Hb Hl Hf Hp Hr] Hpm Hg. pose proof page_size_mult as (q & Hq & Hq1).
  split; simpl; [done..| |].
  - intros p'. destruct (decide (p' = p)) as [->|Hne].
    + rewrite lookup_insert_eq. destruct (Z.leb_spec 0 p); [|lia].
      by destruct (Z.ltb_spec p m); [|lia].
    + rewrite lookup_insert_ne, Hp by done. destruct ((0 <=? p') && (p' <? m)); [|done].
      f_equal. apply page_of_ext. intros i Hi. symmetry. apply Hg.
      rewrite page_div by lia. lia.
  - intros x Hx. rewrite Hg; [by apply Hr|].
    intros E. pose proof (Z.div_mod x page_size ltac:(lia)) as Hdm.
    pose proof (Z.mod_pos_bound x page_size ltac:(lia)). nia.
Qed.

(** ** Accesses *)

Lemma load_filled m f c0 r l :
  filled m f c0 r → 0 ≤ l < n * page_size → l / page_size ≤ m →
  ∃ r', load page_size hdl l r = (Ret (f l), r') ∧
    filled (Z.max m (l / page_size + 1)) f c0 r'.
Proof.
  intros HF Hl Hm. pose proof page_size_mult as (q & Hq & Hq1).
  pose proof (Z.div_mod l page_size ltac:(lia)) as Hdm.
  pose proof (Z.mod_pos_bound l page_size ltac:(lia)) as Hmod.
  assert (0 ≤ l / page_size < n) by (split; [apply Z.div_pos; lia|apply Z.div_lt_upper_bound; lia]).
  eexists. split.
  - rewrite Hdm at 1. rewrite Z.mul_comm.
    rewrite (load_ok page_size hdl _ n r _ _ (filled_wf _ _ _ _ HF)) by lia.
    rewrite (content_filled m f c0), nth_page_of by (done || lia).
    do 3 f_equal. lia.
  - by apply paged_filled; [|lia].
Qed.

(** The character at [x] after 1024 characters [c] at [l]. *)
Definition overwritten (f : Z → Z) (l c x : Z) : Z :=
  if (l <=? x) && (x <? l + 1024) then c else f x.

Lemma splice_page f c p o :
  0 ≤ o → o + 1024 ≤ page_size →
  take (Z.to_nat o) (page_of f p) ++ replicate (Z.to_nat 1024) c ++
    drop (Z.to_nat o + length (replicate (Z.to_nat 1024) c)) (page_of f p) =
  page_of (overwritten f (p * page_size + o) c) p.
Proof.
  intros Ho Hlen. pose proof (length_page_of f p) as Hpl. rewrite length_replicate.
  assert (length (take (Z.to_nat o) (page_of f p)) = Z.to_nat o) as Ht
    by (rewrite length_take; lia).
  apply list_eq. intros i. destruct (decide (Z.of_nat i < page_size)) as [Hi|Hi].
  - rewrite <- (Nat2Z.id i) at 2. rewrite lookup_page_of by lia. unfold overwritten.
    destruct (decide (i < Z.to_nat o)%nat) as [H1|H1].
    { rewrite lookup_app_l, lookup_take by lia. rewrite decide_True by lia.
      rewrite <- (Nat2Z.id i) at 1. rewrite lookup_page_of by lia.
      by destruct (Z.leb_spec (p * page_size + o) (p * page_size + Z.of_nat i)); [lia|]. }
    rewrite lookup_app_r by lia. rewrite Ht.
    destruct (Z.leb_spec (p * page_size + o) (p * page_size + Z.of_nat i)); [|lia].
    destruct (Z.ltb_spec (p * page_size + Z.of_nat i) (p * page_size + o + 1024)).
    + rewrite lookup_app_l by (rewrite length_replicate; lia).
      apply lookup_replicate_2. lia.
    + rewrite lookup_app_r by (rewrite length_replicate; lia).
      rewrite length_replicate, lookup_drop.
      replace (Z.to_nat o + Z.to_nat 1024 + (i - Z.to_nat o - Z.to_nat 1024))%nat
        with (Z.to_nat (Z.of_nat i)) by lia.
      rewrite lookup_page_of by lia. done.
  - rewrite !lookup_ge_None_2; [done|rewrite length_page_of; lia|].
    rewrite !length_app, length_replicate, length_drop, Ht. lia.
Qed.

Lemma memset_filled m f c0 r l c :
  filled m f c0 r → 0 ≤ l → l mod 1024 = 0 → l < n * page_size → l / page_size ≤ m →
  ∃ r', memset page_size hdl l c 1024 r = (Ret tt, r') ∧
    filled (Z.max m (l / page_size + 1)) (overwritten f l c) c0 r'.
Proof.
  intros HF Hl Hl1 Hln Hm. pose proof page_size_mult as (q & Hq & Hq1).
  pose proof (Z.div_mod l page_size ltac:(lia)) as Hdm.
  pose proof (Z.mod_pos_bound l page_size ltac:(lia)) as Hmod.
  set (p := l / page_size) in *. set (o := l mod page_size) in *.
  assert (0 ≤ p < n) by (unfold p; split; [apply Z.div_pos; lia|apply Z.div_lt_upper_bound; lia]).
  assert (o + 1024 ≤ page_size) as Ho.
  { apply Z.mod_divide in Hl1 as [b Hb]; [|lia].
    assert (o = 1024 * (b - q * p)) as Ho by nia. nia. }
  pose proof (paged_filled m f c0 r p HF ltac:(lia)) as HF'.
  eexists. split.
  - unfold memset. rewrite Hdm at 1. rewrite (Z.mul_comm page_size p).
    rewrite (store_list_ok page_size hdl _ n r p o _ (filled_wf _ _ _ _ HF)); [reflexivity|lia|lia| |done].
    rewrite length_replicate. lia.
  - rewrite (content_filled m f c0 r p HF) by lia. rewrite splice_page by lia.
    replace (p * page_size + o) with l by lia.
    apply set_page_filled with f; [done|lia|]. intros x Hx. unfold overwritten.
    destruct (Z.leb_spec l x), (Z.ltb_spec x (l + 1024)); try done. destruct Hx.
    replace x with (p * page_size + (x - p * page_size)) by lia. apply page_div. lia.
Qed.

Lemma discard_filled f c0 r t :
  (∀ t a l, ret (env t (Madvise a l)) = 0) → filled n f c0 r →
  ∃ t' r', discard env page_size (t, r) = (Ret tt, (t', r')) ∧ outputs t' = outputs t ∧
    filled 0 (λ x, letter (c0 + n + x / page_size)) (c0 + n) r'.
Proof.
  intros Hmadv HF. pose proof (filled_wf _ _ _ _ HF) as Hwf.
  pose proof page_size_mult as (q & Hq & Hq1).
  eexists _, _. split; [|split].
  - unfold discard. mstep. minto; [reflexivity|]. cbv beta. rewrite Hmadv. mstep.
    apply on_snd_Ret, (dontneed_all page_size hdl _ n r Hwf).
    intros p [pg Hpg]. rewrite (fl_pages _ _ _ _ HF) in Hpg.
    destruct (Z.leb_spec 0 p), (Z.ltb_spec p n); try done.
  - unfold outputs. rewrite omap_snoc. apply app_nil_r.
  - destruct HF as [Hb Hl Hf Hp Hr]. split; simpl; [done|done|lia| |done].
    intros p. rewrite lookup_empty. by destruct (Z.leb_spec 0 p), (Z.ltb_spec p 0); try lia.
Qed.

(** ** Phases *)

(** The number of pages that hold the first [i] blocks of 1024 bytes. *)
Definition pages_for (i : Z) : Z := (i * 1024 + page_size - 1) / page_size.

Lemma pages_for_step i :
  0 ≤ i → let p := (i * 1024) / page_size in
  0 ≤ p ≤ pages_for i ∧ pages_for i ≤ p + 1 ∧ pages_for (i + 1) = p + 1.
Proof.
  intros Hi p. pose proof page_size_mult as (q & Hq & Hq1). unfold pages_for.
  pose proof (Z.div_mod (i * 1024) page_size ltac:(lia)) as Hdm. fold p in Hdm.
  pose proof (Z.mod_pos_bound (i * 1024) page_size ltac:(lia)) as Hmod.
  set (b := (i * 1024) mod page_size) in *.
  assert (b = 1024 * (i - q * p)) as Hb by nia.
  assert (b + 1024 ≤ page_size) by nia.
  assert (0 ≤ p) by (apply Z.div_pos; lia).
  split; [split; [done|]|split].
  - apply Z.div_le_lower_bound; nia.
  - apply Z.lt_succ_r, Z.div_lt_upper_bound; nia.
  - symmetry. apply (Z.div_unique_pos _ _ _ (b + 1023)); nia.
Qed.

Lemma pages_for_all N : N * 1024 = n * page_size → pages_for N = n.
Proof.
  intros HN. pose proof page_size_mult as (q & Hq & Hq1). unfold pages_for. rewrite HN.
  symmetry. apply (Z.div_unique_pos _ _ _ (page_size - 1)); nia.
Qed.

(** The first [i] blocks have been visited. *)
Definition visited (o : list bytes) (k' : Z) (verb : string) (m0 : Z) (g : Z → Z) (F : Z → Z → Z)
    (c0 i : Z) (s : trace * region) : Prop :=
  outputs s.1 = o ++ phase_lines base k' verb g (seqZ 0 i) ∧
  filled (Z.max m0 (pages_for i)) (F i) c0 s.2.

Lemma read_step o m0 f c0 k' j s0 :
  0 ≤ j → j * 1024 < n * page_size → visited o k' "Read" m0 f (λ _, f) c0 j s0 →
  ∃ s1, read_at page_size events k' (j * 1024) s0 = (Ret tt, s1) ∧
    visited o k' "Read" m0 f (λ _, f) c0 (j + 1) s1.
Proof.
  intros Hj Hjn. destruct s0 as [t0 r0]. intros [Ho HF0]. simpl in *.
  pose proof (pages_for_step j ltac:(lia)) as (Hp1 & Hp2 & Hp3).
  destruct (load_filled _ f c0 r0 (j * 1024) HF0) as (r1 & Hl & HF1); [lia|lia|].
  destruct (print_all_ok (phase_line k' "Read" (r_base r0 + j * 1024) (f (j * 1024))) t0 r1)
    as (t1 & Hp & Ho1).
  exists (t1, r1). split; [|split; simpl].
  - unfold read_at. mstep. minto; [by apply on_snd_Ret|]. exact Hp.
  - rewrite Ho1, Ho, phase_lines_snoc, (fl_base _ _ _ _ HF0) by lia. by rewrite app_assoc.
  - replace (Z.max m0 (pages_for (j + 1))) with
      (Z.max (Z.max m0 (pages_for j)) (j * 1024 / page_size + 1)) by lia. done.
Qed.

Lemma pages_for_0 : pages_for 0 = 0.
Proof.
  pose proof page_size_mult as (q & Hq & Hq1).
  unfold pages_for. symmetry. apply (Z.div_unique_pos _ _ _ (page_size - 1)); lia.
Qed.

Lemma visited_start o k' verb m0 g F c0 t r :
  outputs t = o → 0 ≤ m0 → filled m0 (F 0) c0 r → visited o k' verb m0 g F c0 0 (t, r).
Proof.
  intros Ho Hm HF. split; simpl; [by rewrite Ho, app_nil_r|].
  by rewrite pages_for_0, Z.max_l by lia.
Qed.

Lemma rule_printed t : outputs (t ++ [Printed rule]) = outputs t ++ [rule].
Proof. unfold outputs. by rewrite omap_snoc. Qed.

(** A region of 2^31 bytes or more: the offset overflows in the first phase,
    after 2^21 blocks. *)
Lemma phases_overflow t :
  2 ^ 31 ≤ n * page_size →
  ∃ t' r', phases env page_size events (t, Region base (n * page_size) ∅ 0) =
      (Stop SignedOverflow, (t', r')) ∧
    outputs t' = outputs t ++
      rule :: phase_lines base 1 "Read" (λ x, letter (x / page_size)) (seqZ 0 (2 ^ 21)).
Proof.
  intros Hlen.
  destruct (scan_overflow (visited (outputs (t ++ [Printed rule])) 1 "Read" 0
      (λ x, letter (x / page_size)) (λ _ x, letter (x / page_size)) 0)
    (n * page_size) (read_at page_size events 1)
    (t ++ [Printed rule], Region base (n * page_size) ∅ 0)) as ([t' r'] & Hs & Ho & _).
  - lia.
  - apply visited_start; [done|lia|]. apply filled_start.
  - intros j s0 Hj. apply read_step; lia.
  - exists t', r'. split.
    + unfold phases, read_phase. apply bind_Stop. do 2 mstep. exact Hs.
    + cbn [fst] in Ho. rewrite Ho, rule_printed.
      generalize (phase_lines base 1 "Read" (λ x, letter (x / page_size)) (seqZ 0 (2 ^ 21))).
      intros l. by rewrite <- app_assoc.
Qed.

Section phase.
Context (N : Z) (HN : N * 1024 = n * page_size) (Hlen : n * page_size < 2 ^ 31).

Lemma scan_visited body o k' verb m0 g F c0 t r :
  outputs t = o → 0 ≤ m0 ≤ n → filled m0 (F 0) c0 r →
  (∀ j s0, 0 ≤ j < N → visited o k' verb m0 g F c0 j s0 →
     ∃ s1, body (j * 1024) s0 = (Ret tt, s1) ∧ visited o k' verb m0 g F c0 (j + 1) s1) →
  ∃ t' r', scan (r_len r) body (t, r) = (Ret tt, (t', r')) ∧
    outputs t' = o ++ phase_lines base k' verb g (seqZ 0 N) ∧ filled n (F N) c0 r'.
Proof.
  intros Ho Hm HF Hbody. pose proof page_size_mult as (q & Hq & Hq1).
  rewrite (fl_len _ _ _ _ HF), <- HN.
  destruct (scan_inv (visited o k' verb m0 g F c0) N body (t, r)) as ([t' r'] & Hs & Ho' & HF').
  - lia.
  - lia.
  - by apply visited_start; [|lia|].
  - done.
  - exists t', r'. split; [done|]. split; [done|]. simpl in HF'.
    by rewrite (pages_for_all N), Z.max_r in HF' by (done || lia).
Qed.

Lemma scan_read m0 f c0 k' t r :
  0 ≤ m0 ≤ n → filled m0 f c0 r →
  ∃ t' r', scan (r_len r) (read_at page_size events k') (t, r) = (Ret tt, (t', r')) ∧
    outputs t' = outputs t ++ phase_lines base k' "Read" f (seqZ 0 N) ∧ filled n f c0 r'.
Proof.
  intros Hm HF. eapply (scan_visited _ _ _ _ m0 _ (λ _, f)); [done..|].
  intros j s0 Hj. apply read_step; lia.
Qed.

Lemma scan_write m0 f c0 c k' t r :
  0 ≤ m0 ≤ n → filled m0 f c0 r →
  ∃ t' r', scan (r_len r) (write_at page_size events k' c) (t, r) = (Ret tt, (t', r')) ∧
    outputs t' = outputs t ++ phase_lines base k' "write" (λ _, c) (seqZ 0 N) ∧
    filled n (λ x, if x <? n * page_size then c else f x) c0 r'.
Proof.
  intros Hm HF. rewrite <- HN.
  eapply (scan_visited _ _ _ _ m0 _ (λ i x, if x <? i * 1024 then c else f x)); [done|done| |].
  { eapply filled_ext; [|lia|exact HF]. intros x Hx. by destruct (Z.ltb_spec x (0 * 1024)); [lia|]. }
  intros j [t0 r0] Hj [Ho HF0]. simpl in *.
  pose proof (pages_for_step j ltac:(lia)) as (Hp1 & Hp2 & Hp3).
  set (p := j * 1024 / page_size) in *. set (m := Z.max m0 (pages_for j)) in *.
  destruct (memset_filled _ _ c0 r0 (j * 1024) c HF0) as (r1 & Hs & HF1);
    [lia|apply Z.mod_mul; lia|lia|lia|].
  fold p m in HF1.
  destruct (load_filled _ _ c0 r1 (j * 1024) HF1) as (r2 & Hl & HF2); [lia|lia|].
  assert (overwritten (λ x, if x <? j * 1024 then c else f x) (j * 1024) c (j * 1024) = c) as Hc.
  { unfold overwritten. rewrite Z.leb_refl. by destruct (Z.ltb_spec (j * 1024) (j * 1024 + 1024)); [|lia]. }
  rewrite Hc in Hl.
  destruct (print_all_ok (phase_line k' "write" (r_base r0 + j * 1024) c) t0 r2) as (t1 & Hp & Ho1).
  exists (t1, r2). split; [|split; simpl].
  - unfold write_at. mstep. minto; [by apply on_snd_Ret|]. cbv beta.
    minto; [by apply on_snd_Ret|]. exact Hp.
  - rewrite Ho1, Ho, phase_lines_snoc, (fl_base _ _ _ _ HF0) by lia. by rewrite app_assoc.
  - fold p in HF2. replace (Z.max m0 (pages_for (j + 1))) with (Z.max (Z.max m (p + 1)) (p + 1)) by lia.
    eapply filled_ext; [|lia|exact HF2]. intros x Hx. unfold overwritten.
    destruct (Z.leb_spec (j * 1024) x), (Z.ltb_spec x (j * 1024 + 1024)),
      (Z.ltb_spec x (j * 1024)), (Z.ltb_spec x ((j + 1) * 1024)); simpl; try done; lia.
Qed.

Lemma read_phase_ok m0 f c0 k' t r :
  0 ≤ m0 ≤ n → filled m0 f c0 r →
  ∃ t' r', read_phase page_size events k' (t, r) = (Ret tt, (t', r')) ∧
    outputs t' = outputs t ++ rule :: phase_lines base k' "Read" f (seqZ 0 N) ∧ filled n f c0 r'.
Proof.
  intros Hm HF.
  destruct (scan_read m0 f c0 k' (t ++ [Printed rule]) r Hm HF) as (t' & r' & Hs & Ho & HF').
  exists t', r'. split; [|split; [|done]].
  - unfold read_phase. do 2 mstep. exact Hs.
  - by rewrite Ho, rule_printed, <- app_assoc.
Qed.

Lemma write_phase_ok m0 f c0 c k' t r :
  0 ≤ m0 ≤ n → filled m0 f c0 r →
  ∃ t' r', write_phase page_size events k' c (t, r) = (Ret tt, (t', r')) ∧
    outputs t' = outputs t ++ rule :: phase_lines base k' "write" (λ _, c) (seqZ 0 N) ∧
    filled n (λ x, if x <? n * page_size then c else f x) c0 r'.
Proof.
  intros Hm HF.
  destruct (scan_write m0 f c0 c k' (t ++ [Printed rule]) r Hm HF) as (t' & r' & Hs & Ho & HF').
  exists t', r'. split; [|split; [|done]].
  - unfold write_phase. do 2 mstep. exact Hs.
  - by rewrite Ho, rule_printed, <- app_assoc.
Qed.

Section again.
Context (Hmadv : ∀ t a l, ret (env t (Madvise a l)) = 0).

Lemma read_again_ok f c0 k' t r :
  filled n f c0 r →
  let g x := letter (c0 + n + x / page_size) in
  ∃ t' r', read_again env page_size events k' (t, r) = (Ret tt, (t', r')) ∧
    outputs t' = outputs t ++ rule :: phase_lines base k' "Read" g (seqZ 0 N) ∧
    filled n g (c0 + n) r'.
Proof.
  intros HF g. destruct (discard_filled f c0 r (t ++ [Printed rule]) Hmadv HF)
    as (t1 & r1 & Hd & Ho1 & HF1).
  destruct (scan_read 0 g (c0 + n) k' t1 r1 ltac:(lia) HF1) as (t' & r' & Hs & Ho & HF').
  exists t', r'. split; [|split; [|done]].
  - unfold read_again. mstep. minto; [exact Hd|]. cbv beta. mstep. exact Hs.
  - by rewrite Ho, Ho1, rule_printed, <- app_assoc.
Qed.

Lemma write_again_ok f c0 c k' t r :
  filled n f c0 r →
  let g x := letter (c0 + n + x / page_size) in
  ∃ t' r', write_again env page_size events k' c (t, r) = (Ret tt, (t', r')) ∧
    outputs t' = outputs t ++ rule :: phase_lines base k' "write" (λ _, c) (seqZ 0 N) ∧
    filled n (λ x, if x <? n * page_size then c else g x) (c0 + n) r'.
Proof.
  intros HF g. destruct (discard_filled f c0 r (t ++ [Printed rule]) Hmadv HF)
    as (t1 & r1 & Hd & Ho1 & HF1).
  destruct (scan_write 0 g (c0 + n) c k' t1 r1 ltac:(lia) HF1) as (t' & r' & Hs & Ho & HF').
  exists t', r'. split; [|split; [|done]].
  - unfold write_again. mstep. minto; [exact Hd|]. cbv beta. mstep. exact Hs.
  - by rewrite Ho, Ho1, rule_printed, <- app_assoc.
Qed.

Lemma phase_lines_ext k' verb f g :
  (∀ x, 0 ≤ x < n * page_size → f x = g x) →
  phase_lines base k' verb f (seqZ 0 N) = phase_lines base k' verb g (seqZ 0 N).
Proof.
  clear - HN. intros Hfg. unfold phase_lines. f_equal. apply map_ext_in.
  intros i Hi%list_elem_of_In%elem_of_seqZ. by rewrite Hfg by lia.
Qed.

(** The eight phases on a region none of whose pages is present. *)
Lemma phases_ok t :
  let line k' verb f := rule :: phase_lines base k' verb f (seqZ 0 N) in
  ∃ t' r', phases env page_size events (t, Region base (n * page_size) ∅ 0) = (Ret tt, (t', r')) ∧
    outputs t' = outputs t ++
      line 1 "Read" (λ x, letter (x / page_size)) ++ line 2 "Read" (λ x, letter (x / page_size)) ++
      line 3 "Read" (λ x, letter (n + x / page_size)) ++
      line 4 "Read" (λ x, letter (n + x / page_size)) ++
      line 5 "write" (λ _, 64) ++ line 6 "Read" (λ _, 64) ++
      line 7 "write" (λ _, 94) ++ line 8 "Read" (λ _, 94) ∧
    filled n (λ x, if x <? n * page_size then 94 else letter (2 * n + x / page_size)) (2 * n) r'.
Proof.
  intros line.
  destruct (read_phase_ok 0 _ 0 1 t _ ltac:(lia) filled_start) as (t1 & r1 & E1 & O1 & F1).
  destruct (read_phase_ok n _ 0 2 t1 r1 ltac:(lia) F1) as (t2 & r2 & E2 & O2 & F2).
  destruct (read_again_ok _ 0 3 t2 r2 F2) as (t3 & r3 & E3 & O3 & F3).
  destruct (read_phase_ok n _ _ 4 t3 r3 ltac:(lia) F3) as (t4 & r4 & E4 & O4 & F4).
  destruct (write_again_ok _ _ 64 5 t4 r4 F4) as (t5 & r5 & E5 & O5 & F5).
  destruct (read_phase_ok n _ _ 6 t5 r5 ltac:(lia) F5) as (t6 & r6 & E6 & O6 & F6).
  destruct (write_phase_ok n _ _ 94 7 t6 r6 ltac:(lia) F6) as (t7 & r7 & E7 & O7 & F7).
  destruct (read_phase_ok n _ _ 8 t7 r7 ltac:(lia) F7) as (t8 & r8 & E8 & O8 & F8).
  exists t8, r8. split; [|split].
  - unfold phases. mrun E1. mrun E2. mrun E3. mrun E4. mrun E5. mrun E6. mrun E7. exact E8.
  - rewrite O8, O7, O6, O5, O4, O3, O2, O1.
    assert (∀ c f, phase_lines base 6 "Read" (λ x, if x <? n * page_size then c else f x) (seqZ 0 N) =
      phase_lines base 6 "Read" (λ _, c) (seqZ 0 N)) as H6.
    { intros c f. apply phase_lines_ext. intros x Hx. by destruct (Z.ltb_spec x (n * page_size)); [|lia]. }
    assert (∀ c f, phase_lines base 8 "Read" (λ x, if x <? n * page_size then c else f x) (seqZ 0 N) =
      phase_lines base 8 "Read" (λ _, c) (seqZ 0 N)) as H8.
    { intros c f. apply phase_lines_ext. intros x Hx. by destruct (Z.ltb_spec x (n * page_size)); [|lia]. }
    rewrite H6, H8. unfold line. by rewrite <- !app_assoc.
  - replace (2 * n) with (0 + n + n) by lia. eapply filled_ext; [|lia|exact F8].
    intros x Hx. simpl. by destruct (x <? n * page_size).
Qed.
End again.
End phase.
End region.

(** ** The program *)

(** No call of [main] fails; the page size, and where the region is. *)
Record uffd_env (env : environment) (page_size base : Z) : Prop := {
  ue_sysconf : ∀ t, ret (env t Sysconf) = page_size;
  ue_uffd : ∀ t, ret (env t Userfaultfd) ≠ -1;
  ue_api : ∀ t fd, ret (env t (IoctlApi fd)) ≠ -1;
  ue_mmap : ∀ t a l, ret (env t (Mmap a l)) = base;
  ue_register : ∀ t fd a l, ret (env t (IoctlRegister fd a l)) ≠ -1;
  ue_thread : ∀ t r, ret (env t (PthreadCreate r)) = 0;
  ue_page : ∀ t l, ret (env t (MmapPage l)) ≠ -1;
  ue_madvise : ∀ t a l, ret (env t (Madvise a l)) = 0;
}.

Definition mmap_line (base : Z) : bytes := str "Address returned by mmap() = " ++ fmt_p base ++ [10].

Section program.
Context (env : environment) (k base n : Z) (events : Z → uffd_events) (prog a1 : bytes).
Context (HE : uffd_env env (2 ^ k) base) (Hk : 10 ≤ k ≤ 24).
Context (Hevents : ∀ i, served_event (events i)).
Context (Hbase : 0 ≤ base) (Halign : base mod 2 ^ k = 0).
Context (Hn : strtoul0 a1 = n) (Hn0 : 0 ≤ n) (Htop : base + n * 2 ^ k < 2 ^ 64).

Lemma set_up_ok :
  ∃ t, set_up env [prog; a1] [] = (Ret (2 ^ k, Region base (n * 2 ^ k) ∅ 0), t) ∧
    outputs t = [mmap_line base].
Proof.
  assert (0 < 2 ^ k) as Hps by (apply Z.pow_pos_nonneg; lia).
  assert (2 ^ k < 2 ^ 25) as Hps' by (apply Z.pow_lt_mono_r; lia).
  destruct HE as [H1 H2 H3 H4 H5 H6 H7 _]. unfold set_up.
  apply (sys_bind env (λ r, ret r = 2 ^ k)); [done|]. intros ps Hret. rewrite Hret.
  rewrite s32_small, Hn, u64_small by nia.
  apply (sys_bind env (λ r, ret r ≠ -1)); [done|]. intros u Hu.
  apply fail_if_false; [by apply Z.eqb_neq|].
  apply (sys_bind env (λ r, ret r ≠ -1)); [done|]. intros a Ha.
  apply fail_if_false; [by apply Z.eqb_neq|].
  apply (sys_bind env (λ r, ret r = base)); [done|]. intros m Hm. rewrite Hm.
  apply fail_if_false; [apply Z.eqb_neq; lia|]. apply print_bind.
  apply (sys_bind env (λ r, ret r ≠ -1)); [done|]. intros g Hg.
  apply fail_if_false; [by apply Z.eqb_neq|].
  apply (sys_bind env (λ r, ret r = 0)); [done|]. intros p Hp.
  apply fail_if_false; [by rewrite Hp|]. unfold handler_start. rewrite bind_assoc.
  apply (sys_bind env (λ r, ret r ≠ -1)); [done|]. intros pg Hpg.
  apply fail_if_false; [by apply Z.eqb_neq|].
  eexists. split; [reflexivity|]. reflexivity.
Qed.

(** C7: [uffd.c], when no call fails and every fault is served, on [n] pages of
    2^10 to 2^24 bytes each and less than 2^31 in all: it ends with exit code 0, after the eight phases whose lines show, every 1024 bytes, the
    letter of the page's fault (A to T by the number of faults before it), then
    the letters of the next [n] faults after [madvise], then the characters
    written; the region takes three faults a page and ends full of [^]. *)
Theorem uffd_main_ok :
  n * 2 ^ k < 2 ^ 31 →
  let blocks := seqZ 0 (n * 2 ^ k / 1024) in
  let line k' verb f := rule :: phase_lines base k' verb f blocks in
  ∃ t r, main env events [prog; a1] [] = (Stop (Exit 0), (t, Some r)) ∧
    outputs t = mmap_line base ::
      line 1 "Read" (λ x, letter (x / 2 ^ k)) ++ line 2 "Read" (λ x, letter (x / 2 ^ k)) ++
      line 3 "Read" (λ x, letter (n + x / 2 ^ k)) ++ line 4 "Read" (λ x, letter (n + x / 2 ^ k)) ++
      line 5 "write" (λ _, 64) ++ line 6 "Read" (λ _, 64) ++
      line 7 "write" (λ _, 94) ++ line 8 "Read" (λ _, 94) ∧
    r_faults r = 3 * n ∧
    ∀ p, 0 ≤ p < n → r_pages r !! p = Some (replicate (Z.to_nat (2 ^ k)) 94).
Proof.
  intros Hlen blocks line. destruct set_up_ok as (t0 & Hset & Ho).
  destruct (page_size_mult k Hk) as (q & Hq & Hq1).
  assert (n * 2 ^ k / 1024 * 1024 = n * 2 ^ k) as HN.
  { rewrite Hq. replace (n * (1024 * q)) with (n * q * 1024) by lia. by rewrite Z.div_mul. }
  destruct (phases_ok env k events base n Hk Hevents Hbase Halign Hn0 ltac:(lia)
    _ HN Hlen (ue_madvise _ _ _ HE) t0) as (t & r & Hrun & Hout & HF).
  exists t, r. split; [|split; [|split]].
  - unfold main. rewrite Hset. by rewrite (bind_Ret _ _ _ _ _ Hrun).
  - by rewrite Hout, Ho.
  - rewrite (fl_faults _ _ _ _ _ _ _ HF). lia.
  - intros p Hp. rewrite (fl_pages _ _ _ _ _ _ _ HF).
    destruct (Z.leb_spec 0 p), (Z.ltb_spec p n); try lia. simpl. f_equal.
    rewrite <- (page_of_const k Hk _ p). apply (page_of_ext k Hk). intros i Hi.
    destruct (Z.ltb_spec (p * 2 ^ k + i) (n * 2 ^ k)); [done|nia].
Qed.

(** C40: in the same environment on 2^31 bytes or more the run does not get
    through its first phase:
    the offset [l], an [int], overflows after the 2^21 blocks it can reach. *)
Theorem uffd_offset_overflow :
  2 ^ 31 ≤ n * 2 ^ k →
  ∃ t r, main env events [prog; a1] [] = (Stop SignedOverflow, (t, Some r)) ∧
    outputs t = mmap_line base :: rule ::
      phase_lines base 1 "Read" (λ x, letter (x / 2 ^ k)) (seqZ 0 (2 ^ 21)).
Proof.
  intros Hlen. destruct set_up_ok as (t0 & Hset & Ho).
  destruct (phases_overflow env k events base n Hk Hevents Hbase Halign Hn0 ltac:(lia) t0 Hlen)
    as (t & r & Hrun & Hout).
  exists t, r. split.
  - unfold main. rewrite Hset. by rewrite (bind_Stop _ _ _ _ _ Hrun).
  - by rewrite Hout, Ho.
Qed.
End program.

(** ** Concrete runs, with pages of 4096 bytes *)

Definition demo_env : environment := λ _ c,
  match c with
  | Sysconf => Reply 4096 []
  | Mmap _ _ => Reply 8192 []
  | PthreadCreate _ | Madvise _ _ => Reply 0 []
  | _ => Reply 3 []
  end.
Definition demo_fault (_ : Z) : uffd_events := UffdEvents 1 32 UFFD_EVENT_PAGEFAULT 0.

Lemma demo_uffd_env : uffd_env demo_env (2 ^ 12) 8192.
Proof. by split. Qed.

Lemma demo_served i : served_event (demo_fault i).
Proof. by split_and!. Qed.

Lemma uffd_main_ok_witness :
  let line k' verb f := rule :: phase_lines 8192 k' verb f (seqZ 0 (2 * 2 ^ 12 / 1024)) in
  ∃ t r, main demo_env demo_fault [str "uffd"; str "2"] [] = (Stop (Exit 0), (t, Some r)) ∧
    outputs t = mmap_line 8192 ::
      line 1 "Read" (λ x, letter (x / 2 ^ 12)) ++ line 2 "Read" (λ x, letter (x / 2 ^ 12)) ++
      line 3 "Read" (λ x, letter (2 + x / 2 ^ 12)) ++ line 4 "Read" (λ x, letter (2 + x / 2 ^ 12)) ++
      line 5 "write" (λ _, 64) ++ line 6 "Read" (λ _, 64) ++
      line 7 "write" (λ _, 94) ++ line 8 "Read" (λ _, 94) ∧
    r_faults r = 3 * 2 ∧
    ∀ p, 0 ≤ p < 2 → r_pages r !! p = Some (replicate (Z.to_nat (2 ^ 12)) 94).
Proof.
  apply (uffd_main_ok demo_env 12 8192 2 demo_fault (str "uffd") (str "2") demo_uffd_env
    ltac:(lia) demo_served ltac:(lia) eq_refl eq_refl ltac:(lia) ltac:(lia) ltac:(lia)).
Defined.

Lemma uffd_offset_overflow_witness :
  ∃ t r, main demo_env demo_fault [str "uffd"; str "524288"] [] =
      (Stop SignedOverflow, (t, Some r)) ∧
    outputs t = mmap_line 8192 :: rule ::
      phase_lines 8192 1 "Read" (λ x, letter (x / 2 ^ 12)) (seqZ 0 (2 ^ 21)).
Proof.
  apply (uffd_offset_overflow demo_env 12 8192 524288 demo_fault (str "uffd") (str "524288")
    demo_uffd_env ltac:(lia) demo_served ltac:(lia) eq_refl eq_refl ltac:(lia) ltac:(lia) ltac:(lia)).
Defined.
