(* ===== verification/Pairing.v ===== *)
(** Part 3 of [s2dsm.c]: what [main] does before its command loop: pairing
    the two processes over sockets, agreeing on the mapping, registering it
    with userfaultfd and starting the two threads.

    The process whose first [connect] fails is the first one: it asks for the
    number of pages, maps them and sends length and address; the other one
    maps what it receives at the same address. *)
From S2P Require Import Prelude CInt CString Region Syscalls S2dsm S2dsmTheorems.
Local Open Scope Z_scope.

(** [snprintf (buffer, BUFF_SIZE, "%lu-%p", len, addr)] *)
Definition pair_message (len addr : Z) : bytes := fmt_lu len ++ 45 :: fmt_p addr.

(** The value [scanf ("%lu")] converts from the input it has matched. *)
Definition scanf_lu (s : bytes) : Z :=
  let '(sg, r) := scan_sign (skip_space s) in
  let v := fst (scan_digits 10 0 r) in
  if 2 ^ 64 <=? v then 2 ^ 64 - 1 else u64 (sg * v).

Definition BUFF_SIZE : Z := 4096.

(** The zeroed buffer after a [read] of at most 1024 bytes. *)
Definition received (r : reply) : bytes :=
  let d := take 1024 (data r) in cstr (d ++ replicate (Z.to_nat BUFF_SIZE - length d) 0).

(** The length, the number of pages and the address in a message: [None] for
    the address when [sscanf] converts nothing.  [strtoul], [printf] and
    [sscanf] read through the token without a test for [NULL]. *)
Definition parse_pair (info : bytes) (page_size : Z) (buffer : bytes) : M trace (Z * Z * option Z) :=
  let '(token, rest) := strtok 45 buffer in
  match token with
  | None => stop NullDeref
  | Some t =>
      let len := strtoul0 t in
      print (info ++ str "Memory length received from peer " ++ fmt_lu len ++ [10]);;
      check (negb (u64 page_size =? 0)) DivByZero;;
      let num_pages := len / u64 page_size in
      let '(token, _) := strtok 45 rest in
      match token with
      | None => stop NullDeref
      | Some a =>
          print (info ++ str "Address received from peer: " ++ a ++ str " " ++ [10]);;
          mret (len, num_pages, sscanf_p a)
      end
  end.

Section main.
Context (env : environment) (local_port remote_port : Z).

(** Where the second token is in memory: the hint given to [mmap] when
    [sscanf] leaves [addr = token] alone. *)
Context (token_ptr : Z).

(** What Part 3 prints before three of its messages, and Part 1-2 does not. *)
Context (info : bytes).

Definition local_addr : sockaddr := Sockaddr AF_INET (htons local_port) INADDR_ANY [].
Definition remote_addr : sockaddr :=
  Sockaddr AF_INET (htons remote_port) LOOPBACK (replicate 8 48).

(** Whether the first connection failed, [new_socket] and [remote_socket]. *)
Definition pair_up : M trace (bool * Z * Z) :=
  local_server_fd ← sys env Socket;
  fail_if (ret local_server_fd <? 0);;
  remote_socket ← sys env Socket;
  fail_if (ret remote_socket <? 0);;
  opt ← sys env (Setsockopt (ret local_server_fd));
  fail_if (negb (ret opt =? 0));;
  b ← sys env (Bind (ret local_server_fd) local_addr);
  fail_if (ret b <? 0);;
  p ← sys env InetPton;
  (if ret p <=? 0 then
     print ([10] ++ str "Invalid address/ Address not supported " ++ [10]);; stop (Exit (-1))
   else mret tt);;
  l ← sys env (Listen (ret local_server_fd) 3);
  fail_if (ret l <? 0);;
  print (str "Started Listening on port " ++ fmt_lu local_port ++ str " ..." ++ [10]);;
  c ← sys env (Connect (ret remote_socket) remote_addr);
  let first_connection_failed := ret c <? 0 in
  print (if first_connection_failed then str "Initial Connection Attempt Failed " ++ [10]
         else str "Initial Connection Attempt Succeeded " ++ [10]);;
  print (str "Waiting to accept connection from remote " ++ [10]);;
  new_socket ← sys env (Accept (ret local_server_fd));
  fail_if (ret new_socket <? 0);;
  print (str "Accepted Connection from remote instance " ++ [10]);;
  (if first_connection_failed then
     c ← sys env (Connect (ret remote_socket) remote_addr);
     print (if ret c <? 0 then str "Subsequent Connection Attempt Failed " ++ [10]
            else str "Subsequent Connection Attempt Succeeded " ++ [10])
   else mret tt);;
  mret (first_connection_failed, ret new_socket, ret remote_socket).

(** The address, length and number of pages of the mapping. *)
Definition allocate_first (page_size remote_socket : Z) : M trace (Z * Z * Z) :=
  print (str "How many pages would you like to allocate (greater than 0)? " ++ [10]);;
  n ← sys env Scanf_lu;
  let num_pages := if ret n =? 1 then scanf_lu (data n) else 0 in
  let len := u64 (num_pages * page_size) in
  a ← sys env (Mmap 0 len);
  fail_if (ret a =? -1);;
  print (str "The mmapped memory size : " ++ fmt_lu len ++ [10]);;
  print (str "Address mapping created at : " ++ fmt_p (ret a) ++ [10]);;
  sys env (Send remote_socket (pair_message len (ret a)));;
  mret (ret a, len, num_pages).

Definition allocate_second (page_size new_socket : Z) : M trace (Z * Z * Z) :=
  r ← sys env (Read new_socket 1024);
  fail_if (ret r <? 0);;
  '(len, num_pages, addr) ← parse_pair info page_size (received r);
  a ← sys env (Mmap (default token_ptr addr) len);
  print (info ++ str "Address returned by mmap(): " ++ fmt_p (ret a) ++ [10; 10]);;
  fail_if (ret a =? -1);;
  mret (ret a, len, num_pages).

(** The page size, which [main] keeps in an [int], and the address, length and
    number of pages of the mapping once it is registered and its faults are
    handled.  Between the two is the declaration [char message[page_size]]. *)
Definition map_region : M trace (Z * (Z * Z * Z)) :=
  '(first_connection_failed, new_socket, remote_socket) ← pair_up;
  ps ← sys env Sysconf;
  let page_size := s32 (ret ps) in
  '(addr, len, num_pages) ←
    (if (first_connection_failed : bool) then allocate_first page_size remote_socket
     else allocate_second page_size new_socket);
  check (0 <? page_size) BadArraySize;;
  uffd ← sys env Userfaultfd;
  fail_if (ret uffd =? -1);;
  api ← sys env (IoctlApi (ret uffd));
  fail_if (ret api =? -1);;
  reg ← sys env (IoctlRegister (ret uffd) addr len);
  fail_if (ret reg =? -1);;
  th ← sys env (PthreadCreate "fault_handler_thread");
  fail_if (negb (ret th =? 0));;
  handler_start env page_size;;
  mret (page_size, (addr, len, num_pages)).
End main.

(** Part 3: the process as it enters the command loop. *)
Definition setup (env : environment) (local_port remote_port token_ptr : Z) : M trace proc :=
  '(_, (addr, len, num_pages)) ← map_region env local_port remote_port token_ptr (str "[INFO]: ");
  match fillWithInvalid (Proc (Region addr len ∅ 0) num_pages (replicate 100 st_m) []) with
  | (Stop e, _) => stop e
  | (Ret _, P) =>
      th ← sys env (PthreadCreate "responder");
      fail_if (negb (ret th =? 0));;
      mret P
  end.

(** From the arguments of the program to what [m] makes of the ports. *)
Definition with_ports {A} (argv : list bytes) (m : Z → Z → M trace A) : M trace A :=
  match argv with
  | [_; a1; a2] =>
      let local_port := strtoul0 a1 in
      let remote_port := strtoul0 a2 in
      print (str "Local Port entered : " ++ fmt_lu local_port ++ str " " ++ [10]);;
      print (str "Remote Port entered : " ++ fmt_lu remote_port ++ str " " ++ [10]);;
      m local_port remote_port
  | _ => exit_ 1
  end.

(** The whole set-up of Part 3. *)
Definition main_setup (env : environment) (token_ptr : Z) (argv : list bytes) : M trace proc :=
  with_ports argv (λ local_port remote_port, setup env local_port remote_port token_ptr).

(** ** The handshake *)

Lemma fmt_p_pos a : 0 < a → fmt_p a = 48 :: 120 :: print_base 16 a.
Proof. intros. unfold fmt_p. by destruct (Z.eqb_spec a 0); [lia|]. Qed.

Lemma length_fmt_lu n : 0 ≤ n < 2 ^ 64 → (length (fmt_lu n) ≤ 20)%nat.
Proof. intros. apply (length_print_base 10 n 19); lia. Qed.

Lemma length_fmt_p a : 0 < a < 2 ^ 64 → (length (fmt_p a) ≤ 18)%nat.
Proof.
  intros. rewrite fmt_p_pos by lia. simpl.
  pose proof (length_print_base 16 a 15 ltac:(lia) ltac:(lia)). lia.
Qed.

Lemma pair_message_ok len addr :
  0 ≤ len → 0 < addr → cstr_ok (pair_message len addr).
Proof.
  intros Hl Ha. unfold pair_message. rewrite fmt_p_pos by done.
  apply Forall_app. split; [|repeat (constructor; [lia|])].
  - eapply Forall_impl; [by apply print_decimal_range|]. simpl. lia.
  - eapply Forall_impl; [apply print_base_range; lia|]. simpl. lia.
Qed.

Lemma length_pair_message len addr :
  0 ≤ len < 2 ^ 64 → 0 < addr < 2 ^ 64 → (length (pair_message len addr) ≤ 39)%nat.
Proof.
  intros Hl Ha. unfold pair_message. rewrite length_app. cbn [length].
  pose proof (length_fmt_lu len Hl). pose proof (length_fmt_p addr Ha). lia.
Qed.

Lemma received_ok n s : cstr_ok s → (length s ≤ 1024)%nat → received (Reply n s) = s.
Proof.
  intros Hs Hl. unfold received. simpl data. rewrite take_ge by lia.
  change (Z.to_nat BUFF_SIZE) with 4096%nat.
  replace (4096 - length s)%nat with (S (4095 - length s)) by lia.
  simpl. by apply cstr_app.
Qed.

Lemma scan_print_end b n :
  2 ≤ b ≤ 36 → 0 ≤ n → fst (scan_digits b 0 (print_base b n)) = n.
Proof.
  intros Hb Hn. rewrite <- (app_nil_r (print_base b n)), scan_print by done.
  simpl. lia.
Qed.

(** The first digit of a positive number is not zero. *)
Lemma print_base_head n :
  0 < n → ∃ d s, print_base 10 n = d :: s ∧ 49 ≤ d ≤ 57.
Proof.
  intros Hn. unfold print_base.
  pose proof (print_base_fuel 10 n ltac:(lia) ltac:(lia)) as [_ Hf].
  revert Hn Hf. generalize (S (Z.to_nat (Z.log2 n))) as f. intros f. revert n.
  induction f as [|f IH]; intros n Hn Hf; [simpl in Hf; lia|].
  simpl. destruct (Z.ltb_spec n 10) as [|Hge].
  - exists (digit_char (n mod 10)), []. split; [done|]. rewrite Z.mod_small by lia.
    unfold digit_char. destruct (Z.ltb_spec n 10); lia.
  - destruct (IH (n / 10)) as (d & s & -> & Hd).
    + apply Z.div_str_pos. lia.
    + rewrite Nat2Z.inj_succ, Z.pow_succ_r in Hf by lia.
      apply Z.div_lt_upper_bound; lia.
    + by exists d, (s ++ [digit_char (n mod 10)]).
Qed.

Lemma strtoul0_print len : 0 < len < 2 ^ 64 → strtoul0 (fmt_lu len) = len.
Proof.
  intros Hl. unfold strtoul0, fmt_lu.
  assert (Forall (λ c, 48 ≤ c) (print_base 10 len)) as Hge.
  { eapply Forall_impl; [apply print_decimal_range; lia|]. simpl. lia. }
  rewrite skip_space_digit, scan_sign_digit by auto using print_base_not_nil.
  destruct (print_base_head len) as (d & s & E & Hd); [lia|].
  assert (scan_prefix (print_base 10 len) = (10, print_base 10 len)) as ->.
  { rewrite E. unfold scan_prefix.
    destruct d as [|p|p]; [lia| |lia]. by do 7 (destruct p; try lia; try done). }
  rewrite scan_print_end by lia.
  destruct (Z.leb_spec (2 ^ 64) len); [lia|]. rewrite u64_small; lia.
Qed.

Lemma scanf_lu_print n : 0 ≤ n < 2 ^ 64 → scanf_lu (fmt_lu n) = n.
Proof.
  intros Hn. unfold scanf_lu, fmt_lu.
  assert (Forall (λ c, 48 ≤ c) (print_base 10 n)) as Hge.
  { eapply Forall_impl; [apply print_decimal_range; lia|]. simpl. lia. }
  rewrite skip_space_digit, scan_sign_digit by auto using print_base_not_nil.
  rewrite scan_print_end by lia.
  destruct (Z.leb_spec (2 ^ 64) n); [lia|]. rewrite u64_small; lia.
Qed.

(** The first digit of a number is a digit. *)
Lemma print_hex_head n :
  0 ≤ n → ∃ c s d, print_base 16 n = c :: s ∧ digit_val c = Some d ∧ d < 16.
Proof.
  intros Hn. pose proof (scan_print 16 n 0 [] ltac:(lia) Hn) as Hs.
  rewrite app_nil_r in Hs.
  destruct (print_base 16 n) as [|c s] eqn:E; [by apply print_base_not_nil in E|].
  exists c, s. simpl in Hs. destruct (digit_val c) as [d|].
  - exists d. destruct (Z.ltb_spec d 16); [done|].
    apply (f_equal snd) in Hs. done.
  - by apply (f_equal snd) in Hs.
Qed.

Lemma sscanf_p_print a : 0 < a < 2 ^ 64 → sscanf_p (fmt_p a) = Some a.
Proof.
  intros Ha. rewrite fmt_p_pos by lia. unfold sscanf_p.
  change (scan_sign (skip_space (48 :: 120 :: print_base 16 a)))
    with (1, 48 :: 120 :: print_base 16 a). cbv iota beta.
  change ((120 =? 120) || (120 =? 88)) with true. cbv iota.
  pose proof (scan_print_end 16 a ltac:(lia) ltac:(lia)) as Hs.
  destruct (print_hex_head a) as (c & s & d & E & Hd & Hlt); [lia|].
  rewrite E in *. rewrite Hd. destruct (Z.ltb_spec d 16); [|lia].
  rewrite Hs, Z.mul_1_l, u64_small; [done|lia].
Qed.

(** The message of the first process gives the second one its length, its
    number of pages and its address. *)
Lemma parse_pair_ok info page_size n addr r t :
  0 < page_size < 2 ^ 64 → 0 < n → n * page_size < 2 ^ 64 → 0 < addr < 2 ^ 64 →
  ∃ l, parse_pair info page_size (received (Reply r (pair_message (n * page_size) addr))) t =
    (Ret (n * page_size, n, Some addr), t ++ l) ∧ sent l = [].
Proof.
  intros Hp Hn Hl Ha.
  assert (0 < n * page_size) by nia.
  pose proof (length_pair_message (n * page_size) addr ltac:(lia) ltac:(lia)).
  rewrite received_ok by (try apply pair_message_ok; lia).
  unfold parse_pair, pair_message. rewrite strtok_app.
  2: { apply print_base_not_nil. }
  2: { eapply Forall_impl; [apply print_decimal_range; lia|]. simpl. lia. }
  rewrite strtoul0_print by lia.
  rewrite strtok_end.
  2: { rewrite fmt_p_pos by lia. done. }
  2: { rewrite fmt_p_pos by lia. repeat (constructor; [lia|]).
       eapply Forall_impl; [apply print_base_range; lia|]. simpl. lia. }
  rewrite sscanf_p_print by lia. rewrite u64_small, Z.div_mul by lia.
  rewrite (proj2 (Z.eqb_neq _ _)) by lia. cbn [negb].
  munfold. unfold print, modify, check. munfold. cbv beta iota. rewrite <- app_assoc. by eexists.
Qed.

(** Whether a trace has an [accept]. *)
Definition accepted (t : trace) : bool :=
  existsb (is_call (λ c, match c with Accept _ => true | _ => false end)) t.

(** What the two processes need from their environment: no call of the set-up
    fails, and the page size is one that an [int] can hold. *)
Record set_up_ok (env : environment) (page_size : Z) : Prop := {
  so_socket : ∀ t, 0 ≤ ret (env t Socket);
  so_setsockopt : ∀ t fd, ret (env t (Setsockopt fd)) = 0;
  so_bind : ∀ t fd a, 0 ≤ ret (env t (Bind fd a));
  so_pton : ∀ t, 0 < ret (env t InetPton);
  so_listen : ∀ t fd n, 0 ≤ ret (env t (Listen fd n));
  so_accept : ∀ t fd, 0 ≤ ret (env t (Accept fd));
  so_page_size : page_size ≤ INT_MAX;
  so_sysconf : ∀ t, ret (env t Sysconf) = page_size;
  so_uffd : ∀ t, ret (env t Userfaultfd) ≠ -1;
  so_api : ∀ t fd, ret (env t (IoctlApi fd)) ≠ -1;
  so_register : ∀ t fd a l, ret (env t (IoctlRegister fd a l)) ≠ -1;
  so_thread : ∀ t r, ret (env t (PthreadCreate r)) = 0;
  so_page : ∀ t l, ret (env t (MmapPage l)) ≠ -1;
}.

(** The first process: its peer does not listen before it has been accepted;
    the user types [n], and [mmap] returns [addr]. *)
Record starts_first (env : environment) (n addr : Z) : Prop := {
  sf_connect : ∀ t fd a, accepted t = false → ret (env t (Connect fd a)) < 0;
  sf_scanf : ∀ t, env t Scanf_lu = Reply 1 (fmt_lu n);
  sf_mmap : ∀ t a l, ret (env t (Mmap a l)) = addr;
}.

(** The second one: its first [connect] succeeds, it reads [message], and
    [mmap] returns the address asked for. *)
Record starts_second (env : environment) (message : bytes) : Prop := {
  ss_connect : ∀ t fd a, 0 ≤ ret (env t (Connect fd a));
  ss_read : ∀ t fd n, env t (Read fd n) = Reply (Z.of_nat (length message)) message;
  ss_mmap : ∀ t a l, ret (env t (Mmap a l)) = a;
}.

(** A step of a run in which the call succeeds by the hypothesis [H]. *)
Ltac sys_by H :=
  match goal with
  | |- context [(sys ?env ?c ≫= _) ?t] =>
      let R := constr:(H t) in
      let T := type of R in
      match eval pattern (env t c) in T with
      | ?Q _ => apply (sys_bind_at env Q); [exact R|]; cbv beta; intros ? ?
      end
  end.
Ltac passes :=
  first [apply fail_if_false | apply skip_bind];
  [first [lia | by apply Z.eqb_neq | by apply negb_false_iff, Z.eqb_eq]|]; cbv beta.

Section runs.
Context (env : environment) (page_size : Z) (HS : set_up_ok env page_size).
Context (lp rp token_ptr : Z) (info : bytes).

Lemma sent_app t l : sent (t ++ l) = sent t ++ sent l.
Proof. unfold sent, calls. by rewrite !omap_app, concat_app. Qed.

Lemma sent_event t e :
  sent (t ++ [e]) = sent t ++ match e with Called (Send _ d) _ => d | _ => [] end.
Proof. rewrite sent_app. f_equal. destruct e as [[]|]; try done. apply app_nil_r. Qed.

Ltac quiet := rewrite ?sent_event, ?app_nil_r; done.

(** A run that ends with a value of [V] and has sent what [s] says. *)
Definition ends {A} (V : A → Prop) (s : bytes) (r : outcome A * trace) : Prop :=
  ∃ v t, r = (Ret v, t) ∧ V v ∧ sent t = s.

Lemma ends_bind {A B} (m : M trace A) (f : A → M trace B) V W s s' t :
  ends V s (m t) → (∀ v t, V v → sent t = s → ends W s' (f v t)) → ends W s' ((m ≫= f) t).
Proof. intros (v & t' & E & Hv & Hs) Hf. rewrite (bind_Ret _ _ _ _ _ E). auto. Qed.

(** Both ways through the pairing. *)
Lemma pair_up_run t first :
  (∀ t' fd a, accepted t' = accepted t →
     (ret (env t' (Connect fd a)) <? 0) = first) →
  ends (λ v, fst (fst v) = first) (sent t) (pair_up env lp rp t).
Proof.
  intros Hc. unfold pair_up. destruct HS as [H1 H2 H3 H4 H5 H6 _ _ _ _ _ _ _].
  sys_by H1. passes. sys_by H1. passes.
  sys_by (λ t, H2 t (ret r)). passes.
  sys_by (λ t, H3 t (ret r) (local_addr lp)). passes.
  sys_by H4. passes. sys_by (λ t, H5 t (ret r) 3). passes.
  apply print_bind.
  apply (sys_bind_at env (λ r, (ret r <? 0) = first)).
  { apply Hc. unfold accepted. rewrite !existsb_app. simpl. by rewrite !orb_false_r. }
  intros c Hcf. cbv zeta. rewrite Hcf. apply print_bind, print_bind.
  sys_by (λ t, H6 t (ret r)). passes. apply print_bind.
  destruct first; rewrite ?bind_assoc.
  - apply sys_any. intros c'. apply print_bind.
    eexists _, _. split; [done|]. split; [done|]. quiet.
  - eexists _, _. split; [done|]. split; [done|]. quiet.
Qed.

Lemma allocate_first_run n addr rs t :
  starts_first env n addr → 0 < n → n * page_size < 2 ^ 64 → 0 < page_size → 0 < addr →
  ends (λ v, v = (addr, n * page_size, n)) (sent t ++ pair_message (n * page_size) addr)
    (allocate_first env page_size rs t).
Proof.
  intros [_ Hs Hm] Hn Hl Hp Ha. unfold allocate_first. apply print_bind.
  assert (n < 2 ^ 64) by nia. assert (0 < n * page_size) by nia.
  apply (sys_bind_at env (λ r, r = Reply 1 (fmt_lu n))); [apply Hs|]. intros r ->.
  cbn [ret data]. cbv zeta. rewrite Z.eqb_refl, scanf_lu_print, u64_small by lia.
  apply (sys_bind_at env (λ r, ret r = addr)); [apply Hm|]. intros a Hra. rewrite Hra. passes.
  apply print_bind, print_bind, sys_any. intros u.
  eexists _, _. split; [done|]. split; [done|]. quiet.
Qed.

Lemma allocate_second_run n addr ns t :
  starts_second env (pair_message (n * page_size) addr) → 0 < n → n * page_size < 2 ^ 64 →
  0 < page_size < 2 ^ 64 → 0 < addr < 2 ^ 64 →
  ends (λ v, v = (addr, n * page_size, n)) (sent t) (allocate_second env token_ptr info page_size ns t).
Proof.
  intros [_ Hr Hm] Hn Hl Hp Ha. unfold allocate_second.
  eapply (sys_bind_at env (λ r, r = Reply _ _)); [apply Hr|]. intros r ->.
  apply fail_if_false; [apply Z.ltb_ge; cbn [ret]; lia|].
  destruct (parse_pair_ok info page_size n addr (Z.of_nat (length (pair_message (n * page_size) addr)))
    (t ++ [Called (Read ns 1024) (Reply (Z.of_nat (length (pair_message (n * page_size) addr)))
       (pair_message (n * page_size) addr))])) as (l & E & Hsl); [lia..|].
  rewrite (bind_Ret _ _ _ _ _ E). cbn [default].
  apply (sys_bind_at env (λ r, ret r = addr)); [apply Hm|]. intros a Hra. rewrite Hra.
  apply print_bind. passes.
  eexists _, _. split; [done|]. split; [done|]. rewrite !sent_event, sent_app, Hsl, !sent_event.
  by rewrite !app_nil_r.
Qed.

(** The rest of the set-up, once the pages are allocated. *)
Lemma map_region_tail n addr first (w : bytes) t0 :
  0 < page_size →
  ends (λ v, fst (fst v) = first) (sent t0) (pair_up env lp rp t0) →
  (∀ ns rs t, ends (λ v, v = (addr, n * page_size, n)) (sent t ++ w)
     ((if (first : bool) then allocate_first env page_size rs
       else allocate_second env token_ptr info page_size ns) t)) →
  ends (λ v, v = (page_size, (addr, n * page_size, n))) (sent t0 ++ w)
    (map_region env lp rp token_ptr info t0).
Proof.
  intros Hpos Hpair Halloc. unfold map_region.
  destruct HS as [_ _ _ _ _ _ Hint Hps Hu Ha Hr Ht Hpage].
  eapply ends_bind; [exact Hpair|]. intros [[fst' ns] rs] t Hf Hsent. simpl in Hf. subst fst'.
  apply (sys_bind_at env (λ r, ret r = page_size)); [apply Hps|]. intros ps Hret.
  cbv zeta. rewrite Hret, s32_small by (unfold INT_MAX in Hint; lia).
  eapply ends_bind; [apply Halloc|]. intros v t' -> Ht'. cbv beta iota.
  apply check_bind; [by apply Z.ltb_lt|].
  sys_by Hu. passes. sys_by (λ t, Ha t (ret r)). passes.
  sys_by (λ t, Hr t (ret r) addr (n * page_size)). passes.
  sys_by (λ t, Ht t "fault_handler_thread"). passes.
  unfold handler_start. rewrite bind_assoc. sys_by (λ t, Hpage t (u64 page_size)). passes.
  eexists _, _. split; [done|]. split; [done|].
  by rewrite !sent_event, !app_nil_r, Ht', sent_event, app_nil_r, Hsent.
Qed.

(** The first [connect] decides the role. *)
Lemma map_region_first n addr t :
  accepted t = false → starts_first env n addr →
  0 < n → 0 < page_size → n * page_size < 2 ^ 64 → 0 < addr →
  ends (λ v, v = (page_size, (addr, n * page_size, n)))
    (sent t ++ pair_message (n * page_size) addr) (map_region env lp rp token_ptr info t).
Proof.
  intros Hacc HF Hn Hp Hl Ha. apply (map_region_tail n addr true); [done| |].
  - apply pair_up_run. intros t' fd a Hacc'.
    apply Z.ltb_lt, (sf_connect env n addr HF). by rewrite Hacc'.
  - intros. by apply allocate_first_run.
Qed.

Lemma map_region_second n addr t :
  starts_second env (pair_message (n * page_size) addr) →
  0 < n → 0 < page_size < 2 ^ 64 → n * page_size < 2 ^ 64 → 0 < addr < 2 ^ 64 →
  ends (λ v, v = (page_size, (addr, n * page_size, n))) (sent t)
    (map_region env lp rp token_ptr info t).
Proof.
  intros HF Hn Hp Hl Ha. rewrite <- (app_nil_r (sent t)).
  apply (map_region_tail n addr false); [lia| |].
  - apply pair_up_run. intros t' fd a Hacc.
    apply Z.ltb_ge, (ss_connect env _ HF).
  - intros. rewrite app_nil_r. by apply allocate_second_run.
Qed.
End runs.

Section part3.
Context (env : environment) (page_size : Z) (HS : set_up_ok env page_size).
Context (token_ptr : Z) (argv : list bytes) (Hargv : length argv = 3%nat).

Lemma with_ports_run {A} (V : A → Prop) s m :
  (∀ lp rp t, sent t = [] → accepted t = false → ends V s (m lp rp t)) →
  ends V s (with_ports argv m []).
Proof.
  intros Hm. destruct argv as [|a0 [|a1 [|a2 [|]]]]; simpl in Hargv; try lia.
  unfold with_ports. apply print_bind, print_bind. by apply Hm.
Qed.

Lemma setup_run lp rp n addr A w t :
  fillWithInvalid (boot page_size n addr) = (Ret tt, A) →
  ends (λ v, v = (page_size, (addr, n * page_size, n))) w
    (map_region env lp rp token_ptr (str "[INFO]: ") t) →
  ends (λ P, P = A) w (setup env lp rp token_ptr t).
Proof.
  intros HA Hmap. unfold setup. eapply ends_bind; [exact Hmap|]. intros v t' -> Hs.
  unfold boot in HA. cbv beta iota. rewrite HA.
  sys_by (λ t, so_thread _ _ HS t "responder"). passes.
  eexists _, _. split; [done|]. split; [done|]. by rewrite sent_event, app_nil_r.
Qed.

Lemma main_setup_first n addr A :
  starts_first env n addr → 0 < n → 0 < page_size → n * page_size < 2 ^ 64 → 0 < addr →
  fillWithInvalid (boot page_size n addr) = (Ret tt, A) →
  ends (λ P, P = A) (pair_message (n * page_size) addr) (main_setup env token_ptr argv []).
Proof.
  intros. apply with_ports_run. intros lp rp t Hs Ha. apply (setup_run _ _ n addr); [done|].
  rewrite <- (app_nil_l (pair_message _ _)), <- Hs. by apply map_region_first.
Qed.

Lemma main_setup_second n addr A :
  starts_second env (pair_message (n * page_size) addr) →
  0 < n → 0 < page_size < 2 ^ 64 → n * page_size < 2 ^ 64 → 0 < addr < 2 ^ 64 →
  fillWithInvalid (boot page_size n addr) = (Ret tt, A) →
  ends (λ P, P = A) [] (main_setup env token_ptr argv []).
Proof.
  intros. apply with_ports_run. intros lp rp t Hs Ha. apply (setup_run _ _ n addr); [done|].
  rewrite <- Hs. by apply map_region_second.
Qed.
End part3.

(** C5: the pairing, when no call of the set-up fails, the page size fits an
    [int] and 1 to 99 pages are asked for.  The process whose first [connect]
    fails is the one that asks for the number of pages; the other one gets from
    its message the same address, the same length and the same number of pages,
    and the two enter the command loop as a pair of processes whose pages are
    all invalid: a state the coherence theorems start from.  The result of the
    first process' second [connect] does not matter. *)
Theorem pairing_agrees envA envB tpA tpB argvA argvB page_size n addr :
  set_up_ok envA page_size → starts_first envA n addr →
  set_up_ok envB page_size →
  starts_second envB (sent (snd (main_setup envA tpA argvA []))) →
  length argvA = 3%nat → length argvB = 3%nat →
  1 ≤ n ≤ 99 → 0 < page_size → 0 < addr → base_ok page_size n addr →
  ∃ A B tA tB,
    main_setup envA tpA argvA [] = (Ret A, tA) ∧ main_setup envB tpB argvB [] = (Ret B, tB) ∧
    A = B ∧ r_base (p_region A) = addr ∧ p_num_pages A = n ∧
    ∀ events madvise_ret dead, reachable page_size events madvise_ret dead n (A, B).
Proof.
  intros HSA HFA HSB HFB HargA HargB Hn Hp Ha Hbase.
  pose proof Hbase as (_ & _ & Htop).
  destruct (fillWithInvalid (boot page_size n addr)) as [o P] eqn:HP.
  pose proof HP as HP'. rewrite (fillWithInvalid_ok page_size n addr Hn) in HP'.
  injection HP' as <- HPeq.
  destruct (main_setup_first envA page_size HSA tpA argvA HargA n addr P)
    as (A & tA & EA & -> & HsA); [done|lia|done|lia|done|done|].
  rewrite EA in HFB. cbn [snd] in HFB. rewrite HsA in HFB.
  destruct (main_setup_second envB page_size HSB tpB argvB HargB n addr P)
    as (B & tB & EB & -> & HsB); [done|lia|nia|lia|lia|done|].
  exists P, P, tA, tB. split_and!; [done..|by rewrite <- HPeq|by rewrite <- HPeq|].
  intros. by apply (reach_start _ _ _ _ _ addr addr).
Qed.

Definition pair_env (first : bool) (n : Z) (message : bytes) : environment := λ t c,
  match c with
  | Setsockopt _ | PthreadCreate _ => Reply 0 []
  | MmapPage _ => Reply 4096 []
  | Connect _ _ => Reply (if first && negb (accepted t) then -1 else 0) []
  | Scanf_lu => Reply 1 (fmt_lu n)
  | Mmap a _ => Reply (if first then 8192 else a) []
  | Sysconf => Reply 4096 []
  | Read _ _ => Reply (Z.of_nat (length message)) message
  | _ => Reply 5 []
  end.

Lemma pair_env_ok first n message : set_up_ok (pair_env first n message) 4096.
Proof. by split. Qed.

Lemma pairing_agrees_witness :
  let argv := [str "s2dsm"; str "5000"; str "5001"] in
  let message := sent (snd (main_setup (pair_env true 3 []) 0 argv [])) in
  ∃ A B tA tB,
    main_setup (pair_env true 3 []) 0 argv [] = (Ret A, tA) ∧
    main_setup (pair_env false 0 message) 0 argv [] = (Ret B, tB) ∧
    A = B ∧ r_base (p_region A) = 8192 ∧ p_num_pages A = 3 ∧
    ∀ events madvise_ret dead, reachable 4096 events madvise_ret dead 3 (A, B).
Proof.
  cbv zeta. apply (pairing_agrees _ _ 0 0 _ _ 4096 3 8192); try apply pair_env_ok; try done.
  split; try done. intros t fd a Hacc. unfold pair_env. rewrite Hacc. simpl. lia.
Defined.
