(* ===== verification/S2dsmPart12.v ===== *)
(** Parts 1 and 2 of assignment 3 ([Part 1-2/s2dsm.c]): pairing as in Part 3,
    then commands on the pages of the one process.  The two processes have
    equal mappings, but there is no message after the handshake.

    The state is the trace and the region, as in [Uffd]; the pairing is that of
    [Pairing] with other messages on the output, and the loop over the
    requested pages is written as in Part 3. *)
From S2P Require Import Prelude CInt CString Region Syscalls S2dsm S2dsmSteps S2dsmCoherence.
From S2P Require Import S2dsmTheorems Pairing.
Local Open Scope Z_scope.

(** A page of zeros for every fault. *)
Definition fault_handler_thread (page_size : Z) (e : uffd_events) (address : Z)
    : outcome (Z * bytes) :=
  serve_fault page_size (replicate (Z.to_nat page_size) 0) e address.

(** [mode] 'r', 'w' with the message typed, or another letter. *)
Inductive command : Type :=
  | CmdRead (request_page : Z)
  | CmdWrite (request_page : Z) (message : bytes)
  | CmdOther (request_page : Z).

Definition page_line (i : Z) (page_output : bytes) : bytes :=
  str " [*] Page " ++ fmt_d i ++ str ": " ++ 10 :: page_output ++ [10].

Definition prompts (num_pages : Z) : list bytes :=
  [str "> Which command should I run? (r:read, w:write): ";
   10 :: str "> For which page? (0-" ++ fmt_lu (u64 (num_pages - 1)) ++ str ", or -1 for all): "].

Definition type_message : bytes := str "> Type your new message: " ++ [10].
Definition too_long : bytes :=
  str "The length of message exceeds page size. The message will be truncated " ++ [10].
Definition invalid_option : bytes := str "Please enter valid option : r or w".

Section program.
Context (page_size : Z) (events : Z → uffd_events).

Definition handler : fault_handler := λ n address,
  fault_handler_thread page_size (events n) address.

Abbreviation st := (trace * region)%type.

Definition printf (s : bytes) : M st unit := on_fst (print s).

(** One turn of the loop of [printPageContents]: [sprintf] copies the string
    at the page into [page_output], [page_size + 1] characters. *)
Definition print_page (i : Z) : M st unit :=
  l ← int_arith (i * page_size);
  page_output ← on_snd (load_cstr page_size handler l);
  check (Z.of_nat (length page_output) <=? page_size) OutOfBounds;;
  printf (page_line i page_output).

Definition printPageContents (num_pages request_page : Z) : M st unit :=
  for_pages num_pages request_page print_page.

Definition update_page (message : bytes) (i : Z) : M st unit :=
  l ← int_arith (i * page_size);
  on_snd (store_list page_size handler l (cstr message ++ [0])).

Definition updatePageContents (request_page num_pages : Z) (message : bytes) : M st unit :=
  for_pages num_pages request_page (update_page message).

(** One turn of the command loop; [message] is an array of [page_size]. *)
Definition run_command (num_pages : Z) (c : command) : M st unit :=
  for_each (prompts num_pages) printf;;
  match c with
  | CmdRead request_page => printPageContents num_pages request_page
  | CmdWrite request_page message =>
      printf type_message;;
      check (Z.of_nat (length message) + 1 <=? page_size) OutOfBounds;;
      (if page_size <? strlen message then printf too_long else mret tt);;
      updatePageContents request_page num_pages message;;
      printPageContents num_pages request_page
  | CmdOther _ => printf invalid_option
  end.
End program.

(** [main] with the commands [cs] typed in, and then no more. *)
Definition main (env : environment) (events : Z → uffd_events) (token_ptr : Z)
    (argv : list bytes) (cs : list command) (t : trace) : outcome unit * (trace * option region) :=
  match with_ports argv (λ local_port remote_port,
          map_region env local_port remote_port token_ptr []) t with
  | (Stop e, t') => (Stop e, (t', None))
  | (Ret (page_size, (addr, len, num_pages)), t') =>
      match (for_each cs (run_command page_size events num_pages);; stop (A := unit) Blocked)
              (t', Region addr len ∅ 0) with
      | (o, (t'', r)) => (o, (t'', Some r))
      end
  end.

(** ** The memory it implements

    The same memory as the two processes of Part 3, for one process alone. *)
Definition as_part3 (c : command) : S2dsm.command :=
  match c with
  | CmdRead rp => S2dsm.CmdRead rp
  | CmdWrite rp w => S2dsm.CmdWrite rp w
  | CmdOther rp => S2dsm.CmdOther rp
  end.

Definition command_ok (page_size np : Z) (c : command) : Prop :=
  match c with
  | CmdRead rp => page_ok np rp
  | CmdWrite rp w => page_ok np rp ∧ cstr_ok w ∧ Z.of_nat (length w) < page_size
  | CmdOther _ => True
  end.

(** What a command prints: the prompts and the pages of the specification. *)
Definition command_lines (np : Z) (c : command) (shown : list (Z * bytes)) : list bytes :=
  prompts np ++
  match c with
  | CmdRead _ => []
  | CmdWrite _ _ => [type_message]
  | CmdOther _ => [invalid_option]
  end ++ map (λ js, page_line js.1 js.2) shown.

Fixpoint session_lines (np : Z) (cs : list command) (σ : Spec.memory) : list bytes :=
  match cs with
  | [] => []
  | c :: cs' =>
      let '(σ', shown) := Spec.step np (as_part3 c) σ in
      command_lines np c shown ++ session_lines np cs' σ'
  end.

(** ** Proofs *)
Section proofs.
Context (k np : Z) (events : Z → uffd_events).
Context (Hk : 1 ≤ k) (Hevents : ∀ i, served_event (events i)).
Context (Hnp : 1 ≤ np) (Hsize : np * 2 ^ k ≤ 2 ^ 31).

Let page_size : Z := 2 ^ k.
Let zero_page (_ : Z) : bytes := replicate (Z.to_nat page_size) 0.
#[local] Abbreviation hdl := (handler page_size events).

#[local] Instance part12_pager : PagerOk page_size hdl zero_page.
Proof.
  clear - Hk Hevents. apply (serve_fault_pager k events zero_page); [lia|done|].
  intros. apply length_replicate.
Qed.

(** The region holds the messages of [σ]: each page starts with its message. *)
Record shows (σ : Spec.memory) (r : region) : Prop := {
  sh_wf : region_wf page_size np r;
  sh_page p : 0 ≤ p < np →
    cstr_ok (default [] (σ !! p)) ∧
    ∃ rest, content zero_page r p = default [] (σ !! p) ++ 0 :: rest;
}.

Lemma content_paged_any r p q : content zero_page (paged zero_page r p) q = content zero_page r q.
Proof.
  destruct (decide (p = q)) as [->|Hne]; [apply content_paged|].
  unfold content. by rewrite paged_lookup_ne.
Qed.

Lemma paged_shows σ r p : shows σ r → shows σ (paged zero_page r p).
Proof.
  intros [Hwf Hp]. split; [by apply (paged_wf page_size hdl zero_page)|].
  intros q Hq. rewrite content_paged_any. by apply Hp.
Qed.

Lemma start_shows base :
  0 ≤ base → base mod page_size = 0 → base + np * page_size ≤ 2 ^ 64 →
  shows ∅ (Region base (np * page_size) ∅ 0).
Proof.
  intros Hb Ha Ht. split; [by split|]. intros p Hp. rewrite lookup_empty. split; [constructor|].
  exists (replicate (pred (Z.to_nat page_size)) 0). unfold content. simpl.
  assert (0 < page_size) by (apply Z.pow_pos_nonneg; lia). unfold zero_page.
  by destruct (Z.to_nat page_size) eqn:E; [lia|].
Qed.

Lemma page_offset {T} p (s : T) :
  0 ≤ p < np → int_arith (p * page_size) s = (Ret (p * page_size), s).
Proof.
  intros Hp. assert (0 < page_size) by (apply Z.pow_pos_nonneg; lia).
  apply int_arith_ok. unfold INT_MIN, INT_MAX. fold page_size in Hsize. nia.
Qed.

Lemma print_page_ok σ t r p :
  shows σ r → 0 ≤ p < np →
  ∃ t' r', print_page page_size events p (t, r) = (Ret tt, (t', r')) ∧
    outputs t' = outputs t ++ [page_line p (default [] (σ !! p))] ∧ shows σ r'.
Proof.
  intros HS Hp. destruct (sh_page _ _ HS p Hp) as (Hw & rest & Hc).
  pose proof (length_content page_size hdl zero_page np r p (sh_wf _ _ HS)) as Hl.
  eexists _, _. split; [|split; [|by apply (paged_shows σ r p)]].
  - unfold print_page. mby (by apply page_offset).
    minto; [by eapply on_snd_Ret, (load_cstr_ok page_size hdl zero_page np _ _ _ rest (sh_wf _ _ HS))|].
    cbv beta. rewrite Hc, length_app in Hl. simpl in Hl.
    destruct (Z.leb_spec (Z.of_nat (length (default [] (σ !! p)))) page_size); [|lia].
    reflexivity.
  - unfold outputs. by rewrite omap_snoc.
Qed.

Lemma print_pages σ ps t r :
  shows σ r → Forall (λ p, 0 ≤ p < np) ps →
  ∃ t' r', for_each ps (print_page page_size events) (t, r) = (Ret tt, (t', r')) ∧
    outputs t' = outputs t ++ map (λ js, page_line js.1 js.2) (map (Spec.read σ) ps) ∧ shows σ r'.
Proof.
  intros HS Hps. revert t r HS. induction Hps as [|p ps Hp _ IH]; intros t r HS.
  { exists t, r. by rewrite app_nil_r. }
  destruct (print_page_ok σ t r p HS Hp) as (t1 & r1 & E & Ho1 & HS1).
  destruct (IH t1 r1 HS1) as (t' & r' & E' & Ho & HS').
  exists t', r'. split; [by eapply for_each_run|]. split; [|done].
  by rewrite Ho, Ho1, <- app_assoc.
Qed.

Lemma update_page_shows σ r p w :
  shows σ r → 0 ≤ p < np → cstr_ok w → Z.of_nat (length w) < page_size →
  ∃ r', store_list page_size hdl (p * page_size) (cstr w ++ [0]) r = (Ret tt, r') ∧
    shows (<[p := w]> σ) r'.
Proof.
  intros HS Hp Hw Hlen. pose proof (sh_wf _ _ HS) as Hwf.
  pose proof (length_content page_size hdl zero_page np r p Hwf) as Hl.
  rewrite cstr_id by done. eexists. split.
  - replace (p * page_size) with (p * page_size + 0) by lia.
    apply (store_list_ok page_size hdl zero_page np r p 0 (w ++ [0]) Hwf Hp); [done| |by destruct w].
    rewrite length_app. simpl. lia.
  - split.
    + apply set_page_wf; [by apply (paged_wf page_size hdl zero_page)|].
      rewrite !length_app, length_drop. simpl. lia.
    + intros q Hq. destruct (decide (p = q)) as [<-|Hne].
      * rewrite lookup_insert_eq. split; [done|]. eexists.
        rewrite (content_present _ _ p _ (set_page_lookup _ _ _)). by rewrite <- app_assoc.
      * rewrite lookup_insert_ne by done. unfold content.
        rewrite set_page_lookup_ne by done. simpl.
        destruct (sh_page _ _ (paged_shows σ r p HS) q Hq) as (Hok & rest & Hc).
        split; [done|]. exists rest. exact Hc.
Qed.

Lemma update_pages w ps σ t r :
  shows σ r → Forall (λ p, 0 ≤ p < np) ps → cstr_ok w → Z.of_nat (length w) < page_size →
  ∃ r', for_each ps (update_page page_size events w) (t, r) = (Ret tt, (t, r')) ∧
    shows (Spec.write_all w ps σ) r'.
Proof.
  intros HS Hps Hw Hlen. revert σ r HS. induction Hps as [|p ps Hp _ IH]; intros σ r HS.
  { by exists r. }
  destruct (update_page_shows σ r p w HS Hp Hw Hlen) as (r1 & E & HS1).
  destruct (IH _ r1 HS1) as (r' & E' & HS'). exists r'. split; [|done].
  eapply for_each_run; [|exact E']. unfold update_page.
  mby (by apply page_offset). by apply on_snd_Ret.
Qed.

Lemma printf_all ls t (r : region) :
  ∃ t', for_each ls printf (t, r) = (Ret tt, (t', r)) ∧ outputs t' = outputs t ++ ls.
Proof.
  clear. revert t. induction ls as [|l ls IH]; intros t.
  { exists t. by rewrite app_nil_r. }
  destruct (IH (t ++ [Printed l])) as (t' & Hp & Ho). exists t'. split.
  - eapply for_each_run; [reflexivity|]. exact Hp.
  - rewrite Ho. unfold outputs. rewrite omap_snoc. by rewrite <- app_assoc.
Qed.

Lemma pages_forall rp : page_ok np rp → Forall (λ p, 0 ≤ p < np) (pages_of np rp).
Proof. intros Hrp. apply Forall_forall. intros p. by apply elem_of_pages_of. Qed.

Lemma np_int : 1 ≤ np ≤ INT_MAX.
Proof.
  assert (2 ^ 1 ≤ 2 ^ k) by (apply Z.pow_le_mono_r; lia). unfold INT_MAX. nia.
Qed.

Lemma printPageContents_ok σ t r rp :
  shows σ r → page_ok np rp →
  ∃ t' r', printPageContents page_size events np rp (t, r) = (Ret tt, (t', r')) ∧
    outputs t' = outputs t ++
      map (λ js, page_line js.1 js.2) (map (Spec.read σ) (pages_of np rp)) ∧ shows σ r'.
Proof.
  intros HS Hrp. unfold printPageContents. rewrite for_pages_int by (done || apply np_int).
  by apply print_pages, pages_forall.
Qed.

Lemma run_command_ok σ t r c :
  shows σ r → command_ok page_size np c →
  ∃ t' r', run_command page_size events np c (t, r) = (Ret tt, (t', r')) ∧
    outputs t' = outputs t ++ command_lines np c (snd (Spec.step np (as_part3 c) σ)) ∧
    shows (fst (Spec.step np (as_part3 c) σ)) r'.
Proof.
  intros HS Hc. unfold run_command, command_lines.
  destruct (printf_all (prompts np) t r) as (t1 & Hp & Ho1). destruct c as [rp|rp w|rp]; simpl in *.
  - destruct (printPageContents_ok σ t1 r rp HS Hc) as (t' & r' & E & Ho & HS').
    exists t', r'. split; [mrun Hp; exact E|]. split; [|done]. by rewrite Ho, Ho1, <- app_assoc.
  - destruct Hc as (Hrp & Hw & Hlen).
    destruct (update_pages w (pages_of np rp) σ (t1 ++ [Printed type_message]) r HS
      (pages_forall rp Hrp) Hw Hlen) as (r1 & Eu & HS1).
    destruct (printPageContents_ok _ (t1 ++ [Printed type_message]) r1 rp HS1 Hrp)
      as (t' & r' & E & Ho & HS').
    exists t', r'. split; [|split; [|done]].
    + mrun Hp. mstep. rewrite (proj2 (Z.leb_le _ _)) by lia. mstep.
      assert (strlen w ≤ page_size) as Hsl.
      { unfold strlen. rewrite cstr_id by done. lia. }
      rewrite (proj2 (Z.ltb_ge _ _)) by done. mstep.
      unfold updatePageContents. rewrite <- for_pages_int in Eu by (done || apply np_int).
      mrun Eu. exact E.
    + rewrite Ho. unfold outputs at 1. rewrite omap_snoc. fold (outputs t1).
      rewrite Ho1. by rewrite <- !app_assoc.
  - exists (t1 ++ [Printed invalid_option]), r. split; [by mrun Hp|]. split; [|done].
    unfold outputs. rewrite omap_snoc. fold (outputs t1). rewrite Ho1. by rewrite <- app_assoc.
Qed.

Lemma session_ok σ t r cs :
  shows σ r → Forall (command_ok page_size np) cs →
  ∃ t' r', for_each cs (run_command page_size events np) (t, r) = (Ret tt, (t', r')) ∧
    outputs t' = outputs t ++ session_lines np cs σ ∧ region_wf page_size np r'.
Proof.
  intros HS Hcs. revert σ t r HS. induction Hcs as [|c cs Hc _ IH]; intros σ t r HS.
  { exists t, r. rewrite app_nil_r. split_and!; [done|done|apply (sh_wf _ _ HS)]. }
  destruct (run_command_ok σ t r c HS Hc) as (t1 & r1 & E & Ho1 & HS1).
  destruct (IH _ t1 r1 HS1) as (t' & r' & E' & Ho & Hwf).
  exists t', r'. split; [by eapply for_each_run|]. split; [|done].
  rewrite Ho, Ho1, <- app_assoc. simpl. by destruct (Spec.step np (as_part3 c) σ).
Qed.
End proofs.

(** C9: Parts 1 and 2 from start to end, for either process of a pair, when no
    call of the set-up fails, the page size fits an [int] and the region has at
    most 2^31 bytes: the handshake gives the process its region, and commands
    then typed, on existing pages and with messages without NUL and shorter
    than a page, print what the specification of Part 3 prints, for the memory
    of this process alone: the other one's writes are never seen. *)
Theorem part12_session env events token_ptr argv k n addr cs :
  set_up_ok env (2 ^ k) → 1 ≤ k < 64 → (∀ i, served_event (events i)) →
  starts_first env n addr ∨ starts_second env (pair_message (n * 2 ^ k) addr) →
  length argv = 3%nat → 1 ≤ n → n * 2 ^ k ≤ 2 ^ 31 →
  0 < addr → addr mod 2 ^ k = 0 → addr + n * 2 ^ k ≤ 2 ^ 64 →
  Forall (command_ok (2 ^ k) n) cs →
  ∃ t0 t r,
    with_ports argv (λ lp rp, map_region env lp rp token_ptr []) [] =
      (Ret (2 ^ k, (addr, n * 2 ^ k, n)), t0) ∧
    main env events token_ptr argv cs [] = (Stop Blocked, (t, Some r)) ∧
    outputs t = outputs t0 ++ session_lines n cs ∅.
Proof.
  intros HS Hk He Hrole Hargv Hn Hl Ha Halign Htop Hcs.
  assert (0 < 2 ^ k) as Hps by (apply Z.pow_pos_nonneg; lia).
  assert (2 ^ k < 2 ^ 64) as Hps' by (apply Z.pow_lt_mono_r; lia).
  assert (∃ t0, with_ports argv (λ lp rp, map_region env lp rp token_ptr []) [] =
      (Ret (2 ^ k, (addr, n * 2 ^ k, n)), t0)) as [t0 Hset].
  { destruct Hrole as [HF|HF].
    - destruct (with_ports_run argv Hargv (λ v, v = (2 ^ k, (addr, n * 2 ^ k, n)))
        (pair_message (n * 2 ^ k) addr) (λ lp rp, map_region env lp rp token_ptr []))
        as (v & t0 & E & -> & _); [|by exists t0].
      intros lp rp t Hs Hacc. rewrite <- (app_nil_l (pair_message _ _)), <- Hs.
      apply (map_region_first env (2 ^ k) HS); try done; lia.
    - destruct (with_ports_run argv Hargv (λ v, v = (2 ^ k, (addr, n * 2 ^ k, n)))
        [] (λ lp rp, map_region env lp rp token_ptr [])) as (v & t0 & E & -> & _); [|by exists t0].
      intros lp rp t Hs Hacc. rewrite <- Hs.
      apply (map_region_second env (2 ^ k) HS); try done; nia. }
  destruct (session_ok k n events ltac:(lia) He Hn Hl ∅ t0 (Region addr (n * 2 ^ k) ∅ 0) cs)
    as (t & r & E & Ho & _); [by apply start_shows; (done || lia)|done|].
  exists t0, t, r. split; [done|]. split; [|done].
  unfold main. rewrite Hset. cbv beta iota. by rewrite (bind_Ret _ _ _ _ _ E).
Qed.

Definition demo_fault (_ : Z) : uffd_events := UffdEvents 1 32 UFFD_EVENT_PAGEFAULT 0.

Lemma part12_session_witness :
  let argv := [str "s2dsm"; str "5000"; str "5001"] in
  let cs := [CmdWrite 1 (str "Hello Userfaultfd!"); CmdRead (-1)] in
  ∃ t0 t r,
    with_ports argv (λ lp rp, map_region (pair_env true 3 []) lp rp 0 []) [] =
      (Ret (2 ^ 12, (8192, 3 * 2 ^ 12, 3)), t0) ∧
    main (pair_env true 3 []) demo_fault 0 argv cs [] = (Stop Blocked, (t, Some r)) ∧
    outputs t = outputs t0 ++ session_lines 3 cs ∅.
Proof.
  cbv zeta. apply (part12_session (pair_env true 3 []) demo_fault 0 _ 12 3 8192).
  - apply pair_env_ok.
  - lia.
  - intros i. by split_and!.
  - left. split; try done. intros t fd a Hacc. unfold pair_env. rewrite Hacc. simpl. lia.
  - reflexivity.
  - lia.
  - lia.
  - lia.
  - reflexivity.
  - lia.
  - constructor; [|constructor; [by left|constructor]].
    split; [right; lia|]. split; [by apply (bool_decide_unpack _)|done].
Defined.
