(* ===== verification/Kernel.v ===== *)
(** The kernel around the modules: the heap with [kmalloc] and [kfree], the
    log of [printk], and the interfaces of the containers the modules use
    (lists, hash tables, red-black trees, radix trees, xarrays, bitmaps).

    None of this code is in the repository.  The containers are type classes:
    operations, an observation of the contents, and the documented effect of
    each operation on the observation.  [kmalloc] is a function from the heap
    to an address that is not in use, or to 0.  What a read of a link field of
    an object gives after [kfree] is a parameter [freed] of the loops that
    make such a read, applied to what the field held when it was freed. *)
From S2P Require Import Prelude CInt.
Local Open Scope Z_scope.

(** * Heap and log *)

(** Objects by address; [None] is an object that is not yet assigned. *)
Abbreviation kheap V := (gmap Z (option V)).

Record kern (V : Type) := Kern {
  k_heap : kheap V;
  k_log : list (string * list Z);
}.
Arguments Kern {V} _ _.
Arguments k_heap {V} _.
Arguments k_log {V} _.

Class Allocator {V} (kmalloc_at : kheap V → Z) : Prop :=
  kmalloc_fresh : ∀ h, kmalloc_at h = 0 ∨ (0 < kmalloc_at h ∧ h !! kmalloc_at h = None).

Section kernel.
Context {V C : Type}.
Implicit Types (k : kern V) (c : C) (p : Z) (v : V).

Definition set_heap (h : kheap V) (k : kern V) : kern V := Kern h (k_log k).

(** [printk (KERN_INFO fmt, args)] *)
Definition printk (fmt : string) (args : list Z) : M (kern V * C) unit :=
  modify (λ s, (Kern (k_heap s.1) (k_log s.1 ++ [(fmt, args)]), s.2)).

Definition kmalloc (kmalloc_at : kheap V → Z) : M (kern V * C) Z :=
  s ← get;
  let p := kmalloc_at (k_heap s.1) in
  if p =? 0 then mret 0
  else put (set_heap (<[p := None]> (k_heap s.1)) s.1, s.2);; mret p.

(** The fields of the object at [p]: assigned, read. *)
Definition assign (p : Z) (v : V) : M (kern V * C) unit :=
  s ← get;
  if p =? 0 then stop NullDeref else
  match k_heap s.1 !! p with
  | None => stop UseAfterFree
  | Some _ => put (set_heap (<[p := Some v]> (k_heap s.1)) s.1, s.2)
  end.

Definition load (p : Z) : M (kern V * C) V :=
  s ← get;
  if p =? 0 then stop NullDeref else
  match k_heap s.1 !! p with
  | None => stop UseAfterFree
  | Some None => stop Uninit
  | Some (Some v) => mret v
  end.

Definition kfree (p : Z) : M (kern V * C) unit :=
  s ← get;
  if p =? 0 then mret tt else
  match k_heap s.1 !! p with
  | None => stop UseAfterFree
  | Some _ => put (set_heap (delete p (k_heap s.1)) s.1, s.2)
  end.

(** A link field of the object at [p], which holds [v]. *)
Definition read_link (freed : Z → outcome Z) (p v : Z) : M (kern V * C) Z :=
  s ← get;
  match k_heap s.1 !! p with
  | Some _ => mret v
  | None => λ s, (freed v, s)
  end.

(** The container next to the kernel. *)
Definition container : M (kern V * C) C := gets snd.
Definition on_container (f : C → C) : M (kern V * C) unit := modify (λ s, (s.1, f s.2)).
End kernel.

(** * Iteration along links

    [for (p = first; p; p = next (p)) body]: the body may return a result,
    which ends the loop. *)
Fixpoint walk {S R} (fuel : nat) (next : Z → M S Z) (body : Z → M S (option R)) (p : Z)
    : M S (option R) :=
  match fuel with
  | O => stop OutOfFuel
  | S f =>
      if p =? 0 then mret None
      else
        r ← body p;
        match r with
        | Some _ => mret r
        | None => q ← next p; walk f next body q
        end
  end.

(** The first node of a chain, and the one after [p]; 0 is the end. *)
Definition first_of (l : list Z) : Z := default 0 (head l).
Definition last_of (l : list Z) : Z := default 0 (last l).

Fixpoint succ_in (l : list Z) (p : Z) : Z :=
  match l with
  | [] => 0
  | x :: l' => if x =? p then first_of l' else succ_in l' p
  end.

(** * Containers *)

(** [list.h]: the nodes [list_for_each_entry] visits, in its order. *)
Class ListApi := {
  list_head : Type;
  LIST_HEAD : list_head;
  list_add : Z → list_head → list_head;
  list_del : Z → list_head → list_head;
  entries : list_head → list Z;
  entries_head : entries LIST_HEAD = [];
  entries_add p l : entries (list_add p l) = p :: entries l;
  entries_del p l : entries (list_del p l) = filter (λ q, q ≠ p) (entries l);
}.

(** [hashtable.h], a table of [2 ^ bits] buckets: the chain of a bucket, the
    bucket of a key and the link of a node.  [hash_del] leaves the node with
    a null link. *)
Class HashApi (bits : Z) := {
  hashtable : Type;
  hash_init : hashtable;
  hash_add : Z → Z → hashtable → hashtable;
  hash_del : Z → hashtable → hashtable;
  hash_min : Z → Z;
  chain : hashtable → Z → list Z;
  hash_next : hashtable → Z → Z;
  hash_min_range k : 0 ≤ hash_min k < 2 ^ bits;
  chain_init b : chain hash_init b = [];
  chain_add p k t b :
    chain (hash_add p k t) b = if b =? hash_min k then p :: chain t b else chain t b;
  chain_del p t b : chain (hash_del p t) b = filter (λ q, q ≠ p) (chain t b);
  hash_next_in t b p : p ∈ chain t b → NoDup (chain t b) → (∀ b', p ∈ chain t b' → b' = b) →
    hash_next t p = succ_in (chain t b) p;
  hash_next_del t p : (∀ b, p ∉ chain t b) → hash_next t p = 0;
}.

(** [rbtree.h].  The modules read [rb_left] and [rb_right] themselves, so the
    shape is concrete; the rebalancing is not. *)
Inductive rbtree : Type :=
  | RbNull
  | RbNode (rb_left : rbtree) (p : Z) (rb_right : rbtree).

Fixpoint inorder (t : rbtree) : list Z :=
  match t with
  | RbNull => []
  | RbNode l p r => inorder l ++ p :: inorder r
  end.

(** The last two laws are for nodes that have just been erased, whose fields
    are not touched by [rb_erase]: their neighbours are still in the tree. *)
Class RbApi := {
  rb_insert_color : Z → rbtree → rbtree;
  rb_erase : Z → rbtree → rbtree;
  rb_first : rbtree → Z;
  rb_last : rbtree → Z;
  rb_next : rbtree → Z → Z;
  rb_prev : rbtree → Z → Z;
  inorder_insert_color p t : inorder (rb_insert_color p t) = inorder t;
  inorder_erase p t : inorder (rb_erase p t) = filter (λ q, q ≠ p) (inorder t);
  rb_first_spec t : rb_first t = first_of (inorder t);
  rb_last_spec t : rb_last t = last_of (inorder t);
  rb_next_in t p : NoDup (inorder t) → p ∈ inorder t → rb_next t p = succ_in (inorder t) p;
  rb_prev_in t p : NoDup (inorder t) → p ∈ inorder t → rb_prev t p = succ_in (rev (inorder t)) p;
  rb_next_erased t p : p ∈ inorder t → NoDup (inorder t) →
    rb_next (rb_erase p t) p = 0 ∨ rb_next (rb_erase p t) p ∈ inorder (rb_erase p t);
  rb_next_erased_first t p l : inorder t = p :: l → NoDup (inorder t) →
    rb_next (rb_erase p t) p = first_of l;
}.

(** [radix-tree.h]: the items by index and the indices with a tag, which the
    gang lookup returns by increasing index. *)
Class RadixApi := {
  radix_tree_root : Type;
  RADIX_TREE : radix_tree_root;
  radix_tree_insert : Z → Z → radix_tree_root → Z * radix_tree_root;
  radix_tree_lookup : radix_tree_root → Z → Z;
  radix_tree_delete : Z → radix_tree_root → Z * radix_tree_root;
  radix_tree_tag_set : Z → Z → radix_tree_root → radix_tree_root;
  radix_tree_gang_lookup_tag : radix_tree_root → Z → Z → Z → list Z;
  items : radix_tree_root → gmap Z Z;
  tagged : radix_tree_root → Z → list Z;
  items_empty : items RADIX_TREE = ∅;
  tagged_empty tag : tagged RADIX_TREE tag = [];
  radix_insert_ret i p t : fst (radix_tree_insert i p t) = 0 → items t !! i = None;
  items_insert i p t :
    items (snd (radix_tree_insert i p t)) =
      if fst (radix_tree_insert i p t) =? 0 then <[i := p]> (items t) else items t;
  tagged_insert i p t tag : tagged (snd (radix_tree_insert i p t)) tag = tagged t tag;
  radix_lookup_spec t i : radix_tree_lookup t i = default 0 (items t !! i);
  radix_delete_ret i t : fst (radix_tree_delete i t) = default 0 (items t !! i);
  items_delete i t : items (snd (radix_tree_delete i t)) = delete i (items t);
  items_tag_set i tag t : items (radix_tree_tag_set i tag t) = items t;
  tagged_tag_set i tag t : is_Some (items t !! i) → ∀ j tag',
    j ∈ tagged (radix_tree_tag_set i tag t) tag' ↔ j ∈ tagged t tag' ∨ (j = i ∧ tag' = tag);
  tagged_sorted t tag : StronglySorted Z.lt (tagged t tag);
  gang_lookup_spec t first max tag :
    radix_tree_gang_lookup_tag t first max tag =
      map (λ i, default 0 (items t !! i))
        (take (Z.to_nat max) (filter (λ i, first ≤ i) (tagged t tag)));
}.

(** [xarray.h]: entries by index, and the marked ones by increasing index.
    [xa_store] says whether it has stored the entry: it allocates and can fail. *)
Class XaApi := {
  xarray : Type;
  DEFINE_XARRAY : xarray;
  xa_store : Z → Z → xarray → bool * xarray;
  xa_load : xarray → Z → Z;
  xa_erase : Z → xarray → Z * xarray;
  xa_set_mark : Z → xarray → xarray;
  slots : xarray → gmap Z Z;
  marked : xarray → list Z;
  slots_empty : slots DEFINE_XARRAY = ∅;
  marked_empty : marked DEFINE_XARRAY = [];
  slots_store i p x : slots (snd (xa_store i p x)) =
    if fst (xa_store i p x) then <[i := p]> (slots x) else slots x;
  marked_store i p x j : j ∈ marked (snd (xa_store i p x)) → j ∈ marked x;
  xa_load_spec x i : xa_load x i = default 0 (slots x !! i);
  xa_erase_ret i x : fst (xa_erase i x) = default 0 (slots x !! i);
  slots_erase i x : slots (snd (xa_erase i x)) = delete i (slots x);
  slots_set_mark i x : slots (xa_set_mark i x) = slots x;
  marked_set_mark i x j : is_Some (slots x !! i) →
    j ∈ marked (xa_set_mark i x) ↔ j ∈ marked x ∨ j = i;
  marked_sorted x : StronglySorted Z.lt (marked x);
}.

(** [bitmap.h] *)
Class BitmapApi := {
  bitmap : Type;
  bitmap_zero : bitmap;
  set_bit : Z → bitmap → bitmap;
  test_bit : Z → bitmap → bool;
  test_zero j : test_bit j bitmap_zero = false;
  test_set i b j : test_bit j (set_bit i b) = (j =? i) || test_bit j b;
}.

(** * Lemmas *)

Section kernel_lemmas.
Context {V C : Type}.
Implicit Types (k : kern V) (c : C) (p : Z) (v : V).

Lemma printk_ok fmt args h l c :
  printk fmt args (Kern (V := V) h l, c) = (Ret tt, (Kern h (l ++ [(fmt, args)]), c)).
Proof. reflexivity. Qed.

Lemma kmalloc_ok alloc h l c :
  alloc h ≠ 0 →
  kmalloc alloc (Kern (V := V) h l, c) = (Ret (alloc h), (Kern (<[alloc h := None]> h) l, c)).
Proof. intros Hp. unfold kmalloc. mstep. simpl. by destruct (Z.eqb_spec (alloc h) 0). Qed.

Lemma kmalloc_null alloc h l c :
  alloc h = 0 → kmalloc alloc (Kern (V := V) h l, c) = (Ret 0, (Kern h l, c)).
Proof. intros Hp. unfold kmalloc. mstep. simpl. by rewrite Hp. Qed.

Lemma assign_ok p v h l c o :
  p ≠ 0 → h !! p = Some o →
  assign p v (Kern h l, c) = (Ret tt, (Kern (<[p := Some v]> h) l, c)).
Proof.
  intros Hp Hh. unfold assign. mstep. destruct (Z.eqb_spec p 0); [done|]. simpl. by rewrite Hh.
Qed.

Lemma assign_null v (s : kern V * C) : assign 0 v s = (Stop NullDeref, s).
Proof. reflexivity. Qed.

Lemma kload_ok p v h l c :
  p ≠ 0 → h !! p = Some (Some v) → load p (Kern h l, c) = (Ret v, (Kern h l, c)).
Proof.
  intros Hp Hh. unfold load. mstep. destruct (Z.eqb_spec p 0); [done|]. simpl. by rewrite Hh.
Qed.

Lemma kfree_ok p h l c o :
  p ≠ 0 → h !! p = Some o → kfree p (Kern (V := V) h l, c) = (Ret tt, (Kern (delete p h) l, c)).
Proof.
  intros Hp Hh. unfold kfree. mstep. destruct (Z.eqb_spec p 0); [done|]. simpl. by rewrite Hh.
Qed.

Lemma read_link_live freed p x o h l c :
  h !! p = Some o → read_link freed p x (Kern (V := V) h l, c) = (Ret x, (Kern h l, c)).
Proof. intros Hh. unfold read_link. mstep. simpl. by rewrite Hh. Qed.

Lemma read_link_freed freed p x h l c :
  h !! p = None → read_link freed p x (Kern (V := V) h l, c) = (freed x, (Kern h l, c)).
Proof. intros Hh. unfold read_link. mstep. simpl. by rewrite Hh. Qed.
End kernel_lemmas.

Ltac prints := eapply bind_run; [apply printk_ok|]; cbv beta.

Section chains.
Implicit Types (l : list Z) (p : Z).

Lemma succ_in_app l1 p l2 : NoDup (l1 ++ p :: l2) → succ_in (l1 ++ p :: l2) p = first_of l2.
Proof.
  induction l1 as [|x l1 IH]; simpl; intros Hnd.
  - by rewrite Z.eqb_refl.
  - apply NoDup_cons in Hnd as [Hx Hnd]. destruct (Z.eqb_spec x p) as [->|]; [|by apply IH].
    destruct Hx. set_solver.
Qed.

Lemma first_of_cons p l : first_of (p :: l) = p.
Proof. reflexivity. Qed.

(** A loop along a chain: if the body and the link that is read after it
    take a state good for the prefix [l1] to one good for [l1 ++ [p]], the
    loop is left with what it does on the rest of the chain. *)
Lemma walk_prefix {S R} (next : Z → M S Z) (body : Z → M S (option R)) (P : list Z → S → Prop)
    l1 l2 fuel s :
  0 ∉ l1 → P [] s →
  (∀ la p lb s0, l1 = la ++ p :: lb → P la s0 →
     ∃ s1 s2, body p s0 = (Ret None, s1) ∧ next p s1 = (Ret (first_of (lb ++ l2)), s2) ∧
       P (la ++ [p]) s2) →
  ∃ s', walk (length l1 + fuel) next body (first_of (l1 ++ l2)) s =
          walk fuel next body (first_of l2) s' ∧ P l1 s'.
Proof.
  intros H0 HP Hstep.
  cut (∀ lb la s0, l1 = la ++ lb → P la s0 →
    ∃ s', walk (length lb + fuel) next body (first_of (lb ++ l2)) s0 =
            walk fuel next body (first_of l2) s' ∧ P l1 s').
  { intros H. by apply (H l1 []). }
  induction lb as [|p lb IH]; intros la s0 Hl HP0.
  { exists s0. rewrite app_nil_r in Hl. by subst. }
  destruct (Hstep la p lb s0 Hl HP0) as (s1 & s2 & Hb & Hn & HP2).
  destruct (IH (la ++ [p]) s2) as (s' & Hw & HP'); [by rewrite <- app_assoc|done|].
  exists s'. split; [|done]. rewrite <- Hw. cbn [length Nat.add walk app]. rewrite first_of_cons.
  destruct (Z.eqb_spec p 0) as [->|]; [by destruct H0; rewrite Hl; apply elem_of_mid|].
  rewrite (bind_Ret _ _ _ _ _ Hb). by rewrite (bind_Ret _ _ _ _ _ Hn).
Qed.

Lemma walk_chain {S R} (next : Z → M S Z) (body : Z → M S (option R)) (P : list Z → S → Prop)
    l fuel s :
  0 ∉ l → (length l < fuel)%nat → P [] s →
  (∀ la p lb s0, l = la ++ p :: lb → P la s0 →
     ∃ s1 s2, body p s0 = (Ret None, s1) ∧ next p s1 = (Ret (first_of lb), s2) ∧
       P (la ++ [p]) s2) →
  ∃ s', walk fuel next body (first_of l) s = (Ret None, s') ∧ P l s'.
Proof.
  intros H0 Hf HP Hstep.
  destruct (walk_prefix next body P l [] (fuel - length l) s) as (s' & Hw & HP'); [done..| |].
  { intros la p lb s0. rewrite app_nil_r. apply Hstep. }
  rewrite app_nil_r in Hw. replace (length l + (fuel - length l))%nat with fuel in Hw by lia.
  exists s'. split; [|done]. rewrite Hw.
  destruct (fuel - length l)%nat eqn:E; [lia|done].
Qed.
End chains.

(** ** What a function has allocated

    [owns h0 h l]: the heap [h] is [h0] and, apart from it, the objects [l],
    addresses with their values. *)
Record owns {V} (h0 h : kheap V) (l : list (Z * V)) : Prop := {
  owns_nodup : NoDup (map fst l);
  owns_in p v : (p, v) ∈ l → p ≠ 0 ∧ h !! p = Some (Some v) ∧ h0 !! p = None;
  owns_out p : p ∉ map fst l → h !! p = h0 !! p;
}.

Section owns.
Context {V : Type}.
Implicit Types (h : kheap V) (l : list (Z * V)).

Lemma owns_nil h : owns h h [].
Proof. split; [by apply NoDup_nil| |done]. intros p v H. by apply elem_of_nil in H. Qed.

Lemma owns_done h0 h : owns h0 h [] → h = h0.
Proof. intros [_ _ Hout]. apply map_eq. intros p. apply Hout. set_solver. Qed.

Lemma owns_fresh h0 h l p : owns h0 h l → h !! p = None → (p ∉ map fst l) ∧ h0 !! p = None.
Proof.
  intros [_ Hin Hout] Hp. assert (p ∉ map fst l) as Hn.
  { intros H. apply list_elem_of_fmap in H as ([q v] & -> & Hq).
    apply Hin in Hq as (_ & Hq & _). simpl in Hp. congruence. }
  split; [done|]. by rewrite <- Hout.
Qed.

Lemma owns_add h0 h l p v :
  owns h0 h l → p ≠ 0 → h !! p = None → owns h0 (<[p := Some v]> h) ((p, v) :: l).
Proof.
  intros HO Hp0 Hp. destruct (owns_fresh _ _ _ _ HO Hp) as [Hn H0]. destruct HO as [Hnd Hin Hout].
  split.
  - simpl. by apply NoDup_cons.
  - intros q w [[= -> ->]|Hq]%elem_of_cons.
    + by rewrite lookup_insert_eq.
    + destruct (Hin _ _ Hq) as (? & ? & ?). rewrite lookup_insert_ne; [done|].
      intros ->. destruct Hn. apply list_elem_of_fmap. by exists (q, w).
  - simpl. intros q Hq. apply not_elem_of_cons in Hq as [Hne Hq].
    rewrite lookup_insert_ne by done. by apply Hout.
Qed.

Lemma owns_perm h0 h l l' : l ≡ₚ l' → owns h0 h l → owns h0 h l'.
Proof.
  intros HP [Hnd Hin Hout]. split.
  - by rewrite <- HP.
  - intros p v Hq. apply Hin. by rewrite HP.
  - intros p Hq. apply Hout. by rewrite HP.
Qed.

Lemma owns_del h0 h p v l : owns h0 h ((p, v) :: l) → owns h0 (delete p h) l.
Proof.
  intros [Hnd Hin Hout]. simpl in Hnd. apply NoDup_cons in Hnd as [Hp Hnd]. split.
  - done.
  - intros q w Hq. destruct (Hin q w) as (? & ? & ?); [by right|].
    rewrite lookup_delete_ne; [done|]. intros ->. destruct Hp.
    apply list_elem_of_fmap. by exists (q, w).
  - intros q Hq. destruct (decide (p = q)) as [->|Hne].
    + rewrite lookup_delete_eq. destruct (Hin q v) as (_ & _ & ->); [by left|done].
    + rewrite lookup_delete_ne by done. apply Hout. simpl.
      apply not_elem_of_cons. by split.
Qed.

Lemma owns_trans h0 h1 h2 l1 l2 : owns h0 h1 l1 → owns h1 h2 l2 → owns h0 h2 (l2 ++ l1).
Proof.
  intros [Hnd1 Hin1 Hout1] [Hnd2 Hin2 Hout2].
  assert (∀ p, p ∈ map fst l1 → is_Some (h1 !! p)) as Hl1.
  { intros p ([q v] & -> & Hq)%list_elem_of_fmap. destruct (Hin1 _ _ Hq) as (_ & ? & _). eauto. }
  assert (∀ p, p ∈ map fst l2 → h1 !! p = None) as Hl2.
  { intros p ([q v] & -> & Hq)%list_elem_of_fmap. by destruct (Hin2 _ _ Hq) as (_ & _ & ?). }
  assert (∀ p, p ∈ map fst l1 → p ∉ map fst l2) as Hdisj.
  { intros p H1%Hl1 H2%Hl2. rewrite H2 in H1. by destruct H1. }
  split.
  - rewrite map_app. apply NoDup_app. split; [done|]. split; [|done].
    intros p H2 H1. by apply (Hdisj p).
  - intros p v [H2|H1]%elem_of_app.
    + destruct (Hin2 p v H2) as (? & ? & Hn). split; [done|]. split; [done|].
      rewrite <- Hout1; [done|]. intros H1%Hl1. rewrite Hn in H1. by destruct H1.
    + destruct (Hin1 p v H1) as (? & ? & ?). split; [done|]. split; [|done].
      rewrite Hout2; [done|]. apply Hdisj, list_elem_of_fmap. by exists (p, v).
  - intros p. rewrite map_app, not_elem_of_app. intros [H2 H1]. by rewrite Hout2, Hout1.
Qed.

Lemma owns_lookup h0 h l p v : owns h0 h l → (p, v) ∈ l → p ≠ 0 ∧ h !! p = Some (Some v).
Proof. intros [_ Hin _] H. destruct (Hin p v H) as (? & ? & _). done. Qed.
End owns.

(** Allocating an object and assigning it. *)
Lemma alloc_fresh {V} (alloc : kheap V → Z) `{Allocator V alloc} h :
  alloc h ≠ 0 → h !! alloc h = None.
Proof. intros Hok. by destruct (kmalloc_fresh h) as [|[_ ?]]. Qed.

Lemma new_object {V C A} (alloc : kheap V → Z) v (f : Z → M (kern V * C) A) h lg c :
  alloc h ≠ 0 →
  (p ← kmalloc alloc; assign p v;; f p) (Kern h lg, c) =
    f (alloc h) (Kern (<[alloc h := Some v]> h) lg, c).
Proof.
  intros Hok. eapply bind_run; [by apply kmalloc_ok|]. cbv beta.
  eapply bind_run; [by eapply assign_ok; [done|apply lookup_insert_eq]|].
  by rewrite insert_insert_eq.
Qed.

(** A function that stops when there is no memory writes through [NULL]. *)
Lemma no_object {V C A} (alloc : kheap V → Z) v (f : Z → M (kern V * C) A) h lg c :
  alloc h = 0 →
  (p ← kmalloc alloc; assign p v;; f p) (Kern h lg, c) = (Stop NullDeref, (Kern h lg, c)).
Proof. intros Hno. eapply bind_run; [by apply kmalloc_null|]. done. Qed.

(** ** Loops over the objects of a container *)
Section loops.
Context {C : Type}.
Implicit Types (h : kheap Z) (lg : list (string * list Z)).

Definition line1 (fmt : string) (x : Z) : string * list Z := (fmt, [x]).

(** Printing the values of objects one owns. *)
Lemma print_objects fmt h0 h all nodes lg (c : C) :
  owns h0 h all → nodes ⊆ all →
  for_each (map fst nodes) (λ p, (value ← load p; printk fmt [value])) (Kern h lg, c) =
    (Ret tt, (Kern h (lg ++ map (line1 fmt) (map snd nodes)), c)).
Proof.
  intros HO. revert lg. induction nodes as [|[p v] nodes IH]; intros lg Hin; simpl.
  { by rewrite app_nil_r. }
  rewrite bind_assoc.
  destruct (owns_lookup _ _ _ p v HO) as [Hp Hh]; [apply Hin; by left|].
  eapply bind_run; [by apply kload_ok|]. cbv beta. prints.
  rewrite IH by (intros x Hx; apply Hin; by right).
  by rewrite <- app_assoc.
Qed.
End loops.

(** A container that is a local variable. *)
Definition with_local {V C L A} (c0 : L) (m : M (kern V * L) A) : M (kern V * C) A := λ s,
  match m (s.1, c0) with (o, (k, _)) => (o, (k, s.2)) end.

Lemma with_local_run {V C L A} (c0 c1 : L) (m : M (kern V * L) A) k k' (c : C) o :
  m (k, c0) = (o, (k', c1)) → with_local c0 m (k, c) = (o, (k', c)).
Proof. intros E. unfold with_local. simpl. by rewrite E. Qed.

#[export] Hint Resolve owns_nil : csys.
