(* ===== verification/KernelModel.v ===== *)
(** An allocator and an implementation of every container interface of
    [Kernel]: the laws the modules rely on can hold together.  The witnesses
    of the theorems run on it. *)
From S2P Require Import Prelude CInt Kernel.
Local Open Scope Z_scope.

(** The address above all others. *)
Definition top_addr {V} (h : gmap Z V) : Z := 1 + map_fold (λ p _ m, Z.max p m) 0 h.

Lemma top_addr_spec {V} (h : gmap Z V) : 0 < top_addr h ∧ ∀ p, is_Some (h !! p) → p < top_addr h.
Proof.
  unfold top_addr.
  apply (map_fold_weak_ind (λ m (h : gmap Z V), 0 < 1 + m ∧ ∀ p, is_Some (h !! p) → p < 1 + m)).
  - split; [lia|]. intros p [o Ho]. by rewrite lookup_empty in Ho.
  - intros q o m r _ [Hpos Hlt]. split; [lia|]. intros p Hp.
    destruct (decide (q = p)) as [->|]; [lia|]. rewrite lookup_insert_ne in Hp by done.
    apply Hlt in Hp. lia.
Qed.

Lemma top_addr_fresh {V} (h : gmap Z V) : h !! top_addr h = None.
Proof.
  destruct (top_addr_spec h) as [Hpos Hlt]. destruct (h !! top_addr h) eqn:E; [|done].
  assert (top_addr h < top_addr h) by (apply Hlt; eauto). lia.
Qed.

#[export] Instance top_allocator {V} : Allocator (@top_addr (option V)).
Proof. intros h. right. split; [exact (proj1 (top_addr_spec h))|apply top_addr_fresh]. Qed.

Lemma top_enough {V} (h : gmap Z V) : top_addr h ≠ 0.
Proof. destruct (top_addr_spec h). lia. Qed.

#[export] Program Instance model_list : ListApi := {|
  list_head := list Z;
  LIST_HEAD := [];
  list_add := cons;
  list_del p := filter (λ q, q ≠ p);
  entries l := l;
|}.
Solve All Obligations with done.

(** Tables: the nodes with their buckets, the last one added first. *)
Section hash.
Context (bits : Z) (Hbits : 0 ≤ bits).

Abbreviation table := (list (Z * Z)).
Definition in_bucket (t : table) (b : Z) : list Z := map snd (filter (λ bp, bp.1 = b) t).
Definition link_of (t : table) (p : Z) : Z :=
  match list_find (λ bp, bp.2 = p) t with
  | Some (_, (b, _)) => succ_in (in_bucket t b) p
  | None => 0
  end.

Lemma elem_of_in_bucket t b p : p ∈ in_bucket t b ↔ (b, p) ∈ t.
Proof.
  unfold in_bucket. rewrite list_elem_of_fmap. split.
  - intros ([b' q] & -> & [Hb Hq]%list_elem_of_filter). simpl in *. by subst.
  - intros H. exists (b, p). split; [done|]. by apply list_elem_of_filter.
Qed.

#[local] Program Definition hash_ops : HashApi bits := {|
  hashtable := table;
  hash_init := [];
  hash_add p k t := (k mod 2 ^ bits, p) :: t;
  hash_del p := filter (λ bp, bp.2 ≠ p);
  hash_min k := k mod 2 ^ bits;
  chain := in_bucket;
  hash_next := link_of;
|}.
Next Obligation. intros k. apply Z.mod_pos_bound. lia. Qed.
Next Obligation. done. Qed.
Next Obligation.
  intros p k t b. unfold in_bucket. simpl. destruct (Z.eqb_spec b (k mod 2 ^ bits)) as [->|Hb].
  - by rewrite filter_cons_True.
  - by rewrite filter_cons_False by (simpl; congruence).
Qed.
Next Obligation.
  intros p t b. unfold in_bucket. induction t as [|[b' q] t IH]; [done|].
  rewrite !(filter_cons _ (b', q)). simpl.
  destruct (decide (q ≠ p)) as [Hq|Hq], (decide (b' = b)) as [->|Hb];
    rewrite ?filter_cons; simpl; rewrite ?decide_True, ?decide_False by done; simpl;
    rewrite ?filter_cons, ?decide_True, ?decide_False by done; simpl; by rewrite ?IH.
Qed.
Next Obligation.
  intros t b p Hp _ Honly. unfold link_of. apply elem_of_in_bucket in Hp as Hp'.
  destruct (list_find (λ bp, bp.2 = p) t) as [[i [b' q]]|] eqn:E.
  - apply list_find_Some in E as (Hi & Hq & _). simpl in Hq. subst q.
    assert (b' = b) as ->; [|done]. apply Honly, elem_of_in_bucket.
    by apply list_elem_of_lookup_2 in Hi.
  - apply list_find_None in E. rewrite Forall_forall in E. by destruct (E _ Hp').
Qed.
Next Obligation.
  intros t p Hp. unfold link_of.
  destruct (list_find (λ bp, bp.2 = p) t) as [[i [b q]]|] eqn:E; [|done].
  apply list_find_Some in E as (Hi & Hq & _). simpl in Hq. subst q.
  destruct (Hp b). apply elem_of_in_bucket. by apply list_elem_of_lookup_2 in Hi.
Qed.
Definition model_hash : HashApi bits := hash_ops.
End hash.

(** Trees: no rebalancing, and what is left after an erasure is a spine. *)
Fixpoint spine (l : list Z) : rbtree :=
  match l with
  | [] => RbNull
  | p :: l' => RbNode RbNull p (spine l')
  end.

Lemma inorder_spine l : inorder (spine l) = l.
Proof. induction l as [|p l IH]; simpl; by rewrite ?IH. Qed.

#[export] Program Instance model_rb : RbApi := {|
  rb_insert_color _ t := t;
  rb_erase p t := spine (filter (λ q, q ≠ p) (inorder t));
  rb_first t := first_of (inorder t);
  rb_last t := last_of (inorder t);
  rb_next t p := if decide (p ∈ inorder t) then succ_in (inorder t) p else first_of (inorder t);
  rb_prev t p := succ_in (rev (inorder t)) p;
|}.
Next Obligation. done. Qed.
Next Obligation. intros. apply inorder_spine. Qed.
Next Obligation. done. Qed.
Next Obligation. done. Qed.
Next Obligation. intros t p _ Hp. simpl. by rewrite decide_True. Qed.
Next Obligation. done. Qed.
Next Obligation.
  intros t p Hp Hnd. simpl. rewrite inorder_spine, decide_False.
  - destruct (filter (λ q, q ≠ p) (inorder t)); [by left|right; by left].
  - rewrite list_elem_of_filter. intros [? _]. done.
Qed.
Next Obligation.
  intros t p l E Hnd. simpl. rewrite inorder_spine, E. rewrite E in Hnd.
  pose proof (filter_ne_mid [] l p Hnd) as Hf. simpl in Hf. rewrite Hf, decide_False; [done|].
  by apply NoDup_cons in Hnd as [? _].
Qed.

Record tree := Tree { t_items : gmap Z Z; t_tags : list (Z * Z) }.
Definition with_tag (t : tree) (tag : Z) : list Z :=
  sorted (map snd (filter (λ ti, ti.1 = tag) (t_tags t))).

#[export] Program Instance model_radix : RadixApi := {|
  radix_tree_root := tree;
  RADIX_TREE := Tree ∅ [];
  radix_tree_insert i p t :=
    match t_items t !! i with
    | Some _ => (-17, t)
    | None => (0, Tree (<[i := p]> (t_items t)) (t_tags t))
    end;
  radix_tree_lookup t i := default 0 (t_items t !! i);
  radix_tree_delete i t := (default 0 (t_items t !! i), Tree (delete i (t_items t)) (t_tags t));
  radix_tree_tag_set i tag t := Tree (t_items t) ((tag, i) :: t_tags t);
  radix_tree_gang_lookup_tag t first max tag :=
    map (λ i, default 0 (t_items t !! i))
      (take (Z.to_nat max) (filter (λ i, first ≤ i) (with_tag t tag)));
  items := t_items;
  tagged := with_tag;
|}.
Next Obligation. done. Qed.
Next Obligation. done. Qed.
Next Obligation. intros i p t. simpl. by destruct (t_items t !! i). Qed.
Next Obligation. intros i p t. simpl. by destruct (t_items t !! i). Qed.
Next Obligation. intros i p t tag. simpl. by destruct (t_items t !! i). Qed.
Next Obligation. done. Qed.
Next Obligation. done. Qed.
Next Obligation. done. Qed.
Next Obligation. done. Qed.
Next Obligation.
  intros i tag t _ j tag'. unfold with_tag. simpl. rewrite filter_cons. simpl.
  destruct (decide (tag = tag')) as [->|]; simpl; rewrite ?elem_of_ins; intuition congruence.
Qed.
Next Obligation. intros. apply sorted_sorted. Qed.
Next Obligation. done. Qed.

#[export] Program Instance model_xa : XaApi := {|
  xarray := tree;
  DEFINE_XARRAY := Tree ∅ [];
  xa_store i p x := (true, Tree (<[i := p]> (t_items x)) (t_tags x));
  xa_load x i := default 0 (t_items x !! i);
  xa_erase i x := (default 0 (t_items x !! i), Tree (delete i (t_items x)) (t_tags x));
  xa_set_mark i x := Tree (t_items x) ((1, i) :: t_tags x);
  slots := t_items;
  marked x := with_tag x 1;
|}.
Next Obligation. done. Qed.
Next Obligation. done. Qed.
Next Obligation. done. Qed.
Next Obligation. done. Qed.
Next Obligation. done. Qed.
Next Obligation. done. Qed.
Next Obligation. done. Qed.
Next Obligation. done. Qed.
Next Obligation.
  intros x i j _. unfold with_tag. simpl. by rewrite elem_of_ins.
Qed.
Next Obligation. intros. apply sorted_sorted. Qed.

#[export] Program Instance model_bitmap : BitmapApi := {|
  bitmap := list Z;
  bitmap_zero := [];
  set_bit i b := i :: b;
  test_bit j b := existsb (Z.eqb j) b;
|}.
Next Obligation. done. Qed.
Next Obligation. done. Qed.
