(* ===== verification/Encrypt.v ===== *)
(** The system call of assignment 1, [s2_encrypt], which the patch
    [syscall.patch] adds as [kernel/encrypt.c]: it copies a string from the
    user, adds the key to each of its characters and logs the result.

    What the user's pointer leads to is two parameters: the result of
    [strnlen_user] for a limit, and for a length the bytes that
    [copy_from_user] puts in the buffer and how many it has not copied.  An
    object of the heap is a buffer. *)
From S2P Require Import Prelude CInt CString Kernel KernelModel.
Local Open Scope Z_scope.

Definition MAX : Z := 256.
Definition EINVAL : Z := 22.
Definition EFAULT : Z := 14.

Abbreviation st := (kern bytes * unit)%type.

(** [input[i]] and [input[i] = c]. *)
Definition get_char (input i : Z) : M st Z :=
  buf ← load input;
  match buf !! Z.to_nat i with
  | Some c => mret c
  | None => stop OutOfBounds
  end.
Definition set_char (input i c : Z) : M st unit :=
  buf ← load input;
  check (i <? Z.of_nat (length buf)) OutOfBounds;;
  assign input (<[Z.to_nat i := c]> buf).

(** [input[i] + key], converted to [char]. *)
Definition shift (key c : Z) : Z := u8 (c + key).

Fixpoint encrypt_loop (fuel : nat) (input key i : Z) : M st unit :=
  match fuel with
  | O => stop OutOfFuel
  | S f =>
      c ← get_char input i;
      if negb (c =? 0) then
        set_char input i (shift key c);;
        encrypt_loop f input key (i + 1)
      else mret tt
  end.

Section program.
Context (kmalloc_at : kheap bytes → Z).
Context (strnlen_user : Z → Z) (copy_from_user : Z → bytes * Z).

(** The fuel is the length of the buffer and one more. *)
Definition s2_encrypt (key : Z) : M st Z :=
  let code := - EINVAL in
  let length := s32 (strnlen_user MAX) in
  if length >? MAX then mret code
  else
    input ← kmalloc kmalloc_at;
    let '(copied, uncopied) := copy_from_user length in
    assign input copied;;
    if negb (uncopied =? 0) then mret (- EFAULT)
    else
      c ← get_char input 0;
      if (c =? 0) || (key <? 1) || (key >? 5) then mret code
      else
        encrypt_loop (S (Z.to_nat length)) input key 0;;
        buf ← load input;
        printk "%s" (cstr buf);;
        kfree input;;
        mret 0.
End program.

(** ** Proofs *)

(** What is after a NUL does not count. *)
Lemma cstr_nul l k : cstr (l ++ 0 :: k) = cstr l.
Proof. induction l as [|x l IH]; simpl; [done|]. by rewrite IH. Qed.

Lemma get_char_ok p buf h lg i c :
  p ≠ 0 → h !! p = Some (Some buf) → buf !! Z.to_nat i = Some c →
  get_char p i (Kern h lg, tt) = (Ret c, (Kern h lg, tt)).
Proof. intros Hp Hh Hc. unfold get_char. mby (by apply kload_ok). by rewrite Hc. Qed.

Lemma set_char_ok p buf h lg i c :
  p ≠ 0 → h !! p = Some (Some buf) → i < Z.of_nat (length buf) →
  set_char p i c (Kern h lg, tt) = (Ret tt, (Kern (<[p := Some (<[Z.to_nat i := c]> buf)]> h) lg, tt)).
Proof.
  intros Hp Hh Hi. unfold set_char. mby (by apply kload_ok).
  rewrite (proj2 (Z.ltb_lt _ _) Hi). mstep. by eapply assign_ok.
Qed.

(** The loop shifts the characters [s] up to the NUL, [done] being shifted. *)
Lemma encrypt_loop_ok p key s rest h lg fuel pre :
  p ≠ 0 → h !! p = Some (Some (pre ++ s ++ 0 :: rest)) → cstr_ok s → (length s < fuel)%nat →
  encrypt_loop fuel p key (Z.of_nat (length pre)) (Kern h lg, tt) =
    (Ret tt, (Kern (<[p := Some (pre ++ map (shift key) s ++ 0 :: rest)]> h) lg, tt)).
Proof.
  intros Hp Hh Hs. revert pre h fuel Hh. induction Hs as [|c s Hc _ IH]; intros pre h fuel Hh Hf.
  all: destruct fuel as [|fuel]; [simpl in Hf; lia|]; cbn [encrypt_loop].
  - mby (eapply get_char_ok; [done|exact Hh|rewrite Nat2Z.id; by apply list_lookup_middle]).
    simpl. by rewrite insert_id.
  - mby (eapply get_char_ok; [done|exact Hh|rewrite Nat2Z.id; by apply list_lookup_middle]).
    rewrite (proj2 (Z.eqb_neq c 0)) by lia. cbn [negb].
    mby (eapply set_char_ok; [done|exact Hh|rewrite length_app; simpl; lia]).
    rewrite Nat2Z.id, insert_app_r_alt, Nat.sub_diag by lia. cbn [app insert list_insert].
    specialize (IH (pre ++ [shift key c]) (<[p := Some (pre ++ shift key c :: s ++ 0 :: rest)]> h) fuel).
    rewrite length_app, Nat2Z.inj_add in IH. simpl in IH, Hf.
    rewrite lookup_insert_eq, insert_insert_eq in IH.
    rewrite <- !app_assoc in IH. apply IH; [done|lia].
Qed.

Section spec.
Context (kmalloc_at : kheap bytes → Z) {HA : Allocator kmalloc_at}.
Context (strnlen_user : Z → Z) (copy_from_user : Z → bytes * Z).

(** The user's pointer leads to the string [s]: the length counts the NUL and
    is above the limit for a string that is longer; what is copied is from it. *)
Record user_string (s : bytes) : Prop := {
  us_ok : cstr_ok s;
  us_strnlen m : 0 < m → strnlen_user m =
    if Z.of_nat (length s) + 1 <=? m then Z.of_nat (length s) + 1 else m + 1;
  us_copy n : snd (copy_from_user n) = 0 → fst (copy_from_user n) = take (Z.to_nat n) (s ++ [0]);
}.

(** The result, the heap and the log. *)
Definition encrypt_spec (key : Z) (s : bytes) (h : kheap bytes) (lg : list (string * list Z))
    : outcome Z * (kheap bytes * list (string * list Z)) :=
  let n := Z.of_nat (length s) + 1 in
  if MAX <? n then (Ret (- EINVAL), (h, lg))
  else
    let p := kmalloc_at h in
    if p =? 0 then (Stop NullDeref, (h, lg))
    else
      let '(copied, uncopied) := copy_from_user n in
      if negb (uncopied =? 0) then (Ret (- EFAULT), (<[p := Some copied]> h, lg))
      else if bool_decide (s = []) || (key <? 1) || (key >? 5) then
        (Ret (- EINVAL), (<[p := Some (s ++ [0])]> h, lg))
      else (Ret 0, (h, lg ++ [("%s", cstr (map (shift key) s))])).

Lemma encrypt_run key s h lg :
  user_string s →
  s2_encrypt kmalloc_at strnlen_user copy_from_user key (Kern h lg, tt) =
    let '(o, (h', lg')) := encrypt_spec key s h lg in (o, (Kern h' lg', tt)).
Proof.
  intros [Hs Hlen Hcopy]. unfold s2_encrypt, encrypt_spec. rewrite Hlen by done.
  change MAX with 256.
  destruct (Z.leb_spec (Z.of_nat (length s) + 1) 256) as [Hle|Hgt].
  2: { rewrite (proj2 (Z.ltb_lt 256 _)) by lia. done. }
  rewrite (proj2 (Z.ltb_ge 256 _)), s32_small by lia.
  rewrite Z.gtb_ltb, (proj2 (Z.ltb_ge 256 _)) by lia. cbv zeta.
  destruct (Z.eqb_spec (kmalloc_at h) 0) as [Hno|Hp].
  { mby (by apply kmalloc_null). by destruct (copy_from_user _). }
  specialize (Hcopy (Z.of_nat (length s) + 1)).
  mby (by apply kmalloc_ok). destruct (copy_from_user _) as [copied uncopied].
  mby (eapply assign_ok; [done|apply lookup_insert_eq]). rewrite insert_insert_eq.
  destruct (Z.eqb_spec uncopied 0) as [->|]; [|done]. cbn [negb].
  cbn [fst snd] in Hcopy. rewrite (Hcopy eq_refl).
  rewrite take_ge by (rewrite length_app; simpl; lia).
  destruct s as [|c s].
  { mby (eapply get_char_ok; [done|apply lookup_insert_eq|reflexivity]). done. }
  mby (eapply get_char_ok; [done|apply lookup_insert_eq|reflexivity]).
  pose proof (Forall_inv Hs) as Hc. cbv beta in Hc. rewrite (proj2 (Z.eqb_neq c 0)) by lia.
  rewrite bool_decide_false by done. cbn [orb].
  destruct ((key <? 1) || (key >? 5)); [done|].
  minto.
  { apply (encrypt_loop_ok _ key (c :: s) [] _ _ _ []); [done|apply lookup_insert_eq|done|lia]. }
  cbv beta. mby (apply kload_ok; [done|apply lookup_insert_eq]). prints.
  mby (eapply kfree_ok; [done|apply lookup_insert_eq]).
  rewrite insert_insert_eq, delete_insert_id by (by apply alloc_fresh).
  by rewrite app_nil_l, cstr_nul.
Qed.

(** C11: [s2_encrypt] on a string of the user: -EINVAL with nothing done for
    256 characters or more; a write through NULL when there is no memory, as
    [kmalloc] is not checked; -EFAULT when the copy fails and -EINVAL for an
    empty string or a key out of 1 to 5, both with the buffer never freed;
    otherwise 0, the buffer freed, and the string with the key added to each
    character logged, up to the first that becomes 0. *)
Theorem s2_encrypt_spec key s h lg :
  user_string s →
  s2_encrypt kmalloc_at strnlen_user copy_from_user key (Kern h lg, tt) =
    let '(o, (h', lg')) := encrypt_spec key s h lg in (o, (Kern h' lg', tt)).
Proof. apply encrypt_run. Qed.
End spec.

(** *** A user's string *)
Definition strnlen_of (s : bytes) (m : Z) : Z :=
  if Z.of_nat (length s) + 1 <=? m then Z.of_nat (length s) + 1 else m + 1.
Definition copy_of (s : bytes) (n : Z) : bytes * Z := (take (Z.to_nat n) (s ++ [0]), 0).

Lemma string_of_ok s : cstr_ok s → user_string (strnlen_of s) (copy_of s) s.
Proof. by split. Qed.

Lemma s2_encrypt_spec_witness :
  s2_encrypt top_addr (strnlen_of (str "abc")) (copy_of (str "abc")) 2 (Kern ∅ [], tt) =
    (Ret 0, (Kern ∅ [("%s", str "cde")], tt)) ∧
  s2_encrypt top_addr (strnlen_of (str "abc")) (copy_of (str "abc")) 6 (Kern ∅ [], tt) =
    (Ret (-22), (Kern {[1 := Some (str "abc" ++ [0])]} [], tt)).
Proof.
  assert (user_string (strnlen_of (str "abc")) (copy_of (str "abc")) (str "abc")) as HU
    by (by apply string_of_ok, (bool_decide_unpack _)).
  split.
  - rewrite (s2_encrypt_spec top_addr _ _ 2 (str "abc") ∅ [] HU). vm_compute. reflexivity.
  - rewrite (s2_encrypt_spec top_addr _ _ 6 (str "abc") ∅ [] HU). vm_compute. reflexivity.
Defined.
