(* ===== verification/Runner.v ===== *)
(** The user program of assignment 1, [runner.c]: it takes a string and a key
    from its options, calls system call 440 and prints what it returns.

    What [getopt] returns, option by option, is an argument; so is the system
    call, which acts on a state of its own.  The output is in front of it. *)
From S2P Require Import Prelude CInt CString Kernel KernelModel Encrypt.
Local Open Scope Z_scope.

(** The results of [getopt (argc, argv, "s:k:")] before -1. *)
Inductive opt : Type :=
  | OptK (optarg : bytes)
  | OptS (optarg : bytes)
  | OptUnknown (optopt : Z).

Section program.
Context {T : Type} (syscall440 : bytes → Z → M T Z).

Abbreviation st := (list bytes * T)%type.

Definition printf (s : bytes) : M st unit := on_fst (modify (λ out, out ++ [s])).

(** [strcpy (str, optarg)] into an array of 100 characters. *)
Definition strcpy_str (optarg : bytes) : M st bytes :=
  check (strlen optarg + 1 <=? 100) OutOfBounds;; mret (cstr optarg).

(** The loop over the options; [str] is not initialised. *)
Fixpoint options (opts : list opt) (str_ : option bytes) (key : Z) : M st (option bytes * Z) :=
  match opts with
  | [] => mret (str_, key)
  | OptK optarg :: opts' => options opts' str_ (atoi optarg)
  | OptS optarg :: opts' => s ← strcpy_str optarg; options opts' (Some s) key
  | OptUnknown optopt :: opts' =>
      printf (str "Unknown option: " ++ [optopt; 10]);; options opts' str_ key
  end.

Definition main (opts : list opt) : M st Z :=
  '(str_, key) ← options opts None 0;
  match str_ with
  | None => stop Uninit
  | Some s =>
      printf (str "Input String is " ++ s ++ str " and key is " ++ fmt_d key ++ str " " ++ [10]);;
      ret ← on_snd (syscall440 s key);
      printf (str "Return code from syscall : " ++ fmt_d ret ++ str " " ++ [10]);;
      mret 0
  end.
End program.

(** ** With the kernel of the patch behind system call 440 *)

(** What [syscall] of the C library returns for the result [r] of the kernel:
    -1 for an error, whose number goes to [errno]. *)
Definition syscall_ret (r : Z) : Z := if (-4096 <? r) && (r <? 0) then -1 else r.

(** The kernel reads the string where the program has it. *)
Definition sys_440 (kmalloc_at : kheap bytes → Z) (s : bytes) (key : Z) : M (kern bytes * unit) Z :=
  r ← s2_encrypt kmalloc_at (strnlen_of s) (copy_of s) key;
  mret (syscall_ret r).

Definition input_line (s : bytes) (key : Z) : bytes :=
  str "Input String is " ++ s ++ str " and key is " ++ fmt_d key ++ str " " ++ [10].
Definition return_line (ret : Z) : bytes :=
  str "Return code from syscall : " ++ fmt_d ret ++ str " " ++ [10].

Section proofs.
Context (kmalloc_at : kheap bytes → Z) {HA : Allocator kmalloc_at}.
Context (enough : ∀ h, kmalloc_at h ≠ 0).

(** C12: [runner -s s -k k], from the options to the kernel's log: a string of
    100 characters or more overflows the program's array; a shorter one that
    is not empty is shifted and logged, and 0 printed, when the key is 1 to 5;
    with any other key the kernel answers -22 and keeps its copy for ever, and
    the program prints the -1 that [syscall] makes of it. *)
Theorem runner_encrypts s k h lg out :
  cstr_ok s → s ≠ [] →
  main (sys_440 kmalloc_at) [OptS s; OptK k] (out, (Kern h lg, tt)) =
    (if 100 <=? Z.of_nat (length s) then (Stop OutOfBounds, (out, (Kern h lg, tt)))
     else if (1 <=? atoi k) && (atoi k <=? 5) then
       (Ret 0, (out ++ [input_line s (atoi k); return_line 0],
                (Kern h (lg ++ [("%s", cstr (map (shift (atoi k)) s))]), tt)))
     else
       (Ret 0, (out ++ [input_line s (atoi k); return_line (-1)],
                (Kern (<[kmalloc_at h := Some (s ++ [0])]> h) lg, tt)))).
Proof.
  intros Hs Hne. unfold main. cbn [options]. unfold strcpy_str, strlen. rewrite cstr_id by done.
  destruct (Z.leb_spec 100 (Z.of_nat (length s))).
  { by rewrite (proj2 (Z.leb_gt _ 100)) by lia. }
  rewrite (proj2 (Z.leb_le _ 100)) by lia.
  pose proof (encrypt_run kmalloc_at _ _ (atoi k) s h lg (string_of_ok s Hs)) as Hrun.
  unfold encrypt_spec in Hrun. change MAX with 256 in Hrun.
  rewrite (proj2 (Z.ltb_ge 256 _)), (proj2 (Z.eqb_neq _ _) (enough h)) in Hrun by lia.
  unfold copy_of at 2 in Hrun. cbv zeta iota beta in Hrun. cbn [negb Z.eqb] in Hrun.
  rewrite bool_decide_false in Hrun by done. cbn [orb] in Hrun.
  rewrite Z.gtb_ltb, Z.ltb_antisym, (Z.ltb_antisym (atoi k) 5) in Hrun.
  do 2 mstep.
  destruct (1 <=? atoi k), (atoi k <=? 5); cbn [negb orb andb] in *;
    (minto; [apply on_snd_Ret; unfold sys_440; by mrun Hrun|]); mstep; by rewrite <- app_assoc.
Qed.
End proofs.

Lemma runner_encrypts_witness :
  main (sys_440 top_addr) [OptS (str "abc"); OptK (str "3")] ([], (Kern ∅ [], tt)) =
    (Ret 0, ([input_line (str "abc") 3; return_line 0], (Kern ∅ [("%s", str "def")], tt))) ∧
  main (sys_440 top_addr) [OptS (str "abc"); OptK (str "7")] ([], (Kern ∅ [], tt)) =
    (Ret 0, ([input_line (str "abc") 7; return_line (-1)],
             (Kern {[1 := Some (str "abc" ++ [0])]} [], tt))).
Proof.
  split; rewrite (runner_encrypts top_addr top_enough (str "abc") _ ∅ [] []);
    first [vm_compute; reflexivity|by apply (bool_decide_unpack _)|done].
Defined.
