(* ===== verification/KdsList.v ===== *)
(** The linked list of [kds.c]: [run_linked_list] adds the integers at the
    head of a list, prints it, removes and frees every node and prints it
    again. *)
From S2P Require Import Prelude CInt Kernel KernelModel.
Local Open Scope Z_scope.

Section program.
Context `{ListApi} (kmalloc_at : kheap Z → Z).

(** The state: the kernel, with nodes whose field is [value], and the list. *)
Abbreviation st := (kern Z * list_head)%type.

(** The body of the loop that prints. *)
Definition print_list_entry (curr : Z) : M st unit :=
  value ← load curr; printk "Value: %d" [value].

Definition print_linked_list : M st unit :=
  printk "**** Printing list elements ****" [];;
  head ← container;
  for_each (entries head) print_list_entry.

Definition add_list_node (x : Z) : M st unit :=
  mynode ← kmalloc kmalloc_at;
  assign mynode x;;
  on_container (list_add mynode);;
  value ← load mynode;
  printk "Element inserted : %d " [value].

Definition remove_list_node (curr : Z) : M st unit :=
  on_container (list_del curr);; kfree curr.

(** [list_for_each_entry_safe] reads the link of a node before its body. *)
Definition run_linked_list {C} (int_array : list Z) : M (kern Z * C) unit :=
  with_local LIST_HEAD (
    for_each int_array add_list_node;;
    print_linked_list;;
    printk "**** Removing list elements ****" [];;
    head ← container;
    for_each (entries head) remove_list_node;;
    print_linked_list).
End program.

Section proofs.
Context `{LA : ListApi} (kmalloc_at : kheap Z → Z) {HA : Allocator kmalloc_at}.
Implicit Types (h : kheap Z) (lg : list (string * list Z)).

(** The nodes of the list, with their values, are what is allocated. *)
Definition list_rep h0 (nodes : list (Z * Z)) h c : Prop :=
  owns h0 h nodes ∧ entries c = map fst nodes.

Lemma print_list_ok h0 nodes h lg c :
  list_rep h0 nodes h c →
  print_linked_list (Kern h lg, c) =
    (Ret tt, (Kern h (lg ++ ("**** Printing list elements ****", []) ::
                      map (line1 "Value: %d") (map snd nodes)), c)).
Proof.
  intros [HO He]. unfold print_linked_list. prints. mstep.
  rewrite He. unfold print_list_entry. rewrite (print_objects _ h0 h nodes) by done.
  by rewrite <- app_assoc.
Qed.

(** Adding the integers goes through, or stops at the first of them there is
    no memory for. *)
Lemma add_nodes_any h0 int_array nodes h lg c :
  list_rep h0 nodes h c →
  (∃ nodes' h' c',
    for_each int_array (add_list_node kmalloc_at) (Kern h lg, c) =
      (Ret tt, (Kern h' (lg ++ map (line1 "Element inserted : %d ") int_array), c')) ∧
    list_rep h0 nodes' h' c' ∧ map snd nodes' = rev int_array ++ map snd nodes) ∨
  (∃ xs1 x xs2 h' c', int_array = xs1 ++ x :: xs2 ∧ kmalloc_at h' = 0 ∧
    for_each int_array (add_list_node kmalloc_at) (Kern h lg, c) =
      (Stop NullDeref, (Kern h' (lg ++ map (line1 "Element inserted : %d ") xs1), c'))).
Proof.
  revert nodes h lg c. induction int_array as [|x int_array IH]; intros nodes h lg c HR.
  { left. exists nodes, h, c. rewrite app_nil_r. done. }
  destruct (decide (kmalloc_at h = 0)) as [Hno|Hok].
  { right. exists [], x, int_array, h, c. rewrite app_nil_r. split; [done|]. split; [done|].
    apply bind_Stop. by apply no_object. }
  destruct HR as [HO He]. pose proof (alloc_fresh kmalloc_at h Hok) as Hp.
  assert (add_list_node kmalloc_at x (Kern h lg, c) =
    (Ret tt, (Kern (<[kmalloc_at h := Some x]> h) (lg ++ [line1 "Element inserted : %d " x]),
              list_add (kmalloc_at h) c))) as Hadd.
  { unfold add_list_node. rewrite new_object by done. mstep.
    eapply bind_run; [apply kload_ok; [done|apply lookup_insert_eq]|]. done. }
  destruct (IH ((kmalloc_at h, x) :: nodes) (<[kmalloc_at h := Some x]> h)
              (lg ++ [line1 "Element inserted : %d " x]) (list_add (kmalloc_at h) c))
    as [(nodes' & h' & c' & Hf & HR' & Hv)|(xs1 & y & xs2 & h' & c' & -> & Hno & Hf)].
  { split; [by apply owns_add|]. by rewrite entries_add, He. }
  - left. exists nodes', h', c'. split; [|split; [done|]].
    + rewrite <- app_assoc in Hf. by eapply for_each_run.
    + rewrite Hv. simpl. by rewrite <- app_assoc.
  - right. exists (x :: xs1), y, xs2, h', c'. split; [done|]. split; [done|].
    rewrite <- app_assoc in Hf. by eapply for_each_run.
Qed.

Lemma remove_nodes_ok h0 nodes h lg c :
  list_rep h0 nodes h c →
  ∃ c', for_each (map fst nodes) remove_list_node (Kern h lg, c) = (Ret tt, (Kern h0 lg, c')) ∧
    entries c' = [].
Proof.
  revert h c. induction nodes as [|[p v] nodes IH]; intros h c [HO He].
  { exists c. by rewrite (owns_done _ _ HO). }
  destruct (owns_lookup _ _ _ p v HO) as [Hp Hh]; [by left|].
  destruct (IH (delete p h) (list_del p c)) as (c' & Hf & He').
  { split; [by eapply owns_del|]. rewrite entries_del, He. simpl.
    pose proof (owns_nodup _ _ _ HO) as Hnd. simpl in Hnd.
    by apply (filter_ne_mid [] (map fst nodes) p). }
  exists c'. split; [|done]. eapply for_each_run; [|exact Hf].
  unfold remove_list_node. mstep. by eapply kfree_ok.
Qed.

Definition list_log (xs : list Z) : list (string * list Z) :=
  map (line1 "Element inserted : %d ") xs ++
  ("**** Printing list elements ****", []) :: map (line1 "Value: %d") (rev xs) ++
  [("**** Removing list elements ****", []); ("**** Printing list elements ****", [])].

Lemma run_linked_list_any {C} int_array h lg (c : C) :
  run_linked_list kmalloc_at int_array (Kern h lg, c) =
    (Ret tt, (Kern h (lg ++ list_log int_array), c)) ∨
  ∃ xs1 x xs2 h', int_array = xs1 ++ x :: xs2 ∧ kmalloc_at h' = 0 ∧
    run_linked_list kmalloc_at int_array (Kern h lg, c) =
      (Stop NullDeref, (Kern h' (lg ++ map (line1 "Element inserted : %d ") xs1), c)).
Proof.
  unfold run_linked_list.
  destruct (add_nodes_any h int_array [] h lg LIST_HEAD)
    as [(nodes & h1 & c1 & Hadd & HR & Hv)|(xs1 & x & xs2 & h1 & c1 & Hxs & Hno & Hadd)].
  { split; [apply owns_nil|apply entries_head]. }
  - left. rewrite app_nil_r in Hv.
    destruct (remove_nodes_ok h nodes h1
      ((lg ++ map (line1 "Element inserted : %d ") int_array) ++
        ("**** Printing list elements ****", []) :: map (line1 "Value: %d") (rev int_array) ++
        [("**** Removing list elements ****", [])]) c1 HR) as (c2 & Hrem & He2).
    eapply with_local_run with (c1 := c2).
    mrun Hadd. mrun (print_list_ok _ _ _ (lg ++ map (line1 "Element inserted : %d ") int_array) _ HR).
    prints. mstep. rewrite (proj2 HR), Hv.
    rewrite <- !app_assoc in Hrem. rewrite <- !app_assoc. simpl in Hrem. simpl.
    mrun Hrem.
    rewrite (print_list_ok h [] h) by (split; [apply owns_nil|done]).
    unfold list_log. app_eq.
  - right. exists xs1, x, xs2, h1. split; [done|]. split; [done|].
    eapply with_local_run. by apply bind_Stop.
Qed.
End proofs.

(** C20: [run_linked_list] with any allocator.  It prints the integers in the
    reverse of their order and then an empty list, and frees every node it
    allocates, so that the heap ends as it was; or it stops by writing through
    the [NULL] of the first [kmalloc] that fails, with the integers before
    that one inserted.  Where there is always memory it is the former. *)
Theorem run_linked_list_ok `{LA : ListApi} {C} kmalloc_at `{HA : Allocator Z kmalloc_at}
    int_array h lg (c : C) :
  let r := run_linked_list kmalloc_at int_array (Kern h lg, c) in
  (r = (Ret tt, (Kern h (lg ++ list_log int_array), c)) ∨
   ∃ xs1 x xs2 h', int_array = xs1 ++ x :: xs2 ∧ kmalloc_at h' = 0 ∧
     r = (Stop NullDeref, (Kern h' (lg ++ map (line1 "Element inserted : %d ") xs1), c))) ∧
  ((∀ h, kmalloc_at h ≠ 0) → r = (Ret tt, (Kern h (lg ++ list_log int_array), c))).
Proof.
  intros r. split; [apply run_linked_list_any; done|]. intros enough.
  destruct (run_linked_list_any kmalloc_at int_array h lg c) as [H|(xs1 & x & xs2 & h' & _ & Hno & _)];
    [done|]. by destruct (enough h').
Qed.

(** Two integers, and memory for one node only. *)
Definition one_object (h : kheap Z) : Z := if decide (h = ∅) then 1 else 0.

#[local] Instance one_object_ok : Allocator one_object.
Proof. intros h. unfold one_object. destruct (decide (h = ∅)) as [->|]; [right; done|by left]. Qed.

Lemma run_linked_list_ok_witness :
  run_linked_list top_addr [11; 44] (Kern ∅ [], tt) =
    (Ret tt, (Kern ∅ (list_log [11; 44]), tt)) ∧
  run_linked_list one_object [11; 44] (Kern ∅ [], tt) =
    (Stop NullDeref, (Kern {[1 := Some 11]} [line1 "Element inserted : %d " 11], tt)).
Proof.
  split.
  - apply (run_linked_list_ok top_addr [11; 44] ∅ [] tt). apply top_enough.
  - reflexivity.
Defined.
