(* ===== verification/Hashtable.v ===== *)
(** What [kds.c] and [perftop.c] have in common on hash tables: the loop over
    the bucket of a key, for nodes with fields [V] hashed by [key]. *)
From S2P Require Import Prelude CInt Kernel.
Local Open Scope Z_scope.

Section program.
Context {bits : Z} `{HH : HashApi bits} {V C : Type} (freed : Z → outcome Z).
Context (table : C → hashtable).

Abbreviation st := (kern V * C)%type.

(** [hash_for_each_possible (myhashtable, curr, hash, key) body], where the
    body may end the loop. *)
Definition hash_step (curr : Z) : M st Z :=
  c ← container; read_link freed curr (hash_next (table c) curr).

Definition hash_for_each_possible {R} (key : Z) (body : Z → M st (option R)) : M st (option R) :=
  c ← container;
  let l := chain (table c) (hash_min key) in
  walk (S (length l)) hash_step body (first_of l).
End program.

(** ** The nodes by bucket *)
Section buckets.
Context {A : Type} (f : A → Z).
Implicit Types (l : list A).

Lemma filter_cons_perm b (bs : list Z) l :
  b ∉ bs →
  filter (λ x, f x ∈ b :: bs) l ≡ₚ filter (λ x, f x = b) l ++ filter (λ x, f x ∈ bs) l.
Proof.
  intros Hb. induction l as [|x l IH]; [done|]. rewrite !filter_cons.
  destruct (decide (f x ∈ b :: bs)) as [Hx|Hx], (decide (f x = b)) as [E|E],
    (decide (f x ∈ bs)) as [Hi|Hi]; rewrite ?elem_of_cons in Hx; try tauto; subst; try done.
  - simpl. by rewrite IH.
  - rewrite IH. apply Permutation_middle.
Qed.

(** Going through the buckets goes through everything. *)
Lemma concat_buckets (bs : list Z) l :
  NoDup bs → (∀ x, x ∈ l → f x ∈ bs) →
  concat (map (λ b, filter (λ x, f x = b) l) bs) ≡ₚ l.
Proof.
  intros Hnd Hall.
  transitivity (filter (λ x, f x ∈ bs) l).
  - clear Hall. induction bs as [|b bs IH]; simpl.
    + induction l as [|x l IHl]; [done|]. rewrite filter_cons_False; [done|set_solver].
    + apply NoDup_cons in Hnd as [Hb Hnd]. by rewrite filter_cons_perm, IH.
  - clear Hnd. induction l as [|x l IH]; [done|]. rewrite filter_cons_True by (apply Hall; left).
    rewrite IH; [done|]. intros y Hy. apply Hall. by right.
Qed.

(** What has the value [n] is all in one bucket. *)
Lemma filter_in_bucket (g : A → Z) (h : Z → Z) l n :
  (∀ x, f x = h (g x)) →
  filter (λ v, v = n) (map g (filter (λ x, f x = h n) l)) = filter (λ v, v = n) (map g l).
Proof.
  intros Hf. induction l as [|x l IH]; [done|]. simpl. rewrite filter_cons.
  destruct (decide (f x = h n)) as [E|E]; simpl; rewrite ?filter_cons.
  - destruct (decide (g x = n)); simpl; by rewrite IH.
  - destruct (decide (g x = n)) as [<-|]; [by destruct E|done].
Qed.
End buckets.

Section proofs.
Context {bits : Z} `{HH : HashApi bits} {V C : Type} (freed : Z → outcome Z).
Context (table : C → hashtable) (key : V → Z).
Implicit Types (h : kheap V) (lg : list (string * list Z)) (c : C) (nodes : list (Z * V)).

Definition key_of (pv : Z * V) : Z := hash_min (key pv.2).

(** The nodes in the table, the last one added first: each is in the heap and
    in the chain of its key. *)
Record table_rep h (t : hashtable) nodes : Prop := {
  tr_heap p v : (p, v) ∈ nodes → p ≠ 0 ∧ h !! p = Some (Some v);
  tr_nodup : NoDup (map fst nodes);
  tr_chain b : chain t b = map fst (filter (λ pv, key_of pv = b) nodes);
}.

Lemma table_rep_init h : table_rep h hash_init [].
Proof.
  split; [by intros ? ? ?%elem_of_nil|by apply NoDup_nil|]. intros b. by rewrite chain_init.
Qed.

(** A bucket and what is in it. *)
Definition bucket nodes (b : Z) : list (Z * V) := filter (λ pv, key_of pv = b) nodes.

Lemma elem_of_bucket nodes b pv : pv ∈ bucket nodes b ↔ key_of pv = b ∧ pv ∈ nodes.
Proof. unfold bucket. by rewrite list_elem_of_filter. Qed.

Lemma bucket_mid n1 p v n2 :
  bucket (n1 ++ (p, v) :: n2) (hash_min (key v)) =
    bucket n1 (hash_min (key v)) ++ (p, v) :: bucket n2 (hash_min (key v)).
Proof. unfold bucket. by rewrite filter_app, filter_cons_True. Qed.

Lemma chain_ok h t nodes b : table_rep h t nodes → NoDup (chain t b) ∧ 0 ∉ chain t b.
Proof.
  intros [Hh Hnd Hc]. rewrite Hc. split.
  - eapply sublist_NoDup; [exact Hnd|]. apply (fmap_sublist fst), sublist_filter.
  - intros ([p v] & E & [_ Hp]%list_elem_of_filter)%list_elem_of_fmap.
    destruct (Hh _ _ Hp) as [Hp0 _]. by simpl in E.
Qed.

Lemma hash_step_ok h lg c nodes b l1 p v l2 :
  table_rep h (table c) nodes → bucket nodes b = l1 ++ (p, v) :: l2 →
  hash_step freed table p (Kern h lg, c) = (Ret (first_of (map fst l2)), (Kern h lg, c)).
Proof.
  intros HR Hf. destruct (chain_ok _ _ _ b HR) as [Hnd _]. destruct HR as [Hh Hndn Hc].
  assert ((p, v) ∈ bucket nodes b) as Hpb by (rewrite Hf; apply elem_of_mid).
  apply elem_of_bucket in Hpb as [Hb Hin]. destruct (Hh _ _ Hin) as [Hp0 Hp].
  unfold hash_step. mstep. rewrite (read_link_live _ _ _ (Some v)) by done.
  fold (bucket nodes b) in Hc.
  assert (chain (table c) b = map fst l1 ++ p :: map fst l2) as Hcb.
  { rewrite Hc. fold (bucket nodes b). by rewrite Hf, map_app. }
  rewrite (hash_next_in (table c) b).
  - rewrite Hcb, succ_in_app; [done|]. by rewrite <- Hcb.
  - rewrite Hcb. apply elem_of_mid.
  - done.
  - intros b'. rewrite Hc.
    intros ([q w] & -> & [Hb' Hq]%list_elem_of_filter)%list_elem_of_fmap. simpl in *.
    destruct (Hh _ _ Hq) as [_ Hq']. simpl in Hq'. congruence.
Qed.

(** Going along a bucket while the body only logs. *)
Lemma hash_scan {R} (body : Z → M (kern V * C) (option R)) (L : list (Z * V) → list (string * list Z))
    h c nodes b l1 l2 fuel :
  table_rep h (table c) nodes → bucket nodes b = l1 ++ l2 →
  (∀ n1 p v n2, l1 = n1 ++ (p, v) :: n2 →
     body p (Kern h (L n1), c) = (Ret None, (Kern h (L (n1 ++ [(p, v)])), c))) →
  walk (length l1 + fuel) (hash_step freed table) body (first_of (map fst (l1 ++ l2)))
    (Kern h (L []), c) =
  walk fuel (hash_step freed table) body (first_of (map fst l2)) (Kern h (L l1), c).
Proof.
  intros HR Hf Hbody. rewrite map_app, <- (length_map fst l1).
  destruct (walk_prefix (hash_step freed table) body
    (λ pre s, ∃ n1 n2, l1 = n1 ++ n2 ∧ pre = map fst n1 ∧ s = (Kern h (L n1), c))
    (map fst l1) (map fst l2) fuel (Kern h (L []), c)) as (s' & Hw & n1 & n2 & Hn & Hd & ->).
  - destruct (chain_ok _ _ _ b HR) as [_ H0]. rewrite (tr_chain _ _ _ HR) in H0.
    fold (bucket nodes b) in H0. rewrite Hf, map_app, elem_of_app in H0. tauto.
  - exists [], l1. done.
  - intros la p lb s0 Hl (n1 & n2 & -> & -> & ->). rewrite map_app in Hl.
    apply app_inv_head in Hl. destruct n2 as [|[q v] n2]; [done|]. injection Hl as <- <-.
    eexists _, _. split; [by eapply Hbody|]. split.
    + rewrite <- app_assoc in Hf. simpl in Hf. rewrite <- map_app.
      by eapply hash_step_ok.
    + exists (n1 ++ [(q, v)]), n2. by rewrite map_app, <- app_assoc.
  - rewrite Hw. rewrite Hn, map_app in Hd.
    destruct n2; [by rewrite app_nil_r in Hn; subst|].
    apply (f_equal length) in Hd. rewrite length_app in Hd. simpl in Hd. lia.
Qed.

Lemma hash_for_each_ok {R} (body : Z → M (kern V * C) (option R))
    (L : list (Z * V) → list (string * list Z)) h c nodes k :
  table_rep h (table c) nodes →
  (∀ n1 p v n2, bucket nodes (hash_min k) = n1 ++ (p, v) :: n2 →
     body p (Kern h (L n1), c) = (Ret None, (Kern h (L (n1 ++ [(p, v)])), c))) →
  hash_for_each_possible freed table k body (Kern h (L []), c) =
    (Ret None, (Kern h (L (bucket nodes (hash_min k))), c)).
Proof.
  intros HR Hbody. unfold hash_for_each_possible. mstep.
  rewrite (tr_chain _ _ _ HR). fold (bucket nodes (hash_min k)).
  set (l := bucket nodes (hash_min k)) in *. rewrite length_map.
  rewrite <- (app_nil_r l) at 2. replace (S (length l)) with (length l + 1)%nat by lia.
  rewrite (hash_scan body L h c nodes (hash_min k) l [] 1); [done|done| |done].
  by rewrite app_nil_r.
Qed.

(** A loop that comes to the node [p] without a result before it. *)
Lemma hash_for_each_to {R} (body : Z → M (kern V * C) (option R)) h lg c n1 p v n2 :
  table_rep h (table c) (n1 ++ (p, v) :: n2) →
  (∀ q w, (q, w) ∈ n1 → body q (Kern h lg, c) = (Ret None, (Kern h lg, c))) →
  ∃ fuel, hash_for_each_possible freed table (key v) body (Kern h lg, c) =
    walk (S (S fuel)) (hash_step freed table) body p (Kern h lg, c).
Proof.
  intros HR Hbody. unfold hash_for_each_possible.
  set (k := hash_min (key v)). exists (length (bucket n2 k)). mstep.
  rewrite (tr_chain _ _ _ HR). fold (bucket (n1 ++ (p, v) :: n2) k).
  unfold k at 1 2. rewrite bucket_mid. fold k.
  rewrite length_map, length_app, <- Nat.add_succ_r. cbn [length].
  rewrite (hash_scan body (λ _, lg) h c (n1 ++ (p, v) :: n2) k); [done|done|apply bucket_mid|].
  intros la q w lb Hl. apply (Hbody q w). apply (elem_of_bucket n1 k). rewrite Hl. apply elem_of_mid.
Qed.

(** A new node, and one that leaves. *)
Lemma table_rep_add h t nodes p v :
  table_rep h t nodes → p ≠ 0 → h !! p = None →
  table_rep (<[p := Some v]> h) (hash_add p (key v) t) ((p, v) :: nodes).
Proof.
  intros [Hh Hnd Hc] Hp0 Hp.
  assert (∀ w, (p, w) ∉ nodes) as Hnew.
  { intros w Hw. destruct (Hh _ _ Hw). congruence. }
  split.
  - intros q w [[= -> ->]|Hq]%elem_of_cons; [by rewrite lookup_insert_eq|].
    rewrite lookup_insert_ne; [by apply Hh|]. intros ->. by apply (Hnew w).
  - simpl. apply NoDup_cons. split; [|done].
    intros ([q w] & -> & Hq)%list_elem_of_fmap. by apply (Hnew w).
  - intros b. rewrite chain_add, Hc, filter_cons. unfold key_of at 2. simpl.
    destruct (Z.eqb_spec b (hash_min (key v))) as [->|Hb].
    + by rewrite decide_True.
    + by rewrite decide_False by (unfold key_of; simpl; congruence).
Qed.

Lemma table_rep_del h t n1 p v n2 :
  table_rep h t (n1 ++ (p, v) :: n2) →
  table_rep (delete p h) (hash_del p t) (n1 ++ n2).
Proof.
  clear freed. intros [Hh Hnd Hc].
  assert (NoDup (p :: map fst n1 ++ map fst n2)) as Hnd'.
  { rewrite map_app in Hnd. simpl in Hnd. by rewrite Permutation_middle. }
  apply NoDup_cons in Hnd' as [Hp Hnd']. rewrite not_elem_of_app in Hp. destruct Hp as [Hp1 Hp2].
  split.
  - intros q w Hq.
    assert (q ≠ p) as Hne.
    { intros ->. apply elem_of_app in Hq as [Hq|Hq]; [apply Hp1|apply Hp2];
        apply list_elem_of_fmap; by exists (p, w). }
    rewrite lookup_delete_ne by done. apply Hh. rewrite elem_of_app in Hq.
    rewrite elem_of_app, elem_of_cons. tauto.
  - by rewrite map_app.
  - intros b. rewrite chain_del, Hc, !filter_app, filter_cons, !map_app.
    assert (∀ l, p ∉ map fst l → p ∉ map fst (filter (λ pv, key_of pv = b) l)) as Hsub.
    { intros l Hl ([q w] & -> & [_ Hq]%list_elem_of_filter)%list_elem_of_fmap.
      apply Hl, list_elem_of_fmap. eauto. }
    rewrite filter_app, filter_ne_notin by auto. f_equal.
    destruct (decide _); simpl; rewrite ?filter_cons_False by auto; by apply filter_ne_notin, Hsub.
Qed.

(** The heap may grow and shrink elsewhere. *)
Lemma table_rep_heap h h' t nodes :
  table_rep h t nodes → (∀ p v, (p, v) ∈ nodes → h' !! p = h !! p) → table_rep h' t nodes.
Proof.
  intros [Hh Hnd Hc] Heq. split; [|done..]. intros p v Hp. rewrite (Heq p v Hp). by apply Hh.
Qed.

(** The link of a node just deleted and freed. *)
Lemma hash_step_freed h lg c p t :
  table c = hash_del p t →
  hash_step freed table p (Kern (delete p h) lg, c) = (freed 0, (Kern (delete p h) lg, c)).
Proof.
  intros Ht. unfold hash_step. mstep. rewrite read_link_freed by apply lookup_delete_eq.
  rewrite Ht, hash_next_del; [done|]. intros b. rewrite chain_del.
  by intros [? _]%list_elem_of_filter.
Qed.
End proofs.
