(* ===== verification/KdsHash.v ===== *)
(** The hash table of [kds.c]: [run_hash_table] adds the integers, prints the
    table, looks every integer up, removes every integer and prints the table
    again.

    [remove_hash_table] deletes from the chain it walks along: the link it
    follows next is in the object it has just freed.  The theorems come in
    two parts: with a read of freed memory as the error it is, and with freed
    memory that keeps its contents until it is used again. *)
From S2P Require Import Prelude CInt Kernel KernelModel Hashtable.
Local Open Scope Z_scope.

Definition HASH_BITS : Z := 14.

Section program.
Context `{HH : HashApi HASH_BITS} (kmalloc_at : kheap Z → Z) (freed : Z → outcome Z).

Abbreviation st := (kern Z * hashtable)%type.

Definition print_hash_table : M st unit :=
  printk "*** Iterating and Printing Hash Table *** " [];;
  for_each (seqZ 0 (2 ^ HASH_BITS)) (λ bkt,
    (t ← container;
     for_each (chain t bkt) (λ curr, (value ← load curr; printk "Value : %d " [value])))).

Definition lookup_hash_table (number : Z) : M st unit :=
  let key := number in
  hash_for_each_possible freed id key (λ curr,
    (value ← load curr;
     (if value =? number then printk "Value looked up: %d " [value] else mret tt);;
     mret (None : option unit)));;
  mret tt.

Definition remove_hash_table (number : Z) : M st unit :=
  let key := number in
  hash_for_each_possible freed id key (λ curr,
    (value ← load curr;
     (if value =? number then
        printk "Deleting : %d " [value];; on_container (hash_del curr);; kfree curr
      else mret tt);;
     mret (None : option unit)));;
  mret tt.

Definition insert_hash_node (x : Z) : M st unit :=
  mynode ← kmalloc kmalloc_at;
  assign mynode x;;
  key ← load mynode;
  on_container (hash_add mynode key);;
  value ← load mynode;
  printk "Inserted : %d " [value].

Definition run_hash_table (int_array : list Z) : M st unit :=
  on_container (λ _, hash_init);;
  for_each int_array insert_hash_node;;
  print_hash_table;;
  for_each int_array lookup_hash_table;;
  for_each int_array remove_hash_table;;
  print_hash_table.
End program.

(** ** Lemmas *)
Section proofs.
Context `{HH : HashApi HASH_BITS} (kmalloc_at : kheap Z → Z) {HA : Allocator kmalloc_at}.
Context (freed : Z → outcome Z) (enough : ∀ h, kmalloc_at h ≠ 0).
Implicit Types (h : kheap Z) (lg : list (string * list Z)) (t : hashtable).

(** The nodes in the table are what is allocated. *)
Definition hash_rep h0 (nodes : list (Z * Z)) h t : Prop :=
  owns h0 h nodes ∧ table_rep id h t nodes.

Lemma insert_hash_ok h0 nodes h t lg x :
  hash_rep h0 nodes h t →
  ∃ p h' t', insert_hash_node kmalloc_at x (Kern h lg, t) =
      (Ret tt, (Kern h' (lg ++ [line1 "Inserted : %d " x]), t')) ∧
    hash_rep h0 ((p, x) :: nodes) h' t'.
Proof.
  intros [HO Ht]. pose proof (alloc_fresh kmalloc_at h (enough h)) as Hp.
  exists (kmalloc_at h), (<[kmalloc_at h := Some x]> h), (hash_add (kmalloc_at h) x t).
  split; [|split; [by apply owns_add|by apply (table_rep_add id)]].
  unfold insert_hash_node. rewrite new_object by done.
  do 2 (eapply bind_run; [by apply kload_ok, lookup_insert_eq|]; cbv beta; try mstep).
  done.
Qed.

Lemma insert_all_ok h0 int_array nodes h t lg :
  hash_rep h0 nodes h t →
  ∃ nodes' h' t', for_each int_array (insert_hash_node kmalloc_at) (Kern h lg, t) =
      (Ret tt, (Kern h' (lg ++ map (line1 "Inserted : %d ") int_array), t')) ∧
    hash_rep h0 nodes' h' t' ∧ map snd nodes' = rev int_array ++ map snd nodes.
Proof.
  revert nodes h t lg. induction int_array as [|x xs IH]; intros nodes h t lg HR.
  { exists nodes, h, t. by rewrite app_nil_r. }
  destruct (insert_hash_ok h0 nodes h t lg x HR) as (p & h1 & t1 & Hi & HR1).
  destruct (IH _ _ _ (lg ++ [line1 "Inserted : %d " x]) HR1) as (nodes' & h' & t' & Hf & HR' & Hv).
  exists nodes', h', t'. split; [|split; [done|]].
  - rewrite <- app_assoc in Hf. by eapply for_each_run.
  - rewrite Hv. simpl. by rewrite <- app_assoc.
Qed.

Lemma print_buckets_ok h0 nodes h t bs lg :
  hash_rep h0 nodes h t →
  for_each bs (λ bkt,
    (t ← container;
     for_each (chain t bkt) (λ curr, (value ← load curr; printk "Value : %d " [value]))))
    (Kern h lg, t) =
  (Ret tt, (Kern h (lg ++ map (line1 "Value : %d ")
     (map snd (concat (map (bucket id nodes) bs)))), t)).
Proof.
  intros [HO Ht]. revert lg. induction bs as [|b bs IH]; intros lg; [by rewrite app_nil_r|].
  eapply for_each_run.
  - mstep. rewrite (tr_chain _ _ _ _ Ht). eapply (print_objects _ h0 h nodes); [done|].
    intros pv [_ ?]%list_elem_of_filter. done.
  - rewrite IH. simpl. rewrite !map_app. by rewrite <- app_assoc.
Qed.

Lemma print_hash_ok h0 nodes h t lg :
  hash_rep h0 nodes h t →
  ∃ values, values ≡ₚ map snd nodes ∧
    print_hash_table (Kern h lg, t) =
      (Ret tt, (Kern h (lg ++ ("*** Iterating and Printing Hash Table *** ", []) ::
                        map (line1 "Value : %d ") values), t)).
Proof.
  intros HR. unfold print_hash_table.
  assert (NoDup (seqZ 0 (2 ^ HASH_BITS)) ∧
          ∀ b, 0 ≤ b < 2 ^ HASH_BITS → b ∈ seqZ 0 (2 ^ HASH_BITS)) as [Hnd Hin].
  { split; [apply NoDup_seqZ|]. intros b Hb. apply elem_of_seqZ. lia. }
  revert Hnd Hin. generalize (seqZ 0 (2 ^ HASH_BITS)) as bs. intros bs Hnd Hin.
  exists (map snd (concat (map (bucket id nodes) bs))).
  split.
  - unfold bucket. rewrite concat_buckets; [done|done|]. intros pv _.
    apply Hin. pose proof (hash_min_range pv.2). unfold key_of, HASH_BITS, id in *. lia.
  - prints. rewrite (print_buckets_ok h0 nodes) by done. by rewrite <- app_assoc.
Qed.

(** Looking a number up logs it as often as it is in the table. *)
Lemma lookup_hash_ok h0 nodes h t lg n :
  hash_rep h0 nodes h t →
  lookup_hash_table freed n (Kern h lg, t) =
    (Ret tt, (Kern h (lg ++ map (line1 "Value looked up: %d ")
                              (filter (λ v, v = n) (map snd nodes))), t)).
Proof.
  intros [HO Ht]. unfold lookup_hash_table.
  pose (L := λ n1 : list (Z * Z), lg ++ map (line1 "Value looked up: %d ") (filter (λ v, v = n) (map snd n1))).
  replace lg with (L []) at 1 by (unfold L; by rewrite app_nil_r).
  rewrite <- (filter_in_bucket (key_of id) snd hash_min) by done.
  eapply bind_run; [|done].
  apply (hash_for_each_ok freed id id _ L h t nodes n Ht). intros n1 p v n2 Hl.
  destruct (tr_heap _ _ _ _ Ht p v) as [Hp0 Hp].
  { apply (elem_of_bucket id nodes (hash_min n)). rewrite Hl. apply elem_of_mid. }
  eapply bind_run; [by apply kload_ok|]. cbv beta. unfold L.
  rewrite map_app, filter_app, map_app. simpl map. rewrite filter_cons.
  destruct (Z.eqb_spec v n); [rewrite decide_True by done|rewrite decide_False by done].
  - prints. by rewrite <- app_assoc.
  - simpl. by rewrite app_nil_r.
Qed.

Lemma lookup_all_ok h0 nodes h t lg int_array :
  hash_rep h0 nodes h t →
  for_each int_array (lookup_hash_table freed) (Kern h lg, t) =
    (Ret tt, (Kern h (lg ++ map (line1 "Value looked up: %d ")
       (concat (map (λ n, filter (λ v, v = n) (map snd nodes)) int_array))), t)).
Proof.
  intros HR. revert lg. induction int_array as [|n xs IH]; intros lg; [by rewrite app_nil_r|].
  eapply for_each_run; [by eapply lookup_hash_ok|]. rewrite IH. simpl.
  by rewrite map_app, app_assoc.
Qed.

(** The body of [remove_hash_table] and the link that follows it. *)
#[local] Abbreviation rm_body n := (λ curr : Z,
  (value ← load curr;
   (if value =? n then
      printk "Deleting : %d " [value];; on_container (hash_del curr);; kfree curr
    else mret tt);;
   mret (None : option unit))).

(** Nodes with other values are passed over. *)
Lemma remove_other nodes h t lg n p v :
  table_rep id h t nodes → (p, v) ∈ nodes → v ≠ n →
  rm_body n p (Kern h lg, t) = (Ret None, (Kern h lg, t)).
Proof.
  intros Ht Hin Hv. destruct (tr_heap _ _ _ _ Ht p v Hin) as [Hp0 Hp].
  eapply bind_run; [by apply kload_ok|]. cbv beta. by destruct (Z.eqb_spec v n).
Qed.

(** The first node with the number is deleted and freed, and then its link is
    read. *)
Lemma remove_present n1 p n n2 h t lg :
  table_rep id h t (n1 ++ (p, n) :: n2) → n ∉ map snd n1 →
  let s' := (Kern (delete p h) (lg ++ [line1 "Deleting : %d " n]), hash_del p t) in
  (∀ e, freed 0 = Stop e → remove_hash_table freed n (Kern h lg, t) = (Stop e, s')) ∧
  (freed 0 = Ret 0 → remove_hash_table freed n (Kern h lg, t) = (Ret tt, s')).
Proof.
  intros Ht Hn s'. destruct (tr_heap _ _ _ _ Ht p n) as [Hp0 Hp]; [apply elem_of_mid|].
  assert (rm_body n p (Kern h lg, t) = (Ret None, s')) as Hbody.
  { eapply bind_run; [by apply kload_ok|]. cbv beta. rewrite Z.eqb_refl.
    eapply bind_run; [|reflexivity]. prints. mstep. by eapply kfree_ok. }
  destruct (hash_for_each_to freed id id (rm_body n) h lg t n1 p n n2 Ht) as [fuel Hloop].
  { intros q w Hq. apply (remove_other (n1 ++ (p, n) :: n2) _ _ _ _ _ w); [done|apply elem_of_app; by left|].
    intros ->. apply Hn, list_elem_of_fmap. by exists (q, n). }
  unfold remove_hash_table. change (id n) with n in Hloop.
  assert (∀ A (f : option unit → M (kern Z * hashtable) A),
    (hash_for_each_possible freed id n (rm_body n) ≫= f) (Kern h lg, t) =
    (((λ s, (freed 0, s)) : M (kern Z * hashtable) Z) ≫= (λ q,
       walk (S fuel) (hash_step freed id) (rm_body n) q ≫= f)) s') as Heq.
  { intros A f. unfold mbind at 1, m_bind at 1. rewrite Hloop. cbn [walk].
    destruct (Z.eqb_spec p 0); [done|]. unfold mbind at 1, m_bind at 1. rewrite Hbody.
    unfold mbind, m_bind. unfold s'. rewrite (hash_step_freed freed id _ _ _ p t) by done. by destruct (freed 0). }
  rewrite Heq. unfold mbind, m_bind. split; [intros e ->; done|intros ->; done].
Qed.

Lemma first_with n (nodes : list (Z * Z)) :
  n ∈ map snd nodes → ∃ n1 p n2, nodes = n1 ++ (p, n) :: n2 ∧ n ∉ map snd n1.
Proof.
  intros Hin. induction nodes as [|[q v] nodes IH]; [by apply elem_of_nil in Hin|].
  destruct (decide (v = n)) as [->|Hne].
  - exists [], q, nodes. split; [done|]. by intros ?%elem_of_nil.
  - apply elem_of_cons in Hin as [->|Hin]; [done|].
    destruct (IH Hin) as (n1 & p & n2 & -> & Hn). exists ((q, v) :: n1), p, n2. split; [done|].
    simpl. rewrite elem_of_cons. intros [->|]; done.
Qed.

(** With freed memory intact: removing the integers the table holds empties
    it and gives every node back. *)
Lemma remove_all_ok h0 int_array nodes h t lg :
  freed 0 = Ret 0 → hash_rep h0 nodes h t → map snd nodes ≡ₚ int_array →
  ∃ t', for_each int_array (remove_hash_table freed) (Kern h lg, t) =
      (Ret tt, (Kern h0 (lg ++ map (line1 "Deleting : %d ") int_array), t')) ∧
    hash_rep h0 [] h0 t'.
Proof.
  intros Hfr. revert nodes h t lg. induction int_array as [|n xs IH]; intros nodes h t lg HR HP.
  { apply Permutation_nil_r, map_eq_nil in HP. subst nodes.
    pose proof (owns_done _ _ (proj1 HR)) as ->. exists t. by rewrite app_nil_r. }
  destruct (first_with n nodes) as (n1 & p & n2 & -> & Hn); [rewrite HP; by left|].
  destruct (remove_present n1 p n n2 h t lg (proj2 HR) Hn) as [_ Hrm].
  destruct (IH (n1 ++ n2) (delete p h) (hash_del p t) (lg ++ [line1 "Deleting : %d " n]))
    as (t' & Hf & HR').
  { destruct HR as [HO Ht]. split; [|by eapply (table_rep_del id)].
    eapply owns_del, owns_perm; [|exact HO]. symmetry. apply Permutation_middle. }
  { rewrite map_app in HP |- *. simpl in HP. rewrite <- Permutation_middle in HP.
    by apply Permutation_cons_inv in HP. }
  exists t'. split; [|done]. rewrite <- app_assoc in Hf.
  eapply for_each_run; [by apply Hrm|exact Hf].
Qed.

(** What the phases before the removal log. *)
Definition table_log (int_array values : list Z) : list (string * list Z) :=
  map (line1 "Inserted : %d ") int_array ++
  ("*** Iterating and Printing Hash Table *** ", []) :: map (line1 "Value : %d ") values ++
  map (line1 "Value looked up: %d ")
    (concat (map (λ n, filter (λ v, v = n) (rev int_array)) int_array)).

Lemma fill_table_ok {B} int_array h lg t (f : unit → M (kern Z * hashtable) B) :
  ∃ values nodes h1 t1, values ≡ₚ int_array ∧ map snd nodes = rev int_array ∧
    hash_rep h nodes h1 t1 ∧
    (on_container (λ _, hash_init);;
     for_each int_array (insert_hash_node kmalloc_at);;
     print_hash_table;;
     for_each int_array (lookup_hash_table freed) ≫= f) (Kern h lg, t) =
    f tt (Kern h1 (lg ++ table_log int_array values), t1).
Proof.
  destruct (insert_all_ok h int_array [] h hash_init lg) as (nodes & h1 & t1 & Hi & HR & Hv).
  { split; [apply owns_nil|apply table_rep_init]. }
  rewrite app_nil_r in Hv.
  destruct (print_hash_ok h nodes h1 t1 (lg ++ map (line1 "Inserted : %d ") int_array) HR)
    as (values & Hvals & Hprint).
  exists values, nodes, h1, t1. split; [rewrite Hvals, Hv; symmetry; apply Permutation_rev|]. split; [done|]. split; [done|].
  mstep. mrun Hi. mrun Hprint.
  eapply bind_run; [by eapply lookup_all_ok|]. rewrite Hv. do 3 f_equal. unfold table_log.
  by app_eq.
Qed.

(** The exercise, for its caller as well. *)
Lemma hash_table_runs int_array h lg t :
  freed 0 = Ret 0 →
  ∃ values t', values ≡ₚ int_array ∧
    run_hash_table kmalloc_at freed int_array (Kern h lg, t) =
      (Ret tt, (Kern h (lg ++ table_log int_array values ++
                        map (line1 "Deleting : %d ") int_array ++
                        [("*** Iterating and Printing Hash Table *** ", [])]), t')).
Proof.
  intros Hfr.
  destruct (fill_table_ok int_array h lg t (λ _,
    for_each int_array (remove_hash_table freed);; print_hash_table))
    as (values & nodes & h1 & t1 & Hvals & Hv & HR & Hrun).
  destruct (remove_all_ok h int_array nodes h1 t1 (lg ++ table_log int_array values) Hfr HR)
    as (t2 & Hrm & HR2).
  { rewrite Hv. symmetry. apply Permutation_rev. }
  destruct (print_hash_ok h [] h t2
    ((lg ++ table_log int_array values) ++ map (line1 "Deleting : %d ") int_array) HR2)
    as (none & Hnone & Hprint).
  apply Permutation_nil_r in Hnone. subst none.
  exists values, t2. split; [done|]. unfold run_hash_table. rewrite Hrun. mrun Hrm.
  rewrite Hprint. do 3 f_equal. app_eq.
Qed.

(** C16: [run_hash_table], when freed memory keeps its contents: the table is
    printed with exactly the integers, every integer is found, each is deleted
    once for every time it occurs, the second print shows nothing, and every
    node is given back. *)
Theorem run_hash_table_ok int_array h lg t :
  freed 0 = Ret 0 →
  ∃ values t', values ≡ₚ int_array ∧
    run_hash_table kmalloc_at freed int_array (Kern h lg, t) =
      (Ret tt, (Kern h (lg ++ table_log int_array values ++
                        map (line1 "Deleting : %d ") int_array ++
                        [("*** Iterating and Printing Hash Table *** ", [])]), t')).
Proof. intros Hfr. by apply hash_table_runs. Qed.

(** The same with a read of freed memory as an error: for any integers the
    first deletion ends in that error, because the loop goes on from the node
    it has freed. *)
Lemma run_hash_table_use_after_free n int_array h lg t :
  freed 0 = Stop UseAfterFree →
  ∃ values h' t', values ≡ₚ n :: int_array ∧
    run_hash_table kmalloc_at freed (n :: int_array) (Kern h lg, t) =
      (Stop UseAfterFree,
       (Kern h' (lg ++ table_log (n :: int_array) values ++ [line1 "Deleting : %d " n]), t')).
Proof.
  intros Hfr.
  destruct (fill_table_ok (n :: int_array) h lg t (λ _,
    for_each (n :: int_array) (remove_hash_table freed);; print_hash_table))
    as (values & nodes & h1 & t1 & Hvals & Hv & HR & Hrun).
  destruct (first_with n nodes) as (n1 & p & n2 & -> & Hn).
  { rewrite Hv, <- Permutation_rev. by left. }
  destruct (remove_present n1 p n n2 h1 t1 (lg ++ table_log (n :: int_array) values) (proj2 HR) Hn)
    as [Hrm _].
  eexists values, _, _. split; [done|]. unfold run_hash_table. rewrite Hrun.
  apply bind_Stop. simpl for_each. rewrite app_assoc. apply bind_Stop. by apply Hrm.
Qed.
End proofs.

Definition demo_table : HashApi HASH_BITS := model_hash HASH_BITS ltac:(done).

Lemma run_hash_table_ok_witness :
  ∃ values t', values ≡ₚ [5; 7; 5] ∧
    run_hash_table (HH := demo_table) top_addr Ret [5; 7; 5] (Kern ∅ [], []) =
      (Ret tt, (Kern ∅ (table_log [5; 7; 5] values ++
                        map (line1 "Deleting : %d ") [5; 7; 5] ++
                        [("*** Iterating and Printing Hash Table *** ", [])]), t')).
Proof.
  apply (run_hash_table_ok (HH := demo_table) top_addr Ret top_enough [5; 7; 5] ∅ [] []).
  reflexivity.
Defined.
