(* ===== verification/Rbtree.v ===== *)
(** What [kds.c] and [perftop.c] have in common on red-black trees: the
    descent to the place of a new node and the loops along [rb_next], for
    nodes with fields [V] compared by [key]. *)
From S2P Require Import Prelude CInt Kernel.
Local Open Scope Z_scope.

Section program.
Context `{RA : RbApi} {V C : Type} (freed : Z → outcome Z).
Context (root : C → rbtree) (key : V → Z).

Abbreviation st := (kern V * C)%type.

(** The loop of [insert_rb_tree] with [rb_link_node]: the tree with [new_node]
    linked in, or [None] where the code returns 0. *)
Fixpoint rb_link (x new_node : Z) (t : rbtree) : M st (option rbtree) :=
  match t with
  | RbNull => mret (Some (RbNode RbNull new_node RbNull))
  | RbNode l q r =>
      this ← load q;
      if x <? key this then
        o ← rb_link x new_node l; mret ((λ l', RbNode l' q r) <$> o)
      else if x >? key this then
        o ← rb_link x new_node r; mret ((λ r', RbNode l q r') <$> o)
      else mret None
  end.

(** [for (node = rb_first (root); node; node = rb_next (node)) body], where
    the body may end the loop.  The fuel allows for erasures in the body. *)
Definition rb_step (node : Z) : M st Z :=
  c ← container; read_link freed node (rb_next (root c) node).

Definition rb_for_each {R} (body : Z → M st (option R)) : M st (option R) :=
  c ← container;
  let n := length (inorder (root c)) in
  walk (S n * S (S n)) rb_step body (rb_first (root c)).
End program.

(** ** Lemmas *)

Section proofs.
Context `{RA : RbApi} {V C : Type} (freed : Z → outcome Z).
Context (root : C → rbtree) (key : V → Z).
Implicit Types (h : kheap V) (lg : list (string * list Z)) (c : C) (nodes : list (Z * V)).

Definition keys (nodes : list (Z * V)) : list Z := map (λ pv, key pv.2) nodes.

(** The tree has the nodes in order, and they are in the heap. *)
Definition tree_rep h (t : rbtree) nodes : Prop :=
  inorder t = map fst nodes ∧ NoDup (map fst nodes) ∧
  ∀ p v, (p, v) ∈ nodes → p ≠ 0 ∧ h !! p = Some (Some v).

Lemma tree_rep_first h t nodes :
  tree_rep h t nodes → NoDup (inorder t) ∧ 0 ∉ inorder t.
Proof.
  intros (Ht & Hnd & Hh). rewrite Ht. split; [done|].
  intros ([p v] & E & Hp)%list_elem_of_fmap. destruct (Hh _ _ Hp). by simpl in E.
Qed.

(** The descent finds the place in the order of the keys. *)
Lemma rb_link_ok h lg c t nodes x p :
  inorder t = map fst nodes → (∀ q v, (q, v) ∈ nodes → q ≠ 0 ∧ h !! q = Some (Some v)) →
  StronglySorted Z.lt (keys nodes) →
  ∃ o, rb_link key x p t (Kern h lg, c) = (Ret o, (Kern h lg, c)) ∧
    match o with
    | None => x ∈ keys nodes
    | Some t' => ∃ n1 n2, nodes = n1 ++ n2 ∧ inorder t' = map fst n1 ++ p :: map fst n2 ∧
        Forall (λ k, k < x) (keys n1) ∧ Forall (λ k, x < k) (keys n2)
    end.
Proof.
  revert nodes. induction t as [|l IHl q r IHr]; intros nodes Ht Hh Hs; simpl in Ht.
  { symmetry in Ht. apply map_eq_nil in Ht as ->. exists (Some (RbNode RbNull p RbNull)).
    split; [done|]. exists [], []. done. }
  symmetry in Ht. apply map_eq_app in Ht as (nl & nr' & -> & Hl & Hr').
  destruct nr' as [|[q' v] nr]; [done|]. injection Hr' as -> Hr.
  destruct (Hh q v) as [Hq0 Hq]; [apply elem_of_mid|].
  unfold keys in Hs. rewrite map_app in Hs. simpl in Hs.
  apply sorted_mid in Hs as (Hsl & Hsr & Hltl & Hltr).
  simpl rb_link. unfold mbind at 1, m_bind at 1. rewrite (kload_ok q v) by done.
  destruct (Z.ltb_spec x (key v)) as [Hlt|Hge].
  - destruct (IHl nl) as (o & Hrun & Ho); [done| |done|].
    { intros ? ? Hin. apply Hh, elem_of_app. by left. }
    eexists. split; [mrun Hrun; done|]. destruct o as [t'|]; simpl.
    + destruct Ho as (n1 & n2 & -> & Hin & H1 & H2). exists n1, (n2 ++ (q, v) :: nr).
      split; [by rewrite app_assoc|]. rewrite Hin, map_app. simpl. rewrite Hr, <- app_assoc.
      split; [done|]. split; [done|]. unfold keys. rewrite map_app. apply Forall_app.
      split; [done|]. simpl. constructor; [done|]. eapply Forall_impl; [exact Hltr|]. simpl. lia.
    + unfold keys. rewrite map_app. apply elem_of_app. by left.
  - destruct (Z.gtb_spec x (key v)) as [Hgt|Hle].
    + destruct (IHr nr) as (o & Hrun & Ho); [done| |done|].
      { intros ? ? Hin. apply Hh, elem_of_app. right. by right. }
      eexists. split; [mrun Hrun; done|]. destruct o as [t'|]; simpl.
      * destruct Ho as (n1 & n2 & -> & Hin & H1 & H2). exists (nl ++ (q, v) :: n1), n2.
        split; [by rewrite <- app_assoc|]. rewrite Hin, map_app. simpl. rewrite Hl, <- app_assoc.
        split; [done|]. split; [|done]. unfold keys. rewrite map_app. apply Forall_app.
        split; [eapply Forall_impl; [exact Hltl|]; simpl; lia|].
        simpl. by constructor.
      * unfold keys. rewrite map_app. apply elem_of_app. right. by right.
    + exists None. split; [done|]. unfold keys. rewrite map_app. apply elem_of_app. right.
      assert (x = key v) as -> by lia. left.
Qed.

(** The link of a node in the tree. *)
Lemma rb_step_ok h lg c n1 p v n2 :
  tree_rep h (root c) (n1 ++ (p, v) :: n2) →
  rb_step freed root p (Kern h lg, c) = (Ret (first_of (map fst n2)), (Kern h lg, c)).
Proof.
  intros (Ht & Hnd & Hh). destruct (Hh p v) as [Hp0 Hp]; [apply elem_of_mid|].
  unfold rb_step. mstep. rewrite (read_link_live _ _ _ (Some v)) by done.
  rewrite map_app in Ht, Hnd. simpl in Ht, Hnd. rewrite rb_next_in, Ht.
  - by rewrite succ_in_app.
  - by rewrite Ht.
  - rewrite Ht. apply elem_of_mid.
Qed.

(** A loop that does not change the tree. *)
Lemma rb_for_each_ok {R} (body : Z → M (kern V * C) (option R)) (L : list (Z * V) → list (string * list Z))
    h c nodes :
  tree_rep h (root c) nodes →
  (∀ n1 p v n2, nodes = n1 ++ (p, v) :: n2 →
     body p (Kern h (L n1), c) = (Ret None, (Kern h (L (n1 ++ [(p, v)])), c))) →
  rb_for_each freed root body (Kern h (L []), c) = (Ret None, (Kern h (L nodes), c)).
Proof.
  intros HR Hbody. destruct (tree_rep_first _ _ _ HR) as [_ H0]. pose proof HR as (Ht & _ & _).
  unfold rb_for_each. mstep. rewrite rb_first_spec.
  destruct (walk_chain (rb_step freed root) body
    (λ done s, ∃ n1 n2, nodes = n1 ++ n2 ∧ done = map fst n1 ∧ s = (Kern h (L n1), c))
    (inorder (root c)) (S (length (inorder (root c))) * S (S (length (inorder (root c)))))
    (Kern h (L []), c)) as (s' & Hw & n1 & n2 & Hn & Hd & ->).
  - done.
  - lia.
  - exists [], nodes. done.
  - intros la p lb s0 Hl (n1 & n2 & Hn & -> & ->). rewrite Ht, Hn, map_app in Hl.
    apply app_inv_head in Hl. destruct n2 as [|[q v] n2]; [done|]. injection Hl as <- <-.
    eexists _, _. split; [by eapply Hbody|]. split; [by eapply rb_step_ok; rewrite <- Hn|].
    exists (n1 ++ [(q, v)]), n2. rewrite map_app, <- app_assoc. done.
  - rewrite Hw. rewrite Ht, Hn, map_app in Hd.
    destruct n2; [by rewrite app_nil_r in Hn; subst|].
    apply (f_equal length) in Hd. rewrite length_app in Hd. simpl in Hd. lia.
Qed.

(** Going along the nodes [l1] while the body does nothing. *)
Lemma rb_scan {R} (body : Z → M (kern V * C) (option R)) h lg c m0 l1 l2 fuel :
  tree_rep h (root c) (m0 ++ l1 ++ l2) →
  (∀ p v, (p, v) ∈ l1 → body p (Kern h lg, c) = (Ret None, (Kern h lg, c))) →
  walk (length l1 + fuel) (rb_step freed root) body (first_of (map fst (l1 ++ l2))) (Kern h lg, c) =
  walk fuel (rb_step freed root) body (first_of (map fst l2)) (Kern h lg, c).
Proof.
  revert m0. induction l1 as [|[p v] l1 IH]; intros m0 HR Hbody; [done|].
  pose proof HR as (_ & _ & Hh). destruct (Hh p v) as [Hp0 Hp].
  { apply elem_of_app. right. by left. }
  cbn [app map fst length Nat.add]. rewrite first_of_cons. cbn [walk].
  destruct (Z.eqb_spec p 0); [done|].
  mrun (Hbody p v ltac:(left)).
  eapply bind_run; [by eapply rb_step_ok|]. cbv beta.
  apply (IH (m0 ++ [(p, v)])).
  - by rewrite <- app_assoc.
  - intros q w Hq. apply (Hbody q w). by right.
Qed.

Lemma rb_for_each_none {R} (body : Z → M (kern V * C) (option R)) h lg c nodes :
  tree_rep h (root c) nodes →
  (∀ p v, (p, v) ∈ nodes → body p (Kern h lg, c) = (Ret None, (Kern h lg, c))) →
  rb_for_each freed root body (Kern h lg, c) = (Ret None, (Kern h lg, c)).
Proof.
  intros HR Hbody. apply (rb_for_each_ok body (λ _, lg) h c nodes HR).
  intros n1 p v n2 ->. apply (Hbody p v), elem_of_mid.
Qed.

(** A loop that comes to the node [p]; the fuel left is enough to go through
    the tree once more. *)
Lemma rb_for_each_to {R} (body : Z → M (kern V * C) (option R)) h lg c n1 p v n2 :
  tree_rep h (root c) (n1 ++ (p, v) :: n2) →
  (∀ q w, (q, w) ∈ n1 → body q (Kern h lg, c) = (Ret None, (Kern h lg, c))) →
  ∃ fuel, (length (n1 ++ n2) < fuel)%nat ∧
    rb_for_each freed root body (Kern h lg, c) =
    walk (S fuel) (rb_step freed root) body p (Kern h lg, c).
Proof.
  intros HR Hbody. pose proof HR as (Ht & _ & _).
  set (n := length (n1 ++ (p, v) :: n2)).
  assert (n = S (length (n1 ++ n2)) ∧ length n1 ≤ length (n1 ++ n2))%nat as [Hn Hl].
  { unfold n. rewrite !length_app. cbn [length]. lia. }
  assert (∃ fuel, (S n * S (S n) = length n1 + S fuel ∧ length (n1 ++ n2) < fuel)%nat)
    as (fuel & Hfuel & Hlt).
  { exists (S n * S (S n) - length n1 - 1)%nat. nia. }
  exists fuel. split; [done|].
  unfold rb_for_each. mstep. rewrite rb_first_spec, Ht. cbv zeta. rewrite length_map. fold n.
  rewrite Hfuel. by apply (rb_scan body h lg c [] n1 ((p, v) :: n2)).
Qed.

(** Erasing a node, freed memory being intact: its link leads back into the
    tree or nowhere, and the loop ends if the body has nothing more to do. *)
Lemma rb_erase_rest {R} (body : Z → M (kern V * C) (option R)) h lg c nodes q fuel :
  tree_rep h (root c) nodes → q = 0 ∨ q ∈ inorder (root c) → (length nodes < fuel)%nat →
  (∀ p v, (p, v) ∈ nodes → body p (Kern h lg, c) = (Ret None, (Kern h lg, c))) →
  walk fuel (rb_step freed root) body q (Kern h lg, c) = (Ret None, (Kern h lg, c)).
Proof.
  intros HR Hq Hf Hbody. destruct fuel as [|fuel]; [lia|].
  destruct Hq as [->|Hq]; [done|].
  pose proof HR as (Ht & _ & _). rewrite Ht in Hq.
  apply list_elem_of_fmap in Hq as ([q' w] & -> & Hq).
  apply list_elem_of_split in Hq as (n1 & n2 & ->). simpl fst.
  rewrite length_app in Hf. cbn [length] in Hf.
  pose proof (rb_scan body h lg c n1 ((q', w) :: n2) [] (S fuel - length ((q', w) :: n2))) as Hs.
  rewrite app_nil_r in Hs. cbn [map fst] in Hs. rewrite first_of_cons in Hs.
  replace (length ((q', w) :: n2) + (S fuel - length ((q', w) :: n2)))%nat with (S fuel) in Hs
    by (cbn [length]; lia).
  rewrite Hs; [|done|intros p v Hp; apply (Hbody p v), elem_of_app; by right].
  cbn [length]. by destruct (S fuel - S (length n2))%nat eqn:E; [lia|].
Qed.

Lemma tree_rep_del h t n1 p v n2 :
  tree_rep h t (n1 ++ (p, v) :: n2) → tree_rep (delete p h) (rb_erase p t) (n1 ++ n2).
Proof.
  clear freed key. intros (Ht & Hnd & Hh).
  rewrite map_app in Ht, Hnd. cbn [map fst] in Ht, Hnd.
  assert (NoDup (p :: map fst (n1 ++ n2))) as [Hp Hnd']%NoDup_cons.
  { by rewrite map_app, Permutation_middle. }
  split; [|split; [done|]].
  - rewrite inorder_erase, Ht, filter_ne_mid by done. by rewrite map_app.
  - intros q w Hq. rewrite lookup_delete_ne.
    + apply Hh. rewrite elem_of_app in Hq. rewrite elem_of_app, elem_of_cons. tauto.
    + intros ->. apply Hp, list_elem_of_fmap. by exists (q, w).
Qed.

(** The link of the first node, erased and freed, with freed memory intact. *)
Lemma rb_step_erased_first (Hfr : ∀ x, freed x = Ret x) h lg c t p v nodes :
  tree_rep h t ((p, v) :: nodes) → root c = rb_erase p t →
  rb_step freed root p (Kern (delete p h) lg, c) =
    (Ret (first_of (map fst nodes)), (Kern (delete p h) lg, c)).
Proof.
  clear key. intros (Ht & Hnd & _) Hroot. simpl in Ht, Hnd.
  unfold rb_step. mstep. rewrite read_link_freed by apply lookup_delete_eq. rewrite Hfr, Hroot.
  rewrite (rb_next_erased_first t p (map fst nodes)); [done|done|]. by rewrite Ht.
Qed.
End proofs.
