(* ===== verification/KdsRb.v ===== *)
(** The red-black tree of [kds.c]: [run_redblack_trees] inserts the integers
    one by one and prints the tree after each, looks every integer up, erases
    the tree and prints it. *)
From S2P Require Import Prelude CInt Kernel KernelModel Rbtree.
Local Open Scope Z_scope.

Section program.
Context `{RA : RbApi} (kmalloc_at : kheap Z → Z) (freed : Z → outcome Z).

Abbreviation st := (kern Z * rbtree)%type.

Definition insert_rb_tree (new_node : Z) : M st Z :=
  x ← load new_node;
  t ← container;
  o ← rb_link id x new_node t;
  match o with
  | None => mret 0
  | Some t' =>
      on_container (λ _, rb_insert_color new_node t');;
      printk "************ Inserted %d ************" [x];;
      mret 1
  end.

Fixpoint lookup_loop (number : Z) (t : rbtree) : M st Z :=
  match t with
  | RbNull => mret (-1)
  | RbNode l q r =>
      this ← load q;
      if number <? this then lookup_loop number l
      else if number >? this then lookup_loop number r
      else printk "Lookup found element : %d " [number];; mret number
  end.

Definition lookup_rb_tree (number : Z) : M st Z := t ← container; lookup_loop number t.

Definition print_rb_tree : M st unit :=
  t ← container;
  (if rb_first t =? 0 then printk "Root Node is null" [] else mret tt);;
  rb_for_each freed id (λ node,
    (value ← load node; printk "key = %d" [value];; mret (None : option unit)));;
  printk "************ Printing completed ************" [].

Definition remove_rb_tree : M st unit :=
  rb_for_each freed id (λ temp,
    (on_container (rb_erase temp);; kfree temp;; mret (None : option unit)));;
  printk "************ RB Tree Erased ************" [].

Definition add_rb_node (x : Z) : M st unit :=
  mynode ← kmalloc kmalloc_at;
  assign mynode x;;
  insert_rb_tree mynode;;
  print_rb_tree.

Definition lookup_rb_number (number : Z) : M st unit :=
  ret ← lookup_rb_tree number;
  if ret <? 0 then printk "Element not found : %d " [number] else mret tt.

Definition run_redblack_trees {C} (int_array : list Z) : M (kern Z * C) unit :=
  with_local RbNull (
    print_rb_tree;;
    for_each int_array add_rb_node;;
    for_each int_array lookup_rb_number;;
    remove_rb_tree;;
    print_rb_tree).
End program.

(** ** What is logged, on sorted lists of distinct integers *)

Definition print_log (l : list Z) : list (string * list Z) :=
  (if decide (l = []) then [("Root Node is null", [])] else []) ++
  map (line1 "key = %d") l ++ [("************ Printing completed ************", [])].

Definition insert_log (l : list Z) (x : Z) : list (string * list Z) :=
  (if decide (x ∈ l) then [] else [line1 "************ Inserted %d ************" x]) ++
  print_log (ins x l).

Fixpoint inserts_log (l xs : list Z) : list (string * list Z) :=
  match xs with
  | [] => []
  | x :: xs' => insert_log l x ++ inserts_log (ins x l) xs'
  end.

Definition lookup_log (n : Z) : list (string * list Z) :=
  line1 "Lookup found element : %d " n ::
  (if n <? 0 then [line1 "Element not found : %d " n] else []).

Section proofs.
Context `{RA : RbApi} (kmalloc_at : kheap Z → Z) {HA : Allocator kmalloc_at}.
Context (freed : Z → outcome Z) (enough : ∀ h, kmalloc_at h ≠ 0).
Implicit Types (h : kheap Z) (lg : list (string * list Z)) (t : rbtree).

(** The tree has the nodes in the order of their values; the other objects
    allocated are [leaked], those whose value was in the tree already. *)
Record rb_rep h0 (nodes leaked : list (Z * Z)) h t : Prop := {
  rr_owns : owns h0 h (nodes ++ leaked);
  rr_tree : inorder t = map fst nodes;
  rr_sorted : StronglySorted Z.lt (map snd nodes);
}.

Lemma rb_rep_tree h0 nodes leaked h t : rb_rep h0 nodes leaked h t → tree_rep h t nodes.
Proof.
  intros [HO Ht _]. split; [done|]. split.
  - pose proof (owns_nodup _ _ _ HO) as Hnd. rewrite map_app in Hnd.
    by apply NoDup_app in Hnd as [? _].
  - intros p v Hp. apply (owns_lookup _ _ _ _ _ HO), elem_of_app. by left.
Qed.

Lemma print_rb_ok h0 nodes leaked h t lg :
  rb_rep h0 nodes leaked h t →
  print_rb_tree freed (Kern h lg, t) = (Ret tt, (Kern h (lg ++ print_log (map snd nodes)), t)).
Proof.
  intros HR. apply rb_rep_tree in HR. pose proof HR as (Ht & _ & Hh).
  unfold print_rb_tree. mstep. rewrite rb_first_spec, Ht.
  set (lg1 := lg ++ (if decide (map snd nodes = []) then [("Root Node is null", [])] else [])).
  assert (∀ f : unit → M (kern Z * rbtree) unit,
    ((if first_of (map fst nodes) =? 0 then printk "Root Node is null" [] else mret tt) ≫= f)
      (Kern h lg, t) = f tt (Kern h lg1, t)) as Hnull.
  { intros f. unfold lg1. destruct nodes as [|[p v] nodes]; simpl; [by prints|].
    destruct (Hh p v) as [Hp _]; [by left|]. rewrite first_of_cons.
    destruct (Z.eqb_spec p 0); [done|]. mstep. by rewrite app_nil_r. }
  rewrite Hnull. clear Hnull.
  eapply bind_run.
  { pose (L := λ n : list (Z * Z), lg1 ++ map (line1 "key = %d") (map snd n)).
    replace lg1 with (L []) by (unfold L; by rewrite app_nil_r).
    apply (rb_for_each_ok freed id _ L h t nodes HR).
    intros n1 p v n2 Hn. destruct (Hh p v) as [Hp0 Hp]; [rewrite Hn; apply elem_of_mid|].
    eapply bind_run; [by apply kload_ok|]. cbv beta. prints. unfold L.
    by rewrite !map_app, <- app_assoc. }
  unfold lg1, print_log, printk, modify. cbn [k_heap k_log fst snd]. app_eq.
Qed.

Lemma insert_rb_ok h0 nodes leaked h t lg p x :
  owns h0 h ((p, x) :: nodes ++ leaked) → inorder t = map fst nodes →
  StronglySorted Z.lt (map snd nodes) →
  ∃ r nodes' leaked' t',
    insert_rb_tree p (Kern h lg, t) =
      (Ret r, (Kern h (lg ++ if decide (x ∈ map snd nodes) then []
                             else [line1 "************ Inserted %d ************" x]), t')) ∧
    rb_rep h0 nodes' leaked' h t' ∧ map snd nodes' = ins x (map snd nodes) ∧
    (length nodes' + length leaked' = S (length nodes + length leaked))%nat.
Proof.
  intros HO Ht Hs.
  destruct (owns_lookup _ _ _ p x HO) as [Hp0 Hp]; [by left|].
  assert (∀ q v, (q, v) ∈ nodes → q ≠ 0 ∧ h !! q = Some (Some v)) as Hh.
  { intros q v Hq. apply (owns_lookup _ _ _ _ _ HO). right. apply elem_of_app. by left. }
  destruct (rb_link_ok id h lg t t nodes x p Ht Hh Hs) as (o & Hlink & Ho).
  change (keys id) with (map (@snd Z Z)) in Ho.
  unfold insert_rb_tree. destruct o as [t'|].
  - destruct Ho as (n1 & n2 & -> & Hin & H1 & H2).
    rewrite map_app in Hs |- *. rewrite ins_split by done.
    exists 1, (n1 ++ (p, x) :: n2), leaked, (rb_insert_color p t'). split; [|split; [split|split]].
    + eapply bind_run; [by apply kload_ok|]. cbv beta. mstep. mrun Hlink. mstep. prints.
      rewrite decide_False; [done|]. rewrite elem_of_app. rewrite Forall_forall in H1, H2.
      intros [Hx|Hx]; [specialize (H1 x Hx)|specialize (H2 x Hx)]; lia.
    + eapply owns_perm; [|exact HO]. rewrite <- !app_assoc. apply Permutation_middle.
    + by rewrite inorder_insert_color, Hin, map_app.
    + rewrite map_app. simpl. rewrite <- ins_split by done. apply ins_sorted. done.
    + by rewrite map_app.
    + rewrite !length_app. simpl. lia.
  - exists 0, nodes, ((p, x) :: leaked), t. split; [|split; [split|split]].
    + eapply bind_run; [by apply kload_ok|]. cbv beta. mstep. mrun Hlink.
      rewrite decide_True by done. by rewrite app_nil_r.
    + eapply owns_perm; [|exact HO]. apply Permutation_middle.
    + done.
    + done.
    + by rewrite ins_in.
    + simpl. lia.
Qed.

Lemma add_rb_ok h0 nodes leaked h t lg x :
  rb_rep h0 nodes leaked h t →
  ∃ nodes' leaked' h' t',
    add_rb_node kmalloc_at freed x (Kern h lg, t) =
      (Ret tt, (Kern h' (lg ++ insert_log (map snd nodes) x), t')) ∧
    rb_rep h0 nodes' leaked' h' t' ∧ map snd nodes' = ins x (map snd nodes) ∧
    (length nodes' + length leaked' = S (length nodes + length leaked))%nat.
Proof.
  intros [HO Ht Hs].
  pose proof (alloc_fresh kmalloc_at h (enough h)) as Hfresh.
  pose proof (owns_add h0 h _ (kmalloc_at h) x HO (enough h) Hfresh) as HO1.
  destruct (insert_rb_ok h0 nodes leaked _ t lg _ x HO1 Ht Hs)
    as (r & nodes' & leaked' & t' & Hi & HR & Hv & Hl).
  exists nodes', leaked', (<[kmalloc_at h := Some x]> h), t'. split; [|done].
  unfold add_rb_node. rewrite new_object by done. mrun Hi.
  erewrite print_rb_ok by done. rewrite Hv, <- app_assoc. done.
Qed.

Lemma add_all_ok h0 int_array nodes leaked h t lg :
  rb_rep h0 nodes leaked h t →
  ∃ nodes' leaked' h' t',
    for_each int_array (add_rb_node kmalloc_at freed) (Kern h lg, t) =
      (Ret tt, (Kern h' (lg ++ inserts_log (map snd nodes) int_array), t')) ∧
    rb_rep h0 nodes' leaked' h' t' ∧ map snd nodes' = insert_ints (map snd nodes) int_array ∧
    (length nodes' + length leaked' = length int_array + (length nodes + length leaked))%nat.
Proof.
  revert nodes leaked h t lg. induction int_array as [|x xs IH]; intros nodes leaked h t lg HR.
  { exists nodes, leaked, h, t. by rewrite app_nil_r. }
  destruct (add_rb_ok h0 nodes leaked h t lg x HR) as (nodes1 & leaked1 & h1 & t1 & Hi & HR1 & Hv1 & Hl1).
  destruct (IH nodes1 leaked1 h1 t1 (lg ++ insert_log (map snd nodes) x) HR1)
    as (nodes' & leaked' & h' & t' & Hf & HR' & Hv & Hl).
  exists nodes', leaked', h', t'. split; [|split; [done|split]].
  - rewrite <- app_assoc, Hv1 in Hf. by eapply for_each_run.
  - by rewrite Hv, Hv1.
  - simpl. lia.
Qed.

(** The descent of [lookup_rb_tree]. *)
Lemma lookup_loop_ok h lg c nodes t n :
  inorder t = map fst nodes → (∀ q v, (q, v) ∈ nodes → q ≠ 0 ∧ h !! q = Some (Some v)) →
  StronglySorted Z.lt (map snd nodes) → n ∈ map snd nodes →
  lookup_loop n t (Kern h lg, c) =
    (Ret n, (Kern h (lg ++ [line1 "Lookup found element : %d " n]), c)).
Proof.
  revert nodes. induction t as [|l IHl q r IHr]; intros nodes Ht Hh Hs Hn; simpl in Ht.
  { symmetry in Ht. apply map_eq_nil in Ht as ->. by apply elem_of_nil in Hn. }
  symmetry in Ht. apply map_eq_app in Ht as (nl & nr' & -> & Hl & Hr').
  destruct nr' as [|[q' v] nr]; [done|]. injection Hr' as -> Hr.
  destruct (Hh q v) as [Hq0 Hq]; [apply elem_of_mid|].
  rewrite map_app in Hs, Hn. simpl in Hs, Hn.
  apply sorted_mid in Hs as (Hsl & Hsr & Hltl & Hltr).
  rewrite Forall_forall in Hltl, Hltr.
  simpl. eapply bind_run; [by apply kload_ok|]. cbv beta.
  destruct (Z.ltb_spec n v) as [Hlt|Hge]; [|destruct (Z.gtb_spec n v) as [Hgt|Hle]].
  - apply (IHl nl); [done| |done|].
    + intros ? ? Hin. apply Hh, elem_of_app. by left.
    + rewrite elem_of_app, elem_of_cons in Hn. destruct Hn as [|[->|Hin]]; [done|lia|].
      specialize (Hltr n Hin). lia.
  - apply (IHr nr); [done| |done|].
    + intros ? ? Hin. apply Hh, elem_of_app. right. by right.
    + rewrite elem_of_app, elem_of_cons in Hn. destruct Hn as [Hin|[->|Hin]]; [|lia|done].
      specialize (Hltl n Hin). lia.
  - by prints.
Qed.

Lemma lookup_all_rb_ok h0 nodes leaked h t lg int_array :
  rb_rep h0 nodes leaked h t → (∀ n, n ∈ int_array → n ∈ map snd nodes) →
  for_each int_array lookup_rb_number (Kern h lg, t) =
    (Ret tt, (Kern h (lg ++ concat (map lookup_log int_array)), t)).
Proof.
  intros HR. revert lg. induction int_array as [|n xs IH]; intros lg Hin.
  { by rewrite app_nil_r. }
  apply for_each_run with (s' := (Kern h (lg ++ lookup_log n), t)).
  2: { rewrite IH by (intros; apply Hin; by right). simpl. by rewrite <- app_assoc. }
  pose proof (rb_rep_tree _ _ _ _ _ HR) as (Ht & _ & Hh).
  unfold lookup_rb_number, lookup_rb_tree. rewrite bind_assoc. mstep.
  eapply bind_run; [eapply (lookup_loop_ok h lg t nodes); [done..|by destruct HR|apply Hin; by left]|].
  cbv beta. unfold lookup_log. destruct (n <? 0); [|done].
  by rewrite printk_ok, <- app_assoc.
Qed.

(** Erasing from the first node on, freed memory being intact: the link of the
    node just freed still leads to the next one. *)
Lemma erase_walk h0 nodes leaked h t lg fuel :
  (∀ v, freed v = Ret v) → rb_rep h0 nodes leaked h t → (length nodes < fuel)%nat →
  ∃ h' t', walk fuel (rb_step freed id) (λ temp,
      (on_container (rb_erase temp);; kfree temp;; mret (None : option unit)))
      (first_of (map fst nodes)) (Kern h lg, t) = (Ret None, (Kern h' lg, t')) ∧
    rb_rep h0 [] leaked h' t'.
Proof.
  intros Hfr. revert nodes h t. induction fuel as [|fuel IH]; intros nodes h t HR Hf; [lia|].
  destruct nodes as [|[p v] nodes]; [by exists h, t|].
  pose proof HR as [HO Ht Hs].
  destruct (owns_lookup _ _ _ p v HO) as [Hp0 Hp]; [by left|].
  pose proof (owns_nodup _ _ _ HO) as Hnd. simpl in Hnd.
  assert (NoDup (p :: map fst nodes)) as Hnd1.
  { rewrite map_app in Hnd. change (NoDup ((p :: map fst nodes) ++ map fst leaked)) in Hnd.
    by apply NoDup_app in Hnd as [? _]. }
  simpl in Ht, Hf, HO. cbn [map fst]. rewrite first_of_cons. cbn [walk]. destruct (Z.eqb_spec p 0); [done|].
  destruct (IH nodes (delete p h) (rb_erase p t)) as (h' & t' & Hw & HR'); [|lia|].
  { split; [by eapply owns_del| |].
    - rewrite inorder_erase, Ht. apply (filter_ne_mid [] (map fst nodes) p Hnd1).
    - by apply (sorted_app [v]) in Hs as [_ ?]. }
  exists h', t'. split; [|done]. rewrite <- Hw.
  eapply bind_run.
  { mstep. eapply bind_run; [by eapply kfree_ok|]. reflexivity. }
  cbv beta iota. eapply bind_run; [|reflexivity].
  apply (rb_step_erased_first freed id Hfr h lg (rb_erase p t) t p v nodes); [|done].
  by eapply rb_rep_tree.
Qed.

(** What [run_redblack_trees] logs before it erases the tree. *)
Definition tree_log (int_array : list Z) : list (string * list Z) :=
  print_log [] ++ inserts_log [] int_array ++ concat (map lookup_log int_array).

Lemma build_tree_ok {B} int_array h lg (f : unit → M (kern Z * rbtree) B) :
  ∃ nodes leaked h1 t1, rb_rep h nodes leaked h1 t1 ∧
    map snd nodes = insert_ints [] int_array ∧
    (length nodes + length leaked = length int_array)%nat ∧
    (print_rb_tree freed;; for_each int_array (add_rb_node kmalloc_at freed);;
     for_each int_array lookup_rb_number ≫= f) (Kern h lg, RbNull) =
    f tt (Kern h1 (lg ++ tree_log int_array), t1).
Proof.
  assert (rb_rep h [] [] h RbNull) as HR0 by (split; [apply owns_nil|done|constructor]).
  destruct (add_all_ok h int_array [] [] h RbNull (lg ++ print_log []) HR0)
    as (nodes & leaked & h1 & t1 & Hadd & HR & Hv & Hl).
  exists nodes, leaked, h1, t1. split; [done|]. split; [done|]. split; [simpl in Hl; lia|].
  mrun (print_rb_ok h [] [] h RbNull lg HR0). mrun Hadd.
  eapply bind_run; [eapply lookup_all_rb_ok; [done|]|].
  - intros n Hn. rewrite Hv, elem_of_insert_ints. by right.
  - do 3 f_equal. unfold tree_log. by rewrite <- !app_assoc.
Qed.

(** The exercise, for its caller as well. *)
Lemma redblack_trees_run {C} int_array h lg (c : C) :
  (∀ v, freed v = Ret v) →
  ∃ h' leaked,
    run_redblack_trees kmalloc_at freed int_array (Kern h lg, c) =
      (Ret tt, (Kern h' (lg ++ tree_log int_array ++
                         ("************ RB Tree Erased ************", []) :: print_log []), c)) ∧
    owns h h' leaked ∧
    (length leaked + length (insert_ints [] int_array) = length int_array)%nat.
Proof.
  intros Hfr.
  destruct (build_tree_ok int_array h lg (λ _, remove_rb_tree freed;; print_rb_tree freed))
    as (nodes & leaked & h1 & t1 & HR & Hv & Hl & Hrun).
  destruct (erase_walk h nodes leaked h1 t1 (lg ++ tree_log int_array)
    (S (length nodes) * S (S (length nodes))) Hfr HR) as (h2 & t2 & Hw & HR2); [lia|].
  exists h2, leaked. split; [|split; [apply (rr_owns _ _ _ _ _ HR2)|]].
  - eapply with_local_run. rewrite Hrun. cbv beta. unfold remove_rb_tree. rewrite bind_assoc.
    eapply bind_run.
    { unfold rb_for_each. mstep. unfold id at 1 2 3 4. rewrite rb_first_spec, (rr_tree _ _ _ _ _ HR), length_map.
      exact Hw. }
    cbv beta. prints. rewrite (print_rb_ok h [] leaked) by done. do 3 f_equal. app_eq.
  - rewrite <- Hv, length_map. lia.
Qed.

(** C17: [run_redblack_trees], when freed memory keeps its contents: after
    each insertion the integers so far are printed in increasing order without
    duplicates, every integer is found by the descent (and reported as not
    found as well when it is negative), and the erased tree prints as empty.
    The nodes of the tree are freed; one object is leaked for every integer
    that was in the tree already. *)
Theorem run_redblack_trees_ok {C} int_array h lg (c : C) :
  (∀ v, freed v = Ret v) →
  ∃ h' leaked,
    run_redblack_trees kmalloc_at freed int_array (Kern h lg, c) =
      (Ret tt, (Kern h' (lg ++ tree_log int_array ++
                         ("************ RB Tree Erased ************", []) :: print_log []), c)) ∧
    owns h h' leaked ∧
    (length leaked + length (insert_ints [] int_array) = length int_array)%nat.
Proof. intros Hfr. by apply redblack_trees_run. Qed.

(** C39: [run_redblack_trees], with a read of freed memory as an error, on at
    least one integer: the output is that of the other regime up to the
    erasing, which frees the node of the least integer and stops on the read
    of its link; every other node is still allocated. *)
Theorem run_redblack_trees_use_after_free {C} n int_array h lg (c : C) :
  (∀ v, freed v = Stop UseAfterFree) →
  ∃ h' v nodes leaked,
    run_redblack_trees kmalloc_at freed (n :: int_array) (Kern h lg, c) =
      (Stop UseAfterFree, (Kern h' (lg ++ tree_log (n :: int_array)), c)) ∧
    v :: map snd nodes = insert_ints [] (n :: int_array) ∧
    owns h h' (nodes ++ leaked) ∧
    (length nodes + length leaked = length int_array)%nat.
Proof.
  intros Hfr.
  destruct (build_tree_ok (n :: int_array) h lg (λ _, remove_rb_tree freed;; print_rb_tree freed))
    as (nodes & leaked & h1 & t1 & HR & Hv & Hl & Hrun).
  destruct nodes as [|[p v] nodes].
  { assert (n ∈ insert_ints [] (n :: int_array)) as Hn
      by (rewrite elem_of_insert_ints; right; by left).
    rewrite <- Hv in Hn. by apply elem_of_nil in Hn. }
  pose proof HR as [HO Ht _]. destruct (owns_lookup _ _ _ p v HO) as [Hp0 Hp]; [by left|].
  exists (delete p h1), v, nodes, leaked.
  split; [|split; [done|split; [by eapply owns_del|simpl in Hl; lia]]].
  eapply with_local_run. rewrite Hrun. cbv beta. unfold remove_rb_tree. apply bind_Stop, bind_Stop.
  unfold rb_for_each. mstep. unfold id at 1 2 3 4. rewrite rb_first_spec, Ht. simpl map.
  rewrite first_of_cons. cbn [Nat.mul Nat.add walk]. destruct (Z.eqb_spec p 0); [done|].
  eapply bind_run.
  { mstep. eapply bind_run; [by eapply kfree_ok|]. reflexivity. }
  cbv beta iota. apply bind_Stop.
  unfold rb_step. mstep. rewrite read_link_freed by apply lookup_delete_eq. by rewrite Hfr.
Qed.
End proofs.

Lemma run_redblack_trees_ok_witness :
  ∃ h' leaked,
    run_redblack_trees top_addr Ret [7; 5; 7] (Kern ∅ [], tt) =
      (Ret tt, (Kern h' (tree_log [7; 5; 7] ++
                         ("************ RB Tree Erased ************", []) :: print_log []), tt)) ∧
    owns ∅ h' leaked ∧ (length leaked + length (insert_ints [] [7; 5; 7]%Z) = 3)%nat.
Proof. apply (run_redblack_trees_ok top_addr Ret top_enough [7; 5; 7] ∅ [] tt). done. Defined.

Lemma run_redblack_trees_use_after_free_witness :
  ∃ h' v nodes leaked,
    run_redblack_trees top_addr (λ _, Stop UseAfterFree) [7; 5] (Kern ∅ [], tt) =
      (Stop UseAfterFree, (Kern h' (tree_log [7; 5]), tt)) ∧
    v :: map snd nodes = [5; 7] ∧ owns ∅ h' (nodes ++ leaked) ∧
    (length nodes + length leaked = 1)%nat.
Proof.
  apply (run_redblack_trees_use_after_free top_addr (λ _, Stop UseAfterFree) top_enough
    7 [5] ∅ [] tt). done.
Defined.
