(* ===== verification/KdsMaps.v ===== *)
(** The radix tree and the xarray of [kds.c]: both index a node by its value,
    converted to [unsigned long]; the loops that look up and delete are the
    same but for the call they make. *)
From S2P Require Import Prelude CInt Kernel KernelModel.
Local Open Scope Z_scope.

(** A call that returns a value and changes the container. *)
Definition call_on {V C A} (f : C → A * C) : M (kern V * C) A := λ s,
  (Ret (f s.2).1, (s.1, (f s.2).2)).

Section loops.
Context {C : Type} (get : C → Z → Z) (del : Z → C → Z * C).

Abbreviation st := (kern Z * C)%type.

Definition lookup_item (x : Z) : M st unit :=
  let number := u64 x in
  c ← container;
  let radix_node := get c number in
  if radix_node =? 0 then printk "Element not found: %lu " [number]
  else value ← load radix_node; printk "Element found: %d " [value].

Definition remove_item (x : Z) : M st unit :=
  let number := u64 x in
  radix_node ← call_on (del number);
  if radix_node =? 0 then printk "Element to delete not found: %lu " [number]
  else
    value ← load radix_node;
    printk "Element deleted: %d " [value];;
    kfree radix_node.
End loops.

Section radix.
Context `{RA : RadixApi} (kmalloc_at : kheap Z → Z).

Abbreviation st := (kern Z * radix_tree_root)%type.

Definition lookup_radix_tree (int_array : list Z) : M st unit :=
  for_each int_array (lookup_item radix_tree_lookup).

Definition tag_radix_item (x : Z) : M st unit :=
  let number := u64 x in
  if number mod 2 =? 1 then
    on_container (radix_tree_tag_set number 1);;
    printk "Tagging element: %lu " [number]
  else mret tt.

Definition tag_radix_tree (int_array : list Z) : M st unit := for_each int_array tag_radix_item.

(** [results] has room for 10 pointers, the lookup may store 100. *)
Definition lookup_tagged_tree : M st unit :=
  t ← container;
  let results := radix_tree_gang_lookup_tag t 0 100 1 in
  check (Z.of_nat (length results) <=? 10) OutOfBounds;;
  printk "Count of tagged items gang looked up: %d " [Z.of_nat (length results)];;
  for_each results (λ p, (value ← load p; printk "Tagged item gang looked up: %d " [value])).

Definition remove_radix_tree (int_array : list Z) : M st unit :=
  for_each int_array (remove_item radix_tree_delete).

(** The result of [radix_tree_insert] is not looked at. *)
Definition add_radix_node (x : Z) : M st unit :=
  radix_node ← kmalloc kmalloc_at;
  assign radix_node x;;
  index ← load radix_node;
  call_on (radix_tree_insert (u64 index) radix_node);;
  value ← load radix_node;
  printk "Inserted element: %d " [value].

Definition run_radix_tree {C} (int_array : list Z) : M (kern Z * C) unit :=
  with_local RADIX_TREE (
    for_each int_array add_radix_node;;
    lookup_radix_tree int_array;;
    tag_radix_tree int_array;;
    lookup_tagged_tree;;
    remove_radix_tree int_array;;
    printk "*** Initiating re-lookup for all elements ***" [];;
    lookup_radix_tree int_array).
End radix.

Section xarray.
Context `{XA : XaApi} (kmalloc_at : kheap Z → Z).

Abbreviation st := (kern Z * xarray)%type.

Definition lookup_xarray (int_array : list Z) : M st unit :=
  for_each int_array (lookup_item xa_load).

Definition tag_xarray_item (x : Z) : M st unit :=
  let number := u64 x in
  if number mod 2 =? 1 then
    on_container (xa_set_mark number);;
    printk "Tagged element: %lu " [number]
  else mret tt.

Definition tag_xarray (int_array : list Z) : M st unit := for_each int_array tag_xarray_item.

Definition lookup_tagged : M st unit :=
  x ← container;
  for_each (marked x) (λ index,
    (value ← load (xa_load x index); printk "Tag looked up element : %d " [value])).

Definition remove_xarray (int_array : list Z) : M st unit :=
  for_each int_array (remove_item xa_erase).

(** The result of [xa_store] is not looked at: neither an entry it replaces nor
    its failure. *)
Definition add_xarray_node (x : Z) : M st unit :=
  radix_node ← kmalloc kmalloc_at;
  assign radix_node x;;
  index ← load radix_node;
  on_container (λ x, snd (xa_store (u64 index) radix_node x));;
  value ← load radix_node;
  printk "Inserted element: %d " [value].

Definition run_xarray {C} (int_array : list Z) : M (kern Z * C) unit :=
  with_local DEFINE_XARRAY (
    for_each int_array add_xarray_node;;
    lookup_xarray int_array;;
    tag_xarray int_array;;
    lookup_tagged;;
    remove_xarray int_array).
End xarray.

(** ** What is logged *)

Definition is_int (x : Z) : Prop := - 2 ^ 31 ≤ x < 2 ^ 31.

(** The odd indices, in order and once each; [to_int] gives back the value. *)
Definition odd_indices (xs : list Z) : list Z :=
  insert_ints [] (filter (λ i, i mod 2 = 1) (map u64 xs)).
Definition to_int (i : Z) : Z := if i <? 2 ^ 63 then i else i - 2 ^ 64.

Definition tag_lines (fmt : string) (xs : list Z) : list (string * list Z) :=
  map (line1 fmt) (filter (λ i, i mod 2 = 1) (map u64 xs)).

(** Deleting [xs] from a container that holds [l]. *)
Fixpoint delete_log (l xs : list Z) : list (string * list Z) :=
  match xs with
  | [] => []
  | x :: xs' =>
      if decide (x ∈ l) then
        line1 "Element deleted: %d " x :: delete_log (filter (λ y, y ≠ x) l) xs'
      else line1 "Element to delete not found: %lu " (u64 x) :: delete_log l xs'
  end.

Lemma u64_int x : is_int x → u64 x = if x <? 0 then x + 2 ^ 64 else x.
Proof.
  unfold is_int. intros. destruct (Z.ltb_spec x 0).
  - apply u64_neg. lia.
  - apply u64_small. lia.
Qed.

Lemma u64_inj x y : is_int x → is_int y → u64 x = u64 y → x = y.
Proof.
  unfold is_int. intros Hx Hy. rewrite !u64_int by done.
  destruct (Z.ltb_spec x 0), (Z.ltb_spec y 0); lia.
Qed.

Lemma to_int_u64 x : is_int x → to_int (u64 x) = x.
Proof.
  unfold is_int, to_int. intros. rewrite u64_int by done.
  destruct (Z.ltb_spec x 0);
    [destruct (Z.ltb_spec (x + 2 ^ 64) (2 ^ 63))|destruct (Z.ltb_spec x (2 ^ 63))]; lia.
Qed.

Section index.
Implicit Types (h : kheap Z) (nodes leaked : list (Z * Z)) (m : gmap Z Z).

(** The index [m] holds the nodes under their values. *)
Record ix_rep h0 nodes leaked h m : Prop := {
  ir_owns : owns h0 h (nodes ++ leaked);
  ir_int : ∀ p v, (p, v) ∈ nodes → is_int v;
  ir_map : ∀ i p, m !! i = Some p ↔ ∃ v, (p, v) ∈ nodes ∧ u64 v = i;
}.

Lemma ix_perm h0 nodes nodes' leaked h m :
  nodes ≡ₚ nodes' → ix_rep h0 nodes leaked h m → ix_rep h0 nodes' leaked h m.
Proof.
  intros HP [HO Hi Hm]. split.
  - eapply owns_perm; [|exact HO]. by rewrite HP.
  - intros p v. rewrite <- HP. apply Hi.
  - intros i p. rewrite Hm. by setoid_rewrite HP.
Qed.

Lemma ix_object h0 nodes leaked h m p v :
  ix_rep h0 nodes leaked h m → (p, v) ∈ nodes → p ≠ 0 ∧ h !! p = Some (Some v).
Proof. intros [HO _ _] Hp. apply (owns_lookup _ _ _ _ _ HO), elem_of_app. by left. Qed.

(** The node of an integer, and none twice. *)
Lemma ix_present h0 nodes leaked h m x :
  ix_rep h0 nodes leaked h m → x ∈ map snd nodes →
  ∃ p n1 n2, nodes = n1 ++ (p, x) :: n2 ∧ (x ∉ map snd (n1 ++ n2)) ∧ m !! u64 x = Some p.
Proof.
  intros [HO Hi Hm] ([p v] & -> & Hp)%list_elem_of_fmap. simpl.
  apply list_elem_of_split in Hp as (n1 & n2 & ->). exists p, n1, n2.
  assert (m !! u64 v = Some p) as Hmp by (apply Hm; exists v; split; [apply elem_of_mid|done]).
  split; [done|]. split; [|done].
  intros ([q w] & Hw & Hq)%list_elem_of_fmap. simpl in Hw. subst w.
  assert (m !! u64 v = Some q) as Hmq.
  { apply Hm. exists v. split; [|done]. rewrite elem_of_app in Hq |- *. rewrite elem_of_cons. tauto. }
  assert (p = q) as <- by congruence.
  pose proof (owns_nodup _ _ _ HO) as Hnd. rewrite map_app, map_app in Hnd. simpl in Hnd.
  apply NoDup_app in Hnd as (Hnd & _ & _). rewrite <- Permutation_middle in Hnd.
  apply NoDup_cons in Hnd as [Hnot _]. apply Hnot. rewrite <- map_app.
  apply list_elem_of_fmap. by exists (p, v).
Qed.

Lemma ix_absent h0 nodes leaked h m x :
  ix_rep h0 nodes leaked h m → is_int x → x ∉ map snd nodes → m !! u64 x = None.
Proof.
  intros [_ Hi Hm] Hx Hn. destruct (m !! u64 x) as [p|] eqn:E; [|done].
  apply Hm in E as (v & Hp & Hv). destruct Hn. apply list_elem_of_fmap. exists (p, v).
  split; [|done]. symmetry. apply u64_inj; [by eapply Hi|done|done].
Qed.

Lemma ix_new h0 nodes leaked h m p x :
  ix_rep h0 nodes leaked h m → is_int x → p ≠ 0 → h !! p = None → m !! u64 x = None →
  ix_rep h0 ((p, x) :: nodes) leaked (<[p := Some x]> h) (<[u64 x := p]> m).
Proof.
  intros [HO Hi Hm] Hx Hp0 Hp Hmx. split.
  - by apply (owns_add h0 h (nodes ++ leaked) p x).
  - intros q v [[= -> ->]|Hq]%elem_of_cons; [done|by eapply Hi].
  - intros i q. destruct (decide (i = u64 x)) as [->|Hne].
    + rewrite lookup_insert_eq. split.
      * intros [= ->]. exists x. split; [by left|done].
      * intros (v & [[= -> ->]|Hq]%elem_of_cons & Hv); [done|].
        assert (m !! u64 x = Some q) by (apply Hm; eauto). congruence.
    + rewrite lookup_insert_ne by done. rewrite Hm. split; intros (v & Hq & Hv); exists v.
      * split; [by right|done].
      * apply elem_of_cons in Hq as [[= -> ->]|Hq]; done.
Qed.

Lemma ix_leak h0 nodes leaked h m p x :
  ix_rep h0 nodes leaked h m → p ≠ 0 → h !! p = None →
  ix_rep h0 nodes ((p, x) :: leaked) (<[p := Some x]> h) m.
Proof.
  intros [HO Hi Hm] Hp0 Hp. split; [|done..].
  eapply owns_perm; [|by apply (owns_add h0 h (nodes ++ leaked) p x)].
  apply Permutation_middle.
Qed.

(** A node leaves the index, to the leaked ones or altogether. *)
Lemma ix_drop h0 n1 q x n2 leaked h m :
  ix_rep h0 (n1 ++ (q, x) :: n2) leaked h m → x ∉ map snd (n1 ++ n2) →
  ix_rep h0 (n1 ++ n2) ((q, x) :: leaked) h (delete (u64 x) m).
Proof.
  intros [HO Hi Hm] Hn.
  assert (∀ p v, (p, v) ∈ n1 ++ n2 → (p, v) ∈ n1 ++ (q, x) :: n2) as Hsub.
  { intros p v. rewrite !elem_of_app, elem_of_cons. tauto. }
  split.
  - eapply owns_perm; [|exact HO]. rewrite <- Permutation_middle. simpl.
    apply Permutation_middle.
  - eauto.
  - intros i p. rewrite lookup_delete_Some, Hm. split.
    + intros (Hne & v & Hp & <-). exists v. split; [|done].
      rewrite elem_of_app, elem_of_cons in Hp. rewrite elem_of_app.
      destruct Hp as [|[[= -> ->]|]]; [by left|done|by right].
    + intros (v & Hp & <-). split; [|eauto]. intros Heq.
      assert (x = v) as <-; [|apply Hn, list_elem_of_fmap; by exists (p, x)].
      apply u64_inj; [|by eauto|done].
      apply (Hi q). apply elem_of_mid.
Qed.

Lemma ix_free h0 nodes q x leaked h m :
  ix_rep h0 nodes ((q, x) :: leaked) h m → ix_rep h0 nodes leaked (delete q h) m.
Proof.
  intros [HO Hi Hm]. split; [|done..]. eapply owns_del, owns_perm; [|exact HO].
  symmetry. apply Permutation_middle.
Qed.

(** As many nodes as different integers. *)
Lemma ix_length h0 nodes leaked h m xs :
  ix_rep h0 nodes leaked h m → (∀ x, x ∈ map snd nodes ↔ x ∈ xs) →
  length nodes = length (insert_ints [] xs).
Proof.
  intros HR Hx. rewrite <- (length_map snd nodes). apply Permutation_length, NoDup_Permutation.
  - assert (∀ l1 l2, nodes = l1 ++ l2 → NoDup (map snd l2)) as Hall; [|by apply (Hall [])].
    intros l1 l2. revert l1. induction l2 as [|[p v] l2 IH]; intros l1 Hl; [by apply NoDup_nil|].
    apply NoDup_cons. split; [|apply (IH (l1 ++ [(p, v)])); by rewrite <- app_assoc].
    intros ([q w] & Hw & Hq)%list_elem_of_fmap. simpl in Hw. subst w.
    pose proof HR as [HO _ Hm].
    assert (m !! u64 v = Some p) as Hmp
      by (apply Hm; exists v; split; [rewrite Hl; apply elem_of_mid|done]).
    assert (m !! u64 v = Some q) as Hmq.
    { apply Hm. exists v. split; [|done]. rewrite Hl, elem_of_app. right. by right. }
    assert (p = q) as <- by congruence.
    pose proof (owns_nodup _ _ _ HO) as Hnd. rewrite Hl, !map_app in Hnd. simpl in Hnd.
    apply NoDup_app in Hnd as (Hnd & _ & _). apply NoDup_app in Hnd as (_ & _ & Hnd).
    apply NoDup_cons in Hnd as [Hnot _]. apply Hnot, list_elem_of_fmap. by exists (p, v).
  - assert (StronglySorted Z.lt (insert_ints [] xs)) as Hs by (apply insert_ints_sorted; constructor).
    clear - Hs. induction Hs as [|y l Hs IH Hy]; [by apply NoDup_nil|]. apply NoDup_cons.
    split; [|done]. rewrite Forall_forall in Hy. intros Hin. specialize (Hy y Hin). lia.
  - intros x. rewrite Hx, elem_of_insert_ints. split; [by right|].
    intros [H|H]; [by apply elem_of_nil in H|done].
Qed.
End index.

Section loop_proofs.
Context {C : Type} (get : C → Z → Z) (del : Z → C → Z * C) (ix : C → gmap Z Z).
Context (get_spec : ∀ c i, get c i = default 0 (ix c !! i)).
Context (del_ret : ∀ i c, (del i c).1 = default 0 (ix c !! i)).
Context (del_ix : ∀ i c, ix (del i c).2 = delete i (ix c)).
Implicit Types (h : kheap Z) (lg : list (string * list Z)) (nodes leaked : list (Z * Z)) (c : C).

Lemma lookup_items_ok h0 nodes leaked h lg c xs :
  ix_rep h0 nodes leaked h (ix c) → (∀ x, x ∈ xs → x ∈ map snd nodes) →
  for_each xs (lookup_item get) (Kern h lg, c) =
    (Ret tt, (Kern h (lg ++ map (line1 "Element found: %d ") xs), c)).
Proof.
  intros HR. revert lg. induction xs as [|x xs IH]; intros lg Hin.
  { by rewrite app_nil_r. }
  apply for_each_run with (s' := (Kern h (lg ++ [line1 "Element found: %d " x]), c)).
  2: { rewrite IH by (intros; apply Hin; by right). by rewrite <- app_assoc. }
  destruct (ix_present _ _ _ _ _ x HR) as (p & n1 & n2 & Hn & _ & Hp); [apply Hin; by left|].
  destruct (ix_object _ _ _ _ _ p x HR) as [Hp0 Hh]; [rewrite Hn; apply elem_of_mid|].
  unfold lookup_item. mstep. rewrite get_spec, Hp. simpl.
  destruct (Z.eqb_spec p 0); [done|]. eapply bind_run; [by apply kload_ok|]. done.
Qed.

Lemma lookup_items_none h0 leaked h lg c xs :
  ix_rep h0 [] leaked h (ix c) → (∀ x, x ∈ xs → is_int x) →
  for_each xs (lookup_item get) (Kern h lg, c) =
    (Ret tt, (Kern h (lg ++ map (λ x, line1 "Element not found: %lu " (u64 x)) xs), c)).
Proof.
  intros HR. revert lg. induction xs as [|x xs IH]; intros lg Hint.
  { by rewrite app_nil_r. }
  apply for_each_run with (s' := (Kern h (lg ++ [line1 "Element not found: %lu " (u64 x)]), c)).
  2: { rewrite IH by (intros; apply Hint; by right). by rewrite <- app_assoc. }
  unfold lookup_item. mstep. rewrite get_spec.
  erewrite ix_absent; [done|exact HR|apply Hint; by left|by intros ?%elem_of_nil].
Qed.

Lemma remove_items_ok h0 nodes leaked h lg c l xs :
  ix_rep h0 nodes leaked h (ix c) → (∀ x, x ∈ xs → is_int x) → (∀ x, x ∈ l ↔ x ∈ map snd nodes) →
  ∃ nodes' h' c',
    for_each xs (remove_item del) (Kern h lg, c) =
      (Ret tt, (Kern h' (lg ++ delete_log l xs), c')) ∧
    ix_rep h0 nodes' leaked h' (ix c') ∧
    (∀ x, x ∈ map snd nodes' → x ∈ map snd nodes ∧ x ∉ xs).
Proof.
  revert nodes h lg c l. induction xs as [|x xs IH]; intros nodes h lg c l HR Hint Hl.
  { exists nodes, h, c. rewrite app_nil_r. split; [done|]. split; [done|].
    intros x Hx. split; [done|]. by intros ?%elem_of_nil. }
  assert (is_int x) as Hx by (apply Hint; by left).
  assert (∀ y, y ∈ xs → is_int y) as Hint' by (intros; apply Hint; by right).
  simpl delete_log. destruct (decide (x ∈ l)) as [Hin|Hin].
  - destruct (ix_present _ _ _ _ _ x HR) as (p & n1 & n2 & -> & Hnot & Hp); [by apply Hl|].
    destruct (ix_object _ _ _ _ _ p x HR) as [Hp0 Hh]; [apply elem_of_mid|].
    destruct (IH (n1 ++ n2) (delete p h) (lg ++ [line1 "Element deleted: %d " x])
      (del (u64 x) c).2 (filter (λ y, y ≠ x) l)) as (nodes' & h' & c' & Hf & HR' & Hv).
    { rewrite del_ix. by eapply ix_free, ix_drop. }
    { done. }
    { intros y. rewrite list_elem_of_filter, Hl, !map_app. simpl.
      rewrite map_app in Hnot. rewrite !elem_of_app, elem_of_cons in *.
      destruct (decide (y = x)) as [->|]; tauto. }
    exists nodes', h', c'. split; [|split; [done|]].
    + rewrite <- app_assoc in Hf. eapply for_each_run; [|exact Hf].
      unfold remove_item. mstep. rewrite del_ret, Hp. simpl.
      destruct (Z.eqb_spec p 0); [done|]. eapply bind_run; [by apply kload_ok|]. cbv beta.
      prints. by eapply kfree_ok.
    + intros y Hy. destruct (Hv y Hy) as [Hyn Hyx]. rewrite elem_of_cons.
      rewrite map_app in Hyn, Hnot |- *. simpl. rewrite !elem_of_app, elem_of_cons in *.
      split; [tauto|]. intros [->|]; tauto.
  - destruct (IH nodes h (lg ++ [line1 "Element to delete not found: %lu " (u64 x)])
      (del (u64 x) c).2 l) as (nodes' & h' & c' & Hf & HR' & Hv); [|done|done|].
    { assert (x ∉ map snd nodes) as Hnot by (by rewrite <- Hl).
      rewrite del_ix, delete_id; [done|]. by eapply ix_absent. }
    exists nodes', h', c'. split; [|split; [done|]].
    + rewrite <- app_assoc in Hf. eapply for_each_run; [|exact Hf].
      unfold remove_item. mstep. rewrite del_ret. erewrite ix_absent; [done|exact HR|done|].
      by rewrite <- Hl.
    + intros y Hy. destruct (Hv y Hy) as [Hyn Hyx]. split; [done|].
      apply not_elem_of_cons. split; [|done]. intros ->. by apply Hin, Hl.
Qed.
End loop_proofs.

Lemma odd_indices_spec xs i : i ∈ odd_indices xs ↔ ∃ x, x ∈ xs ∧ i = u64 x ∧ i mod 2 = 1.
Proof.
  unfold odd_indices. rewrite elem_of_insert_ints, list_elem_of_filter, list_elem_of_fmap. split.
  - intros [H|[Ho (x & -> & Hx)]]; [by apply elem_of_nil in H|eauto].
  - intros (x & Hx & -> & Ho). right. eauto.
Qed.

(** The nodes of the odd indices. *)
Definition odd_nodes (m : gmap Z Z) (xs : list Z) : list (Z * Z) :=
  map (λ i, (default 0 (m !! i), to_int i)) (odd_indices xs).

Lemma odd_nodes_in h0 nodes leaked h m xs :
  ix_rep h0 nodes leaked h m → (∀ x, x ∈ xs → x ∈ map snd nodes) →
  odd_nodes m xs ⊆ nodes ++ leaked.
Proof.
  intros HR Hin [p v] (i & [= -> ->] & Hi)%list_elem_of_fmap.
  apply odd_indices_spec in Hi as (x & Hx & -> & _).
  destruct (ix_present _ _ _ _ _ x HR) as (p & n1 & n2 & Hn & _ & Hp); [by apply Hin|].
  assert ((p, x) ∈ nodes) as Hpx by (rewrite Hn; apply elem_of_mid).
  rewrite Hp, to_int_u64 by (by eapply (ir_int _ _ _ _ _ HR)). simpl.
  apply elem_of_app. by left.
Qed.

(** The part of the log the two functions share, up to the marked items. *)
Definition index_log (tag_fmt : string) (xs : list Z) : list (string * list Z) :=
  map (line1 "Inserted element: %d ") xs ++ map (line1 "Element found: %d ") xs ++
  tag_lines tag_fmt xs.

Section radix_proofs.
Context `{RA : RadixApi} (kmalloc_at : kheap Z → Z) {HA : Allocator kmalloc_at}.
Context (enough : ∀ h, kmalloc_at h ≠ 0).
Context (room : ∀ i p t, items t !! i = None → fst (radix_tree_insert i p t) = 0).
Implicit Types (h : kheap Z) (lg : list (string * list Z)) (t : radix_tree_root).

Lemma add_radix_ok h0 xs nodes leaked h lg t :
  ix_rep h0 nodes leaked h (items t) → (∀ x, x ∈ xs → is_int x) →
  ∃ nodes' leaked' h' t',
    for_each xs (add_radix_node kmalloc_at) (Kern h lg, t) =
      (Ret tt, (Kern h' (lg ++ map (line1 "Inserted element: %d ") xs), t')) ∧
    ix_rep h0 nodes' leaked' h' (items t') ∧ (∀ tag, tagged t' tag = tagged t tag) ∧
    (∀ x, x ∈ map snd nodes' ↔ x ∈ map snd nodes ∨ x ∈ xs) ∧
    (length nodes' + length leaked' = length xs + (length nodes + length leaked))%nat.
Proof.
  revert nodes leaked h lg t. induction xs as [|x xs IH]; intros nodes leaked h lg t HR Hint.
  { exists nodes, leaked, h, t. rewrite app_nil_r. split_and!; try done.
    intros x. rewrite elem_of_nil. tauto. }
  assert (is_int x) as Hx by (apply Hint; by left).
  assert (∀ y, y ∈ xs → is_int y) as Hint' by (intros; apply Hint; by right).
  pose proof (alloc_fresh kmalloc_at h (enough h)) as Hp.
  pose proof (enough h) as Hp0. set (p := kmalloc_at h) in *.
  set (t1 := snd (radix_tree_insert (u64 x) p t)).
  assert (∃ nodes1 leaked1, ix_rep h0 nodes1 leaked1 (<[p := Some x]> h) (items t1) ∧
    (∀ y, y ∈ map snd nodes1 ↔ y ∈ map snd nodes ∨ y = x) ∧
    (length nodes1 + length leaked1 = S (length nodes + length leaked))%nat)
    as (nodes1 & leaked1 & HR1 & Hv1 & Hl1).
  { unfold t1. rewrite items_insert.
    destruct (Z.eqb_spec (fst (radix_tree_insert (u64 x) p t)) 0) as [Hr|Hr].
    - exists ((p, x) :: nodes), leaked. split; [|split].
      + apply radix_insert_ret in Hr. by apply ix_new.
      + intros y. simpl. rewrite elem_of_cons. tauto.
      + done.
    - exists nodes, ((p, x) :: leaked). split; [by apply ix_leak|]. split; [|simpl; lia].
      intros y. split; [by left|]. intros [?| ->]; [done|].
      destruct (decide (x ∈ map snd nodes)) as [|Hn]; [done|].
      destruct Hr. apply room. by eapply ix_absent. }
  destruct (IH nodes1 leaked1 _ (lg ++ [line1 "Inserted element: %d " x]) t1 HR1 Hint')
    as (nodes' & leaked' & h' & t' & Hf & HR' & Htag & Hv & Hl).
  exists nodes', leaked', h', t'. split; [|split; [done|split; [|split]]].
  - rewrite <- app_assoc in Hf. eapply for_each_run; [|exact Hf].
    unfold add_radix_node. rewrite new_object by done. fold p.
    do 2 (eapply bind_run; [by apply kload_ok, lookup_insert_eq|]; cbv beta; try mstep). done.
  - intros tag. rewrite Htag. apply tagged_insert.
  - intros y. rewrite Hv, Hv1, elem_of_cons. tauto.
  - simpl. lia.
Qed.

Lemma tag_radix_ok h0 xs nodes leaked h lg t :
  ix_rep h0 nodes leaked h (items t) → (∀ x, x ∈ xs → x ∈ map snd nodes) →
  ∃ t', tag_radix_tree xs (Kern h lg, t) =
      (Ret tt, (Kern h (lg ++ tag_lines "Tagging element: %lu " xs), t')) ∧
    items t' = items t ∧
    ∀ i, i ∈ tagged t' 1 ↔ i ∈ tagged t 1 ∨ i ∈ filter (λ i, i mod 2 = 1) (map u64 xs).
Proof.
  unfold tag_radix_tree, tag_lines. revert lg t. induction xs as [|x xs IH]; intros lg t HR Hin.
  { exists t. rewrite app_nil_r. split_and!; try done. intros i. rewrite elem_of_nil. tauto. }
  assert (∀ y, y ∈ xs → y ∈ map snd nodes) as Hin' by (intros; apply Hin; by right).
  simpl map. rewrite filter_cons. destruct (decide (u64 x mod 2 = 1)) as [Ho|Ho].
  - destruct (IH (lg ++ [line1 "Tagging element: %lu " (u64 x)]) (radix_tree_tag_set (u64 x) 1 t))
      as (t' & Hf & Hit & Htag); [by rewrite items_tag_set|done|].
    destruct (ix_present _ _ _ _ _ x HR) as (p & n1 & n2 & _ & _ & Hp); [apply Hin; by left|].
    exists t'. split; [|split; [by rewrite Hit, items_tag_set|]].
    + rewrite <- app_assoc in Hf. eapply for_each_run; [|exact Hf].
      unfold tag_radix_item. apply Z.eqb_eq in Ho. by rewrite Ho.
    + intros i. rewrite Htag, tagged_tag_set by eauto. rewrite elem_of_cons. tauto.
  - destruct (IH lg t HR Hin') as (t' & Hf & Hit & Htag). exists t'. split; [|done].
    eapply for_each_run; [|exact Hf].
    unfold tag_radix_item. apply Z.eqb_neq in Ho. by rewrite Ho.
Qed.

(** The state after the insertions, the lookups and the tags. *)
Lemma build_radix_ok xs h lg :
  (∀ x, x ∈ xs → is_int x) →
  ∃ nodes leaked h1 t1,
    ix_rep h nodes leaked h1 (items t1) ∧ (∀ x, x ∈ map snd nodes ↔ x ∈ xs) ∧
    tagged t1 1 = odd_indices xs ∧
    (length leaked + length (insert_ints [] xs) = length xs)%nat ∧
    ∀ f : unit → M (kern Z * radix_tree_root) unit,
    (for_each xs (add_radix_node kmalloc_at);; lookup_radix_tree xs;; tag_radix_tree xs ≫= f)
      (Kern h lg, RADIX_TREE) =
    f tt (Kern h1 (lg ++ index_log "Tagging element: %lu " xs), t1).
Proof.
  intros Hint.
  destruct (add_radix_ok h xs [] [] h lg RADIX_TREE) as (nodes & leaked & h1 & t & Hadd & HR & Ht & Hv & Hl).
  { split; [apply owns_nil|by intros ? ? ?%elem_of_nil|]. intros i p. rewrite items_empty.
    split; [by intros ?%lookup_empty_Some|]. by intros (v & ?%elem_of_nil & _). }
  { done. }
  assert (∀ x, x ∈ map snd nodes ↔ x ∈ xs) as Hvals.
  { intros x. rewrite Hv, elem_of_nil. tauto. }
  destruct (tag_radix_ok h xs nodes leaked h1
    ((lg ++ map (line1 "Inserted element: %d ") xs) ++ map (line1 "Element found: %d ") xs) t HR)
    as (t1 & Htagrun & Hit & Htag); [by intros; apply Hvals|].
  exists nodes, leaked, h1, t1. split; [by rewrite Hit|]. split; [done|]. split; [|split].
  - apply sorted_ext; [apply tagged_sorted|apply insert_ints_sorted; constructor|].
    intros i. rewrite Htag, Ht, tagged_empty. unfold odd_indices. by rewrite elem_of_insert_ints.
  - rewrite <- (ix_length _ _ _ _ _ _ HR Hvals). simpl in Hl. lia.
  - intros f. mrun Hadd. eapply bind_run.
    { eapply (lookup_items_ok _ items radix_lookup_spec); [exact HR|]. by intros; apply Hvals. }
    cbv beta. mrun Htagrun. do 3 f_equal. unfold index_log. by rewrite <- !app_assoc.
Qed.

(** The exercise within the bounds of [results], for its caller as well. *)
Lemma radix_tree_runs {C} int_array h lg (c : C) :
  (∀ x, x ∈ int_array → is_int x) → (length (odd_indices int_array) ≤ 10)%nat →
  ∃ h' leaked,
    run_radix_tree kmalloc_at int_array (Kern h lg, c) =
      (Ret tt, (Kern h' (lg ++ index_log "Tagging element: %lu " int_array ++
         line1 "Count of tagged items gang looked up: %d " (Z.of_nat (length (odd_indices int_array))) ::
         map (line1 "Tagged item gang looked up: %d ") (map to_int (odd_indices int_array)) ++
         delete_log (insert_ints [] int_array) int_array ++
         ("*** Initiating re-lookup for all elements ***", []) ::
         map (λ x, line1 "Element not found: %lu " (u64 x)) int_array), c)) ∧
    owns h h' leaked ∧
    (length leaked + length (insert_ints [] int_array) = length int_array)%nat.
Proof.
  intros Hint Hodd.
  destruct (build_radix_ok int_array h lg Hint) as (nodes & leaked & h1 & t1 & HR & Hv & Htag & Hl & Hrun).
  set (odds := odd_indices int_array) in *.
  set (lg1 := lg ++ index_log "Tagging element: %lu " int_array) in *.
  set (lg2 := (lg1 ++ [line1 "Count of tagged items gang looked up: %d " (Z.of_nat (length odds))]) ++
              map (line1 "Tagged item gang looked up: %d ") (map to_int odds)).
  assert (lookup_tagged_tree (Kern h1 lg1, t1) = (Ret tt, (Kern h1 lg2, t1))) as Htagged.
  { unfold lookup_tagged_tree. mstep. cbv zeta. rewrite gang_lookup_spec, Htag.
    rewrite list_filter_true, take_ge, length_map.
    2: { change (Z.to_nat 100) with 100%nat. lia. }
    2: { intros i (x & _ & -> & _)%odd_indices_spec. apply u64_range. }
    destruct (Z.leb_spec (Z.of_nat (length odds)) 10); [|lia]. mstep. prints.
    replace (map (λ i, default 0 (items t1 !! i)) odds) with (map fst (odd_nodes (items t1) int_array))
      by (unfold odd_nodes; rewrite map_map; done).
    rewrite (print_objects _ h h1 (nodes ++ leaked)); [|apply HR|].
    - unfold odd_nodes. by rewrite map_map, map_map; unfold lg2; rewrite map_map.
    - eapply odd_nodes_in; [exact HR|]. by intros; apply Hv. }
  destruct (remove_items_ok radix_tree_delete items radix_delete_ret items_delete h nodes leaked h1
    lg2 t1 (insert_ints [] int_array) int_array HR Hint) as (nodes2 & h2 & t2 & Hrm & HR2 & Hv2).
  { intros x. rewrite Hv, elem_of_insert_ints, elem_of_nil. tauto. }
  assert (nodes2 = []) as ->.
  { destruct nodes2 as [|[p v] n]; [done|]. destruct (Hv2 v) as [Hin Hout]; [by left|].
    by destruct Hout; apply Hv. }
  exists h2, leaked. split; [|split; [apply (ir_owns _ _ _ _ _ HR2)|done]].
  eapply with_local_run. rewrite Hrun. mrun Htagged. mrun Hrm. prints.
  unfold lookup_radix_tree.
  rewrite (lookup_items_none _ items radix_lookup_spec h leaked) by done.
  do 3 f_equal. unfold lg2, lg1. app_eq.
Qed.

(** C18: [run_radix_tree], with at most 10 different odd integers: every
    integer is found, the gang lookup prints the odd ones in the order of
    their index, each integer is deleted at its first occurrence and none is
    found afterwards.  The failure of the insertion of a duplicate is not
    noticed (it is logged as inserted) and its object is leaked: what is left
    allocated is one object per duplicate. *)
Theorem run_radix_tree_ok {C} int_array h lg (c : C) :
  (∀ x, x ∈ int_array → is_int x) → (length (odd_indices int_array) ≤ 10)%nat →
  ∃ h' leaked,
    run_radix_tree kmalloc_at int_array (Kern h lg, c) =
      (Ret tt, (Kern h' (lg ++ index_log "Tagging element: %lu " int_array ++
         line1 "Count of tagged items gang looked up: %d " (Z.of_nat (length (odd_indices int_array))) ::
         map (line1 "Tagged item gang looked up: %d ") (map to_int (odd_indices int_array)) ++
         delete_log (insert_ints [] int_array) int_array ++
         ("*** Initiating re-lookup for all elements ***", []) ::
         map (λ x, line1 "Element not found: %lu " (u64 x)) int_array), c)) ∧
    owns h h' leaked ∧
    (length leaked + length (insert_ints [] int_array) = length int_array)%nat.
Proof. intros Hint Hodd. by apply radix_tree_runs. Qed.

(** With more than 10 different odd integers the gang lookup stores past
    the end of the array [results] on the stack. *)
Lemma run_radix_tree_overflow {C} int_array h lg (c : C) :
  (∀ x, x ∈ int_array → is_int x) → (10 < length (odd_indices int_array))%nat →
  ∃ h', run_radix_tree kmalloc_at int_array (Kern h lg, c) =
    (Stop OutOfBounds, (Kern h' (lg ++ index_log "Tagging element: %lu " int_array), c)).
Proof.
  intros Hint Hodd.
  destruct (build_radix_ok int_array h lg Hint) as (nodes & leaked & h1 & t1 & HR & Hv & Htag & Hl & Hrun).
  exists h1. eapply with_local_run. rewrite Hrun. apply bind_Stop.
  unfold lookup_tagged_tree. mstep. cbv zeta. rewrite gang_lookup_spec, Htag.
  rewrite list_filter_true.
  2: { intros i (x & _ & -> & _)%odd_indices_spec. apply u64_range. }
  rewrite length_map, length_take. change (Z.to_nat 100) with 100%nat.
  destruct (Z.leb_spec (Z.of_nat (100 `min` length (odd_indices int_array))) 10); [lia|done].
Qed.
End radix_proofs.

Section xarray_proofs.
Context `{XA : XaApi} (kmalloc_at : kheap Z → Z) {HA : Allocator kmalloc_at}.
Context (enough : ∀ h, kmalloc_at h ≠ 0).
Context (stored : ∀ i p t, fst (xa_store i p t) = true).
Implicit Types (h : kheap Z) (lg : list (string * list Z)) (t : xarray).

Lemma xa_store_ok h0 nodes leaked h t p x :
  ix_rep h0 nodes leaked h (slots t) → is_int x → p ≠ 0 → h !! p = None →
  ∃ nodes' leaked', ix_rep h0 nodes' leaked' (<[p := Some x]> h) (slots (snd (xa_store (u64 x) p t))) ∧
    (∀ y, y ∈ map snd nodes' ↔ y ∈ map snd nodes ∨ y = x) ∧
    (length nodes' + length leaked' = S (length nodes + length leaked))%nat.
Proof.
  intros HR Hx Hp0 Hp. rewrite slots_store, stored.
  destruct (decide (x ∈ map snd nodes)) as [Hin|Hin].
  - destruct (ix_present _ _ _ _ _ x HR Hin) as (q & n1 & n2 & -> & Hnot & Hq).
    exists ((p, x) :: n1 ++ n2), ((q, x) :: leaked). split; [|split].
    + rewrite <- (insert_delete_eq (slots t)). apply ix_new; [by apply ix_drop|done..|].
      apply lookup_delete_eq.
    + intros y. rewrite !map_app. simpl. rewrite elem_of_cons, map_app, !elem_of_app, elem_of_cons.
      tauto.
    + simpl. rewrite !length_app. simpl. lia.
  - exists ((p, x) :: nodes), leaked. split; [|split].
    + apply ix_new; [done..|]. by eapply ix_absent.
    + intros y. simpl. rewrite elem_of_cons. tauto.
    + done.
Qed.

Lemma add_xarray_ok h0 xs nodes leaked h lg t :
  ix_rep h0 nodes leaked h (slots t) → (∀ x, x ∈ xs → is_int x) →
  ∃ nodes' leaked' h' t',
    for_each xs (add_xarray_node kmalloc_at) (Kern h lg, t) =
      (Ret tt, (Kern h' (lg ++ map (line1 "Inserted element: %d ") xs), t')) ∧
    ix_rep h0 nodes' leaked' h' (slots t') ∧ (∀ i, i ∈ marked t' → i ∈ marked t) ∧
    (∀ x, x ∈ map snd nodes' ↔ x ∈ map snd nodes ∨ x ∈ xs) ∧
    (length nodes' + length leaked' = length xs + (length nodes + length leaked))%nat.
Proof.
  revert nodes leaked h lg t. induction xs as [|x xs IH]; intros nodes leaked h lg t HR Hint.
  { exists nodes, leaked, h, t. rewrite app_nil_r. split_and!; try done.
    intros x. rewrite elem_of_nil. tauto. }
  assert (∀ y, y ∈ xs → is_int y) as Hint' by (intros; apply Hint; by right).
  pose proof (alloc_fresh kmalloc_at h (enough h)) as Hp.
  destruct (xa_store_ok h0 nodes leaked h t (kmalloc_at h) x HR) as (nodes1 & leaked1 & HR1 & Hv1 & Hl1);
    [apply Hint; by left|done..|].
  destruct (IH nodes1 leaked1 _ (lg ++ [line1 "Inserted element: %d " x]) _ HR1 Hint')
    as (nodes' & leaked' & h' & t' & Hf & HR' & Hmk & Hv & Hl).
  exists nodes', leaked', h', t'. split; [|split; [done|split; [|split]]].
  - rewrite <- app_assoc in Hf. eapply for_each_run; [|exact Hf].
    unfold add_xarray_node. rewrite new_object by done.
    do 2 (eapply bind_run; [by apply kload_ok, lookup_insert_eq|]; cbv beta; try mstep). done.
  - intros i Hi. by eapply marked_store, Hmk.
  - intros y. rewrite Hv, Hv1, elem_of_cons. tauto.
  - simpl. lia.
Qed.

Lemma tag_xarray_ok h0 xs nodes leaked h lg t :
  ix_rep h0 nodes leaked h (slots t) → (∀ x, x ∈ xs → x ∈ map snd nodes) →
  ∃ t', tag_xarray xs (Kern h lg, t) =
      (Ret tt, (Kern h (lg ++ tag_lines "Tagged element: %lu " xs), t')) ∧
    slots t' = slots t ∧
    ∀ i, i ∈ marked t' ↔ i ∈ marked t ∨ i ∈ filter (λ i, i mod 2 = 1) (map u64 xs).
Proof.
  unfold tag_xarray, tag_lines. revert lg t. induction xs as [|x xs IH]; intros lg t HR Hin.
  { exists t. rewrite app_nil_r. split_and!; try done. intros i. rewrite elem_of_nil. tauto. }
  assert (∀ y, y ∈ xs → y ∈ map snd nodes) as Hin' by (intros; apply Hin; by right).
  simpl map. rewrite filter_cons. destruct (decide (u64 x mod 2 = 1)) as [Ho|Ho].
  - destruct (IH (lg ++ [line1 "Tagged element: %lu " (u64 x)]) (xa_set_mark (u64 x) t))
      as (t' & Hf & Hit & Htag); [by rewrite slots_set_mark|done|].
    destruct (ix_present _ _ _ _ _ x HR) as (p & n1 & n2 & _ & _ & Hp); [apply Hin; by left|].
    exists t'. split; [|split; [by rewrite Hit, slots_set_mark|]].
    + rewrite <- app_assoc in Hf. eapply for_each_run; [|exact Hf].
      unfold tag_xarray_item. apply Z.eqb_eq in Ho. by rewrite Ho.
    + intros i. rewrite Htag, marked_set_mark by eauto. rewrite elem_of_cons. tauto.
  - destruct (IH lg t HR Hin') as (t' & Hf & Hit & Htag). exists t'. split; [|done].
    eapply for_each_run; [|exact Hf].
    unfold tag_xarray_item. apply Z.eqb_neq in Ho. by rewrite Ho.
Qed.

Lemma lookup_tagged_ok h0 nodes leaked h lg t xs :
  ix_rep h0 nodes leaked h (slots t) → (∀ x, x ∈ xs → x ∈ map snd nodes) →
  marked t = odd_indices xs →
  lookup_tagged (Kern h lg, t) =
    (Ret tt, (Kern h (lg ++ map (line1 "Tag looked up element : %d ")
                              (map to_int (odd_indices xs))), t)).
Proof.
  intros HR Hin Hmk. unfold lookup_tagged. mstep. rewrite Hmk.
  assert (∀ (l : list Z) (f : Z → M (kern Z * xarray) unit), for_each l (λ i, f (xa_load t i)) =
    for_each (map fst (map (λ i, (default 0 (slots t !! i), to_int i)) l)) f) as Hmap.
  { induction l as [|i l IH]; intros f; [done|]. simpl. rewrite IH. by rewrite xa_load_spec. }
  rewrite (Hmap _ (λ p, (value ← load p; printk "Tag looked up element : %d " [value]))).
  rewrite (print_objects _ h0 h (nodes ++ leaked)); [|apply HR|by eapply odd_nodes_in].
  by rewrite (map_map _ snd).
Qed.

(** The exercise, for its caller as well. *)
Lemma xarray_runs {C} int_array h lg (c : C) :
  (∀ x, x ∈ int_array → is_int x) →
  ∃ h' leaked,
    run_xarray kmalloc_at int_array (Kern h lg, c) =
      (Ret tt, (Kern h' (lg ++ index_log "Tagged element: %lu " int_array ++
         map (line1 "Tag looked up element : %d ") (map to_int (odd_indices int_array)) ++
         delete_log (insert_ints [] int_array) int_array), c)) ∧
    owns h h' leaked ∧
    (length leaked + length (insert_ints [] int_array) = length int_array)%nat.
Proof.
  intros Hint.
  destruct (add_xarray_ok h int_array [] [] h lg DEFINE_XARRAY)
    as (nodes & leaked & h1 & t & Hadd & HR & Hmk & Hv & Hl).
  { split; [apply owns_nil|by intros ? ? ?%elem_of_nil|]. intros i p. rewrite slots_empty.
    split; [by intros ?%lookup_empty_Some|]. by intros (v & ?%elem_of_nil & _). }
  { done. }
  assert (∀ x, x ∈ map snd nodes ↔ x ∈ int_array) as Hvals.
  { intros x. rewrite Hv, elem_of_nil. tauto. }
  assert (∀ x, x ∈ int_array → x ∈ map snd nodes) as Hvals' by (intros; by apply Hvals).
  destruct (tag_xarray_ok h int_array nodes leaked h1
    ((lg ++ map (line1 "Inserted element: %d ") int_array) ++
     map (line1 "Element found: %d ") int_array) t HR Hvals') as (t1 & Htagrun & Hit & Htag).
  assert (marked t1 = odd_indices int_array) as Hodd.
  { apply sorted_ext; [apply marked_sorted|apply insert_ints_sorted; constructor|].
    intros i. rewrite Htag. unfold odd_indices. rewrite elem_of_insert_ints.
    assert (i ∉ marked t) as Hno.
    { intros Hi%Hmk. rewrite marked_empty in Hi. by apply elem_of_nil in Hi. }
    rewrite elem_of_nil. tauto. }
  rewrite <- Hit in HR.
  destruct (remove_items_ok xa_erase slots xa_erase_ret slots_erase h nodes leaked h1
    ((((lg ++ map (line1 "Inserted element: %d ") int_array) ++
       map (line1 "Element found: %d ") int_array) ++ tag_lines "Tagged element: %lu " int_array) ++
     map (line1 "Tag looked up element : %d ") (map to_int (odd_indices int_array)))
    t1 (insert_ints [] int_array) int_array HR Hint) as (nodes2 & h2 & t2 & Hrm & HR2 & Hv2).
  { intros x. rewrite Hvals, elem_of_insert_ints, elem_of_nil. tauto. }
  assert (nodes2 = []) as ->.
  { destruct nodes2 as [|[p v] n]; [done|]. destruct (Hv2 v) as [Hin Hout]; [by left|].
    by destruct Hout; apply Hvals. }
  exists h2, leaked. split; [|split; [apply (ir_owns _ _ _ _ _ HR2)|]].
  - eapply with_local_run. mrun Hadd. eapply bind_run.
    { eapply (lookup_items_ok _ slots xa_load_spec); [rewrite <- Hit; exact HR|done]. }
    cbv beta. mrun Htagrun.
    eapply bind_run; [by eapply (lookup_tagged_ok h nodes leaked)|]. cbv beta.
    unfold remove_xarray. rewrite Hrm. do 3 f_equal. unfold index_log. app_eq.
  - rewrite <- (ix_length _ _ _ _ _ _ HR Hvals). simpl in Hl. lia.
Qed.

(** C19: [run_xarray], when no allocation fails, those of [xa_store] included:
    it finds every integer, prints the odd ones in the order of their index, and
    deletes each at its first occurrence.  A duplicate replaces the entry of its
    index and the object replaced is leaked: what is left allocated is one
    object per duplicate. *)
Theorem run_xarray_ok {C} int_array h lg (c : C) :
  (∀ x, x ∈ int_array → is_int x) →
  ∃ h' leaked,
    run_xarray kmalloc_at int_array (Kern h lg, c) =
      (Ret tt, (Kern h' (lg ++ index_log "Tagged element: %lu " int_array ++
         map (line1 "Tag looked up element : %d ") (map to_int (odd_indices int_array)) ++
         delete_log (insert_ints [] int_array) int_array), c)) ∧
    owns h h' leaked ∧
    (length leaked + length (insert_ints [] int_array) = length int_array)%nat.
Proof. intros Hint. by apply xarray_runs. Qed.
End xarray_proofs.

Lemma model_room i p t :
  items t !! i = None → fst (radix_tree_insert (RadixApi := model_radix) i p t) = 0.
Proof. simpl. by intros ->. Qed.

Lemma model_stored i p t : fst (xa_store (XaApi := model_xa) i p t) = true.
Proof. reflexivity. Qed.

Lemma run_radix_tree_ok_witness :
  ∃ h' leaked,
    run_radix_tree top_addr [7; 4; 7] (Kern ∅ [], tt) =
      (Ret tt, (Kern h' (index_log "Tagging element: %lu " [7; 4; 7] ++
         line1 "Count of tagged items gang looked up: %d " 1 ::
         [line1 "Tagged item gang looked up: %d " 7;
          line1 "Element deleted: %d " 7; line1 "Element deleted: %d " 4;
          line1 "Element to delete not found: %lu " 7;
          ("*** Initiating re-lookup for all elements ***", []);
          line1 "Element not found: %lu " 7; line1 "Element not found: %lu " 4;
          line1 "Element not found: %lu " 7]), tt)) ∧
    owns ∅ h' leaked ∧ (length leaked + length (insert_ints [] [7; 4; 7]%Z) = 3)%nat.
Proof.
  apply (run_radix_tree_ok top_addr top_enough model_room [7; 4; 7] ∅ [] tt).
  - intros x Hx. repeat (apply elem_of_cons in Hx as [->|Hx]; [done|]). by apply elem_of_nil in Hx.
  - vm_compute. lia.
Defined.

Lemma run_radix_tree_overflow_witness :
  let xs := [1; 3; 5; 7; 9; 11; 13; 15; 17; 19; 21] in
  ∃ h', run_radix_tree top_addr xs (Kern ∅ [], tt) =
    (Stop OutOfBounds, (Kern h' (index_log "Tagging element: %lu " xs), tt)).
Proof.
  intros xs. apply (run_radix_tree_overflow top_addr top_enough model_room xs ∅ [] tt).
  - intros x Hx. repeat (apply elem_of_cons in Hx as [->|Hx]; [done|]). by apply elem_of_nil in Hx.
  - vm_compute. lia.
Defined.

Lemma run_xarray_ok_witness :
  ∃ h' leaked,
    run_xarray top_addr [7; 4; 7] (Kern ∅ [], tt) =
      (Ret tt, (Kern h' (index_log "Tagged element: %lu " [7; 4; 7] ++
         [line1 "Tag looked up element : %d " 7;
          line1 "Element deleted: %d " 7; line1 "Element deleted: %d " 4;
          line1 "Element to delete not found: %lu " 7]), tt)) ∧
    owns ∅ h' leaked ∧ (length leaked + length (insert_ints [] [7; 4; 7]%Z) = 3)%nat.
Proof.
  apply (run_xarray_ok top_addr top_enough model_stored [7; 4; 7] ∅ [] tt).
  intros x Hx. repeat (apply elem_of_cons in Hx as [->|Hx]; [done|]). by apply elem_of_nil in Hx.
Defined.
