(* ===== verification/Kds.v ===== *)
(** The module of [kds.c]: the parameter string, its conversion to integers,
    the bitmap, and [lkp_init], which runs every container on the integers. *)
From S2P Require Import Prelude CInt CString Kernel KernelModel.
From S2P Require Import KdsList KdsHash KdsRb KdsMaps.
Local Open Scope Z_scope.

(** ** The integers of the string *)

(** The count [lkp_init] makes: one per space, and one for what follows the
    last space. *)
Definition count_integers (int_str : bytes) : Z :=
  Z.of_nat (length (filter (λ c, c = 32) int_str)) +
  match last int_str with
  | Some c => if c =? 32 then 0 else 1
  | None => 0
  end.

(** [int_array[j] = sum] *)
Definition store_int (j sum : Z) : M (list Z) unit :=
  a ← get;
  check ((0 <=? j) && (j <? Z.of_nat (length a))) OutOfBounds;;
  put (<[Z.to_nat j := sum]> a).

(** The kernel is compiled with wrapping [int] arithmetic; [char] is signed. *)
Fixpoint convert_loop (s : bytes) (count j sum : Z) : M (list Z) unit :=
  match s with
  | [] => store_int j sum
  | c :: s' =>
      if j <? count then
        if c =? 32 then store_int j sum;; convert_loop s' count (j + 1) 0
        else convert_loop s' count j (s32 (s32 (sum * 10) + (s8 c - 48)))
      else store_int j sum
  end.

Definition convert_str_to_integers (int_str : bytes) (count : Z) : M (list Z) unit :=
  convert_loop int_str count 0 0.

(** ** The bitmap *)
Section bitmap.
Context `{BA : BitmapApi}.

Abbreviation st := (kern Z * bitmap)%type.

(** A bitmap of 10 bits is one [unsigned long]. *)
Definition BITS_PER_LONG : Z := 64.

(** [while (number > 0)]; an [int] has 31 bits. *)
Fixpoint set_bits (fuel : nat) (number bit : Z) : M st unit :=
  if 0 <? number then
    match fuel with
    | O => stop OutOfFuel
    | S f =>
        (if number mod 2 =? 1 then
           printk "Setting bit %lu" [bit];;
           check (bit <? BITS_PER_LONG) OutOfBounds;;
           on_container (set_bit bit)
         else mret tt);;
        set_bits f (number / 2) (bit + 1)
    end
  else mret tt.

Definition run_bitmap {C} (int_array : list Z) : M (kern Z * C) unit :=
  with_local bitmap_zero (
    for_each int_array (λ number,
      printk "Inserting integer %d into bitmap" [number];; set_bits 31 number 0);;
    printk "****** Printing all the set bits ******" [];;
    mybitmap ← container;
    for_each (filter (λ bit, test_bit bit mybitmap = true) (seqZ 0 10))
      (λ bit, printk "%lu " [bit]);;
    on_container (λ _, bitmap_zero);;
    printk "Cleared all the bits in bitmap" []).
End bitmap.

(** ** The module *)
Section module.
Context `{LA : ListApi} `{HH : HashApi HASH_BITS} `{RB : RbApi} `{RA : RadixApi} `{XA : XaApi}.
Context `{BA : BitmapApi} (kmalloc_at : kheap Z → Z) (freed : Z → outcome Z).

(** The array of integers: [None] when [kmalloc] fails, or its contents. *)
Context (kmalloc_array : Z → option (list Z)).

Definition run_containers (int_array : list Z) : M (kern Z * hashtable) unit :=
  printk "**** Initiating Linked List Operations **** " [];;
  run_linked_list kmalloc_at int_array;;
  printk "**** Initiating Hash Table Operations **** " [];;
  run_hash_table kmalloc_at freed int_array;;
  printk "**** Initiating Red Black Trees Operations **** " [];;
  run_redblack_trees kmalloc_at freed int_array;;
  printk "**** Initiating Radix Tree Operations **** " [];;
  run_radix_tree kmalloc_at int_array;;
  printk "**** Initiating X Array Operations **** " [];;
  run_xarray kmalloc_at int_array;;
  printk "**** Initiating Bitmap Operations **** " [];;
  run_bitmap int_array.

Definition lkp_init (int_str : bytes) : M (kern Z * hashtable) Z :=
  printk "Module loaded ..." [];;
  printk "The init string is %s ..." int_str;;
  let count := count_integers int_str in
  printk "Number of integers : %d " [count];;
  match kmalloc_array count with
  | None => stop NullDeref
  | Some a =>
      match convert_str_to_integers int_str count a with
      | (Stop e, _) => stop e
      | (Ret _, int_array) =>
          for_each int_array (λ x, printk "Input Integers: %d" [x]);;
          run_containers int_array;;
          mret 0
      end
  end.

Definition lkp_exit : M (kern Z * hashtable) unit := printk "Module exiting ..." [].
End module.

(** ** Conversion *)

(** Integers as the user writes them: decimals separated by spaces. *)
Fixpoint join_ints (xs : list Z) : bytes :=
  match xs with
  | [] => []
  | [x] => fmt_lu x
  | x :: xs' => fmt_lu x ++ 32 :: join_ints xs'
  end.

Lemma join_cons x y xs : join_ints (x :: y :: xs) = fmt_lu x ++ 32 :: join_ints (y :: xs).
Proof. reflexivity. Qed.

Lemma last_app_ne {A} (l k : list A) : k ≠ [] → last (l ++ k) = last k.
Proof. intros Hk. destruct (exists_last Hk) as (k' & x & ->). by rewrite app_assoc, !last_snoc. Qed.

Lemma join_not_nil x xs : join_ints (x :: xs) ≠ [].
Proof.
  destruct xs as [|y xs]; [apply print_base_not_nil|]. rewrite join_cons.
  intros [H _]%app_eq_nil. by apply print_base_not_nil in H.
Qed.

Lemma digits_no_space n : 0 ≤ n → filter (λ c, c = 32) (fmt_lu n) = [].
Proof.
  intros Hn. pose proof (print_decimal_range n Hn) as H. unfold fmt_lu.
  induction H as [|c l Hc _ IH]; [done|]. by rewrite filter_cons_False by lia.
Qed.

Lemma count_join x xs :
  Forall (λ n, 0 ≤ n) (x :: xs) → count_integers (join_ints (x :: xs)) = Z.of_nat (length (x :: xs)).
Proof.
  revert x. induction xs as [|y xs IH]; intros x Hx; inversion Hx as [|? ? Hx0 Hxs]; subst.
  - unfold count_integers. simpl join_ints. rewrite digits_no_space by done.
    pose proof (print_decimal_range x Hx0) as Hd.
    destruct (last (fmt_lu x)) as [c|] eqn:E.
    + assert (c ∈ fmt_lu x) as Hc by (apply last_Some_elem_of; done).
      rewrite Forall_forall in Hd. specialize (Hd c Hc). destruct (Z.eqb_spec c 32); [lia|done].
    + apply last_None in E. by apply print_base_not_nil in E.
  - specialize (IH y Hxs). unfold count_integers in *. rewrite join_cons.
    rewrite filter_app, digits_no_space, filter_cons_True, app_nil_l by done.
    assert (last (fmt_lu x ++ 32 :: join_ints (y :: xs)) = last (join_ints (y :: xs))) as ->.
    { rewrite last_app_ne by done. apply (last_app_ne [32]), join_not_nil. }
    cbn [length] in *. lia.
Qed.

(** The digits of a number, in the loop. *)
Lemma convert_digits ds rest count j acc v :
  Forall (λ c, 48 ≤ c ≤ 57) ds → j < count → 0 ≤ acc →
  scan_digits 10 acc ds = (v, []) → v < 2 ^ 31 →
  convert_loop (ds ++ rest) count j acc = convert_loop rest count j v ∧ acc ≤ v.
Proof.
  intros Hds Hj. revert acc. induction Hds as [|c ds Hc Hds IH]; intros acc Hacc Hs Hv.
  - simpl in Hs. injection Hs as <-. done.
  - simpl in Hs.
    assert (digit_val c = Some (c - 48)) as Hd.
    { unfold digit_val. destruct (Z.leb_spec 48 c), (Z.leb_spec c 57); try lia. done. }
    rewrite Hd in Hs. destruct (Z.ltb_spec (c - 48) 10); [|lia].
    destruct (IH (acc * 10 + (c - 48))) as [IHrun IHle]; [lia|done|done|].
    split; [|lia]. cbn [app convert_loop]. destruct (Z.ltb_spec j count); [|lia].
    destruct (Z.eqb_spec c 32); [lia|].
    rewrite s8_small, (s32_small (acc * 10)), s32_small by lia. done.
Qed.

Lemma convert_number x rest count j :
  0 ≤ x < 2 ^ 31 → j < count →
  convert_loop (fmt_lu x ++ rest) count j 0 = convert_loop rest count j x.
Proof.
  intros Hx Hj. apply convert_digits; [apply print_decimal_range; lia|done|lia| |lia].
  unfold fmt_lu. pose proof (scan_print 10 x 0 [] ltac:(lia) ltac:(lia)) as H.
  rewrite app_nil_r in H. rewrite H. cbn [scan_digits]. f_equal; lia.
Qed.

Lemma store_int_ok pre a rest v :
  store_int (Z.of_nat (length pre)) v (pre ++ a :: rest) = (Ret tt, pre ++ v :: rest).
Proof.
  unfold store_int. mstep. rewrite length_app. cbn [length].
  destruct (Z.leb_spec 0 (Z.of_nat (length pre))); [|lia].
  destruct (Z.ltb_spec (Z.of_nat (length pre)) (Z.of_nat (length pre + S (length rest)))); [|lia].
  mstep. rewrite Nat2Z.id. unfold put. by rewrite insert_app_r_alt, Nat.sub_diag.
Qed.

Lemma convert_join xs pre rest :
  Forall (λ n, 0 ≤ n < 2 ^ 31) xs → xs ≠ [] → length rest = length xs →
  convert_loop (join_ints xs) (Z.of_nat (length pre + length xs)) (Z.of_nat (length pre)) 0
    (pre ++ rest) = (Ret tt, pre ++ xs).
Proof.
  revert pre rest. induction xs as [|x xs IH]; intros pre rest Hxs Hne Hl; [done|].
  inversion Hxs as [|? ? Hx Hxs']; subst. destruct rest as [|a rest]; [done|].
  destruct xs as [|y xs].
  - simpl join_ints. rewrite <- (app_nil_r (fmt_lu x)), convert_number by (simpl; lia).
    simpl convert_loop. destruct rest; [|done]. apply store_int_ok.
  - rewrite join_cons, convert_number by (simpl; lia).
    cbn [convert_loop]. destruct (Z.ltb_spec (Z.of_nat (length pre))
      (Z.of_nat (length pre + length (x :: y :: xs)))) as [|Hc]; [|simpl in Hc; lia].
    cbn [Z.eqb Pos.eqb]. eapply bind_run; [apply store_int_ok|]. cbv beta.
    specialize (IH (pre ++ [x]) rest Hxs').
    rewrite length_app, <- !app_assoc in IH. cbn [app length] in *.
    replace (Z.of_nat (length pre) + 1) with (Z.of_nat (length pre + 1)) by lia.
    replace (length pre + S (S (length xs)))%nat with (length pre + 1 + S (length xs))%nat by lia.
    apply IH; [done|lia].
Qed.

(** Counting and converting, for [lkp_init] as well. *)
Lemma convert_joined xs garbage :
  Forall (λ n, 0 ≤ n < 2 ^ 31) xs → xs ≠ [] → length garbage = length xs →
  count_integers (join_ints xs) = Z.of_nat (length xs) ∧
  convert_str_to_integers (join_ints xs) (count_integers (join_ints xs)) garbage = (Ret tt, xs).
Proof.
  intros Hxs Hne Hl.
  assert (count_integers (join_ints xs) = Z.of_nat (length xs)) as Hc.
  { destruct xs as [|x xs]; [done|]. apply count_join.
    eapply Forall_impl; [exact Hxs|]. simpl. lia. }
  split; [done|]. rewrite Hc. by apply (convert_join xs [] garbage).
Qed.

(** C21: from decimals of [int] separated by single spaces, [lkp_init] counts
    as many integers as there are and [convert_str_to_integers] fills the
    array with exactly those integers, whatever was in it. *)
Theorem convert_roundtrip xs garbage :
  Forall (λ n, 0 ≤ n < 2 ^ 31) xs → xs ≠ [] → length garbage = length xs →
  count_integers (join_ints xs) = Z.of_nat (length xs) ∧
  convert_str_to_integers (join_ints xs) (count_integers (join_ints xs)) garbage = (Ret tt, xs).
Proof. intros Hxs Hne Hl. by apply convert_joined. Qed.

(** The number of spaces; each closes an integer. *)
#[local] Abbreviation spaces s := (Z.of_nat (length (filter (λ c, c = 32) s))).

Lemma store_int_in j v a :
  0 ≤ j < Z.of_nat (length a) → store_int j v a = (Ret tt, <[Z.to_nat j := v]> a).
Proof.
  intros Hj. unfold store_int. mstep.
  destruct (Z.leb_spec 0 j), (Z.ltb_spec j (Z.of_nat (length a))); try lia. done.
Qed.

Lemma store_int_out j v a : Z.of_nat (length a) ≤ j → store_int j v a = (Stop OutOfBounds, a).
Proof.
  intros Hj. unfold store_int. mstep.
  destruct (Z.leb_spec 0 j), (Z.ltb_spec j (Z.of_nat (length a))); try lia; done.
Qed.

Lemma convert_loop_out s j sum a :
  0 ≤ j → j + spaces s = Z.of_nat (length a) →
  ∃ a', convert_loop s (Z.of_nat (length a)) j sum a = (Stop OutOfBounds, a').
Proof.
  revert j sum a. induction s as [|c s IH]; intros j sum a Hj Hs.
  { exists a. apply store_int_out. change (spaces []) with 0 in Hs. lia. }
  cbn [convert_loop]. destruct (Z.ltb_spec j (Z.of_nat (length a))) as [Hlt|Hge].
  - destruct (Z.eqb_spec c 32) as [->|Hc].
    + rewrite filter_cons_True in Hs by done. cbn [length] in Hs.
      destruct (IH (j + 1) 0 (<[Z.to_nat j := sum]> a)) as [a' Ha'];
        rewrite ?length_insert; [lia..|]. rewrite length_insert in Ha'.
      exists a'. eapply bind_run; [apply store_int_in; lia|exact Ha'].
    + rewrite filter_cons_False in Hs by done. by apply IH.
  - exists a. by apply store_int_out.
Qed.

Lemma convert_loop_in s j sum a :
  0 ≤ j → j + spaces s + 1 = Z.of_nat (length a) →
  ∃ a', convert_loop s (Z.of_nat (length a)) j sum a = (Ret tt, a') ∧ length a' = length a.
Proof.
  revert j sum a. induction s as [|c s IH]; intros j sum a Hj Hs.
  { change (spaces []) with 0 in Hs. simpl. rewrite store_int_in by lia.
    eexists. split; [done|]. apply length_insert. }
  cbn [convert_loop]. destruct (Z.ltb_spec j (Z.of_nat (length a))) as [Hlt|Hge]; [|lia].
  destruct (Z.eqb_spec c 32) as [->|Hc].
  - rewrite filter_cons_True in Hs by done. cbn [length] in Hs.
    destruct (IH (j + 1) 0 (<[Z.to_nat j := sum]> a)) as (a' & Ha' & Hl);
      rewrite ?length_insert; [lia..|]. rewrite length_insert in Ha', Hl.
    exists a'. split; [|done]. eapply bind_run; [apply store_int_in; lia|exact Ha'].
  - rewrite filter_cons_False in Hs by done. by apply IH.
Qed.

(** C38: with the count of [lkp_init] the conversion stays in the array
    exactly when the string is not empty and does not end in a space: the
    store after the loop is at the index [count] otherwise. *)
Theorem convert_bounds int_str garbage :
  Z.of_nat (length garbage) = count_integers int_str →
  if decide (int_str = [] ∨ last int_str = Some 32)
  then ∃ a, convert_str_to_integers int_str (count_integers int_str) garbage = (Stop OutOfBounds, a)
  else ∃ a, convert_str_to_integers int_str (count_integers int_str) garbage = (Ret tt, a) ∧
         length a = length garbage.
Proof.
  intros Hl. unfold convert_str_to_integers. rewrite <- Hl. unfold count_integers in Hl.
  destruct (last int_str) as [c|] eqn:E.
  - destruct (Z.eqb_spec c 32) as [->|Hc].
    + rewrite decide_True by auto. apply convert_loop_out; lia.
    + rewrite decide_False.
      2: { intros [->|H]; [done|]. congruence. }
      apply convert_loop_in; lia.
  - apply last_None in E as ->. rewrite decide_True by auto. apply convert_loop_out; lia.
Qed.

(** ** The bitmap *)

(** The binary digits of an integer, none for a negative one. *)
Definition bits_of (x : Z) : list Z :=
  filter (λ b, Z.testbit (Z.max 0 x) b = true) (seqZ 0 31).

(** The bits that stand for the digits set in some integer. *)
Definition union_bits (xs : list Z) : Z := foldr (λ x u, Z.lor (Z.max 0 x) u) 0 xs.

Section bitmap_proofs.
Context `{BA : BitmapApi}.
Implicit Types (h : kheap Z) (lg : list (string * list Z)) (b : bitmap).

(** The digits of [x / 2] are those of [x] one place further. *)
Lemma testbit_half x i k :
  0 < x → k + 1 ≤ i → Z.testbit (Z.max 0 (x / 2)) (i - (k + 1)) = Z.testbit (Z.max 0 x) (i - k).
Proof.
  intros Hx Hi. rewrite !Z.max_r by (try apply Z.div_pos; lia).
  change 2 with (2 ^ 1). rewrite <- Z.shiftr_div_pow2, Z.shiftr_spec by lia. f_equal. lia.
Qed.

Lemma testbit_first x k : 0 < x → Z.testbit (Z.max 0 x) (k - k) = (x mod 2 =? 1).
Proof.
  intros Hx. rewrite Z.sub_diag, Z.max_r, Z.bit0_odd, Zodd_mod by lia. done.
Qed.

Lemma set_bits_ok f x k h lg b :
  x < 2 ^ Z.of_nat f → 0 ≤ k → k + Z.of_nat f = 31 →
  ∃ b', set_bits f x k (Kern h lg, b) =
      (Ret tt, (Kern h (lg ++ map (line1 "Setting bit %lu")
         (filter (λ i, Z.testbit (Z.max 0 x) (i - k) = true) (seqZ k (Z.of_nat f)))), b')) ∧
    ∀ i, test_bit i b' = true ↔ test_bit i b = true ∨ (k ≤ i ∧ Z.testbit (Z.max 0 x) (i - k) = true).
Proof.
  revert x k lg b. induction f as [|f IH]; intros x k lg b Hx Hk Hf.
  { simpl in Hx. exists b. simpl. destruct (Z.ltb_spec 0 x); [lia|].
    rewrite app_nil_r. split; [done|]. intros i. rewrite Z.max_l, Z.bits_0 by lia.
    split; [by left|]. by intros [|[_ ?]]. }
  rewrite Nat2Z.inj_succ, Z.pow_succ_r in Hx by lia.
  cbn [set_bits]. destruct (Z.ltb_spec 0 x) as [Hpos|Hneg].
  - rewrite seqZ_cons by lia. rewrite Nat2Z.inj_succ, Z.pred_succ, filter_cons.
    set (first := x mod 2 =? 1).
    set (lg1 := lg ++ if first then [line1 "Setting bit %lu" k] else []).
    set (b1 := if first then set_bit k b else b).
    destruct (IH (x / 2) (k + 1) lg1 b1) as (b' & Hrun & Hb); [|lia..|].
    { apply Z.div_lt_upper_bound; lia. }
    exists b'. split.
    + eapply bind_run with (a := tt) (s' := (Kern h lg1, b1)).
      { unfold lg1, b1. destruct first; [|by rewrite app_nil_r].
        prints. unfold BITS_PER_LONG. destruct (Z.ltb_spec k 64); [|lia]. by mstep. }
      rewrite Hrun. unfold lg1. rewrite testbit_first by done. fold first.
      replace (filter (λ i, Z.testbit (Z.max 0 (x / 2)) (i - (k + 1)) = true) (seqZ (k + 1) (Z.of_nat f)))
        with (filter (λ i, Z.testbit (Z.max 0 x) (i - k) = true) (seqZ (Z.succ k) (Z.of_nat f))).
      * destruct first; simpl; by rewrite <- app_assoc.
      * apply filter_ext_in. intros i Hi%elem_of_seqZ. by rewrite testbit_half by lia.
    + intros i. rewrite Hb. unfold b1.
      destruct (decide (i = k)) as [->|Hne].
      * rewrite testbit_first by done. fold first.
        destruct first; [rewrite test_set, Z.eqb_refl; simpl|]; split; auto with lia.
        -- intros [?|[? _]]; [by left|lia].
        -- intros [?|[_ ?]]; [by left|done].
      * assert (test_bit i (if first then set_bit k b else b) = test_bit i b) as ->.
        { destruct first; [|done]. rewrite test_set. by destruct (Z.eqb_spec i k). }
        split; (intros [?|[Hi Ht]]; [by left|right]); (split; [lia|]).
        -- by rewrite <- testbit_half by lia.
        -- by rewrite testbit_half by lia.
  - exists b. rewrite list_filter_false, app_nil_r.
    2: { intros i _. by rewrite Z.max_l, Z.bits_0 by lia. }
    split; [done|]. intros i. rewrite Z.max_l, Z.bits_0 by lia. split; [by left|].
    by intros [|[_ ?]].
Qed.

Definition bitmap_log (xs : list Z) : list (string * list Z) :=
  concat (map (λ x, line1 "Inserting integer %d into bitmap" x ::
                    map (line1 "Setting bit %lu") (bits_of x)) xs) ++
  ("****** Printing all the set bits ******", []) ::
  map (line1 "%lu ") (filter (λ i, Z.testbit (union_bits xs) i = true) (seqZ 0 10)) ++
  [("Cleared all the bits in bitmap", [])].

Lemma insert_bits_ok xs h lg b :
  (∀ x, x ∈ xs → x < 2 ^ 31) →
  ∃ b', for_each xs (λ number,
      printk "Inserting integer %d into bitmap" [number];; set_bits 31 number 0) (Kern h lg, b) =
    (Ret tt, (Kern h (lg ++ concat (map (λ x, line1 "Inserting integer %d into bitmap" x ::
                    map (line1 "Setting bit %lu") (bits_of x)) xs)), b')) ∧
    ∀ i, 0 ≤ i → (test_bit i b' = true ↔ test_bit i b = true ∨ Z.testbit (union_bits xs) i = true).
Proof.
  revert lg b. induction xs as [|x xs IH]; intros lg b Hxs.
  { exists b. rewrite app_nil_r. split; [done|]. intros i Hi. simpl. rewrite Z.bits_0.
    split; [by left|]. by intros [|?]. }
  destruct (set_bits_ok 31 x 0 h (lg ++ [line1 "Inserting integer %d into bitmap" x]) b)
    as (b1 & Hrun & Hb1); [apply Hxs; by left|lia|done|].
  assert (∀ i, Z.testbit (Z.max 0 x) (i - 0) = Z.testbit (Z.max 0 x) i) as H0
    by (intros; by rewrite Z.sub_0_r).
  assert (filter (λ i, Z.testbit (Z.max 0 x) (i - 0) = true) (seqZ 0 31) = bits_of x) as Hbits.
  { apply filter_ext_in. intros i _. by rewrite H0. }
  change (Z.of_nat 31) with 31 in Hrun. rewrite Hbits in Hrun.
  destruct (IH ((lg ++ [line1 "Inserting integer %d into bitmap" x]) ++
                map (line1 "Setting bit %lu") (bits_of x)) b1) as (b' & Hf & Hb');
    [intros; apply Hxs; by right|].
  exists b'. split.
  - eapply for_each_run; [by prints; exact Hrun|]. rewrite Hf. cbn [map concat]. rewrite <- !app_assoc. done.
  - intros i Hi. rewrite Hb' by done. rewrite Hb1, H0. simpl union_bits.
    rewrite Z.lor_spec, orb_true_iff. tauto.
Qed.

(** The exercise, for its caller as well. *)
Lemma bitmap_runs {C} xs h lg (c : C) :
  (∀ x, x ∈ xs → x < 2 ^ 31) →
  run_bitmap xs (Kern h lg, c) = (Ret tt, (Kern h (lg ++ bitmap_log xs), c)).
Proof.
  intros Hxs. destruct (insert_bits_ok xs h lg bitmap_zero Hxs) as (b & Hrun & Hb).
  eapply with_local_run. mrun Hrun. prints. mstep.
  rewrite (filter_ext_in _ (λ i, Z.testbit (union_bits xs) i = true)).
  2: { intros i Hi%elem_of_seqZ. rewrite Hb, test_zero by lia.
       split; [by intros [?|?]|by right]. }
  assert (∀ l lg, for_each l (λ bit, printk "%lu " [bit]) (Kern h lg, b) =
    (Ret tt, (Kern h (lg ++ map (line1 "%lu ") l), b))) as Hprint.
  { induction l as [|i l IH]; intros lg'; [by rewrite app_nil_r|].
    eapply for_each_run; [apply printk_ok|]. rewrite IH. by rewrite <- app_assoc. }
  mrun (Hprint (filter (λ i, Z.testbit (union_bits xs) i = true) (seqZ 0 10))
    ((lg ++ concat (map (λ x, line1 "Inserting integer %d into bitmap" x ::
        map (line1 "Setting bit %lu") (bits_of x)) xs)) ++
     [("****** Printing all the set bits ******", [])])).
  mstep. rewrite printk_ok. unfold bitmap_log. do 3 f_equal. app_eq.
Qed.

(** C22: [run_bitmap] treats an integer as its set of binary digits: it sets
    the digits of all the integers in the one bitmap and prints those below
    10.  It does not mark the integers themselves. *)
Theorem run_bitmap_ok {C} xs h lg (c : C) :
  (∀ x, x ∈ xs → x < 2 ^ 31) →
  run_bitmap xs (Kern h lg, c) = (Ret tt, (Kern h (lg ++ bitmap_log xs), c)).
Proof. intros Hxs. by apply bitmap_runs. Qed.
End bitmap_proofs.


(** ** The module, whole *)
Section module_proofs.
Context `{LA : ListApi} `{HH : HashApi HASH_BITS} `{RB : RbApi} `{RA : RadixApi} `{XA : XaApi}.
Context `{BA : BitmapApi} (kmalloc_at : kheap Z → Z) {HA : Allocator kmalloc_at}.
Context (freed : Z → outcome Z) (kmalloc_array : Z → option (list Z)).
Implicit Types (h : kheap Z) (lg : list (string * list Z)) (t : hashtable).

Definition header_log (int_str : bytes) : list (string * list Z) :=
  [("Module loaded ...", []); ("The init string is %s ...", int_str);
   line1 "Number of integers : %d " (count_integers int_str)].

Lemma print_inputs_ok xs h lg t :
  for_each xs (λ x, printk "Input Integers: %d" [x]) (Kern h lg, t) =
    (Ret tt, (Kern (V := Z) h (lg ++ map (line1 "Input Integers: %d") xs), t)).
Proof.
  revert lg. induction xs as [|x xs IH]; intros lg; [by rewrite app_nil_r|].
  eapply for_each_run; [apply printk_ok|]. rewrite IH. by rewrite <- app_assoc.
Qed.

(** C23: loading the module, with a read of freed memory as the error it is,
    never succeeds.  On a string that is empty or ends in a space it stops in
    the conversion, before any container is used; on any other string it goes
    through the linked list and stops at the first deletion from the hash
    table. *)
Theorem lkp_init_strict int_str garbage h lg t :
  (∀ h, kmalloc_at h ≠ 0) → freed 0 = Stop UseAfterFree →
  kmalloc_array (count_integers int_str) = Some garbage →
  Z.of_nat (length garbage) = count_integers int_str →
  if decide (int_str = [] ∨ last int_str = Some 32)
  then lkp_init kmalloc_at freed kmalloc_array int_str (Kern h lg, t) =
         (Stop OutOfBounds, (Kern h (lg ++ header_log int_str), t))
  else ∃ n xs values h' t', Z.of_nat (length (n :: xs)) = count_integers int_str ∧
         values ≡ₚ n :: xs ∧
         lkp_init kmalloc_at freed kmalloc_array int_str (Kern h lg, t) =
           (Stop UseAfterFree,
            (Kern h' (lg ++ header_log int_str ++ map (line1 "Input Integers: %d") (n :: xs) ++
               ("**** Initiating Linked List Operations **** ", []) :: list_log (n :: xs) ++
               ("**** Initiating Hash Table Operations **** ", []) ::
               table_log (n :: xs) values ++ [line1 "Deleting : %d " n]), t')).
Proof.
  intros enough Hfr Harr Hl. pose proof Hl as Hcount. unfold count_integers in Hcount.
  unfold lkp_init, convert_str_to_integers. rewrite Harr, <- Hl.
  destruct (decide (int_str = [] ∨ last int_str = Some 32)) as [Hbad|Hgood].
  - destruct (convert_loop_out int_str 0 0 garbage) as [a Ha]; [done| |].
    { destruct Hbad as [->|Hb]; [done|]. rewrite Hb in Hcount. simpl in Hcount. lia. }
    prints. prints. cbv zeta. prints. rewrite Ha. unfold stop, header_log, line1.
    rewrite Hl. by rewrite <- !app_assoc.
  - assert (∃ c, last int_str = Some c ∧ c ≠ 32) as (c & Hlast & Hc).
    { destruct (last int_str) as [c|] eqn:E.
      - exists c. split; [done|]. intros ->. apply Hgood. by right.
      - apply last_None in E. destruct Hgood. by left. }
    rewrite Hlast in Hcount. destruct (Z.eqb_spec c 32) as [|_]; [done|].
    destruct (convert_loop_in int_str 0 0 garbage) as (xs & Hconv & Hlen); [done|lia|].
    destruct xs as [|n xs]; [simpl in Hlen; lia|].
    set (lg1 := ((((lg ++ header_log int_str) ++ map (line1 "Input Integers: %d") (n :: xs)) ++
      [("**** Initiating Linked List Operations **** ", [])]) ++ list_log (n :: xs)) ++
      [("**** Initiating Hash Table Operations **** ", [])]).
    destruct (run_hash_table_use_after_free kmalloc_at freed enough n xs h lg1 t Hfr)
      as (values & h' & t' & Hvals & Hrun).
    exists n, xs, values, h', t'. split; [lia|]. split; [done|].
    assert (lg ++ header_log int_str = ((lg ++ [("Module loaded ...", [])]) ++
      [("The init string is %s ...", int_str)]) ++
      [("Number of integers : %d ", [Z.of_nat (length garbage)])]) as Hlg.
    { unfold header_log, line1. rewrite Hl. by rewrite <- !app_assoc. }
    prints. prints. cbv zeta. prints. rewrite Hconv.
    eapply bind_run; [apply print_inputs_ok|]. cbv beta. apply bind_Stop.
    unfold run_containers. prints.
    destruct (run_linked_list_any kmalloc_at (n :: xs) h
      (((lg ++ header_log int_str) ++ map (line1 "Input Integers: %d") (n :: xs)) ++
       [("**** Initiating Linked List Operations **** ", [])]) t)
      as [Hlist|(? & ? & ? & h2 & _ & Hno & _)]; [|by destruct (enough h2)].
    rewrite <- Hlg. mrun Hlist. prints. apply bind_Stop. fold lg1. rewrite Hrun. unfold lg1.
    by rewrite <- !app_assoc.
Qed.
(** What the six exercises log on the integers [xs]; [values] is the order
    in which the hash table is walked. *)
Definition ordered_log (xs values : list Z) : list (string * list Z) :=
  ("**** Initiating Linked List Operations **** ", []) :: list_log xs ++
  ("**** Initiating Hash Table Operations **** ", []) :: table_log xs values ++
  map (line1 "Deleting : %d ") xs ++ [("*** Iterating and Printing Hash Table *** ", [])] ++
  ("**** Initiating Red Black Trees Operations **** ", []) :: tree_log xs ++
  ("************ RB Tree Erased ************", []) :: print_log [] ++
  [("**** Initiating Radix Tree Operations **** ", [])].

Definition indexed_log (xs : list Z) : list (string * list Z) :=
  index_log "Tagging element: %lu " xs ++
  line1 "Count of tagged items gang looked up: %d " (Z.of_nat (length (odd_indices xs))) ::
  map (line1 "Tagged item gang looked up: %d ") (map to_int (odd_indices xs)) ++
  delete_log (insert_ints [] xs) xs ++
  ("*** Initiating re-lookup for all elements ***", []) ::
  map (λ x, line1 "Element not found: %lu " (u64 x)) xs ++
  ("**** Initiating X Array Operations **** ", []) :: index_log "Tagged element: %lu " xs ++
  map (line1 "Tag looked up element : %d ") (map to_int (odd_indices xs)) ++
  delete_log (insert_ints [] xs) xs ++
  ("**** Initiating Bitmap Operations **** ", []) :: bitmap_log xs.

Section exercises.
Hypothesis enough : ∀ h, kmalloc_at h ≠ 0.
Hypothesis room : ∀ i p r, items r !! i = None → fst (radix_tree_insert i p r) = 0.
Hypothesis stored : ∀ i p x, fst (xa_store i p x) = true.
Hypothesis kept : ∀ v, freed v = Ret v.

(** The first three exercises, with what follows them. *)
Lemma ordered_ok {B} xs h lg t (f : unit → M (kern Z * hashtable) B) :
  ∃ values h1 t1 leaked, values ≡ₚ xs ∧ owns h h1 leaked ∧
    (length leaked + length (insert_ints [] xs) = length xs)%nat ∧
    (printk "**** Initiating Linked List Operations **** " [];;
     run_linked_list kmalloc_at xs;;
     printk "**** Initiating Hash Table Operations **** " [];;
     run_hash_table kmalloc_at freed xs;;
     printk "**** Initiating Red Black Trees Operations **** " [];;
     run_redblack_trees kmalloc_at freed xs;;
     printk "**** Initiating Radix Tree Operations **** " [] ≫= f) (Kern h lg, t) =
    f tt (Kern h1 (lg ++ ordered_log xs values), t1).
Proof.
  set (lg1 := lg ++ [("**** Initiating Linked List Operations **** ", [])]).
  set (lg2 := (lg1 ++ list_log xs) ++ [("**** Initiating Hash Table Operations **** ", [])]).
  destruct (run_linked_list_any kmalloc_at xs h lg1 t)
    as [Hlist|(? & ? & ? & h2 & _ & Hno & _)]; [|by destruct (enough h2)].
  destruct (hash_table_runs kmalloc_at freed enough xs h lg2 t (kept 0))
    as (values & t1 & Hvals & Hhash).
  destruct (redblack_trees_run kmalloc_at freed enough xs h
    ((lg2 ++ table_log xs values ++ map (line1 "Deleting : %d ") xs ++
      [("*** Iterating and Printing Hash Table *** ", [])]) ++
     [("**** Initiating Red Black Trees Operations **** ", [])]) t1 kept)
    as (h1 & leaked & Hrb & HO & Hl).
  exists values, h1, t1, leaked. split_and!; try done.
  prints. fold lg1. mrun Hlist. prints. fold lg2. mrun Hhash. prints. mrun Hrb. prints.
  do 3 f_equal. unfold lg2, lg1, ordered_log. app_eq.
Qed.
(** The radix tree, the xarray and the bitmap. *)
Lemma indexed_ok {C} xs h lg (t : C) :
  (∀ x, x ∈ xs → 0 ≤ x < 2 ^ 31) →
  let run := (run_radix_tree kmalloc_at xs;;
     printk "**** Initiating X Array Operations **** " [];;
     run_xarray kmalloc_at xs;;
     printk "**** Initiating Bitmap Operations **** " [];;
     run_bitmap xs) (Kern h lg, t) in
  ∃ h1, if decide (length (odd_indices xs) ≤ 10)%nat
  then run = (Ret tt, (Kern h1 (lg ++ indexed_log xs), t)) ∧
       ∃ leaked, owns h h1 leaked ∧
         (length leaked + 2 * length (insert_ints [] xs) = 2 * length xs)%nat
  else run = (Stop OutOfBounds, (Kern h1 (lg ++ index_log "Tagging element: %lu " xs), t)).
Proof.
  intros Hxs run. subst run.
  assert (∀ x, x ∈ xs → is_int x) as Hint by (intros x Hx%Hxs; unfold is_int; lia).
  assert (∀ x, x ∈ xs → x < 2 ^ 31) as Hlt by (intros x Hx%Hxs; lia).
  destruct (decide (length (odd_indices xs) ≤ 10)%nat) as [Hodd|Hodd].
  - destruct (radix_tree_runs kmalloc_at enough room xs h lg t Hint Hodd)
      as (h1 & leaked1 & Hradix & HO1 & Hl1).
    match type of Hradix with _ = (_, (Kern _ ?l, _)) =>
      set (lg1 := l ++ [("**** Initiating X Array Operations **** ", [])]) end.
    destruct (xarray_runs kmalloc_at enough stored xs h1 lg1 t Hint) as (h2 & leaked2 & Hxa & HO2 & Hl2).
    exists h2. split.
    + mrun Hradix. prints. fold lg1. mrun Hxa. prints. rewrite (bitmap_runs xs) by done.
      do 3 f_equal. unfold lg1, indexed_log. app_eq.
    + exists (leaked2 ++ leaked1). split; [by eapply owns_trans|]. rewrite length_app. lia.
  - destruct (run_radix_tree_overflow kmalloc_at enough room xs h lg t Hint) as [h1 Hradix]; [lia|].
    exists h1. by apply bind_Stop.
Qed.

(** C15: loading the module on decimals of [int] separated by single spaces,
    where no allocation fails and a freed object still reads as it did: every
    exercise runs to its end, each on exactly those integers, and what the
    module leaves allocated is three objects per duplicate, those of the
    red-black tree, the radix tree and the xarray.  With more than 10 different
    odd integers it stops in the radix tree instead, on the store past the end
    of [results]. *)
Theorem lkp_init_ok xs garbage h lg t :
  Forall (λ n, 0 ≤ n < 2 ^ 31) xs → xs ≠ [] → length garbage = length xs →
  kmalloc_array (Z.of_nat (length xs)) = Some garbage →
  let r := lkp_init kmalloc_at freed kmalloc_array (join_ints xs) (Kern h lg, t) in
  let start := header_log (join_ints xs) ++ map (line1 "Input Integers: %d") xs in
  ∃ values h' t', values ≡ₚ xs ∧
  if decide (length (odd_indices xs) ≤ 10)%nat
  then r = (Ret 0, (Kern h' (lg ++ start ++ ordered_log xs values ++ indexed_log xs), t')) ∧
       ∃ leaked, owns h h' leaked ∧
         (length leaked + 3 * length (insert_ints [] xs) = 3 * length xs)%nat
  else r = (Stop OutOfBounds,
            (Kern h' (lg ++ start ++ ordered_log xs values ++
                      index_log "Tagging element: %lu " xs), t')).
Proof.
  intros Hxs Hne Hl Harr r start. destruct (convert_joined xs garbage Hxs Hne Hl) as [Hcount Hconv].
  destruct (ordered_ok xs h (lg ++ start) t (λ _, run_radix_tree kmalloc_at xs;;
     printk "**** Initiating X Array Operations **** " [];;
     run_xarray kmalloc_at xs;;
     printk "**** Initiating Bitmap Operations **** " [];;
     run_bitmap xs)) as (values & h1 & t1 & leaked1 & Hvals & HO1 & Hl1 & Hrun).
  destruct (indexed_ok xs h1 ((lg ++ start) ++ ordered_log xs values) t1) as [h2 H2].
  { by apply Forall_forall. }
  specialize (Hrun : run_containers kmalloc_at freed xs (Kern h (lg ++ start), t) = _).
  assert (∀ res s, run_containers kmalloc_at freed xs (Kern h (lg ++ start), t) = (res, s) →
    r = match res with Ret _ => (Ret 0, s) | Stop e => (Stop e, s) end) as Hr.
  { intros res s Hres. subst r. unfold lkp_init. prints. prints. cbv zeta. rewrite Hcount, Harr.
    prints. rewrite <- Hcount, Hconv. eapply bind_run; [apply print_inputs_ok|]. cbv beta.
    match goal with |- _ (Kern _ ?l, _) = _ =>
      replace l with (lg ++ start) by (unfold start, header_log, line1; app_eq) end.
    destruct res; [by eapply bind_run|by apply bind_Stop]. }
  exists values, h2, t1. split; [done|].
  destruct (decide (length (odd_indices xs) ≤ 10)%nat).
  - destruct H2 as (H2 & leaked2 & HO2 & Hl2). split.
    + rewrite (Hr _ _ (eq_trans Hrun H2)). by rewrite <- !app_assoc.
    + exists (leaked2 ++ leaked1). split; [by eapply owns_trans|]. rewrite length_app. lia.
  - rewrite (Hr _ _ (eq_trans Hrun H2)). by rewrite <- !app_assoc.
Qed.
End exercises.
End module_proofs.

Lemma convert_roundtrip_witness :
  count_integers (join_ints [11; 44; 5]) = 3 ∧
  convert_str_to_integers (join_ints [11; 44; 5]) (count_integers (join_ints [11; 44; 5])) [9; 9; 9]
    = (Ret tt, [11; 44; 5]).
Proof. apply (convert_roundtrip [11; 44; 5] [9; 9; 9]); [repeat constructor; lia|done..]. Defined.

Lemma convert_bounds_witness :
  ∃ a, convert_str_to_integers (str "11 44 ") (count_integers (str "11 44 ")) [0; 0]
       = (Stop OutOfBounds, a).
Proof. exact (convert_bounds (str "11 44 ") [0; 0] eq_refl). Defined.

Lemma run_bitmap_ok_witness :
  run_bitmap [11; 1024] (Kern ∅ [], tt) = (Ret tt, (Kern ∅ (bitmap_log [11; 1024]), tt)) ∧
  filter (λ i, Z.testbit (union_bits [11; 1024]) i = true) (seqZ 0 10) = [0; 1; 3].
Proof.
  split; [|reflexivity]. apply (run_bitmap_ok [11; 1024] ∅ [] tt).
  intros x Hx. repeat (apply elem_of_cons in Hx as [->|Hx]; [done|]). by apply elem_of_nil in Hx.
Defined.

Lemma lkp_init_strict_witness :
  ∃ n xs values h' t', Z.of_nat (length (n :: xs)) = 2 ∧ values ≡ₚ n :: xs ∧
    lkp_init (HH := demo_table) top_addr (λ _, Stop UseAfterFree) (λ _, Some [0; 0])
      (str "11 44") (Kern ∅ [], []) =
      (Stop UseAfterFree,
       (Kern h' (header_log (str "11 44") ++ map (line1 "Input Integers: %d") (n :: xs) ++
          ("**** Initiating Linked List Operations **** ", []) :: list_log (n :: xs) ++
          ("**** Initiating Hash Table Operations **** ", []) ::
          table_log (n :: xs) values ++ [line1 "Deleting : %d " n]), t')).
Proof.
  exact (lkp_init_strict (HH := demo_table) top_addr (λ _, Stop UseAfterFree) (λ _, Some [0; 0])
    (str "11 44") [0; 0] ∅ [] [] top_enough eq_refl eq_refl eq_refl).
Defined.

Lemma lkp_init_ok_witness :
  ∃ values h' t', values ≡ₚ [7; 4; 7] ∧
    lkp_init (HH := demo_table) top_addr Ret (λ _, Some [9; 9; 9]) (str "7 4 7") (Kern ∅ [], []) =
      (Ret 0, (Kern h' ((header_log (str "7 4 7") ++ map (line1 "Input Integers: %d") [7; 4; 7]) ++
                        ordered_log [7; 4; 7] values ++ indexed_log [7; 4; 7]), t')) ∧
    ∃ leaked, owns ∅ h' leaked ∧ (length leaked + 3 * 2 = 3 * 3)%nat.
Proof.
  exact (lkp_init_ok (HH := demo_table) top_addr Ret (λ _, Some [9; 9; 9]) top_enough model_room
    model_stored (λ v, eq_refl) [7; 4; 7] [9; 9; 9] ∅ [] []
    ltac:(repeat constructor; lia) ltac:(done) eq_refl eq_refl).
Defined.
