(* ===== verification/Perftop2.v ===== *)
(** Part 2 of [perftop.c]: the profiler.  A return probe on the scheduler's
    choice of the next task keeps, in a hash table, when each process was
    switched in, and in a red-black tree ordered by time, how long each
    process has run; [/proc/perftop] prints the tree from its greatest node.

    The probe's handlers are run one at a time.  A task is an address with a
    process id [pid]; the fields of a node are the process id and the time. *)
From S2P Require Import Prelude CInt Kernel Hashtable Rbtree.
Local Open Scope Z_scope.

Definition HASH_BITS : Z := 16.

Section program.
Context `{HH : HashApi HASH_BITS} `{RA : RbApi}.

(** The statics, and what is registered with the kernel. *)
Record perf := Perf {
  myhashtable : hashtable;
  myroot : rbtree;
  post_count : Z;
  pre_count : Z;
  context_switch_count : Z;
  proc_entry : bool;
  kretprobe : bool;
}.

Definition set_table (f : hashtable → hashtable) (c : perf) : perf :=
  Perf (f (myhashtable c)) (myroot c) (post_count c) (pre_count c) (context_switch_count c)
    (proc_entry c) (kretprobe c).
Definition set_root (f : rbtree → rbtree) (c : perf) : perf :=
  Perf (myhashtable c) (f (myroot c)) (post_count c) (pre_count c) (context_switch_count c)
    (proc_entry c) (kretprobe c).
Definition set_counts (post pre switch : Z → Z) (c : perf) : perf :=
  Perf (myhashtable c) (myroot c) (post (post_count c)) (pre (pre_count c))
    (switch (context_switch_count c)) (proc_entry c) (kretprobe c).
Definition set_kernel (proc probe : bool) (c : perf) : perf :=
  Perf (myhashtable c) (myroot c) (post_count c) (pre_count c) (context_switch_count c) proc probe.

(** [atomic_inc] *)
Definition inc (z : Z) : Z := s32 (z + 1).

Context (kmalloc_at : kheap (Z * Z) → Z) (freed : Z → outcome Z).

Abbreviation st := (kern (Z * Z) * perf)%type.

Definition lookup_hash_table (number : Z) : M st Z :=
  let key := number in
  r ← hash_for_each_possible freed myhashtable key (λ curr,
    (v ← load curr; mret (if v.1 =? number then Some v.2 else None)));
  mret (default 0 r).

Definition remove_hash_table (number : Z) : M st unit :=
  let key := number in
  hash_for_each_possible freed myhashtable key (λ curr,
    (v ← load curr;
     (if v.1 =? number then
        printk "Deleting : %d " [v.1];; on_container (set_table (hash_del curr));; kfree curr
      else mret tt);;
     mret (None : option unit)));;
  mret tt.

(** The loop of [remove_hash_table_all], over the bucket of the key 0. *)
Fixpoint remove_hash_loop (fuel : nat) (curr count : Z) : M st Z :=
  match fuel with
  | O => stop OutOfFuel
  | S f =>
      if curr =? 0 then mret count
      else
        v ← load curr;
        printk "Deleting : %d " [v.1];;
        on_container (set_table (hash_del curr));;
        kfree curr;;
        next ← hash_step freed myhashtable curr;
        remove_hash_loop f next (count + 1)
  end.

Definition remove_hash_table_all : M st unit :=
  c ← container;
  let key := 0 in
  let l := chain (myhashtable c) (hash_min key) in
  count ← remove_hash_loop (S (length l)) (first_of l) 0;
  printk "Deleted : %d entities from Hashtable " [count].

Fixpoint remove_rb_loop (fuel : nat) (node count : Z) : M st Z :=
  match fuel with
  | O => stop OutOfFuel
  | S f =>
      if node =? 0 then mret count
      else
        on_container (set_root (rb_erase node));;
        kfree node;;
        next ← rb_step freed myroot node;
        remove_rb_loop f next (count + 1)
  end.

Definition remove_rb_tree_all : M st unit :=
  c ← container;
  count ← remove_rb_loop (S (length (inorder (myroot c)))) (rb_first (myroot c)) 0;
  printk " RB Tree Erased. Deleted %d elements" [count].

Definition insert_hash_table (pid input_tsc : Z) : M st unit :=
  remove_hash_table pid;;
  mynode ← kmalloc kmalloc_at;
  assign mynode (pid, input_tsc);;
  on_container (set_table (hash_add mynode pid)).

Definition insert_rb_tree (new_node : Z) : M st Z :=
  v ← load new_node;
  c ← container;
  o ← rb_link snd v.2 new_node (myroot c);
  match o with
  | None => mret 0
  | Some t' => on_container (set_root (λ _, rb_insert_color new_node t'));; mret 1
  end.

Definition remove_rb_tree (pid : Z) : M st unit :=
  rb_for_each freed myroot (λ temp,
    (v ← load temp;
     (if v.1 =? pid then on_container (set_root (rb_erase temp));; kfree temp else mret tt);;
     mret (None : option unit)));;
  mret tt.

(** The lines printed from [node] on, [count] of them being printed. *)
Fixpoint print_loop (fuel : nat) (node count : Z) : M st (list (Z * Z)) :=
  match fuel with
  | O => stop OutOfFuel
  | S f =>
      if node =? 0 then mret []
      else
        temp ← load node;
        if count >? 8 then mret [temp]
        else
          c ← container;
          next ← read_link freed node (rb_prev (myroot c) node);
          rest ← print_loop f next (count + 1);
          mret (temp :: rest)
  end.

Definition print_rb_tree : M st (list (Z * Z)) :=
  c ← container;
  (if rb_first (myroot c) =? 0 then printk "Root Node is null" [] else mret tt);;
  print_loop (S (length (inorder (myroot c)))) (rb_last (myroot c)) 0.

Definition insert_redblack_trees (pid tsc : Z) : M st unit :=
  mynode ← kmalloc kmalloc_at;
  assign mynode (pid, tsc);;
  insert_rb_tree mynode;;
  mret tt.

Definition lookup_rb_tree (pid : Z) : M st Z :=
  r ← rb_for_each freed myroot (λ node,
    (v ← load node; mret (if v.1 =? pid then Some v.2 else None)));
  mret (default 0 r).

(** What is written to the [seq_file]: the counts, then a line per process. *)
Definition perftop_show : M st (Z * Z * Z * list (Z * Z)) :=
  c ← container;
  lines ← print_rb_tree;
  mret (pre_count c, post_count c, context_switch_count c, lines).

(** [data] is the field [prev] of the instance's [my_data], if there is one;
    [mm], whether the current task has an address space. *)
Definition entry_pick_next_fair (mm : bool) (prev : Z) (data : option Z) : M st (Z * option Z) :=
  if negb mm then mret (1, data)
  else
    let data' := match data with
                 | Some d => Some (if negb (prev =? 0) then prev else d)
                 | None => None
                 end in
    on_container (set_counts id inc id);;
    mret (0, data').

(** What the return handler does for the task that stops, if it has a start. *)
Definition account (pid_prev curr : Z) : M st unit :=
  old ← lookup_hash_table pid_prev;
  if negb (old =? 0) then
    remove_hash_table pid_prev;;
    sum ← lookup_rb_tree pid_prev;
    let sum := u64 (u64 (sum + curr) - old) in
    printk "Inserting PID : %d TSC : %llu " [pid_prev; sum];;
    remove_rb_tree pid_prev;;
    insert_redblack_trees pid_prev sum
  else mret tt.

Definition ret_pick_next_fair (pid : Z → Z) (rdtsc next : Z) (data : option Z) : M st Z :=
  on_container (set_counts inc id id);;
  (match data with
   | Some prev =>
       if negb (prev =? 0) && negb (next =? 0) && negb (prev =? next) then
         let curr := rdtsc in
         account (pid prev) curr;;
         insert_hash_table (pid next) curr;;
         on_container (set_counts id id inc)
       else mret tt
   | None => mret tt
   end);;
  mret 0.

(** [register_kretprobe] is the result of that call, [kp_addr] and [nmissed] are
    the fields of [my_kretprobe]. *)
Definition perftop_init (register_kretprobe kp_addr : Z) : M st Z :=
  on_container (λ c, set_kernel true (kretprobe c) c);;
  on_container (set_table (λ _, hash_init));;
  if register_kretprobe <? 0 then
    printk "register_kretprobe failed, returned %d" [register_kretprobe];;
    mret (-1)
  else
    on_container (λ c, set_kernel (proc_entry c) true c);;
    printk "Planted return probe at %s: %p" [kp_addr];;
    mret 0.

Definition perftop_exit (kp_addr nmissed : Z) : M st unit :=
  on_container (λ c, set_kernel false (kretprobe c) c);;
  on_container (λ c, set_kernel (proc_entry c) false c);;
  printk "kretprobe at %p unregistered" [kp_addr];;
  remove_hash_table_all;;
  remove_rb_tree_all;;
  printk "Missed probing %d instances of %s" [nmissed].
End program.
