(* ===== verification/Perftop2Proofs.v ===== *)
(** Part 2 of [perftop.c]: what the profiler keeps.  The hash table is a map
    from process to the time it was switched in, the tree a map from process
    to its total; a context switch changes the two maps as [switch] says. *)
From S2P Require Import Prelude CInt Kernel KernelModel Hashtable Rbtree Perftop2.
Local Open Scope Z_scope.

(** ** The specification *)

Record times := Times { start : gmap Z Z; total : gmap Z Z }.

(** The switch from [prev] to [next] at [curr].  The tree has no room for two
    processes with the same total: the one that comes second is dropped. *)
Definition stop_process (prev curr : Z) (s : times) : times :=
  let old := default 0 (start s !! prev) in
  if old =? 0 then s
  else
    let sum := u64 (default 0 (total s !! prev) + curr - old) in
    let others := delete prev (total s) in
    Times (delete prev (start s))
      (if decide (sum ∈ (map_to_list others).*2) then others else <[prev := sum]> others).

Definition switch (prev next curr : Z) (s : times) : times :=
  let s' := stop_process prev curr s in
  Times (<[next := curr]> (start s')) (total s').

(** ** Lists of nodes as maps *)
Section maps.
Implicit Types (l : list (Z * (Z * Z))).

Definition pids l : list Z := map (λ pv, pv.2.1) l.
Definition as_map l : gmap Z Z := list_to_map (map snd l).

Lemma as_map_cons p pid t l : as_map ((p, (pid, t)) :: l) = <[pid := t]> (as_map l).
Proof. reflexivity. Qed.

Lemma as_map_none l pid : pid ∉ pids l → as_map l !! pid = None.
Proof. intros Hp. apply not_elem_of_list_to_map. by rewrite <- list_fmap_compose. Qed.

Lemma pids_mid l1 p pid t l2 : pids (l1 ++ (p, (pid, t)) :: l2) = pids l1 ++ pid :: pids l2.
Proof. unfold pids. by rewrite map_app. Qed.

Lemma pids_split l pid :
  pid ∈ pids l → NoDup (pids l) →
  ∃ l1 p t l2, l = l1 ++ (p, (pid, t)) :: l2 ∧ (pid ∉ pids (l1 ++ l2)) ∧ NoDup (pids (l1 ++ l2)).
Proof.
  intros ([p [pid' t]] & -> & Hp)%list_elem_of_fmap Hnd. simpl in *.
  apply list_elem_of_split in Hp as (l1 & l2 & ->). exists l1, p, t, l2. split; [done|].
  rewrite pids_mid in Hnd. rewrite <- Permutation_middle in Hnd.
  apply NoDup_cons in Hnd as [Hn Hnd]. unfold pids in *. by rewrite map_app.
Qed.

Lemma as_map_perm l l' : NoDup (pids l) → l ≡ₚ l' → as_map l = as_map l'.
Proof.
  intros Hnd HP. apply list_to_map_proper.
  - by rewrite <- list_fmap_compose.
  - by rewrite HP.
Qed.

Lemma as_map_mid l1 p pid t l2 :
  pid ∉ pids (l1 ++ l2) → NoDup (pids (l1 ++ l2)) →
  as_map (l1 ++ (p, (pid, t)) :: l2) = <[pid := t]> (as_map (l1 ++ l2)).
Proof.
  intros Hn Hnd. rewrite <- (as_map_cons p). symmetry. apply as_map_perm.
  - simpl. by apply NoDup_cons.
  - apply Permutation_middle.
Qed.

Lemma as_map_values l t : NoDup (pids l) → (t ∈ (map_to_list (as_map l)).*2) ↔ (t ∈ keys snd l).
Proof.
  intros Hnd. unfold as_map. rewrite map_to_list_to_map by (by rewrite <- list_fmap_compose).
  unfold keys. by rewrite <- list_fmap_compose.
Qed.

Lemma elem_of_pids l p pid t : (p, (pid, t)) ∈ l → pid ∈ pids l.
Proof. intros H. apply list_elem_of_fmap. by exists (p, (pid, t)). Qed.
End maps.

Section proofs.
Context `{HH : HashApi HASH_BITS} `{RA : RbApi}.
Implicit Types (h : kheap (Z * Z)) (lg : list (string * list Z)) (c : perf).
Implicit Types (starts totals leaked : list (Z * (Z * Z))).

(** The nodes of the table, those of the tree in order, and objects that are
    in neither. *)
Record perf_rep h0 starts totals leaked h c : Prop := {
  pr_owns : owns h0 h (starts ++ totals ++ leaked);
  pr_chain b : chain (myhashtable c) b = map fst (bucket fst starts b);
  pr_inorder : inorder (myroot c) = map fst totals;
  pr_sorted : StronglySorted Z.lt (keys snd totals);
  pr_starts : NoDup (pids starts);
  pr_totals : NoDup (pids totals);
}.

Lemma pr_table h0 starts totals leaked h c :
  perf_rep h0 starts totals leaked h c → table_rep fst h (myhashtable c) starts.
Proof.
  intros [HO Hc _ _ _ _]. split; [|by pose proof (owns_nodup _ _ _ HO) as H;
    rewrite map_app in H; apply NoDup_app in H as [? _]|done].
  intros p v Hp. apply (owns_lookup _ _ _ _ _ HO), elem_of_app. by left.
Qed.

Lemma pr_tree h0 starts totals leaked h c :
  perf_rep h0 starts totals leaked h c → tree_rep h (myroot c) totals.
Proof.
  intros [HO _ Ht _ _ _]. split; [done|]. split.
  - pose proof (owns_nodup _ _ _ HO) as H. rewrite !map_app in H.
    apply NoDup_app in H as (_ & _ & H). by apply NoDup_app in H as [? _].
  - intros p v Hp. apply (owns_lookup _ _ _ _ _ HO). rewrite !elem_of_app. tauto.
Qed.

Context (kmalloc_at : kheap (Z * Z) → Z) {HA : Allocator kmalloc_at}.
Context (freed : Z → outcome Z) (enough : ∀ h, kmalloc_at h ≠ 0).

(** *** The hash table *)

Lemma lookup_start h0 starts totals leaked h c lg pid :
  perf_rep h0 starts totals leaked h c →
  lookup_hash_table freed pid (Kern h lg, c) =
    (Ret (default 0 (as_map starts !! pid)), (Kern h lg, c)).
Proof.
  intros HR. pose proof (pr_table _ _ _ _ _ _ HR) as Ht. unfold lookup_hash_table.
  destruct (decide (pid ∈ pids starts)) as [Hin|Hin].
  - destruct (pids_split _ _ Hin (pr_starts _ _ _ _ _ _ HR)) as (n1 & p & t & n2 & -> & Hn & Hnd).
    destruct (tr_heap _ _ _ _ Ht p (pid, t)) as [Hp0 Hp]; [apply elem_of_mid|].
    rewrite as_map_mid, lookup_insert_eq by done. simpl.
    match goal with |- context [hash_for_each_possible _ _ _ ?b] =>
      destruct (hash_for_each_to freed myhashtable fst b h lg c n1 p (pid, t) n2 Ht)
        as [fuel Hloop]
    end.
    { intros q [pid' t'] Hq. destruct (tr_heap _ _ _ _ Ht q (pid', t')) as [Hq0 Hq'];
        [apply elem_of_app; by left|].
      eapply bind_run; [by apply kload_ok|]. cbn [fst snd].
      destruct (Z.eqb_spec pid' pid) as [->|]; [|done].
      destruct Hn. unfold pids. rewrite map_app, elem_of_app. left. by eapply elem_of_pids. }
    simpl fst in Hloop. apply bind_run with (a := Some t) (s' := (Kern h lg, c)); [rewrite Hloop|done].
    cbn [walk]. destruct (Z.eqb_spec p 0); [done|]. rewrite bind_assoc.
    eapply bind_run; [by apply kload_ok|]. cbn [fst snd]. rewrite Z.eqb_refl. done.
  - rewrite as_map_none by done.
    match goal with |- context [hash_for_each_possible _ _ _ ?b] =>
      pose proof (hash_for_each_ok freed myhashtable fst b (λ _, lg) h c starts pid Ht) as Hloop
    end.
    eapply bind_run; [apply Hloop|done].
    intros n1 q [pid' t'] n2 Hb.
    assert ((q, (pid', t')) ∈ starts) as Hq.
    { apply (elem_of_bucket fst starts (hash_min pid)). rewrite Hb. apply elem_of_mid. }
    destruct (tr_heap _ _ _ _ Ht q (pid', t') Hq) as [Hq0 Hq'].
    eapply bind_run; [by apply kload_ok|]. cbn [fst snd].
    destruct (Z.eqb_spec pid' pid) as [->|]; [|done]. destruct Hin. by eapply elem_of_pids.
Qed.

(** The body of [remove_hash_table] on a node of another process. *)
#[local] Abbreviation rm_hash pid := (λ curr : Z,
  (v ← load curr;
   (if v.1 =? pid then
      printk "Deleting : %d " [v.1];; on_container (set_table (hash_del curr));; kfree curr
    else mret tt);;
   mret (None : option unit))).

Lemma rm_hash_other nodes h lg c pid q w :
  table_rep fst h (myhashtable c) nodes → (q, w) ∈ nodes → pid ∉ pids nodes →
  rm_hash pid q (Kern h lg, c) = (Ret None, (Kern h lg, c)).
Proof.
  intros Ht Hq Hn. destruct (tr_heap _ _ _ _ Ht q w Hq) as [Hq0 Hq'].
  eapply bind_run; [by apply kload_ok|]. cbn [fst snd]. destruct w as [pid' t'].
  destruct (Z.eqb_spec (pid', t').1 pid) as [E|]; [|done]. simpl in E. subst.
  destruct Hn. by eapply elem_of_pids.
Qed.

(** Deleting the node of a process. *)
Lemma perf_rep_del h0 n1 p pid t n2 totals leaked h c :
  perf_rep h0 (n1 ++ (p, (pid, t)) :: n2) totals leaked h c →
  pid ∉ pids (n1 ++ n2) → NoDup (pids (n1 ++ n2)) →
  perf_rep h0 (n1 ++ n2) totals leaked (delete p h) (set_table (hash_del p) c).
Proof.
  intros HR Hn Hnd. pose proof (pr_table _ _ _ _ _ _ HR) as Ht.
  apply (table_rep_del fst) in Ht. destruct HR as [HO _ Hi Hs _ Hnt].
  split; [|apply Ht|done..].
  eapply owns_del, owns_perm; [|exact HO]. rewrite <- !app_assoc. simpl.
  symmetry. apply Permutation_middle.
Qed.

(** Up to the deletion of the node of a process. *)
Lemma rm_hash_to h0 n1 p pid t n2 totals leaked h c lg :
  perf_rep h0 (n1 ++ (p, (pid, t)) :: n2) totals leaked h c → pid ∉ pids (n1 ++ n2) →
  let s' := (Kern (delete p h) (lg ++ [("Deleting : %d ", [pid])]), set_table (hash_del p) c) in
  ∃ fuel, hash_for_each_possible freed myhashtable pid (rm_hash pid) (Kern h lg, c) =
    match freed 0 with
    | Ret q => walk (S fuel) (hash_step freed myhashtable) (rm_hash pid) q s'
    | Stop e => (Stop e, s')
    end.
Proof.
  intros HR Hn s'. pose proof (pr_table _ _ _ _ _ _ HR) as Ht.
  destruct (tr_heap _ _ _ _ Ht p (pid, t)) as [Hp0 Hp]; [apply elem_of_mid|].
  destruct (hash_for_each_to freed myhashtable fst (rm_hash pid) h lg c n1 p (pid, t) n2 Ht)
    as [fuel Hloop].
  { intros q [pid' t'] Hq. destruct (tr_heap _ _ _ _ Ht q (pid', t')) as [Hq0 Hq'];
      [apply elem_of_app; by left|].
    eapply bind_run; [by apply kload_ok|]. cbn [fst snd].
    destruct (Z.eqb_spec pid' pid) as [->|]; [|done].
    destruct Hn. unfold pids. rewrite map_app, elem_of_app. left. by eapply elem_of_pids. }
  exists fuel. simpl fst in Hloop. rewrite Hloop. cbn [walk]. destruct (Z.eqb_spec p 0); [done|].
  assert (rm_hash pid p (Kern h lg, c) = (Ret None, s')) as Hbody.
  { eapply bind_run; [by apply kload_ok|]. cbn [fst snd]. rewrite Z.eqb_refl.
    eapply bind_run; [|reflexivity]. prints. mstep. by eapply kfree_ok. }
  mrun Hbody. unfold mbind, m_bind, s'.
  rewrite (hash_step_freed freed myhashtable _ _ _ p (myhashtable c)) by done.
  by destruct (freed 0).
Qed.

Lemma remove_start_stop (Hfr : ∀ v, freed v = Stop UseAfterFree) h0 starts totals leaked h c lg pid :
  perf_rep h0 starts totals leaked h c → pid ∈ pids starts →
  ∃ s', remove_hash_table freed pid (Kern h lg, c) = (Stop UseAfterFree, s').
Proof.
  intros HR Hin.
  destruct (pids_split _ _ Hin (pr_starts _ _ _ _ _ _ HR)) as (n1 & p & t & n2 & -> & Hn & Hnd).
  destruct (rm_hash_to h0 n1 p pid t n2 totals leaked h c lg HR Hn) as [fuel Hloop].
  rewrite Hfr in Hloop. eexists. by apply bind_Stop.
Qed.

(** The removal of the whole table deletes the first node of one bucket. *)
Definition bucket_0_first (starts : list (Z * (Z * Z))) : list (Z * (Z * Z)) :=
  take 1 (bucket fst starts (hash_min 0)).

Lemma remove_hash_all_ok (Hfr : ∀ v, freed v = Ret v) h0 starts totals leaked h c lg :
  perf_rep h0 starts totals leaked h c →
  ∃ starts' h' lg' c', remove_hash_table_all freed (Kern h lg, c) = (Ret tt, (Kern h' lg', c')) ∧
    perf_rep h0 starts' totals leaked h' c' ∧ starts ≡ₚ bucket_0_first starts ++ starts' ∧
    kretprobe c' = kretprobe c ∧ proc_entry c' = proc_entry c.
Proof.
  intros HR. pose proof (pr_table _ _ _ _ _ _ HR) as Ht.
  unfold remove_hash_table_all, bucket_0_first.
  assert (chain (myhashtable c) (hash_min 0) = map fst (bucket fst starts (hash_min 0))) as Hc
    by apply (tr_chain _ _ _ _ Ht).
  destruct (bucket fst starts (hash_min 0)) as [|[p [pid t]] l] eqn:Hb.
  - exists starts, h. do 2 eexists. split; [|done].
    mstep. rewrite Hc. mstep. apply printk_ok.
  - assert ((p, (pid, t)) ∈ starts) as Hin.
    { apply (elem_of_bucket fst starts (hash_min 0)). rewrite Hb. by left. }
    destruct (tr_heap _ _ _ _ Ht p (pid, t) Hin) as [Hp0 Hp].
    apply list_elem_of_split in Hin as (n1 & n2 & ->).
    pose proof (pr_starts _ _ _ _ _ _ HR) as Hnd. rewrite pids_mid in Hnd.
    rewrite <- Permutation_middle in Hnd. apply NoDup_cons in Hnd as [Hn Hnd].
    unfold pids in Hn, Hnd. rewrite <- map_app in Hn, Hnd.
    exists (n1 ++ n2), (delete p h). do 2 eexists. split; [|split; [by eapply perf_rep_del|]].
    + mstep. rewrite Hc. cbn [map fst length]. rewrite first_of_cons. cbn [remove_hash_loop].
      destruct (Z.eqb_spec p 0); [done|]. rewrite bind_assoc.
      eapply bind_run; [by apply kload_ok|]. cbn [fst snd]. rewrite bind_assoc. prints.
      rewrite bind_assoc. mstep. rewrite bind_assoc. eapply bind_run; [by eapply kfree_ok|].
      cbv beta. rewrite bind_assoc.
      eapply bind_run.
      { rewrite (hash_step_freed freed myhashtable _ _ _ p (myhashtable c)) by done. by rewrite Hfr. }
      cbv beta. mstep. apply printk_ok.
    + split; [|done]. simpl. by rewrite <- Permutation_middle.
Qed.

Lemma remove_start (Hfr : ∀ v, freed v = Ret v) h0 starts totals leaked h c lg pid :
  perf_rep h0 starts totals leaked h c →
  ∃ starts' h' lg' f, remove_hash_table freed pid (Kern h lg, c) =
      (Ret tt, (Kern h' lg', set_table f c)) ∧
    perf_rep h0 starts' totals leaked h' (set_table f c) ∧
    as_map starts' = delete pid (as_map starts) ∧ pid ∉ pids starts'.
Proof.
  intros HR. pose proof (pr_table _ _ _ _ _ _ HR) as Ht. unfold remove_hash_table.
  destruct (decide (pid ∈ pids starts)) as [Hin|Hin].
  - destruct (pids_split _ _ Hin (pr_starts _ _ _ _ _ _ HR)) as (n1 & p & t & n2 & -> & Hn & Hnd).
    destruct (tr_heap _ _ _ _ Ht p (pid, t)) as [Hp0 Hp]; [apply elem_of_mid|].
    exists (n1 ++ n2), (delete p h), (lg ++ [("Deleting : %d ", [pid])]), (hash_del p).
    split; [|split; [by eapply perf_rep_del|]].
    + destruct (rm_hash_to h0 n1 p pid t n2 totals leaked h c lg HR Hn) as [fuel Hloop].
      rewrite Hfr in Hloop. by mrun Hloop.
    + rewrite as_map_mid by done. rewrite delete_insert_id; [done|]. by apply as_map_none.
  - exists starts, h, lg, id.
    assert (set_table id c = c) as -> by (by destruct c).
    split; [|split; [done|split; [|done]]].
    + eapply bind_run; [|done].
      apply (hash_for_each_ok freed myhashtable fst (rm_hash pid) (λ _, lg) h c starts pid Ht).
      intros n1 q w n2 Hb. eapply rm_hash_other; [done| |done].
      apply (elem_of_bucket fst starts (hash_min pid)). rewrite Hb. apply elem_of_mid.
    + symmetry. apply delete_id. by apply as_map_none.
Qed.

Lemma insert_start (Hfr : ∀ v, freed v = Ret v) h0 starts totals leaked h c lg pid t :
  perf_rep h0 starts totals leaked h c →
  ∃ starts' h' lg' f, insert_hash_table kmalloc_at freed pid t (Kern h lg, c) =
      (Ret tt, (Kern h' lg', set_table f c)) ∧
    perf_rep h0 starts' totals leaked h' (set_table f c) ∧
    as_map starts' = <[pid := t]> (as_map starts).
Proof.
  intros HR. destruct (remove_start Hfr h0 starts totals leaked h c lg pid HR)
    as (s1 & h1 & lg1 & f & Hrm & HR1 & Hm & Hn).
  pose proof (alloc_fresh kmalloc_at h1 (enough h1)) as Hp. pose proof (enough h1) as Hp0.
  set (p := kmalloc_at h1) in *.
  exists ((p, (pid, t)) :: s1), (<[p := Some (pid, t)]> h1), lg1, (λ tb, hash_add p pid (f tb)).
  split; [|split].
  - unfold insert_hash_table. mrun Hrm. by rewrite new_object.
  - pose proof (pr_table _ _ _ _ _ _ HR1) as Ht.
    apply (table_rep_add fst _ _ _ p (pid, t)) in Ht; [|done..].
    destruct HR1 as [HO _ Hi Hs Hns Hnt]. split; [|apply Ht|done|done| |done].
    + by apply owns_add.
    + simpl. by apply NoDup_cons.
  - rewrite as_map_cons, Hm. apply insert_delete_eq.
Qed.

(** *** The tree *)

Lemma lookup_total h0 starts totals leaked h c lg pid :
  perf_rep h0 starts totals leaked h c →
  lookup_rb_tree freed pid (Kern h lg, c) =
    (Ret (default 0 (as_map totals !! pid)), (Kern h lg, c)).
Proof.
  intros HR. pose proof (pr_tree _ _ _ _ _ _ HR) as Ht. pose proof Ht as (_ & _ & Hh).
  unfold lookup_rb_tree.
  destruct (decide (pid ∈ pids totals)) as [Hin|Hin].
  - destruct (pids_split _ _ Hin (pr_totals _ _ _ _ _ _ HR)) as (n1 & p & t & n2 & -> & Hn & Hnd).
    destruct (Hh p (pid, t)) as [Hp0 Hp]; [apply elem_of_mid|].
    rewrite as_map_mid, lookup_insert_eq by done. simpl.
    match goal with |- context [rb_for_each _ _ ?b] =>
      destruct (rb_for_each_to freed myroot b h lg c n1 p (pid, t) n2 Ht) as (fuel & _ & Hloop)
    end.
    { intros q [pid' t'] Hq. destruct (Hh q (pid', t')) as [Hq0 Hq']; [apply elem_of_app; by left|].
      eapply bind_run; [by apply kload_ok|]. cbn [fst snd].
      destruct (Z.eqb_spec pid' pid) as [->|]; [|done].
      destruct Hn. unfold pids. rewrite map_app, elem_of_app. left. by eapply elem_of_pids. }
    apply bind_run with (a := Some t) (s' := (Kern h lg, c)); [rewrite Hloop|done].
    cbn [walk]. destruct (Z.eqb_spec p 0); [done|]. rewrite bind_assoc.
    eapply bind_run; [by apply kload_ok|]. cbn [fst snd]. rewrite Z.eqb_refl. done.
  - rewrite as_map_none by done. eapply bind_run; [|done].
    apply (rb_for_each_none freed myroot _ h lg c totals Ht).
    intros q [pid' t'] Hq. destruct (Hh q (pid', t') Hq) as [Hq0 Hq'].
    eapply bind_run; [by apply kload_ok|]. cbn [fst snd].
    destruct (Z.eqb_spec pid' pid) as [->|]; [|done]. destruct Hin. by eapply elem_of_pids.
Qed.

#[local] Abbreviation rm_rb pid := (λ temp : Z,
  (v ← load temp;
   (if v.1 =? pid then on_container (set_root (rb_erase temp));; kfree temp else mret tt);;
   mret (None : option unit))).

Lemma rm_rb_other h lg c pid q pid' t' :
  q ≠ 0 → h !! q = Some (Some (pid', t')) → pid' ≠ pid →
  rm_rb pid q (Kern h lg, c) = (Ret None, (Kern h lg, c)).
Proof.
  intros Hq0 Hq Hne. eapply bind_run; [by apply kload_ok|]. cbn [fst snd].
  by destruct (Z.eqb_spec pid' pid).
Qed.

Lemma remove_total (Hfr : ∀ v, freed v = Ret v) h0 starts totals leaked h c lg pid :
  perf_rep h0 starts totals leaked h c →
  ∃ totals' h' f, remove_rb_tree freed pid (Kern h lg, c) =
      (Ret tt, (Kern h' lg, set_root f c)) ∧
    perf_rep h0 starts totals' leaked h' (set_root f c) ∧
    as_map totals' = delete pid (as_map totals) ∧ pid ∉ pids totals'.
Proof.
  intros HR. pose proof (pr_tree _ _ _ _ _ _ HR) as Ht. pose proof Ht as (Hio & Hndp & Hh).
  unfold remove_rb_tree.
  destruct (decide (pid ∈ pids totals)) as [Hin|Hin].
  - destruct (pids_split _ _ Hin (pr_totals _ _ _ _ _ _ HR)) as (n1 & p & t & n2 & -> & Hn & Hnd).
    destruct (Hh p (pid, t)) as [Hp0 Hp]; [apply elem_of_mid|].
    set (c' := set_root (rb_erase p) c).
    assert (tree_rep (delete p h) (rb_erase p (myroot c)) (n1 ++ n2)) as Ht'
      by (by eapply tree_rep_del).
    exists (n1 ++ n2), (delete p h), (rb_erase p). split; [|split; [|split; [|done]]].
    + destruct (rb_for_each_to freed myroot (rm_rb pid) h lg c n1 p (pid, t) n2 Ht)
        as (fuel & Hfuel & Hloop).
      { intros q [pid' t'] Hq. destruct (Hh q (pid', t')) as [Hq0 Hq']; [apply elem_of_app; by left|].
        eapply rm_rb_other; [done..|]. intros ->. apply Hn.
        unfold pids. rewrite map_app, elem_of_app. left. by eapply elem_of_pids. }
      eapply bind_run with (a := None); [rewrite Hloop|done].
      assert (rm_rb pid p (Kern h lg, c) = (Ret None, (Kern (delete p h) lg, c'))) as Hbody.
      { eapply bind_run; [by apply kload_ok|]. cbn [fst snd]. rewrite Z.eqb_refl.
        eapply bind_run; [|reflexivity]. mstep. by eapply kfree_ok. }
      cbn [walk]. destruct (Z.eqb_spec p 0); [done|]. mrun Hbody.
      eapply bind_run.
      { unfold rb_step. mstep. rewrite read_link_freed by apply lookup_delete_eq. by rewrite Hfr. }
      cbv beta. apply (rb_erase_rest freed myroot (rm_rb pid) (delete p h) lg c' (n1 ++ n2)).
      * exact Ht'.
      * unfold c'. simpl. apply rb_next_erased.
        -- rewrite Hio, map_app. apply elem_of_mid.
        -- by rewrite Hio.
      * done.
      * intros q [pid' t'] Hq. destruct (proj2 (proj2 Ht') q (pid', t') Hq) as [Hq0 Hq'].
        eapply rm_rb_other; [done..|]. intros ->. apply Hn. by eapply elem_of_pids.
    + destruct HR as [HO Hc _ Hs Hns _]. split; [|done|apply Ht'| |done|done].
      * eapply owns_del, owns_perm; [|exact HO].
        rewrite <- !app_assoc, !(app_assoc starts). symmetry. apply Permutation_middle.
      * unfold keys in *. rewrite map_app in *. simpl in Hs. by apply sorted_del in Hs.
    + rewrite as_map_mid by done. rewrite delete_insert_id; [done|]. by apply as_map_none.
  - exists totals, h, id. assert (set_root id c = c) as -> by (by destruct c).
    split; [|split; [done|split; [|done]]].
    + eapply bind_run; [|done]. apply (rb_for_each_none freed myroot _ h lg c totals Ht).
      intros q [pid' t'] Hq. destruct (Hh q (pid', t') Hq) as [Hq0 Hq'].
      eapply rm_rb_other; [done..|]. intros ->. destruct Hin. by eapply elem_of_pids.
    + symmetry. apply delete_id. by apply as_map_none.
Qed.

Lemma insert_total h0 starts totals leaked h c lg pid t :
  perf_rep h0 starts totals leaked h c → pid ∉ pids totals →
  ∃ totals' leaked' h' f, insert_redblack_trees kmalloc_at pid t (Kern h lg, c) =
      (Ret tt, (Kern h' lg, set_root f c)) ∧
    perf_rep h0 starts totals' leaked' h' (set_root f c) ∧
    as_map totals' = (if decide (t ∈ (map_to_list (as_map totals)).*2) then as_map totals
                      else <[pid := t]> (as_map totals)).
Proof.
  intros HR Hn. pose proof (alloc_fresh kmalloc_at h (enough h)) as Hp.
  pose proof (enough h) as Hp0. set (p := kmalloc_at h) in *.
  set (h1 := <[p := Some (pid, t)]> h).
  destruct HR as [HO Hc Hi Hs Hns Hnt].
  pose proof (owns_add h0 h _ p (pid, t) HO Hp0 Hp) as HO1. fold h1 in HO1.
  assert (∀ q v, (q, v) ∈ totals → q ≠ 0 ∧ h1 !! q = Some (Some v)) as Hh.
  { intros q v Hq. apply (owns_lookup _ _ _ _ _ HO1). right. rewrite !elem_of_app. tauto. }
  destruct (rb_link_ok snd h1 lg c (myroot c) totals t p Hi Hh Hs) as (o & Hlink & Ho).
  assert (insert_redblack_trees kmalloc_at pid t (Kern h lg, c) =
    (insert_rb_tree p;; mret tt) (Kern h1 lg, c)) as ->.
  { unfold insert_redblack_trees. by rewrite new_object. }
  assert (∀ r c', insert_rb_tree p (Kern h1 lg, c) = (Ret r, (Kern h1 lg, c')) →
    (insert_rb_tree p;; mret tt) (Kern h1 lg, c) = (Ret tt, (Kern h1 lg, c'))) as Hret
    by (intros r c' E; by mrun E).
  assert (insert_rb_tree p (Kern h1 lg, c) = match o with
    | None => (Ret 0, (Kern h1 lg, c))
    | Some t' => (Ret 1, (Kern h1 lg, set_root (λ _, rb_insert_color p t') c)) end) as Hins.
  { unfold insert_rb_tree. eapply bind_run; [by apply kload_ok, lookup_insert_eq|]. cbn [fst snd].
    mstep. mrun Hlink. by destruct o. }
  rewrite (decide_ext _ (t ∈ keys snd totals)) by (by apply as_map_values).
  destruct o as [t'|].
  - destruct Ho as (n1 & n2 & -> & Hin & H1 & H2).
    exists (n1 ++ (p, (pid, t)) :: n2), leaked, h1, (λ _, rb_insert_color p t').
    split; [by eapply Hret|]. split; [split|].
    + eapply owns_perm; [|exact HO1].
      rewrite <- !app_assoc. rewrite !(app_assoc starts). apply Permutation_middle.
    + done.
    + simpl. by rewrite inorder_insert_color, Hin, map_app.
    + unfold keys in *. rewrite map_app in *. simpl. rewrite <- ins_split by done.
      by apply ins_sorted.
    + done.
    + rewrite pids_mid, <- Permutation_middle. apply NoDup_cons. unfold pids in *.
      by rewrite map_app in Hn, Hnt.
    + rewrite decide_False.
      * by apply as_map_mid.
      * unfold keys in *. rewrite map_app, elem_of_app. rewrite Forall_forall in H1, H2.
        intros [Hx|Hx]; [specialize (H1 t Hx)|specialize (H2 t Hx)]; lia.
  - exists totals, ((p, (pid, t)) :: leaked), h1, id.
    assert (set_root id c = c) as -> by (by destruct c).
    split; [by eapply Hret|]. split; [split; try done|].
    + eapply owns_perm; [|exact HO1]. rewrite !app_assoc. apply Permutation_middle.
    + by rewrite decide_True.
Qed.

(** *** A context switch *)

(** The module keeps the maps [s]; [h0] is the heap without its objects. *)
Definition represents h0 (s : times) h c : Prop :=
  ∃ starts totals leaked, perf_rep h0 starts totals leaked h c ∧
    start s = as_map starts ∧ total s = as_map totals.

Definition same_counts (c c' : perf) : Prop :=
  post_count c' = post_count c ∧ pre_count c' = pre_count c ∧
  context_switch_count c' = context_switch_count c.

Lemma perf_rep_counts h0 starts totals leaked h c f g k :
  perf_rep h0 starts totals leaked h c → perf_rep h0 starts totals leaked h (set_counts f g k c).
Proof. by intros []. Qed.

Lemma account_ok (Hfr : ∀ v, freed v = Ret v) h0 s h c lg prev curr :
  represents h0 s h c →
  ∃ h' lg' c', account kmalloc_at freed prev curr (Kern h lg, c) = (Ret tt, (Kern h' lg', c')) ∧
    represents h0 (stop_process prev curr s) h' c' ∧ same_counts c c'.
Proof.
  intros (starts & totals & leaked & HR & Hst & Hto). unfold account, stop_process.
  rewrite Hst, Hto. pose proof (lookup_start _ _ _ _ _ _ lg prev HR) as Hlk.
  set (old := default 0 (as_map starts !! prev)) in *.
  destruct (Z.eqb_spec old 0) as [E|E].
  { exists h, lg, c. split; [mrun Hlk; by rewrite E|]. split; [|done].
    exists starts, totals, leaked. done. }
  destruct (remove_start Hfr _ _ _ _ _ _ lg prev HR) as (s1 & h1 & lg1 & f1 & Hrm & HR1 & Hm1 & Hn1).
  pose proof (lookup_total _ _ _ _ _ _ lg1 prev HR1) as Hlk2.
  set (sum := u64 (u64 (default 0 (as_map totals !! prev) + curr) - old)).
  destruct (remove_total Hfr _ _ _ _ _ _ (lg1 ++ [("Inserting PID : %d TSC : %llu ", [prev; sum])]) prev HR1)
    as (t1 & h2 & f2 & Hrm2 & HR2 & Hm2 & Hn2).
  destruct (insert_total _ _ _ _ _ _ (lg1 ++ [("Inserting PID : %d TSC : %llu ", [prev; sum])])
    prev sum HR2 Hn2) as (t2 & l2 & h3 & f3 & Hins & HR3 & Hm3).
  assert (u64 (default 0 (as_map totals !! prev) + curr - old) = sum) as ->.
  { unfold sum, u64. by rewrite Zminus_mod_idemp_l. }
  eexists h3, _, _. split; [|split].
  - mrun Hlk. apply Z.eqb_neq in E. rewrite E. cbn [negb]. mrun Hrm. mrun Hlk2. cbv zeta. fold sum.
    prints. mrun Hrm2. exact Hins.
  - exists s1, t2, l2. split; [done|]. simpl. rewrite Hm3, Hm2. split; [|done]. by rewrite Hm1.
  - done.
Qed.

Lemma ret_ok (Hfr : ∀ v, freed v = Ret v) pid h0 s h c lg prev next curr :
  represents h0 s h c → prev ≠ 0 → next ≠ 0 → prev ≠ next →
  ∃ h' lg' c',
    ret_pick_next_fair kmalloc_at freed pid curr next (Some prev) (Kern h lg, c) =
      (Ret 0, (Kern h' lg', c')) ∧
    represents h0 (switch (pid prev) (pid next) curr s) h' c' ∧
    post_count c' = inc (post_count c) ∧ pre_count c' = pre_count c ∧
    context_switch_count c' = inc (context_switch_count c).
Proof.
  intros (starts & totals & leaked & HR & Hst & Hto) Hp0 Hn0 Hne.
  destruct (account_ok Hfr h0 s h (set_counts inc id id c) lg (pid prev) curr)
    as (h1 & lg1 & c1 & Hrun & (s1 & t1 & l1 & HR1 & Hst1 & Hto1) & Hcounts).
  { exists starts, totals, leaked. split; [by apply perf_rep_counts|done]. }
  destruct (insert_start Hfr h0 s1 t1 l1 h1 c1 lg1 (pid next) curr HR1)
    as (s2 & h2 & lg2 & f & Hins & HR2 & Hm).
  exists h2, lg2, (set_counts id id inc (set_table f c1)). split; [|split].
  - unfold ret_pick_next_fair. mstep.
    destruct (Z.eqb_spec prev 0); [done|]. destruct (Z.eqb_spec next 0); [done|].
    destruct (Z.eqb_spec prev next); [done|]. cbn [negb andb]. cbv zeta.
    rewrite bind_assoc. mrun Hrun. rewrite bind_assoc. by mrun Hins.
  - exists s2, t1, l1. split; [by apply perf_rep_counts|]. simpl. by rewrite Hm, Hst1, Hto1.
  - destruct Hcounts as (E1 & E2 & E3). simpl. rewrite E1, E2, E3. done.
Qed.

(** The other calls of the return handler count it and do nothing else. *)
Lemma ret_skip pid h c lg data next curr :
  (∀ prev, data = Some prev → prev = 0 ∨ next = 0 ∨ prev = next) →
  ret_pick_next_fair kmalloc_at freed pid curr next data (Kern h lg, c) =
    (Ret 0, (Kern h lg, set_counts inc id id c)).
Proof.
  intros Hskip. unfold ret_pick_next_fair. mstep. destruct data as [prev|]; [|done].
  destruct (Z.eqb_spec prev 0); [done|]. destruct (Z.eqb_spec next 0); [done|].
  destruct (Z.eqb_spec prev next); [done|]. exfalso. destruct (Hskip prev) as [|[|]]; done.
Qed.

(** *** Events *)

(** A choice of the next task: whether the current task has an address space,
    what the kretprobe instance holds from its last use, and the tasks. *)
Record choice := Choice {
  e_mm : bool;
  e_stale : Z;
  e_prev : Z;
  e_next : Z;
  e_tsc : Z;
}.

(** The entry handler, and the return handler unless it is skipped. *)
Definition probe (pid : Z → Z) (e : choice) : M (kern (Z * Z) * perf) unit :=
  '(skip, data) ← entry_pick_next_fair (e_mm e) (e_prev e) (Some (e_stale e));
  if skip =? 0 then
    ret_pick_next_fair kmalloc_at freed pid (e_tsc e) (e_next e) data;; mret tt
  else mret tt.

(** The task taken as the previous one. *)
Definition effective_prev (e : choice) : Z := if e_prev e =? 0 then e_stale e else e_prev e.

Definition is_switch (e : choice) : bool :=
  e_mm e && negb (effective_prev e =? 0) && negb (e_next e =? 0) &&
  negb (effective_prev e =? e_next e).

Definition spec_event (pid : Z → Z) (e : choice) (s : times) : times :=
  if is_switch e then switch (pid (effective_prev e)) (pid (e_next e)) (e_tsc e) s else s.

Definition count_if (b : bool) (z : Z) : Z := if b then inc z else z.

Lemma represents_counts h0 s h c f g k :
  represents h0 s h c → represents h0 s h (set_counts f g k c).
Proof.
  intros (starts & totals & leaked & HR & ?). exists starts, totals, leaked.
  split; [by apply perf_rep_counts|done].
Qed.

Lemma probe_ok (Hfr : ∀ v, freed v = Ret v) pid e h0 s h c lg :
  represents h0 s h c →
  ∃ h' lg' c', probe pid e (Kern h lg, c) = (Ret tt, (Kern h' lg', c')) ∧
    represents h0 (spec_event pid e s) h' c' ∧
    pre_count c' = count_if (e_mm e) (pre_count c) ∧
    post_count c' = count_if (e_mm e) (post_count c) ∧
    context_switch_count c' = count_if (is_switch e) (context_switch_count c).
Proof.
  intros HR. unfold probe, spec_event, is_switch, entry_pick_next_fair.
  destruct (e_mm e); simpl; [|by exists h, lg, c].
  assert ((if negb (e_prev e =? 0) then e_prev e else e_stale e) = effective_prev e) as Hp
    by (unfold effective_prev; by destruct (e_prev e =? 0)).
  rewrite Hp. set (prev := effective_prev e). set (c1 := set_counts id inc id c).
  assert (∀ h' lg' c', ret_pick_next_fair kmalloc_at freed pid (e_tsc e) (e_next e) (Some prev)
      (Kern h lg, c1) = (Ret 0, (Kern h' lg', c')) →
    ((on_container (set_counts id inc id);; mret (0, Some prev)) ≫= λ '(skip, data),
       if skip =? 0 then
         ret_pick_next_fair kmalloc_at freed pid (e_tsc e) (e_next e) data;; mret tt
       else mret tt) (Kern h lg, c) = (Ret tt, (Kern h' lg', c'))) as Hentry.
  { intros h' lg' c' Hrun. rewrite bind_assoc. mstep. mstep. cbn [Z.eqb]. by mrun Hrun. }
  destruct (negb (prev =? 0) && negb (e_next e =? 0) && negb (prev =? e_next e)) eqn:Hb.
  - rewrite !andb_true_iff, !negb_true_iff, !Z.eqb_neq in Hb. destruct Hb as [[H1 H2] H3].
    destruct (ret_ok Hfr pid h0 s h c1 lg prev (e_next e) (e_tsc e)) as
      (h' & lg' & c' & Hrun & HR' & E1 & E2 & E3); [by apply represents_counts|done..|].
    exists h', lg', c'. split; [by apply Hentry|]. simpl. by rewrite E1, E2, E3.
  - exists h, lg, (set_counts inc id id c1). split; [|split; [|done]].
    + apply Hentry, ret_skip. intros ? [= <-].
      destruct (Z.eqb_spec prev 0), (Z.eqb_spec (e_next e) 0), (Z.eqb_spec prev (e_next e)); auto.
      done.
    + by apply represents_counts, represents_counts.
Qed.
End proofs.
