(* ===== verification/Perftop2Theorems.v ===== *)
(** Part 2 of [perftop.c]: the theorems on the profiler. *)
From S2P Require Import Prelude CInt Kernel KernelModel Hashtable Rbtree Perftop2 Perftop2Proofs.
Local Open Scope Z_scope.

(** The statics of the module when it is loaded; [hash_init] is still to come. *)
Definition unloaded `{HashApi HASH_BITS} (t : hashtable) : perf := Perf t RbNull 0 0 0 false false.

Section theorems.
Context `{HH : HashApi HASH_BITS} `{RA : RbApi}.
Context (kmalloc_at : kheap (Z * Z) → Z) {HA : Allocator kmalloc_at}.
Context (freed : Z → outcome Z) (enough : ∀ h, kmalloc_at h ≠ 0).
Implicit Types (h : kheap (Z * Z)) (lg : list (string * list Z)) (c : perf).

Definition run_profile (kp_addr : Z) (pid : Z → Z) (es : list choice) : M (kern (Z * Z) * perf) unit :=
  perftop_init 0 kp_addr;; for_each es (probe kmalloc_at freed pid).

(** The maps after a list of events. *)
Definition profile (pid : Z → Z) (es : list choice) : times :=
  foldl (λ s e, spec_event pid e s) (Times ∅ ∅) es.

Definition counted (f : choice → bool) (es : list choice) : Z :=
  Z.of_nat (length (filter (λ e, f e = true) es)).

Lemma init_represents h lg t kp_addr :
  ∃ lg' c', perftop_init 0 kp_addr (Kern h lg, unloaded t) = (Ret 0, (Kern h lg', c')) ∧
    represents h (Times ∅ ∅) h c' ∧ pre_count c' = 0 ∧ post_count c' = 0 ∧
    context_switch_count c' = 0 ∧ kretprobe c' = true.
Proof.
  eexists _, _. split; [reflexivity|]. split; [|done]. exists [], [], [].
  split; [split|done]; simpl.
  - apply owns_nil.
  - intros b. by rewrite chain_init.
  - done.
  - constructor.
  - by apply NoDup_nil.
  - by apply NoDup_nil.
Qed.

Lemma count_if_fold f es z :
  0 ≤ z → z + Z.of_nat (length es) < 2 ^ 31 →
  foldl (λ z e, count_if (f e) z) z es = z + counted f es.
Proof.
  revert z. induction es as [|e es IH]; intros z Hz Hl; [unfold counted; simpl; lia|].
  cbn [foldl length] in *. rewrite Nat2Z.inj_succ in Hl. unfold counted in *.
  rewrite filter_cons. destruct (f e); simpl.
  - unfold inc. rewrite s32_small, IH by lia. lia.
  - apply IH; lia.
Qed.

Lemma probes_ok (Hfr : ∀ v, freed v = Ret v) pid es h0 s h c lg :
  represents h0 s h c →
  ∃ h' lg' c', for_each es (probe kmalloc_at freed pid) (Kern h lg, c) = (Ret tt, (Kern h' lg', c')) ∧
    represents h0 (foldl (λ s e, spec_event pid e s) s es) h' c' ∧
    pre_count c' = foldl (λ z e, count_if (e_mm e) z) (pre_count c) es ∧
    post_count c' = foldl (λ z e, count_if (e_mm e) z) (post_count c) es ∧
    context_switch_count c' = foldl (λ z e, count_if (is_switch e) z) (context_switch_count c) es.
Proof.
  revert s h c lg. induction es as [|e es IH]; intros s h c lg HR; [by exists h, lg, c|].
  destruct (probe_ok kmalloc_at freed enough Hfr pid e h0 s h c lg HR)
    as (h1 & lg1 & c1 & Hrun & HR1 & E1 & E2 & E3).
  destruct (IH _ h1 c1 lg1 HR1) as (h' & lg' & c' & Hf & HR' & F1 & F2 & F3).
  exists h', lg', c'. split; [by eapply for_each_run|]. split; [done|].
  simpl. by rewrite F1, F2, F3, E1, E2, E3.
Qed.

(** C6: the profiler implements its specification, with freed memory that
    keeps its contents and memory for every node: after loading and any list
    of choices of the next task, the hash table is the map from process to the
    time it was switched in, the tree is the map from process to total time,
    in the order of the totals, and the counters are those of the choices made
    for a user task and of the context switches. *)
Theorem profiler_refines kp_addr pid es h lg t :
  (∀ v, freed v = Ret v) → Z.of_nat (length es) < 2 ^ 31 →
  ∃ h' lg' c',
    run_profile kp_addr pid es (Kern h lg, unloaded t) = (Ret tt, (Kern h' lg', c')) ∧
    represents h (profile pid es) h' c' ∧
    pre_count c' = counted e_mm es ∧ post_count c' = counted e_mm es ∧
    context_switch_count c' = counted is_switch es.
Proof.
  intros Hfr Hlen. destruct (init_represents h lg t kp_addr) as (lg1 & c1 & Hinit & HR & E1 & E2 & E3 & _).
  destruct (probes_ok Hfr pid es h _ h c1 lg1 HR) as (h' & lg' & c' & Hrun & HR' & F1 & F2 & F3).
  exists h', lg', c'. split; [unfold run_profile; by mrun Hinit|]. split; [done|].
  rewrite F1, F2, F3, E1, E2, E3, !count_if_fold by lia. done.
Qed.

(** *** The output *)

Lemma print_loop_ok starts totals leaked h0 h lg c pre rest k fuel :
  perf_rep h0 starts totals leaked h c → rev totals = pre ++ rest →
  0 ≤ k ≤ 9 → (length rest < fuel)%nat →
  print_loop freed fuel (first_of (map fst rest)) k (Kern h lg, c) =
    (Ret (take (Z.to_nat (10 - k)) (map snd rest)), (Kern h lg, c)).
Proof.
  intros HR. pose proof (pr_tree _ _ _ _ _ _ HR) as (Hi & Hnd & Hh).
  revert pre k fuel. induction rest as [|[p v] rest IH]; intros pre k fuel Hrev Hk Hf.
  { destruct fuel as [|fuel]; [lia|]. simpl. by rewrite take_nil. }
  destruct fuel as [|fuel]; [simpl in Hf; lia|].
  assert ((p, v) ∈ totals) as Hin.
  { rewrite (Permutation_rev totals), Hrev. apply elem_of_mid. }
  destruct (Hh p v Hin) as [Hp0 Hp].
  cbn [map fst]. rewrite first_of_cons. cbn [print_loop]. destruct (Z.eqb_spec p 0); [done|].
  eapply bind_run; [by apply kload_ok|]. cbv beta.
  destruct (Z.gtb_spec k 8) as [Hgt|Hle].
  { assert (k = 9) as -> by lia. simpl. by rewrite take_0. }
  mstep. eapply bind_run.
  { rewrite (read_link_live _ _ _ (Some v)) by done.
    rewrite rb_prev_in, Hi, <- map_rev, Hrev, map_app.
    - cbn [map fst]. rewrite succ_in_app; [done|].
      change (NoDup (map fst pre ++ map fst ((p, v) :: rest))).
      rewrite <- map_app, <- Hrev, map_rev. by rewrite <- Permutation_rev.
    - by rewrite Hi.
    - rewrite Hi. apply list_elem_of_fmap. by exists (p, v). }
  cbv beta. eapply bind_run.
  { apply (IH (pre ++ [(p, v)]) (k + 1)); [by rewrite <- app_assoc|lia|].
    simpl in Hf. lia. }
  cbv beta. replace (Z.to_nat (10 - k)) with (S (Z.to_nat (10 - (k + 1)))) by lia. done.
Qed.

(** C10: [/proc/perftop] shows the counters and at most ten lines, a process
    and its total each, by decreasing totals: the first ten of all processes
    with a total. *)
Theorem perftop_show_top10 h0 s h lg c :
  represents h0 s h c →
  ∃ ranking lg', ranking ≡ₚ map_to_list (total s) ∧
    StronglySorted (λ a b : Z * Z, b.2 < a.2) ranking ∧
    perftop_show freed (Kern h lg, c) =
      (Ret (pre_count c, post_count c, context_switch_count c, take 10 ranking), (Kern h lg', c)).
Proof.
  intros (starts & totals & leaked & HR & _ & Hto).
  pose proof (pr_tree _ _ _ _ _ _ HR) as (Hi & Hnd & Hh).
  exists (map snd (rev totals)).
  assert (∃ lg', ∀ A (f : unit → M (kern (Z * Z) * perf) A),
    ((if rb_first (myroot c) =? 0 then printk "Root Node is null" [] else mret tt) ≫= f)
      (Kern h lg, c) = f tt (Kern h lg', c)) as [lg' Hnull].
  { destruct (rb_first (myroot c) =? 0).
    - exists (lg ++ [("Root Node is null", [])]). done.
    - by exists lg. }
  exists lg'. split; [|split].
  - rewrite Hto. unfold as_map. rewrite map_to_list_to_map.
    + by rewrite <- Permutation_rev.
    + rewrite <- list_fmap_compose. apply (pr_totals _ _ _ _ _ _ HR).
  - pose proof (pr_sorted _ _ _ _ _ _ HR) as Hs. clear - Hs. unfold keys in Hs.
    induction totals as [|[p v] totals IH] using rev_ind; [constructor|].
    rewrite rev_app_distr, map_app in *. simpl in *. apply sorted_mid in Hs as (H1 & _ & H2 & _).
    constructor; [by apply IH|]. apply Forall_forall. intros w.
    rewrite map_rev, <- Permutation_rev. intros ([q w'] & -> & Hq)%list_elem_of_fmap. simpl.
    rewrite Forall_forall in H2. apply H2. apply list_elem_of_fmap. by exists (q, w').
  - unfold perftop_show. mstep. unfold print_rb_tree. rewrite bind_assoc. mstep.
    rewrite bind_assoc, Hnull. eapply bind_run; [|done].
    rewrite rb_last_spec, Hi. unfold last_of.
    assert (default 0 (last (map fst totals)) = first_of (map fst (rev totals))) as ->.
    { unfold first_of. rewrite map_rev. by rewrite head_rev. }
    rewrite (print_loop_ok starts totals leaked h0 h lg' c [] (rev totals) 0); [done|done|done|lia|].
    rewrite length_map, length_rev. lia.
Qed.

(** *** What goes wrong *)

(** C32: a process whose new total is that of another process has no total
    any more: the tree is ordered by the totals alone, its insertion refuses
    the second node, and the old node has been removed before. *)
Theorem equal_totals_lost pid h0 s h lg c prev next curr old q :
  (∀ v, freed v = Ret v) → represents h0 s h c →
  prev ≠ 0 → next ≠ 0 → prev ≠ next →
  start s !! pid prev = Some old → old ≠ 0 → q ≠ pid prev →
  total s !! q = Some (u64 (default 0 (total s !! pid prev) + curr - old)) →
  ∃ h' lg' c',
    ret_pick_next_fair kmalloc_at freed pid curr next (Some prev) (Kern h lg, c) =
      (Ret 0, (Kern h' lg', c')) ∧
    lookup_rb_tree freed (pid prev) (Kern h' lg', c') = (Ret 0, (Kern h' lg', c')) ∧
    lookup_rb_tree freed q (Kern h' lg', c') =
      (Ret (u64 (default 0 (total s !! pid prev) + curr - old)), (Kern h' lg', c')).
Proof.
  intros Hfr HR Hp0 Hn0 Hne Hold Hold0 Hq Hsum.
  destruct (ret_ok kmalloc_at freed enough Hfr pid h0 s h c lg prev next curr HR Hp0 Hn0 Hne)
    as (h' & lg' & c' & Hrun & (starts & totals & leaked & HR' & _ & Hto) & _).
  exists h', lg', c'. split; [done|].
  assert (total (switch (pid prev) (pid next) curr s) = delete (pid prev) (total s)) as Htot.
  { unfold switch, stop_process. rewrite Hold. simpl. destruct (Z.eqb_spec old 0); [done|]. simpl.
    rewrite decide_True; [done|]. apply list_elem_of_fmap. eexists (q, _). split; [reflexivity|].
    apply elem_of_map_to_list. by rewrite lookup_delete_ne. }
  rewrite Htot in Hto.
  rewrite !(lookup_total freed h0 starts totals leaked) by done.
  rewrite <- Hto, lookup_delete_eq, lookup_delete_ne, Hsum by done. done.
Qed.

(** C33: with a read of freed memory as the error it is, every context switch
    away from a process that has a start ends in that error: the hash table's
    loop goes on from the node it has freed. *)
Theorem switch_use_after_free pid h0 s h lg c prev next curr old :
  (∀ v, freed v = Stop UseAfterFree) → represents h0 s h c →
  prev ≠ 0 → next ≠ 0 → prev ≠ next →
  start s !! pid prev = Some old → old ≠ 0 →
  ∃ s', ret_pick_next_fair kmalloc_at freed pid curr next (Some prev) (Kern h lg, c) =
    (Stop UseAfterFree, s').
Proof.
  intros Hfr (starts & totals & leaked & HR & Hst & _) Hp0 Hn0 Hne Hold Hold0.
  set (c1 := set_counts inc id id c).
  assert (perf_rep h0 starts totals leaked h c1) as HR1 by (by apply perf_rep_counts).
  assert (pid prev ∈ pids starts) as Hin.
  { destruct (decide (pid prev ∈ pids starts)) as [|Hn]; [done|].
    apply as_map_none in Hn. congruence. }
  destruct (remove_start_stop freed Hfr h0 starts totals leaked h c1 lg (pid prev) HR1 Hin)
    as [s' Hrm].
  exists s'. unfold ret_pick_next_fair. mstep. fold c1.
  destruct (Z.eqb_spec prev 0); [done|]. destruct (Z.eqb_spec next 0); [done|].
  destruct (Z.eqb_spec prev next); [done|]. cbn [negb andb]. cbv zeta.
  apply bind_Stop, bind_Stop. unfold account.
  mrun (lookup_start freed h0 starts totals leaked h c1 lg (pid prev) HR1).
  rewrite <- Hst, Hold. change (default 0 (Some old)) with old.
  destruct (Z.eqb_spec old 0); [done|]. cbn [negb].
  by apply bind_Stop.
Qed.

(** Erasing the whole tree. *)
Lemma remove_rb_loop_ok (Hfr : ∀ v, freed v = Ret v) h0 starts totals leaked h c lg fuel k :
  perf_rep h0 starts totals leaked h c → (length totals < fuel)%nat →
  ∃ h' c' k', remove_rb_loop freed fuel (first_of (map fst totals)) k (Kern h lg, c) =
      (Ret k', (Kern h' lg, c')) ∧
    perf_rep h0 starts [] leaked h' c' ∧
    proc_entry c' = proc_entry c ∧ kretprobe c' = kretprobe c.
Proof.
  revert totals h c k. induction fuel as [|fuel IH]; intros totals h c k HR Hf; [lia|].
  destruct totals as [|[p v] totals]; [by exists h, c, k|].
  pose proof (pr_tree _ _ _ _ _ _ HR) as Ht. destruct (proj2 (proj2 Ht) p v) as [Hp0 Hp]; [by left|].
  assert (tree_rep (delete p h) (rb_erase p (myroot c)) ([] ++ totals)) as Ht'
    by (by eapply tree_rep_del).
  cbn [map fst remove_rb_loop]. rewrite first_of_cons. destruct (Z.eqb_spec p 0); [done|].
  simpl in Hf.
  destruct (IH totals (delete p h) (set_root (rb_erase p) c) (k + 1)) as (h' & c' & k' & Hrun & HR' & E);
    [|lia|].
  { destruct HR as [HO Hc _ Hs Hns Hnt]. split; [|done|apply Ht'| |done|].
    - eapply owns_del, owns_perm; [|exact HO]. symmetry. apply Permutation_middle.
    - by apply (sorted_app [snd v]) in Hs as [_ ?].
    - by apply NoDup_cons in Hnt as [_ ?]. }
  exists h', c', k'. split; [|done].
  mstep. eapply bind_run; [by eapply kfree_ok|]. cbv beta.
  eapply bind_run; [by eapply (rb_step_erased_first freed myroot Hfr)|]. exact Hrun.
Qed.

(** C31: unloading the module, with freed memory that keeps its contents,
    gives back every node of the tree, and of the hash table the first node of
    the bucket of the key 0, if there is one: the loop goes over that bucket
    only, and the first deletion ends it.  All the other nodes of the table
    stay in it and stay allocated, as do the objects leaked before. *)
Theorem perftop_exit_leaks kp_addr nmissed h0 starts totals leaked h lg c :
  (∀ v, freed v = Ret v) → perf_rep h0 starts totals leaked h c →
  ∃ h' lg' c' rest,
    perftop_exit freed kp_addr nmissed (Kern h lg, c) = (Ret tt, (Kern h' lg', c')) ∧
    kretprobe c' = false ∧ proc_entry c' = false ∧
    starts ≡ₚ bucket_0_first starts ++ rest ∧ perf_rep h0 rest [] leaked h' c'.
Proof.
  intros Hfr HR.
  set (c1 := set_kernel (proc_entry (set_kernel false (kretprobe c) c)) false
               (set_kernel false (kretprobe c) c)).
  set (lg1 := lg ++ [("kretprobe at %p unregistered", [kp_addr])]).
  assert (perf_rep h0 starts totals leaked h c1) as HR1 by (by destruct HR).
  destruct (remove_hash_all_ok freed Hfr h0 starts totals leaked h c1 lg1 HR1)
    as (rest & h2 & lg2 & c2 & Hrm & HR2 & Hperm & Ek & Ep).
  destruct (remove_rb_loop_ok Hfr h0 rest totals leaked h2 c2 lg2 (S (length totals)) 0 HR2)
    as (h3 & c3 & k & Hrb & HR3 & Ep3 & Ek3); [lia|].
  eexists h3, _, c3, rest. split; [|split_and!; [by rewrite Ek3, Ek|by rewrite Ep3, Ep|done..]].
  unfold perftop_exit. mstep. mstep. prints. fold c1 lg1. mrun Hrm.
  unfold remove_rb_tree_all. rewrite bind_assoc. mstep.
  rewrite rb_first_spec, (pr_inorder _ _ _ _ _ _ HR2), length_map. rewrite bind_assoc.
  mrun Hrb. prints. apply printk_ok.
Qed.
End theorems.

(** ** Concrete runs

    Two switches, at 10 from 1 to 2 and at 15 from 2 to 3, after which 2 has
    run for 5 and 3 is running since 15. *)
Definition demo_table : HashApi HASH_BITS := model_hash HASH_BITS ltac:(done).
#[local] Existing Instance demo_table.

Definition demo_events : list choice := [Choice true 0 1 2 10; Choice true 0 2 3 15].
Definition demo_end : kern (Z * Z) * perf :=
  snd (run_profile top_addr Ret 0 id demo_events (Kern ∅ [], unloaded hash_init)).

Lemma demo_represents :
  represents ∅ (profile id demo_events) (k_heap demo_end.1) demo_end.2.
Proof.
  destruct (init_represents ∅ [] hash_init 0) as (lg1 & c1 & Hinit & HR & _).
  destruct (probes_ok top_addr Ret top_enough (λ v, eq_refl) id demo_events ∅ _ ∅ c1 lg1 HR)
    as (h' & lg' & c' & Hrun & HR' & _).
  unfold demo_end, run_profile. rewrite (bind_Ret _ _ _ _ _ Hinit), Hrun. exact HR'.
Qed.

Lemma profiler_refines_witness :
  ∃ h' lg' c',
    run_profile top_addr Ret 0 id demo_events (Kern ∅ [], unloaded hash_init) =
      (Ret tt, (Kern h' lg', c')) ∧
    represents ∅ (profile id demo_events) h' c' ∧
    pre_count c' = 2 ∧ post_count c' = 2 ∧ context_switch_count c' = 2.
Proof.
  apply (profiler_refines top_addr Ret top_enough 0 id demo_events ∅ [] hash_init).
  - done.
  - done.
Defined.

Lemma perftop_show_top10_witness :
  ∃ ranking lg', ranking ≡ₚ map_to_list (total (profile id demo_events)) ∧
    StronglySorted (λ a b : Z * Z, b.2 < a.2) ranking ∧
    perftop_show Ret (Kern (k_heap demo_end.1) [], demo_end.2) =
      (Ret (2, 2, 2, take 10 ranking), (Kern (k_heap demo_end.1) lg', demo_end.2)).
Proof.
  apply (perftop_show_top10 Ret ∅ _ _ [] _ demo_represents).
Defined.

Lemma equal_totals_lost_witness :
  ∃ h' lg' c',
    ret_pick_next_fair top_addr Ret id 20 1 (Some 3) (Kern (k_heap demo_end.1) [], demo_end.2) =
      (Ret 0, (Kern h' lg', c')) ∧
    lookup_rb_tree Ret 3 (Kern h' lg', c') = (Ret 0, (Kern h' lg', c')) ∧
    lookup_rb_tree Ret 2 (Kern h' lg', c') = (Ret 5, (Kern h' lg', c')).
Proof.
  assert (u64 (default 0 (total (profile id demo_events) !! 3) + 20 - 15) = 5) as <-
    by (vm_compute; reflexivity).
  apply (equal_totals_lost top_addr Ret top_enough id ∅ (profile id demo_events) _ [] _ 3 1 20 15 2);
    [done|exact demo_represents|done|done|done| |done|done|]; vm_compute; reflexivity.
Defined.

Lemma switch_use_after_free_witness :
  ∃ s', ret_pick_next_fair top_addr (λ _, Stop UseAfterFree) id 20 1 (Some 3)
    (Kern (k_heap demo_end.1) [], demo_end.2) = (Stop UseAfterFree, s').
Proof.
  apply (switch_use_after_free top_addr (λ _, Stop UseAfterFree) id ∅ (profile id demo_events) _ [] _
    3 1 20 15);
    [done|exact demo_represents|done|done|done| |done]; vm_compute; reflexivity.
Defined.

Lemma perftop_exit_leaks_witness :
  ∃ (starts totals leaked : list (Z * (Z * Z))) h' lg' c' rest,
    start (profile id demo_events) = as_map starts ∧
    perftop_exit Ret 0 0 (Kern (k_heap demo_end.1) [], demo_end.2) = (Ret tt, (Kern h' lg', c')) ∧
    kretprobe c' = false ∧ proc_entry c' = false ∧
    starts ≡ₚ bucket_0_first starts ++ rest ∧ perf_rep ∅ rest [] leaked h' c'.
Proof.
  destruct demo_represents as (starts & totals & leaked & HR & Hst & _).
  destruct (perftop_exit_leaks Ret 0 0 ∅ starts totals leaked _ [] _ (λ v, eq_refl) HR)
    as (h' & lg' & c' & rest & Hrun).
  exists starts, totals, leaked, h', lg', c', rest. by split.
Defined.
