(* ===== verification/Perftop1.v ===== *)
(** Part 1 of [perftop.c]: the probe that counts.  The handlers keep the
    previous task in the instance's data, log the tasks' names and process ids
    and count; [/proc/perftop] shows the three counts.

    A task is an address; [tasks] gives the fields the handlers read. *)
From S2P Require Import Prelude CInt CString Kernel Hashtable Rbtree Perftop2 Perftop2Proofs.
From S2P Require Import Perftop2Theorems KernelModel.
Local Open Scope Z_scope.

Record task_struct := Task { pid : Z; comm : bytes }.

Record perf1 := Perf1 {
  post_count1 : Z;
  pre_count1 : Z;
  context_switch_count1 : Z;
  proc_entry1 : bool;
  kretprobe1 : bool;
  log1 : list bytes;
}.

Section program.
Context (tasks : Z → task_struct).

Definition pr_info (s : bytes) : M perf1 unit := modify (λ c,
  Perf1 (post_count1 c) (pre_count1 c) (context_switch_count1 c) (proc_entry1 c) (kretprobe1 c)
    (log1 c ++ [s])).
Definition count1 (post pre switch : Z → Z) : M perf1 unit := modify (λ c,
  Perf1 (post (post_count1 c)) (pre (pre_count1 c)) (switch (context_switch_count1 c))
    (proc_entry1 c) (kretprobe1 c) (log1 c)).
Definition set_kernel1 (proc probe : bool → bool) : M perf1 unit := modify (λ c,
  Perf1 (post_count1 c) (pre_count1 c) (context_switch_count1 c) (proc (proc_entry1 c))
    (probe (kretprobe1 c)) (log1 c)).

(** [comm] is an array, so [prev->comm != NULL] holds. *)
Definition entry_pick_next_fair1 (mm : bool) (prev : Z) (data : option Z) : M perf1 (Z * option Z) :=
  if negb mm then mret (1, data)
  else
    data' ←
      match data with
      | Some _ =>
          (if negb (prev =? 0) && (strlen (comm (tasks prev)) >? 0) then
             pr_info (str "Pre Task Name : " ++ cstr (comm (tasks prev)) ++ str " " ++ [10]);;
             pr_info (str "Pre task_struct PID: " ++ fmt_d (pid (tasks prev)) ++ str " " ++ [10])
           else mret tt);;
          mret (Some prev)
      | None => mret None
      end;
    count1 id inc id;;
    mret (0, data').

Definition ret_pick_next_fair1 (next : Z) (data : option Z) : M perf1 Z :=
  count1 inc id id;;
  match data with
  | Some prev =>
      if negb (prev =? 0) then
        if negb (next =? 0) && negb (prev =? next) then
          pr_info (str "Post task_struct PID: " ++ fmt_d (pid (tasks next)) ++ str " " ++ [10]);;
          (if strlen (comm (tasks next)) >? 0 then
             pr_info (str "Next Task Name : " ++ cstr (comm (tasks next)) ++ str " " ++ [10])
           else mret tt);;
          count1 id id inc;;
          mret 0
        else mret 0
      else mret 0
  | None => mret 0
  end.

(** The line of [/proc/perftop]. *)
Definition perftop_show1 : M perf1 bytes :=
  c ← get;
  mret (str "Pre count: " ++ fmt_d (pre_count1 c) ++ str " | Post Count: " ++ fmt_d (post_count1 c) ++
        str " | Context Switches : " ++ fmt_d (context_switch_count1 c) ++ str " " ++ [10]).

Definition func_name : bytes := str "pick_next_task_fair".

Definition perftop_init1 (register_kretprobe kp_addr : Z) : M perf1 Z :=
  set_kernel1 (λ _, true) id;;
  if register_kretprobe <? 0 then
    pr_info (str "register_kretprobe failed, returned " ++ fmt_d register_kretprobe ++ [10]);;
    mret (-1)
  else
    set_kernel1 id (λ _, true);;
    pr_info (str "Planted return probe at " ++ func_name ++ str ": " ++ fmt_p kp_addr ++ [10]);;
    mret 0.

Definition perftop_exit1 (kp_addr nmissed : Z) : M perf1 unit :=
  set_kernel1 (λ _, false) id;;
  set_kernel1 id (λ _, false);;
  pr_info (str "kretprobe at " ++ fmt_p kp_addr ++ str " unregistered" ++ [10]);;
  pr_info (str "Missed probing " ++ fmt_d nmissed ++ str " instances of " ++ func_name ++ [10]).

(** The two handlers on a choice of the next task, as in Part 2. *)
Definition probe1 (e : choice) : M perf1 unit :=
  '(skip, data) ← entry_pick_next_fair1 (e_mm e) (e_prev e) (Some (e_stale e));
  if skip =? 0 then ret_pick_next_fair1 (e_next e) data;; mret tt else mret tt.

Definition run_profile1 (kp_addr : Z) (es : list choice) : M perf1 unit :=
  perftop_init1 0 kp_addr;; for_each es probe1.
End program.

Definition unloaded1 : perf1 := Perf1 0 0 0 false false [].

(** ** Proofs *)
Section proofs.
Context (tasks : Z → task_struct).

Definition counts (c : perf1) : Z * Z * Z := (pre_count1 c, post_count1 c, context_switch_count1 c).

Lemma pr_info_if b s1 s2 c :
  ∃ c', (if (b : bool) then pr_info s1;; pr_info s2 else mret tt) c = (Ret tt, c') ∧
    counts c' = counts c.
Proof. destruct b; eexists; (split; [reflexivity|done]). Qed.

(** Part 1 stores the previous task even when it is [NULL]. *)
Definition is_switch1 (e : choice) : bool :=
  e_mm e && negb (e_prev e =? 0) && negb (e_next e =? 0) && negb (e_prev e =? e_next e).

Lemma ret1_ok next prev c :
  ∃ c', ret_pick_next_fair1 tasks next (Some prev) c = (Ret 0, c') ∧
    counts c' = (pre_count1 c, inc (post_count1 c),
      count_if (negb (prev =? 0) && negb (next =? 0) && negb (prev =? next)) (context_switch_count1 c)).
Proof.
  unfold ret_pick_next_fair1.
  destruct (prev =? 0), (next =? 0), (prev =? next); simpl;
    try (eexists; split; [reflexivity|done]).
  destruct (strlen (comm (tasks next)) >? 0); eexists; (split; [reflexivity|done]).
Qed.

Lemma entry1_ok prev stale c :
  ∃ c', entry_pick_next_fair1 tasks true prev (Some stale) c = (Ret (0, Some prev), c') ∧
    counts c' = (inc (pre_count1 c), post_count1 c, context_switch_count1 c).
Proof.
  unfold entry_pick_next_fair1. simpl.
  destruct (negb (prev =? 0) && (strlen (comm (tasks prev)) >? 0));
    eexists; (split; [reflexivity|done]).
Qed.

Lemma probe1_ok e c :
  ∃ c', probe1 tasks e c = (Ret tt, c') ∧
    counts c' = (count_if (e_mm e) (pre_count1 c), count_if (e_mm e) (post_count1 c),
                 count_if (is_switch1 e) (context_switch_count1 c)).
Proof.
  unfold probe1, is_switch1. destruct (e_mm e); simpl; [|by exists c].
  destruct (entry1_ok (e_prev e) (e_stale e) c) as (c1 & E1 & H1). mrun E1. simpl.
  destruct (ret1_ok (e_next e) (e_prev e) c1) as (c' & E' & H'). mrun E'.
  exists c'. split; [done|]. rewrite H'. unfold counts in H1. by injection H1 as -> -> ->.
Qed.

Lemma probes1_ok es c :
  ∃ c', for_each es (probe1 tasks) c = (Ret tt, c') ∧
    counts c' = (foldl (λ z e, count_if (e_mm e) z) (pre_count1 c) es,
                 foldl (λ z e, count_if (e_mm e) z) (post_count1 c) es,
                 foldl (λ z e, count_if (is_switch1 e) z) (context_switch_count1 c) es).
Proof.
  revert c. induction es as [|e es IH]; intros c; [by exists c|].
  destruct (probe1_ok e c) as (c1 & E1 & H1). destruct (IH c1) as (c' & E' & H').
  exists c'. split; [by eapply for_each_run|]. simpl. rewrite H'.
  unfold counts in H1. by injection H1 as -> -> ->.
Qed.

Lemma is_switch_same e : e_prev e ≠ 0 → is_switch1 e = is_switch e.
Proof.
  intros Hp. unfold is_switch1, is_switch, effective_prev.
  apply Z.eqb_neq in Hp. by do 2 (rewrite Hp; cbn [negb]).
Qed.
End proofs.

(** C14: the two parts count alike: on the same choices of the next task, with
    a previous task in each, Part 1 and Part 2 (when its memory lasts and its
    freed nodes keep their contents) show the same three counts. *)
Theorem parts_count_alike `{HH : HashApi Perftop2.HASH_BITS} `{RA : RbApi}
    (kmalloc_at : kheap (Z * Z) → Z) {HA : Allocator kmalloc_at} freed tasks kp_addr es h lg t :
  (∀ h, kmalloc_at h ≠ 0) → (∀ v, freed v = Ret v) → Forall (λ e, e_prev e ≠ 0) es →
  ∃ c1 k c,
    run_profile1 tasks kp_addr es unloaded1 = (Ret tt, c1) ∧
    run_profile kmalloc_at freed kp_addr (λ p, pid (tasks p)) es (Kern h lg, unloaded t) =
      (Ret tt, (k, c)) ∧
    counts c1 = (pre_count c, post_count c, context_switch_count c).
Proof.
  intros Henough Hfr Hes.
  destruct (init_represents h lg t kp_addr) as (lg1 & p1 & Hinit & HR & E1 & E2 & E3 & _).
  destruct (probes_ok kmalloc_at freed Henough Hfr (λ p, pid (tasks p)) es h _ h p1 lg1 HR)
    as (h' & lg' & c & Hrun & _ & F1 & F2 & F3).
  destruct (probes1_ok tasks es (snd (perftop_init1 0 kp_addr unloaded1))) as (c1 & Hrun1 & Hc).
  exists c1, (Kern h' lg'), c. split; [exact Hrun1|]. split.
  { unfold run_profile. by mrun Hinit. }
  rewrite Hc, F1, F2, F3, E1, E2, E3. simpl. f_equal.
  clear - Hes. generalize 0. induction Hes as [|e es He _ IH]; intros z; [done|].
  simpl. by rewrite is_switch_same, IH.
Qed.

Definition demo_task (p : Z) : task_struct := Task p (str "task").

Lemma parts_count_alike_witness :
  ∃ c1 k c,
    run_profile1 demo_task 0 demo_events unloaded1 = (Ret tt, c1) ∧
    run_profile (HH := demo_table) top_addr Ret 0 (λ p, pid (demo_task p)) demo_events
      (Kern ∅ [], unloaded (H := demo_table) (hash_init (HashApi := demo_table))) = (Ret tt, (k, c)) ∧
    counts c1 = (pre_count (HH := demo_table) c, post_count c, context_switch_count c).
Proof.
  apply (parts_count_alike (HH := demo_table) top_addr Ret demo_task 0 demo_events ∅ []).
  - apply top_enough.
  - done.
  - by repeat constructor.
Defined.
