(* ===== verification/S2fs.v ===== *)
(** The file system of assignment 5 ([s2fs.c]): filling the superblock at a
    mount, and reading its one file.

    The objects of the kernel's VFS are in a heap of inodes and dentries, the
    superblock and the count of inode numbers handed out beside it.  The VFS
    functions the module calls are the class [VfsApi]: operations on the heap
    and the effect each is documented to have.  A call on an address that
    holds no object of its kind is a use after free. *)
From S2P Require Import Prelude CInt CString KernelModel.
Local Open Scope Z_scope.

(** ** Objects *)

Inductive inode_operations : Type := empty_iops | simple_dir_inode_operations.
Inductive file_operations : Type := no_open_fops | simple_dir_operations | s2fs_fops.
Inductive super_operations : Type := no_s_ops | s2fs_s_ops.

Record inode := Inode {
  i_ino : Z;
  i_sb : Z;
  i_mode : Z;
  i_uid : Z;
  i_gid : Z;
  i_blocks : Z;
  i_time : Z * Z * Z;  (* i_atime, i_mtime, i_ctime *)
  i_op : inode_operations;
  i_fop : file_operations;
}.

Record qstr := Qstr { name : bytes; len : Z; hash : Z }.

(** A dentry with [d_inode] 0 is negative. *)
Record dentry := Dentry { d_name : qstr; d_parent : Z; d_inode : Z }.

Inductive object : Type := OInode (i : inode) | ODentry (d : dentry).

Abbreviation heap := (gmap Z object).

Record super_block := SuperBlock { s_magic : Z; s_op : super_operations; s_root : Z }.

Record vfs := Vfs { v_heap : heap; v_sb : super_block; v_inos : nat }.

(** ** The VFS

    Each allocation may fail.  [dput] is for a dentry that has no inode and no
    other reference, [iput] for the last reference of an inode; [d_make_root]
    gives its inode back when it fails. *)
Class VfsApi := {
  new_inode : Z → heap → Z * heap;
  iput : Z → heap → heap;
  d_alloc : Z → qstr → heap → Z * heap;
  d_add : Z → Z → heap → heap;
  dput : Z → heap → heap;
  d_make_root : Z → heap → Z * heap;
  get_next_ino : nat → Z;
  current_time : Z → Z;
  full_name_hash : Z → bytes → Z → Z;
  blank : Z → inode;
  root_name : qstr;
  new_inode_spec sb h : new_inode sb h = (0, h) ∨
    ∃ p, 0 < p ∧ h !! p = None ∧ new_inode sb h = (p, <[p := OInode (blank sb)]> h);
  iput_spec p i h : h !! p = Some (OInode i) → iput p h = delete p h;
  d_alloc_spec parent q h : d_alloc parent q h = (0, h) ∨
    ∃ p, 0 < p ∧ h !! p = None ∧ d_alloc parent q h = (p, <[p := ODentry (Dentry q parent 0)]> h);
  d_add_spec p i q parent h : h !! p = Some (ODentry (Dentry q parent 0)) →
    d_add p i h = <[p := ODentry (Dentry q parent i)]> h;
  dput_spec p q parent h : h !! p = Some (ODentry (Dentry q parent 0)) → dput p h = delete p h;
  d_make_root_spec i h : d_make_root i h = (0, iput i h) ∨
    ∃ p, 0 < p ∧ h !! p = None ∧ d_make_root i h = (p, <[p := ODentry (Dentry root_name p i)]> h);
}.

Definition S2FS_MAGIC : Z := 0x19980122.
Definition S_IFDIR : Z := 0x4000.
Definition S_IFREG : Z := 0x8000.
Definition ENOMEM : Z := 12.
Definition EFAULT : Z := 14.

Section program.
Context `{VfsApi}.

Definition is_inode (h : heap) (p : Z) : bool :=
  match h !! p with Some (OInode _) => true | _ => false end.
Definition is_dentry (h : heap) (p : Z) : bool :=
  match h !! p with Some (ODentry _) => true | _ => false end.

(** A call with a result, and one without, that needs its argument live. *)
Definition set_vheap (h : heap) (v : vfs) : vfs := Vfs h (v_sb v) (v_inos v).
Definition call {A} (live : heap → bool) (f : heap → A * heap) : M vfs A :=
  v ← get;
  check (live (v_heap v)) UseAfterFree;;
  let '(a, h) := f (v_heap v) in
  put (set_vheap h v);; mret a.
Definition call_ (live : heap → bool) (f : heap → heap) : M vfs unit :=
  call live (λ h, (tt, f h)).

(** An assignment to fields of the inode at [p]. *)
Definition set_inode (p : Z) (f : inode → inode) : M vfs unit :=
  v ← get;
  match v_heap v !! p with
  | Some (OInode i) => put (set_vheap (<[p := OInode (f i)]> (v_heap v)) v)
  | _ => stop UseAfterFree
  end.

Definition set_sb (f : super_block → super_block) : M vfs unit :=
  modify (λ v, Vfs (v_heap v) (f (v_sb v)) (v_inos v)).

Definition next_ino : M vfs Z := λ v,
  (Ret (get_next_ino (v_inos v)), Vfs (v_heap v) (v_sb v) (S (v_inos v))).

Definition s2fs_make_inode (sb mode : Z) : M vfs Z :=
  ret ← call (λ _, true) (new_inode sb);
  if ret =? 0 then mret ret
  else
    ino ← next_ino;
    let t := current_time ret in
    set_inode ret (λ i, Inode ino sb mode 0 0 0 (t, t, t) (i_op i) (i_fop i));;
    mret ret.

Definition s2fs_create_dir (sb parent : Z) (dir_name : bytes) : M vfs Z :=
  let qname := Qstr dir_name (strlen dir_name)
                 (full_name_hash parent dir_name (strlen dir_name)) in
  dentry ← call (λ h, is_dentry h parent) (d_alloc parent qname);
  if dentry =? 0 then mret 0
  else
    inode ← s2fs_make_inode sb (Z.lor S_IFDIR 0x1ff);
    if inode =? 0 then call_ (λ h, is_dentry h dentry) (dput dentry);; mret 0
    else
      set_inode inode (λ i, Inode (i_ino i) (i_sb i) (i_mode i) (i_uid i) (i_gid i) (i_blocks i)
        (i_time i) simple_dir_inode_operations simple_dir_operations);;
      call_ (λ h, is_dentry h dentry && is_inode h inode) (d_add dentry inode);;
      mret dentry.

Definition s2fs_create_file (sb dir : Z) (file_name : bytes) : M vfs Z :=
  let qname := Qstr file_name (strlen file_name)
                 (full_name_hash dir file_name (strlen file_name)) in
  dentry ← call (λ h, is_dentry h dir) (d_alloc dir qname);
  if dentry =? 0 then mret 0
  else
    inode ← s2fs_make_inode sb (Z.lor S_IFREG 0x1a4);
    if inode =? 0 then call_ (λ h, is_dentry h dentry) (dput dentry);; mret 0
    else
      set_inode inode (λ i, Inode (i_ino i) (i_sb i) (i_mode i) (i_uid i) (i_gid i) (i_blocks i)
        (i_time i) (i_op i) s2fs_fops);;
      call_ (λ h, is_dentry h dentry && is_inode h inode) (d_add dentry inode);;
      mret dentry.

Definition s2fs_fill_super (sb data silent : Z) : M vfs Z :=
  set_sb (λ s, SuperBlock S2FS_MAGIC (s_op s) (s_root s));;
  set_sb (λ s, SuperBlock (s_magic s) s2fs_s_ops (s_root s));;
  root ← s2fs_make_inode sb (Z.lor S_IFDIR 0x1ed);
  if root =? 0 then mret (- ENOMEM)
  else
    set_inode root (λ i, Inode (i_ino i) (i_sb i) (i_mode i) (i_uid i) (i_gid i) (i_blocks i)
      (i_time i) simple_dir_inode_operations simple_dir_operations);;
    root_dentry ← call (λ h, is_inode h root) (d_make_root root);
    if root_dentry =? 0 then
      call_ (λ h, is_inode h root) (iput root);; mret (- ENOMEM)
    else
      set_sb (λ s, SuperBlock (s_magic s) (s_op s) root_dentry);;
      subdirectory ← s2fs_create_dir sb root_dentry (str "foo");
      (if negb (subdirectory =? 0) then
         s2fs_create_file sb subdirectory (str "bar");; mret tt
       else mret tt);;
      mret 0.

(** [mount_nodev] calls the function it is given. *)
Definition s2fs_get_super (mount_nodev : Z → Z → Z → (Z → Z → Z → M vfs Z) → M vfs Z)
    (fst flags : Z) (devname : bytes) (data : Z) : M vfs Z :=
  mount_nodev fst flags data s2fs_fill_super.
End program.

(** ** The file's operations

    The state is what the caller's buffer holds and the file's offset;
    [copy_to_user] returns how many bytes it has not copied, and what is in
    the buffer after it. *)
Definition hello : bytes := str "Hello World!" ++ [10].

Definition s2fs_open (inode filp : Z) : Z := 0.
Definition s2fs_write_file (filp count offset : Z) (buf : bytes) : Z := 0.

(** [count] bytes of the literal, its NUL included, from [offset] on. *)
Definition literal_bytes {T} (offset count : Z) : M T bytes :=
  check ((0 <=? offset) && (offset + count <=? Z.of_nat (length hello) + 1)) OutOfBounds;;
  mret (take (Z.to_nat count) (drop (Z.to_nat offset) (hello ++ [0]))).

Section file.
Context (copy_to_user : bytes → Z * bytes).

(** [count] is a [size_t], [*offset] a [loff_t]. *)
Definition s2fs_read_file (count : Z) : M (bytes * Z) Z :=
  let len := strlen hello in
  offset ← gets snd;
  if offset >? len then mret 0
  else
    let count := if count >? u64 (len - offset) then u64 (len - offset) else count in
    src ← literal_bytes offset count;
    let '(uncopied, buf) := copy_to_user src in
    modify (λ s, (buf, snd s));;
    if negb (uncopied =? 0) then mret (- EFAULT)
    else
      modify (λ s, (fst s, s64 (snd s + len)));;
      mret (s64 count).
End file.

(** ** Reading *)
Section reading.
Context (copy_to_user : bytes → Z * bytes).

(** What is promised: the rest of the literal up to [count] bytes, and an
    offset that is past the end after any read. *)
Definition read_spec (count offset : Z) (buf : bytes) : outcome Z * (bytes * Z) :=
  if offset >? 13 then (Ret 0, (buf, offset))
  else
    let part := take (Z.to_nat count) (drop (Z.to_nat offset) hello) in
    let '(uncopied, buf') := copy_to_user part in
    if uncopied =? 0 then (Ret (Z.of_nat (length part)), (buf', offset + 13))
    else (Ret (- EFAULT), (buf', offset)).

Lemma literal_slice count offset :
  0 ≤ offset ≤ 13 → 0 ≤ count →
  let n := if count >? 13 - offset then 13 - offset else count in
  let part := take (Z.to_nat count) (drop (Z.to_nat offset) hello) in
  0 ≤ n ≤ 13 ∧ Z.of_nat (length part) = n ∧
  ∀ T (s : T), literal_bytes offset n s = (Ret part, s).
Proof.
  intros Ho Hc n part. pose proof (length_drop hello (Z.to_nat offset)) as Hl.
  change (length hello) with 13%nat in Hl.
  assert (0 ≤ n ≤ 13 - offset ∧ n ≤ count) as Hn
    by (unfold n; destruct (Z.gtb_spec count (13 - offset)); lia).
  split; [lia|]. split.
  - unfold part, n. rewrite length_take, Hl. destruct (Z.gtb_spec count (13 - offset)); lia.
  - intros T s. unfold literal_bytes. change (Z.of_nat (length hello) + 1) with 14.
    rewrite (proj2 (Z.leb_le 0 offset)), (proj2 (Z.leb_le (offset + n) 14)) by lia. mstep.
    do 2 f_equal. rewrite drop_app_le by (change (length hello) with 13%nat; lia).
    unfold part, n. destruct (Z.gtb_spec count (13 - offset)).
    + rewrite take_app_length' by lia. by rewrite take_ge by lia.
    + by rewrite take_app_le by lia.
Qed.

Lemma read_inside count offset buf :
  0 ≤ count < 2 ^ 63 → 0 ≤ offset ≤ 13 →
  s2fs_read_file copy_to_user count (buf, offset) = read_spec count offset buf.
Proof.
  intros Hc Ho. destruct (literal_slice count offset Ho (proj1 Hc)) as (Hn & Hlen & Hlit).
  unfold s2fs_read_file, read_spec. mstep. change (strlen hello) with 13.
  destruct (Z.gtb_spec offset 13); [lia|]. rewrite u64_small by lia.
  minto; [apply Hlit|]. cbv beta. rewrite <- Hlen.
  destruct (copy_to_user _) as [uncopied buf']. mstep.
  destruct (uncopied =? 0); simpl; [|done]. mstep.
  rewrite Hlen, !s64_small by lia. done.
Qed.

(** C24: a read at any offset the VFS lets through never leaves the literal; it
    returns 0 past its end, -EFAULT with the offset as it was when the copy is
    cut short, and otherwise the bytes from the offset on, up to [count] of
    them, and moves the offset by the whole length of the literal. *)
Theorem read_file_spec count offset buf :
  0 ≤ count < 2 ^ 63 → 0 ≤ offset < 2 ^ 63 →
  s2fs_read_file copy_to_user count (buf, offset) = read_spec count offset buf.
Proof.
  intros Hc Ho. destruct (decide (offset ≤ 13)); [apply read_inside; lia|].
  unfold s2fs_read_file, read_spec. mstep. change (strlen hello) with 13.
  by destruct (Z.gtb_spec offset 13); [|lia].
Qed.

(** *** [cat] with a buffer of [count] bytes: reads until a read returns 0 *)
Fixpoint cat (fuel : nat) (count : Z) : M (bytes * Z) bytes :=
  match fuel with
  | O => stop OutOfFuel
  | S f =>
      n ← s2fs_read_file copy_to_user count;
      if n <=? 0 then mret []
      else buf ← gets fst; rest ← cat f count; mret (take (Z.to_nat n) buf ++ rest)
  end.

(** C25: [cat] ends after its second read, whatever the size of its buffer, and
    has read as much of the greeting as the buffer has room for: all of it from
    13 bytes on, and with a smaller buffer the rest is lost. *)
Theorem cat_hello count buf fuel :
  (∀ s, copy_to_user s = (0, s)) → 1 ≤ count < 2 ^ 63 →
  cat (2 + fuel) count (buf, 0) = (Ret (take (Z.to_nat count) hello), ([], 26)).
Proof.
  intros Hcopy Hc.
  assert (∀ b, s2fs_read_file copy_to_user count (b, 0) =
    (Ret (Z.of_nat (length (take (Z.to_nat count) hello))), (take (Z.to_nat count) hello, 13))) as E0.
  { intros b. rewrite read_inside by lia. unfold read_spec. rewrite Hcopy. done. }
  assert (∀ b, s2fs_read_file copy_to_user count (b, 13) = (Ret 0, ([], 26))) as E13.
  { intros b. rewrite read_inside by lia. unfold read_spec. rewrite Hcopy.
    change (drop (Z.to_nat 13) hello) with (@nil Z). by rewrite take_nil. }
  set (part := take (Z.to_nat count) hello) in *.
  assert (1 ≤ Z.of_nat (length part)) as Hlen.
  { unfold part. rewrite length_take. change (length hello) with 13%nat. lia. }
  change (2 + fuel)%nat with (S (S fuel)). cbn [cat]. mrun (E0 buf).
  rewrite (proj2 (Z.leb_gt _ _)) by lia. mstep. rewrite bind_assoc. mrun (E13 part). mstep.
  rewrite Nat2Z.id, take_ge, app_nil_r by lia. done.
Qed.
End reading.

Lemma read_file_spec_witness :
  s2fs_read_file (λ s, (0, s)) 5 ([], 3) = (Ret 5, (str "lo Wo", 16)).
Proof.
  rewrite (read_file_spec (λ s, (0, s)) 5 3 []) by lia. vm_compute. reflexivity.
Defined.

Lemma cat_hello_witness :
  cat (λ s, (0, s)) 2 4096 ([], 0) = (Ret hello, ([], 26)) ∧
  cat (λ s, (0, s)) 2 4 ([], 0) = (Ret (str "Hell"), ([], 26)).
Proof.
  split.
  - transitivity (@Ret bytes (take (Z.to_nat 4096) hello), (@nil Z, 26)); [|reflexivity].
    apply (cat_hello (λ s, (0, s)) 4096 [] 0); (done || lia).
  - transitivity (@Ret bytes (take (Z.to_nat 4) hello), (@nil Z, 26)); [|reflexivity].
    apply (cat_hello (λ s, (0, s)) 4 [] 0); (done || lia).
Defined.

(** ** The tree *)
Section tree.
Context `{VfsApi}.
Implicit Types (h : heap) (v : vfs).

(** A dentry and its inode, and the heap with the two added. *)
Record node := Node { n_dentry : Z; n_inode : Z; n_name : qstr; n_parent : Z; n_data : inode }.

Definition add_node (n : node) (h : heap) : heap :=
  <[n_dentry n := ODentry (Dentry (n_name n) (n_parent n) (n_inode n))]>
    (<[n_inode n := OInode (n_data n)]> h).

Definition fresh_node (n : node) h : Prop :=
  0 < n_dentry n ∧ 0 < n_inode n ∧ n_dentry n ≠ n_inode n ∧
  h !! n_dentry n = None ∧ h !! n_inode n = None.

(** The inode has the attributes [s2fs_make_inode] gives it, and the operations. *)
Definition has_attrs (sb mode : Z) (iop : inode_operations) (fop : file_operations) (i : inode) : Prop :=
  i_sb i = sb ∧ i_mode i = mode ∧ i_uid i = 0 ∧ i_gid i = 0 ∧ i_blocks i = 0 ∧
  i_op i = iop ∧ i_fop i = fop.

Definition dir_mode : Z := Z.lor S_IFDIR 0x1ff.
Definition file_mode : Z := Z.lor S_IFREG 0x1a4.
Definition root_mode : Z := Z.lor S_IFDIR 0x1ed.

Definition is_dir (sb parent : Z) (nm : bytes) (n : node) : Prop :=
  n_parent n = parent ∧ name (n_name n) = nm ∧
  has_attrs sb dir_mode simple_dir_inode_operations simple_dir_operations (n_data n).
Definition is_file (sb dir : Z) (nm : bytes) (n : node) : Prop :=
  n_parent n = dir ∧ name (n_name n) = nm ∧
  has_attrs sb file_mode (i_op (blank sb)) s2fs_fops (n_data n).
Definition is_root (sb : Z) (n : node) : Prop :=
  n_parent n = n_dentry n ∧ n_name n = root_name ∧
  has_attrs sb root_mode simple_dir_inode_operations simple_dir_operations (n_data n).

(** *** Steps *)

Lemma set_vheap_id v : set_vheap (v_heap v) v = v.
Proof. by destruct v. Qed.

Lemma set_sb_run f v : set_sb f v = (Ret tt, Vfs (v_heap v) (f (v_sb v)) (v_inos v)).
Proof. reflexivity. Qed.

Lemma make_inode_run sb mode v :
  s2fs_make_inode sb mode v = (Ret 0, v) ∨
  ∃ p i v', s2fs_make_inode sb mode v = (Ret p, v') ∧ 0 < p ∧ v_heap v !! p = None ∧
    v_heap v' = <[p := OInode i]> (v_heap v) ∧ v_sb v' = v_sb v ∧
    has_attrs sb mode (i_op (blank sb)) (i_fop (blank sb)) i.
Proof.
  unfold s2fs_make_inode, call. destruct (new_inode_spec sb (v_heap v)) as [E|(p & Hp & Hf & E)].
  - left. unfold mbind, m_bind, get, check, put, mret, m_ret. rewrite E. simpl.
    by rewrite set_vheap_id.
  - right. exists p.
    set (i := Inode (get_next_ino (v_inos v)) sb mode 0 0 0
                (current_time p, current_time p, current_time p) (i_op (blank sb)) (i_fop (blank sb))).
    exists i, (Vfs (<[p := OInode i]> (v_heap v)) (v_sb v) (S (v_inos v))).
    split; [|by split_and!].
    unfold mbind, m_bind, get, check, put, mret, m_ret, set_inode, next_ino. rewrite E. simpl.
    rewrite (proj2 (Z.eqb_neq p 0)) by lia.
    munfold. simpl. rewrite lookup_insert_eq. simpl. unfold set_vheap. simpl.
    by rewrite insert_insert_eq.
Qed.

Lemma set_inode_run p f v i :
  v_heap v !! p = Some (OInode i) →
  set_inode p f v = (Ret tt, set_vheap (<[p := OInode (f i)]> (v_heap v)) v).
Proof. intros E. unfold set_inode. munfold. by rewrite E. Qed.

Lemma call__run live f v :
  live (v_heap v) = true → call_ live f v = (Ret tt, set_vheap (f (v_heap v)) v).
Proof. intros E. unfold call_, call. munfold. unfold check. rewrite E. done. Qed.

(** [d_alloc] of a child of a live dentry. *)
Lemma d_alloc_run parent q v :
  is_dentry (v_heap v) parent = true →
  call (λ h, is_dentry h parent) (d_alloc parent q) v = (Ret 0, v) ∨
  ∃ p, 0 < p ∧ v_heap v !! p = None ∧
    call (λ h, is_dentry h parent) (d_alloc parent q) v =
      (Ret p, set_vheap (<[p := ODentry (Dentry q parent 0)]> (v_heap v)) v).
Proof.
  intros Hl. unfold call. munfold. unfold check. rewrite Hl. simpl.
  destruct (d_alloc_spec parent q (v_heap v)) as [E|(p & Hp & Hf & E)]; rewrite E; munfold.
  - left. by rewrite set_vheap_id.
  - right. by exists p.
Qed.

(** Failure undoes what was done; success adds one node. *)
Definition creates (P : node → Prop) (v : vfs) (r : outcome Z * vfs) : Prop :=
  v_sb (snd r) = v_sb v ∧
  ((fst r = Ret 0 ∧ v_heap (snd r) = v_heap v) ∨
   ∃ n, fst r = Ret (n_dentry n) ∧ fresh_node n (v_heap v) ∧ P n ∧
     v_heap (snd r) = add_node n (v_heap v)).

Lemma insert_under (d i : Z) (x y z : object) h :
  d ≠ i → <[d := x]> (<[i := y]> (<[d := z]> h)) = <[d := x]> (<[i := y]> h).
Proof.
  intros Hne. apply map_eq. intros j. destruct (decide (j = d)) as [->|Hd].
  - by rewrite !lookup_insert_eq.
  - rewrite !(lookup_insert_ne _ d j) by done. destruct (decide (j = i)) as [->|Hi].
    + by rewrite !lookup_insert_eq.
    + by rewrite !(lookup_insert_ne _ i j), lookup_insert_ne by done.
Qed.

(** The end of the two functions: the inode's operations, then [d_add]. *)
Lemma d_add_run d i q parent f v i0 h :
  v_heap v = <[i := OInode i0]> (<[d := ODentry (Dentry q parent 0)]> h) → d ≠ i →
  (set_inode i f;; call_ (λ h, is_dentry h d && is_inode h i) (d_add d i);; mret d) v =
    (Ret d, set_vheap (add_node (Node d i q parent (f i0)) h) v).
Proof.
  intros Hv Hne. mby (apply set_inode_run; rewrite Hv; apply lookup_insert_eq).
  assert (<[i := OInode (f i0)]> (v_heap v) !! d = Some (ODentry (Dentry q parent 0))) as Hd.
  { rewrite Hv, insert_insert_eq, lookup_insert_ne by done. apply lookup_insert_eq. }
  minto.
  { apply call__run. unfold is_dentry, is_inode. simpl. by rewrite Hd, lookup_insert_eq. }
  cbv beta. unfold set_vheap at 1 2. simpl. rewrite (d_add_spec _ _ _ _ _ Hd).
  unfold mret, m_ret, add_node, set_vheap. simpl.
  by rewrite Hv, insert_insert_eq, insert_under by done.
Qed.

(** Both functions: [d_alloc], the inode, its operations, [d_add]. *)
Lemma create_run (P : node → Prop) sb parent q mode f v :
  is_dentry (v_heap v) parent = true →
  (∀ d i i0, has_attrs sb mode (i_op (blank sb)) (i_fop (blank sb)) i0 →
     P (Node d i q parent (f i0))) →
  creates P v ((dentry ← call (λ h, is_dentry h parent) (d_alloc parent q);
    if dentry =? 0 then mret 0
    else
      inode ← s2fs_make_inode sb mode;
      if inode =? 0 then call_ (λ h, is_dentry h dentry) (dput dentry);; mret 0
      else
        set_inode inode f;;
        call_ (λ h, is_dentry h dentry && is_inode h inode) (d_add dentry inode);;
        mret dentry) v).
Proof.
  intros Hl HP. destruct (d_alloc_run parent q v Hl) as [E|(d & Hd & Hf & E)]; mrun E.
  { split; [done|]. by left. }
  rewrite (proj2 (Z.eqb_neq d 0)) by lia.
  set (v1 := set_vheap _ v).
  assert (v_heap v1 !! d = Some (ODentry (Dentry q parent 0))) as Hd1 by apply lookup_insert_eq.
  destruct (make_inode_run sb mode v1) as [Ei|(i & i0 & v2 & Ei & Hi & Hfi & Hv2 & Hsb & Ha)]; mrun Ei.
  - assert (is_dentry (v_heap v1) d = true) as Hl1 by (unfold is_dentry; by rewrite Hd1).
    rewrite Z.eqb_refl. mrun (call__run (λ h, is_dentry h d) (dput d) v1 Hl1).
    split; [done|]. left. split; [done|]. cbn [snd mret m_ret v_heap set_vheap].
    rewrite (dput_spec _ _ _ _ Hd1). by apply delete_insert_id.
  - rewrite (proj2 (Z.eqb_neq i 0)) by lia.
    assert (d ≠ i) as Hne by (intros ->; congruence).
    rewrite (d_add_run d i q parent f v2 i0 (v_heap v)) by done.
    split; [done|]. right. exists (Node d i q parent (f i0)).
    split; [done|]. split; [|split; [by apply HP|done]].
    split_and!; simpl; try done. unfold v1 in Hfi. simpl in Hfi.
    by rewrite lookup_insert_ne in Hfi.
Qed.

Lemma create_dir_run sb parent nm v :
  is_dentry (v_heap v) parent = true →
  creates (is_dir sb parent nm) v (s2fs_create_dir sb parent nm v).
Proof.
  intros Hl. apply create_run; [done|]. intros d i i0 (? & ? & ? & ? & ? & ? & ?).
  by split_and!.
Qed.

Lemma create_file_run sb dir nm v :
  is_dentry (v_heap v) dir = true →
  creates (is_file sb dir nm) v (s2fs_create_file sb dir nm v).
Proof.
  intros Hl. apply create_run; [done|]. intros d i i0 (? & ? & ? & ? & ? & ? & ?).
  by split_and!.
Qed.

(** *** A mount *)

(** What is in the tree: the root alone, the root and [foo], or all three. *)
Definition populated (sb : Z) (root : node) (h h' : heap) : Prop :=
  let h1 := add_node root h in
  is_root sb root ∧ fresh_node root h ∧
  (h' = h1 ∨ ∃ foo, is_dir sb (n_dentry root) (str "foo") foo ∧ fresh_node foo h1 ∧
    let h2 := add_node foo h1 in
    (h' = h2 ∨ ∃ bar, is_file sb (n_dentry foo) (str "bar") bar ∧ fresh_node bar h2 ∧
      h' = add_node bar h2)).

Definition mounted (sb : Z) (h : heap) (v' : vfs) : Prop :=
  s_magic (v_sb v') = S2FS_MAGIC ∧ s_op (v_sb v') = s2fs_s_ops ∧
  ∃ root, s_root (v_sb v') = n_dentry root ∧ populated sb root h (v_heap v').

Lemma add_node_dentry n h : is_dentry (add_node n h) (n_dentry n) = true.
Proof. unfold is_dentry, add_node. by rewrite lookup_insert_eq. Qed.

(** The tree under the root. *)
Lemma populate_run sb root h v :
  is_root sb root → fresh_node root h → v_heap v = add_node root h →
  ∃ v', (subdirectory ← s2fs_create_dir sb (n_dentry root) (str "foo");
     (if negb (subdirectory =? 0) then
        s2fs_create_file sb subdirectory (str "bar");; mret tt
      else mret tt);;
     mret 0) v = (Ret 0, v') ∧ v_sb v' = v_sb v ∧ populated sb root h (v_heap v').
Proof.
  intros HR Hf Hv. unfold populated. cbv zeta. rewrite <- Hv.
  destruct (create_dir_run sb (n_dentry root) (str "foo") v) as [Hsb Hcase].
  { rewrite Hv. apply add_node_dentry. }
  destruct (s2fs_create_dir sb (n_dentry root) (str "foo") v) as [o v1] eqn:E. simpl in *.
  destruct Hcase as [[-> Hh]|(foo & -> & Hff & HP & Hh)].
  { exists v1. mrun E. split; [done|]. split; [done|]. split; [done|]. split; [done|]. by left. }
  destruct (create_file_run sb (n_dentry foo) (str "bar") v1) as [Hsb1 Hcase1].
  { rewrite Hh. apply add_node_dentry. }
  destruct (s2fs_create_file sb (n_dentry foo) (str "bar") v1) as [o1 v2] eqn:E1. simpl in *.
  assert (n_dentry foo ≠ 0) as H0 by (destruct Hff; lia).
  exists v2. split; [|split; [by rewrite Hsb1|split; [done|split; [done|]]]].
  - mrun E. rewrite (proj2 (Z.eqb_neq _ _) H0). simpl. rewrite bind_assoc.
    destruct Hcase1 as [[-> _]|(bar & -> & _)]; by mrun E1.
  - right. exists foo. split; [done|]. split; [done|].
    destruct Hcase1 as [[_ Hh1]|(bar & _ & Hfb & HPb & Hh1)].
    + left. by rewrite Hh1.
    + right. exists bar. rewrite <- Hh. by split_and!.
Qed.

(** [d_make_root] of a live inode. *)
Lemma d_make_root_run i i0 h v :
  v_heap v = <[i := OInode i0]> h → h !! i = None →
  call (λ h, is_inode h i) (d_make_root i) v = (Ret 0, set_vheap h v) ∨
  ∃ d, 0 < d ∧ d ≠ i ∧ h !! d = None ∧
    call (λ h, is_inode h i) (d_make_root i) v =
      (Ret d, set_vheap (add_node (Node d i root_name d i0) h) v).
Proof.
  intros Hv Hf. unfold call. munfold. unfold check.
  assert (v_heap v !! i = Some (OInode i0)) as Hi by (rewrite Hv; apply lookup_insert_eq).
  assert (is_inode (v_heap v) i = true) as -> by (unfold is_inode; by rewrite Hi).
  destruct (d_make_root_spec i (v_heap v)) as [E|(d & Hd & Hfd & E)]; rewrite E; munfold.
  - left. rewrite (iput_spec _ _ _ Hi), Hv. by rewrite delete_insert_id.
  - right. exists d. assert (d ≠ i) by (intros ->; congruence). split_and!; try done.
    + rewrite Hv, lookup_insert_ne in Hfd by done. done.
    + unfold add_node. simpl. by rewrite Hv.
Qed.

Definition mount_outcome (sb : Z) (h : heap) (r : outcome Z * vfs) : Prop :=
  (fst r = Ret (- ENOMEM) ∧ v_heap (snd r) = h) ∨
  (fst r = Stop UseAfterFree ∧ v_heap (snd r) = h) ∨
  (fst r = Ret 0 ∧ mounted sb h (snd r)).

Lemma fill_super_run sb data silent v :
  mount_outcome sb (v_heap v) (s2fs_fill_super sb data silent v).
Proof.
  unfold mount_outcome. destruct (s2fs_fill_super sb data silent v) as [o v'] eqn:E. revert E.
  unfold s2fs_fill_super. mrun (set_sb_run (λ s, SuperBlock S2FS_MAGIC (s_op s) (s_root s)) v).
  mrun (set_sb_run (λ s, SuperBlock (s_magic s) s2fs_s_ops (s_root s))
    (Vfs (v_heap v) (SuperBlock S2FS_MAGIC (s_op (v_sb v)) (s_root (v_sb v))) (v_inos v))). simpl.
  set (v1 := Vfs (v_heap v) _ (v_inos v)).
  destruct (make_inode_run sb (Z.lor S_IFDIR 0x1ed) v1)
    as [Ei|(i & i0 & v2 & Ei & Hi & Hfi & Hv2 & Hsb & Ha)]; mrun Ei.
  { intros [= <- <-]. by left. }
  rewrite (proj2 (Z.eqb_neq i 0)) by lia. unfold mounted.
  rewrite (bind_Ret _ _ _ _ _ (set_inode_run i _ v2 i0 ltac:(rewrite Hv2; apply lookup_insert_eq))).
  set (i1 := Inode (i_ino i0) _ _ _ _ _ _ _ _). rewrite Hv2, insert_insert_eq.
  set (v3 := set_vheap (<[i := OInode i1]> (v_heap v1)) v2).
  destruct (d_make_root_run i i1 (v_heap v1) v3 eq_refl Hfi) as [Ed|(d & Hd & Hne & Hfd & Ed)]; mrun Ed.
  - simpl. unfold call_, call. munfold. unfold check, is_inode. simpl. simpl in Hfi. rewrite Hfi.
    intros [= <- <-]. right. by left.
  - rewrite (proj2 (Z.eqb_neq d 0)) by lia. rewrite (bind_Ret _ _ _ _ _ (set_sb_run _ _)).
    set (root := Node d i root_name d i1) in *.
    destruct (populate_run sb root (v_heap v) (Vfs (add_node root (v_heap v))
      (SuperBlock (s_magic (v_sb v2)) (s_op (v_sb v2)) d) (v_inos v2))) as (v4 & E & Hsb4 & HP).
    + destruct Ha as (? & ? & ? & ? & ? & ? & ?). by split_and!.
    + by split_and!.
    + done.
    + intros E'. change d with (n_dentry root) in E'.
      pose proof (eq_trans (eq_sym E') E) as [= -> ->].
      right. right. split; [done|]. rewrite Hsb4. simpl. rewrite Hsb. split_and!; [done|done|].
      exists root. by split.
Qed.


(** *** Well-formed heaps *)

Definition S_ISDIR (mode : Z) : bool := Z.land mode 0xf000 =? S_IFDIR.

(** Directories have the operations of directories, files those of the module. *)
Definition typed (i : inode) : Prop :=
  if S_ISDIR (i_mode i) then i_op i = simple_dir_inode_operations ∧ i_fop i = simple_dir_operations
  else i_fop i = s2fs_fops.

Definition dir_at h (p : Z) : Prop :=
  ∃ q pp i nd, h !! p = Some (ODentry (Dentry q pp i)) ∧ h !! i = Some (OInode nd) ∧
    S_ISDIR (i_mode nd) = true.

(** Every dentry has an inode of its type, and a directory for its parent. *)
Definition heap_wf h : Prop := ∀ d q p i,
  h !! d = Some (ODentry (Dentry q p i)) →
  dir_at h p ∧ ∃ nd, h !! i = Some (OInode nd) ∧ typed nd.

Lemma add_node_sub n h : fresh_node n h → h ⊆ add_node n h.
Proof.
  intros (_ & _ & Hne & Hd & Hi). unfold add_node.
  transitivity (<[n_inode n := OInode (n_data n)]> h); [by apply insert_subseteq|].
  apply insert_subseteq. by rewrite lookup_insert_ne.
Qed.

Lemma dir_at_sub h h' p : h ⊆ h' → dir_at h p → dir_at h' p.
Proof.
  intros Hs (q & pp & i & nd & E1 & E2 & Hdir). exists q, pp, i, nd.
  split_and!; [by eapply lookup_weaken..|done].
Qed.

Lemma add_node_dir n h :
  fresh_node n h → S_ISDIR (i_mode (n_data n)) = true → dir_at (add_node n h) (n_dentry n).
Proof.
  intros (_ & _ & Hne & _ & _) Hdir. unfold dir_at, add_node. do 4 eexists.
  split; [apply lookup_insert_eq|]. split; [|exact Hdir].
  rewrite lookup_insert_ne by done. apply lookup_insert_eq.
Qed.

Lemma add_node_wf n h :
  heap_wf h → fresh_node n h → typed (n_data n) →
  dir_at (add_node n h) (n_parent n) → heap_wf (add_node n h).
Proof.
  intros Hwf Hf Ht Hp d q p i E. pose proof (add_node_sub n h Hf) as Hs.
  destruct Hf as (_ & _ & Hne & Hd & Hi). unfold add_node in E.
  destruct (decide (d = n_dentry n)) as [->|H1].
  { rewrite lookup_insert_eq in E. injection E as <- <- <-. split; [done|].
    exists (n_data n). split; [|done]. unfold add_node. rewrite lookup_insert_ne by done.
    apply lookup_insert_eq. }
  rewrite lookup_insert_ne in E by done.
  destruct (decide (d = n_inode n)) as [->|H2]; [by rewrite lookup_insert_eq in E|].
  rewrite lookup_insert_ne in E by done. destruct (Hwf d q p i E) as (Hdir & nd & En & Hnd).
  split; [by eapply dir_at_sub|]. exists nd. split; [by eapply lookup_weaken|done].
Qed.

Lemma is_dir_node sb parent nm n h :
  is_dir sb parent nm n → fresh_node n h → heap_wf h → dir_at h parent →
  heap_wf (add_node n h) ∧ dir_at (add_node n h) (n_dentry n).
Proof.
  intros (Hp & _ & _ & Hm & _ & _ & _ & Hio & Hfo) Hf Hwf Hdir.
  assert (S_ISDIR (i_mode (n_data n)) = true) as Hd by by rewrite Hm.
  split; [|by apply add_node_dir]. apply add_node_wf; [done|done| |].
  - unfold typed. by rewrite Hd.
  - rewrite Hp. eapply dir_at_sub, Hdir. by apply add_node_sub.
Qed.

Lemma is_file_node sb dir nm n h :
  is_file sb dir nm n → fresh_node n h → heap_wf h → dir_at h dir → heap_wf (add_node n h).
Proof.
  intros (Hp & _ & _ & Hm & _ & _ & _ & _ & Hfo) Hf Hwf Hdir.
  apply add_node_wf; [done|done| |].
  - unfold typed. by rewrite Hm.
  - rewrite Hp. eapply dir_at_sub, Hdir. by apply add_node_sub.
Qed.

Lemma is_root_node sb n h :
  is_root sb n → fresh_node n h → heap_wf h →
  heap_wf (add_node n h) ∧ dir_at (add_node n h) (n_dentry n).
Proof.
  intros (Hp & _ & _ & Hm & _ & _ & _ & Hio & Hfo) Hf Hwf.
  assert (S_ISDIR (i_mode (n_data n)) = true) as Hd by by rewrite Hm.
  pose proof (add_node_dir n h Hf Hd). split; [|done].
  apply add_node_wf; [done|done| |by rewrite Hp].
  unfold typed. by rewrite Hd.
Qed.

Lemma populated_wf sb root h h' :
  populated sb root h h' → heap_wf h → heap_wf h' ∧ h ⊆ h'.
Proof.
  intros (HR & Hf & Hcase) Hwf. destruct (is_root_node sb root h HR Hf Hwf) as [Hwf1 Hd1].
  pose proof (add_node_sub root h Hf) as Hs1.
  destruct Hcase as [->|(foo & HD & Hff & Hcase)]; [done|].
  destruct (is_dir_node _ _ _ foo _ HD Hff Hwf1 Hd1) as [Hwf2 Hd2].
  pose proof (add_node_sub foo _ Hff) as Hs2.
  destruct Hcase as [->|(bar & HB & Hfb & ->)]; [split; [done|by etransitivity]|].
  split; [by eapply is_file_node|].
  etransitivity; [exact Hs1|]. etransitivity; [exact Hs2|]. by apply add_node_sub.
Qed.

(** The operations that change the tree. *)
Inductive vfs_op : Type :=
  | CreateDir (sb parent : Z) (nm : bytes)
  | CreateFile (sb dir : Z) (nm : bytes)
  | FillSuper (sb data silent : Z).

Definition run_op (op : vfs_op) : M vfs Z :=
  match op with
  | CreateDir sb parent nm => s2fs_create_dir sb parent nm
  | CreateFile sb dir nm => s2fs_create_file sb dir nm
  | FillSuper sb data silent => s2fs_fill_super sb data silent
  end.

Definition op_ok h (op : vfs_op) : Prop :=
  match op with
  | CreateDir _ p _ | CreateFile _ p _ => dir_at h p
  | FillSuper _ _ _ => True
  end.

Lemma dir_at_dentry h p : dir_at h p → is_dentry h p = true.
Proof. intros (q & pp & i & nd & E & _). unfold is_dentry. by rewrite E. Qed.

(** C13: every operation of the module keeps the heap well formed (each dentry
    has an inode whose operations are those of its mode, and a directory as
    its parent) and leaves the objects that were there alone; a directory it
    returns can be the parent of the next operation; the two that create an
    entry in a directory never stop. *)
Theorem vfs_well_formed op v :
  heap_wf (v_heap v) → op_ok (v_heap v) op →
  let '(o, v') := run_op op v in
  heap_wf (v_heap v') ∧ v_heap v ⊆ v_heap v' ∧
  match op with
  | CreateDir _ _ _ => ∃ d, o = Ret d ∧ (d ≠ 0 → dir_at (v_heap v') d)
  | CreateFile _ _ _ => ∃ d, o = Ret d
  | FillSuper _ _ _ => o = Ret 0 ∨ o = Ret (- ENOMEM) ∨ o = Stop UseAfterFree
  end.
Proof.
  intros Hwf Hok. destruct (run_op op v) as [o v'] eqn:E.
  destruct op as [sb p nm|sb p nm|sb data silent]; simpl in E, Hok.
  - destruct (create_dir_run sb p nm v (dir_at_dentry _ _ Hok)) as [_ Hcase]. rewrite E in Hcase.
    simpl in Hcase. destruct Hcase as [[-> ->]|(n & -> & Hf & HP & ->)].
    { split_and!; [done|done|]. exists 0. by split. }
    destruct (is_dir_node _ _ _ n _ HP Hf Hwf Hok). split_and!; [done|by apply add_node_sub|].
    by exists (n_dentry n).
  - destruct (create_file_run sb p nm v (dir_at_dentry _ _ Hok)) as [_ Hcase]. rewrite E in Hcase.
    simpl in Hcase. destruct Hcase as [[-> ->]|(n & -> & Hf & HP & ->)]; [by eauto|].
    split_and!; [by eapply is_file_node|by apply add_node_sub|by exists (n_dentry n)].
  - pose proof (fill_super_run sb data silent v) as Hcase. rewrite E in Hcase.
    unfold mount_outcome in Hcase. simpl in Hcase.
    destruct Hcase as [[-> ->]|[[-> ->]|[-> (_ & _ & root & _ & HP)]]]; [by eauto..|].
    destruct (populated_wf _ _ _ _ HP Hwf). by eauto.
Qed.
End tree.

(** ** A VFS

    Addresses are given out in order, up to [limit]. *)
Section model.
Context (limit : Z).

Definition vfs_alloc (x : Z → object) (h : heap) : Z * heap :=
  let p := top_addr h in if p <=? limit then (p, <[p := x p]> h) else (0, h).

Lemma vfs_alloc_spec x h :
  vfs_alloc x h = (0, h) ∨ ∃ p, 0 < p ∧ h !! p = None ∧ vfs_alloc x h = (p, <[p := x p]> h).
Proof.
  unfold vfs_alloc. destruct (top_addr h <=? limit); [right|by left].
  exists (top_addr h). split; [exact (proj1 (top_addr_spec h))|].
  split; [apply top_addr_fresh|done].
Qed.

Definition blank_inode (sb : Z) : inode :=
  Inode 0 sb 0 0 0 0 (0, 0, 0) empty_iops no_open_fops.

Definition set_d_inode (p i : Z) (h : heap) : heap :=
  match h !! p with
  | Some (ODentry d) => <[p := ODentry (Dentry (d_name d) (d_parent d) i)]> h
  | _ => h
  end.

Definition make_root (i : Z) (h : heap) : Z * heap :=
  let '(p, h') := vfs_alloc (λ p, ODentry (Dentry (Qstr (str "/") 1 0) p i)) h in
  if p =? 0 then (0, delete i h) else (p, h').

#[local] Program Definition model_vfs : VfsApi := {|
  new_inode sb := vfs_alloc (λ _, OInode (blank_inode sb));
  iput p (h : heap) := delete p h;
  d_alloc parent q := vfs_alloc (λ _, ODentry (Dentry q parent 0));
  d_add := set_d_inode;
  dput p (h : heap) := delete p h;
  d_make_root := make_root;
  get_next_ino n := Z.of_nat n + 1;
  current_time _ := 0;
  full_name_hash _ _ n := n;
  blank := blank_inode;
  root_name := Qstr (str "/") 1 0;
|}.
Next Obligation. intros. apply vfs_alloc_spec. Qed.
Next Obligation. done. Qed.
Next Obligation. intros. apply (vfs_alloc_spec (λ _, _)). Qed.
Next Obligation. intros p i q parent h E. unfold set_d_inode. by rewrite E. Qed.
Next Obligation. done. Qed.
Next Obligation.
  intros i h. unfold make_root. set (x p := ODentry (Dentry (Qstr (str "/") 1 0) p i)).
  destruct (vfs_alloc_spec x h) as [E|(p & Hp & Hf & E)]; fold x; rewrite E; [by left|].
  rewrite (proj2 (Z.eqb_neq p 0)) by lia. right. by exists p.
Qed.
End model.

Definition start_vfs : vfs := Vfs ∅ (SuperBlock 0 no_s_ops 0) 0.


Lemma vfs_well_formed_witness :
  let '(o, v') := run_op (H := model_vfs 6) (FillSuper 1 0 0) start_vfs in
  heap_wf (v_heap v') ∧ ∅ ⊆ v_heap v' ∧
  (o = Ret 0 ∨ o = Ret (- ENOMEM) ∨ o = Stop UseAfterFree).
Proof.
  apply (vfs_well_formed (H := model_vfs 6) (FillSuper 1 0 0) start_vfs); [|exact I].
  intros d q p i E. change (v_heap start_vfs) with (∅ : heap) in E. by rewrite lookup_empty in E.
Defined.
